(* ===== verification/_CoqProject ===== *)
-Q . S2P
Prelude.v
Absl.v
Buffer.v
Resp2.v
ShineFrame.v
Address.v
Request.v
Channel.v
Socket.v
Session.v
FlowControl.v
Link.v
LinkReader.v
Multiplex.v
Stall.v
Standoff.v
Config.v
Geo.v
Router.v
Socks5.v
HttpConnect.v
Pipe.v
Tunnel.v
Teardown.v
Backpressure.v
Datagram.v
ShinePool.v
Packets.v
Association.v
Logging.v
Metrics.v
Inbounds.v
Outbounds.v
EndToEnd.v
LinkRun.v
Workers.v
Startup.v
Service.v
Shutdown.v
UnitTests.v
