(* ===== verification/Prelude.v ===== *)
(** * Shine proxy: a verification development

    Shine is a multi-protocol proxy.  A client of an inbound (SOCKS5, HTTP
    CONNECT, or the multiplexed shine protocol) asks for a target; the router
    picks an outbound by the target's name or address; bytes are then copied in
    both directions, possibly inside a session of a shine link, where many
    sessions share one TCP connection with credit based flow control.

    ** Parts, files and the code they model

    All source paths are relative to src/src/.

    - [Prelude]: bytes, machine integers ([u8] .. [u64], [i64], written out as
      wrap-around on Z), slices of byte lists, [absl::Status] and the result
      type [res]: [Ok], [Err] of a status, or [UB], which stands for undefined
      behaviour of the source (a read outside a buffer, an over-wide shift, a
      null pointer).  Generic lemmas and the hint database [shine].
    - [Absl]: interface of the Abseil string routines, its laws, a reference
      implementation.
    - [Request]: transport/session_request.hpp, what an inbound hands to the
      router and the router to an outbound.
    - [Channel]: interface of Boost.Asio channels ([ChannelOps], [ChannelSpec])
      and a FIFO implementation.
    - [Socket]: a TCP socket whose stream may be split anywhere, the monad [Io]
      of conversations over a socket (readExact and writeAll of
      inbound/socks5_inbound.cpp, reads until a delimiter), and a predicate for
      conversations that cannot reach undefined behaviour.
    - [Buffer]: core/buffer.hpp, [ReadBuffer] and [BufferSlab].
    - [Resp2]: proto/resp2_parser.cpp and proto/resp2_writer.cpp.
    - [ShineFrame]: proto/shine_frame.cpp, the frame codec.
    - [Address]: transport/address.cpp, text and binary addresses.
    - [Session]: transport/session.cpp, one logical stream or datagram flow.
    - [FlowControl]: two sessions and the two wires between them.
    - [Link]: transport/link.cpp, the table of sessions, dispatch, handshakes,
      reader, writer, heartbeat and the ways to close.
    - [LinkReader]: the reader, writer and handshakes of two links over a byte
      stream that may be split anywhere.
    - [Multiplex]: one link whose reader may be suspended in the [onData] of a
      session, with its other sessions and its heartbeat; [Stall]: the same link
      with the senders its full write channel suspends; [Standoff]: two such
      links, each reading what the other one writes.
    - [Config]: config/schema.hpp and config/yaml_loader.cpp.
    - [Geo]: route/geo_matcher.cpp.
    - [Router]: route/router.cpp and [dispatch] of main.cpp.
    - [Socks5]: inbound/socks5_inbound.cpp and outbound/socks5_outbound.cpp: the
      conversations of both ends and the datagrams of a UDP association.
    - [HttpConnect]: inbound/http_connect_inbound.cpp and
      outbound/http_connect_outbound.cpp.
    - [Pipe]: transport/pipe.cpp over the class [SessionStream]
      (session_stream.hpp), with transport/tcp_stream.cpp and the sessions of
      [Session] as its instances.
    - [Tunnel], [Teardown], [Backpressure]: a proxied connection end to end: two
      relays, the two sessions they share and the frames between them; its end
      when a link fails; the memory it takes.
    - [Datagram]: the two datagram loops of outbound/shine_outbound.cpp over the
      class [DatagramStream], and outbound/direct_outbound.cpp's UDP socket with
      its cache of resolved names.
    - [ShinePool]: the link pool of outbound/shine_outbound.cpp and the accept
      loop of inbound/shine_inbound.cpp, over the links of [Link].
    - [Packets]: a UDP association end to end: the relays of both processes, the
      two sessions and the datagram frames between them.
    - [Logging]: core/logging.cpp; [Metrics]: metrics/registry.cpp and
      metrics/exporter.cpp.
    - [Inbounds]: inbound/factory.cpp and [start] of the three inbounds.
    - [Outbounds]: outbound/factory.cpp and [handle] of the five outbounds.
    - [EndToEnd]: a SOCKS5 request from the near client to the far target.
    - [LinkRun]: handshake and reader as one run of a link; two links from their
      first byte to the data of a session; and the reader among the other
      coroutines of its link ([Running]), where it may be suspended.
    - [Workers]: core/scheduler.cpp, the worker threads.
    - [Startup]: main.cpp from the command line to the running proxy, and
      [dispatch] up to the outbound.
    - [Association]: [Socks5UdpStream] as an [IDatagramStream] with its control
      connection, relayed to any outbound.
    - [Service]: the accept loops of the SOCKS5 and HTTP CONNECT inbounds, and
      [dispatch] of main.cpp as concurrent coroutines with its metrics.
    - [Shutdown]: core/signal.cpp and the end of main.cpp, over the inbounds and
      outbounds of the files before and the scheduler of [Workers].
    - [UnitTests]: the tests of tests/ as evaluated examples of the model.

    A request travels through them in this order: an inbound ([Socks5],
    [HttpConnect], [ShinePool.on_new_session]) makes a [Request] and a stream;
    [Startup.dispatch_to] asks [Router.pick] for the outbound; [Outbounds.handle]
    connects ([Socks5.socks5_connect], [HttpConnect.http_connect],
    [ShinePool.task_step]); [Pipe] or [Datagram] relays.

    ** How state and operations correspond

    A class is a [Record] with the fields of the source; a method is a function
    on it that returns the new record.  [ReadBuffer::consume] is
    [Buffer.consume], [Session::read] is [Session.read], and so on: names are
    those of the source.  Coroutines that suspend return [Pending] and are
    called again with the same arguments when they resume; their interleavings
    are the step relations [session_step], [flow_step], [link_step] (of which
    [own_step] is what a link does without its reader), [mux_step],
    [stall_step], [pair_step], [running_step], [bidi_step], [tunnel_step],
    [relay_step], [packets_step], [pool_step], [inbound_step],
    [accept_step], [dispatch_step] (labelled with what happened, so that a run
    has a history to count in) and [process_step].  A [read] or
    [receiveFrom] that resumes looks at the state of its session again, where a
    Boost channel hands the message to the waiting receiver at once; such a
    hand-over is the schedule in which the receiver resumes before the next
    frame, so the models have every schedule of the code and some more, and what
    holds of all of them holds of the code.  Theorems that say data is lost
    assume that the receiver is not waiting.  A relay is
    parametrised by its two streams; an event of a stream is anything another
    part of the program or the network may do to it.
    A read or a write of a socket may stay suspended for ever: [Tcp.read] returns
    nothing once the bytes of a peer that stays connected are used up
    ([PeerStays]), [Tcp.write_move] nothing when the peer has stopped reading
    ([Blocks]); theorems that need a peer to end say so ([lively], [clean]).
    The reader of a link is suspended in two places: in sending a PONG or an
    ACK while the write queue holds more than its 1024 frames, and in the [onData]
    of a session whose inbox is full.  [reader_iter] performs one turn;
    [dispatch_suspended] says that the turn has suspended it.  A run of the reader
    alone ([readerLoop], [run_link]) stops there with the link open; [Running] and
    [Stall] resume it when the writer has made room, the session has been read or
    the link has failed.
    Sessions are shared objects, so a link keeps them in a heap and its table
    maps ids to indices.  Atomic counters are plain fields: each step is one
    stretch of code between two suspensions, which the strand of the link
    serialises.

    ** What the theorems show

    - Wire format ([Resp2], [ShineFrame], [Address]): the offset-based parser
      computes exactly a reference grammar and never leaves the buffer; frames
      and addresses round trip; decoding hostile input is safe.
    - Streams ([Buffer], [Session], [FlowControl], [LinkReader]): the buffer is
      a byte queue; sessions deliver the bytes of the link in order; credit is
      conserved and, under a stated condition on the windows, live; frames sent
      on one link are dispatched by the other, once and in order.
    - Control ([Link], [LinkReader]): the session table invariant, isolation of
      sessions, authentication of servers, detection of dead peers, release of
      sessions when a link fails; from start to end ([LinkRun]): no peer without
      the password opens a session, no input of a peer leaves a link in undefined
      behaviour, and the reader goes round a bounded number of times and then has
      closed the link, unless it is suspended for one of the two reasons above.
    - Routing ([Config], [Geo], [Router]): what a configuration that loads
      satisfies, exactness of the matchers, first-match routing that always
      ends at a configured outbound.
    - Proxy protocols ([Socks5], [HttpConnect]): exactly which client bytes lead
      to which request and replies; the two ends of each protocol complete with
      each other; UDP associations hear one client only ([Association]: under
      every interleaving, whatever they are relayed to) and end with their
      control connection.
    - Relays ([Pipe], [Datagram]): lossless and in order under every
      interleaving, for any two streams that satisfy the interface's laws; a
      relay between two sockets takes a bounded number of steps and rests only
      when a half is over or waits for its sockets; a datagram relay tears itself down;
      the destination of a datagram is an answer of the resolver for its name.
    - Composition ([Multiplex], [Stall], [Standoff], [Tunnel], [Teardown], [Backpressure],
      [Packets], [EndToEnd], [LinkRun]): two links that know the password complete
      the handshake and what one sends on a session the other one reads;
      through relay, session, link and relay each user is sent a
      prefix of what the other one sent, with every missing byte accounted for;
      the step of the tunnel is what [dispatchFrame] does on a whole link; when a
      link fails the relays at both ends come to rest, returned and with the socket
      closed unless their own user neither ends nor fails; what a tunnel holds
      is bounded by the window, what a link holds per session by its inbox, what it has still to
      write by the senders it suspends; two links that stall each other stay so
      until the heartbeat of the server ends them; datagrams may be dropped on the way but
      are never altered, reordered or duplicated, and none is lost while links and
      sessions are up and the queues have room; a request reaches the
      endpoint its address resolves to.
    - The whole ([ShinePool], [Startup], [Service], [Shutdown]): the pool is bounded and dealt in turn,
      accepted links are tracked, [main] runs the configuration, exits with its
      code, or crashes for one of three stated reasons, on a running proxy every request reaches a configured outbound
      and is counted exactly, and the process exits with all of it stopped.
    - Where the code does less than it means to, a theorem states what it does:
      [peer_close_hides_inbox], [reset_leaves_writer_spinning],
      [small_window_stalls], [duplicate_new_unreachable],
      [closeNow_strands_sessions], [cidr_prefix_wraps],
      [ensure_writable_can_fall_short], [toBinary_truncates_domain],
      [uppercase_code_never_matches], [init_window_truncated],
      [socks5_noauth_greeting_stalls], [socks5_long_name_misread],
      [udp_reply_misencoded], [http_early_data_lost], [relay_waits_for_both],
      [direct_cache_ignores_port], [pool_grows_only_when_empty],
      [stop_misses_dialing], [inbound_stop_misses_accepted],
      [handle_null_stream], [accept_error_is_final], [exit_does_not_wait],
      [close_truncates], [unread_session_fails_link], [stalled_peer_undetected],
      [unused_families_stay], [compile_ub], [silent_client_outlives_link],
      [negative_io_threads_crash].

    ** Fuel and bounds

    Loops that are not structural take fuel, and the theorems say how much is
    enough: the CRLF search and the suffix loop of the geo-site matcher use the
    length of their input and never run out; [readerLoop] needs two iterations
    per byte of input and one more; a handshake one iteration per byte; [write_loop] one per
    byte and pending wake-up; a relay between two sockets takes at most
    eight steps per byte and seven more; the relays at both ends of a failed link
    eight per byte they can still read and a constant for their buffers
    ([link_failure_ends_relays]); [Socks5.drain] one iteration per
    datagram and two more.  Streams are assumed shorter than [2 ^ 56] bytes
    so that buffer growth stays within 64 bits.

    ** Not modelled

    Thread scheduling inside a suspension-free stretch, sockets (a byte stream
    with arbitrary splits and completions), timers (explicit events), the log
    lines, the HTTP server of the metrics exporter, the io_context itself, and
    what an exception thrown by a handler interrupts (only that its worker
    returns).  The caller of a session (a relay, a datagram loop) is suspended by
    a full write channel in [Stall], [Standoff] and [Running] only: [Tunnel],
    [Packets] and [Datagram] have the turns in which its send completes,
    [ds_send] of a session included, so what they bound is the number of
    those turns.  A frame the writer has taken from the channel counts as written
    even while [async_write] still holds it, and the handler an ACK announces is
    started in the step that enqueues the ACK.  The heartbeat theorem of [Link]
    speaks of ticks that happen.  Numbers in the configuration go through
    [scaled_to_int], which is undefined outside the 64-bit range as the cast in
    the source is; a subscript of a YAML node that is neither a map nor null
    throws.  Name resolution and the outcome of
    connecting, binding and listening are arguments.  Code outside the
    repository (Abseil, Boost.Asio, yaml-cpp, protobuf, prometheus-cpp,
    [std::regex], Base64) is behind type classes with documented laws where a
    theorem needs them.

    ** Plan

    Every component of src/src is modelled.  Left: a tunnel to a target that
    answers only what it has read (the sockets of [Tunnel] hold what they will
    send from the start).
*)
From stdpp Require Export prelude gmap strings list.
From Stdlib Require Export ZArith Lia.
From Stdlib Require Import Strings.Byte.

#[global] Open Scope Z_scope.

(** ** Bytes

    [u8] and [char] values are [Byte.byte]; [b2z] is the value of an unsigned
    byte and [z2b] the narrowing conversion [static_cast<u8>]. *)

Abbreviation byte := Byte.byte.
Abbreviation bytes := (list Byte.byte).

Definition b2z (b : byte) : Z := Z.of_N (Byte.to_N b).
Definition z2b (z : Z) : byte := default x00 (Byte.of_N (Z.to_N (z mod 256))).

#[export] Instance byte_eq_decision : EqDecision byte := Byte.byte_eq_dec.

Lemma b2z_range b : 0 <= b2z b < 256.
Proof. unfold b2z. pose proof (Byte.to_N_bounded b). lia. Qed.

Lemma z2b_b2z b : z2b (b2z b) = b.
Proof.
  unfold z2b. rewrite Z.mod_small by apply b2z_range.
  unfold b2z. rewrite N2Z.id, Byte.of_to_N. done.
Qed.

Lemma b2z_z2b z : b2z (z2b z) = z mod 256.
Proof.
  unfold z2b. pose proof (Z.mod_pos_bound z 256 ltac:(lia)).
  destruct (Byte.of_N (Z.to_N (z mod 256))) as [b|] eqn:E; simpl.
  - apply Byte.to_of_N in E. unfold b2z. rewrite E. lia.
  - apply Byte.of_N_None_iff in E. lia.
Qed.

Lemma b2z_z2b_small z : 0 <= z < 256 -> b2z (z2b z) = z.
Proof. intros. rewrite b2z_z2b. by apply Z.mod_small. Qed.

#[export] Instance b2z_inj : Inj (=) (=) b2z.
Proof. intros a b E. by rewrite <- (z2b_b2z a), E, z2b_b2z. Qed.

#[export] Program Instance byte_countable : Countable byte :=
  inj_countable Byte.to_N Byte.of_N _.
Next Obligation. intros b. apply Byte.of_to_N. Qed.

(** A C string literal as the bytes of a [std::string]. *)
Definition lit (s : string) : bytes := String.list_byte_of_string s.

(** ** Machine integers *)

Definition u8 (z : Z) : Z := z mod 2 ^ 8.
Definition u16 (z : Z) : Z := z mod 2 ^ 16.
Definition u32 (z : Z) : Z := z mod 2 ^ 32.
Definition u64 (z : Z) : Z := z mod 2 ^ 64.

(** [static_cast] to a two's-complement signed type of width [w]. *)
Definition signed (w : Z) (z : Z) : Z := (z + 2 ^ (w - 1)) mod 2 ^ w - 2 ^ (w - 1).
Definition i32 (z : Z) : Z := signed 32 z.
Definition i64 (z : Z) : Z := signed 64 z.

Definition INT64_MIN : Z := - 2 ^ 63.
Definition INT64_MAX : Z := 2 ^ 63 - 1.
Definition INT32_MIN : Z := - 2 ^ 31.
Definition INT32_MAX : Z := 2 ^ 31 - 1.

(** [size_t] arithmetic. *)
Definition add64 (a b : Z) : Z := u64 (a + b).
Definition sub64 (a b : Z) : Z := u64 (a - b).
Definition mul64 (a b : Z) : Z := u64 (a * b).

Lemma u64_small z : 0 <= z < 2 ^ 64 -> u64 z = z.
Proof. apply Z.mod_small. Qed.
Lemma u32_small z : 0 <= z < 2 ^ 32 -> u32 z = z.
Proof. apply Z.mod_small. Qed.
Lemma u16_small z : 0 <= z < 2 ^ 16 -> u16 z = z.
Proof. apply Z.mod_small. Qed.
Lemma u8_small z : 0 <= z < 2 ^ 8 -> u8 z = z.
Proof. apply Z.mod_small. Qed.
Lemma add64_small a b : 0 <= a + b < 2 ^ 64 -> add64 a b = a + b.
Proof. apply Z.mod_small. Qed.
Lemma sub64_small a b : 0 <= a - b < 2 ^ 64 -> sub64 a b = a - b.
Proof. apply Z.mod_small. Qed.
Lemma mul64_small a b : 0 <= a * b < 2 ^ 64 -> mul64 a b = a * b.
Proof. apply Z.mod_small. Qed.
Lemma signed_small w z :
  0 < w -> - 2 ^ (w - 1) <= z < 2 ^ (w - 1) -> signed w z = z.
Proof.
  intros Hw Hz. unfold signed.
  assert (2 ^ w = 2 * 2 ^ (w - 1)) by (rewrite <- Z.pow_succ_r by lia; f_equal; lia).
  rewrite Z.mod_small; lia.
Qed.
Lemma i64_small z : - 2 ^ 63 <= z < 2 ^ 63 -> i64 z = z.
Proof. intros. apply signed_small; [lia | done]. Qed.

Lemma i64_range z : - 2 ^ 63 <= i64 z < 2 ^ 63.
Proof. unfold i64, signed. pose proof (Z.mod_pos_bound (z + 2 ^ (64 - 1)) (2 ^ 64)). lia. Qed.
Lemma u64_range z : 0 <= u64 z < 2 ^ 64.
Proof. apply Z.mod_pos_bound. lia. Qed.
Lemma u32_range z : 0 <= u32 z < 2 ^ 32.
Proof. apply Z.mod_pos_bound. lia. Qed.

(** Bit operations on disjoint fields are sums. *)
Lemma lor_low a b k : 0 <= k -> 0 <= b < 2 ^ k -> Z.lor (a * 2 ^ k) b = a * 2 ^ k + b.
Proof.
  intros Hk Hb. rewrite <- Z.shiftl_mul_pow2 by done.
  assert (Hl : Z.land (Z.shiftl a k) b = 0).
  { apply Z.bits_inj'. intros n Hn. rewrite Z.land_spec, Z.bits_0.
    destruct (Z.lt_ge_cases n k).
    - by rewrite Z.shiftl_spec_low by lia.
    - destruct (Z.eq_dec b 0) as [->|]; [by rewrite Z.bits_0, andb_false_r|].
      rewrite (Z.bits_above_log2 b), andb_false_r; [done|lia|].
      apply Z.lt_le_trans with k; [|lia]. apply Z.log2_lt_pow2; lia. }
  rewrite <- Z.lxor_lor by done. by rewrite Z.add_nocarry_lxor.
Qed.

Lemma byte_of_shift v k : 0 <= k -> b2z (z2b (Z.land (Z.shiftr v k) 255)) = (v / 2 ^ k) mod 256.
Proof.
  intros Hk. change 255 with (Z.ones 8). rewrite b2z_z2b, Z.land_ones, Z.shiftr_div_pow2 by lia.
  change (2 ^ 8) with 256. apply Z.mod_mod. lia.
Qed.

(** ** Sizes and slices of byte strings *)

Section Slices.
Context {A : Type}.
Implicit Types l : list A.

Definition zlen l : Z := Z.of_nat (length l).
Definition slice l (off n : Z) : list A :=
  take (Z.to_nat n) (drop (Z.to_nat off) l).
Definition zget l (i : Z) : option A := if 0 <=? i then l !! Z.to_nat i else None.

Lemma zlen_nonneg l : 0 <= zlen l.
Proof. unfold zlen. lia. Qed.
Lemma zlen_nil : zlen (@nil A) = 0.
Proof. done. Qed.
Lemma zlen_cons x l : zlen (x :: l) = 1 + zlen l.
Proof. unfold zlen. simpl. lia. Qed.
Lemma zlen_pos l : l <> [] -> 0 < zlen l.
Proof. destruct l; [done|]. unfold zlen. cbn [length]. lia. Qed.
Lemma zlen_app l1 l2 : zlen (l1 ++ l2) = zlen l1 + zlen l2.
Proof. unfold zlen. rewrite length_app. lia. Qed.
Lemma zlen_to_nat l : Z.to_nat (zlen l) = length l.
Proof. unfold zlen. lia. Qed.

Lemma zlen_slice l off n :
  0 <= off -> 0 <= n -> off + n <= zlen l -> zlen (slice l off n) = n.
Proof. unfold zlen, slice. intros. rewrite length_take, length_drop. lia. Qed.

Lemma slice_app_r l1 l2 off n :
  off = zlen l1 -> slice (l1 ++ l2) off n = slice l2 0 n.
Proof. intros ->. unfold slice. by rewrite zlen_to_nat, drop_app_length. Qed.

Lemma slice_0_app l1 l2 n : n = zlen l1 -> slice (l1 ++ l2) 0 n = l1.
Proof. intros ->. unfold slice. rewrite zlen_to_nat. change (Z.to_nat 0) with 0%nat. by rewrite drop_0, take_app_length. Qed.

Lemma slice_mid l1 l2 l3 off n :
  off = zlen l1 -> n = zlen l2 -> slice (l1 ++ l2 ++ l3) off n = l2.
Proof. intros. rewrite slice_app_r by done. by apply slice_0_app. Qed.

Lemma slice_full l n : zlen l <= n -> slice l 0 n = l.
Proof. unfold zlen, slice. intros. change (Z.to_nat 0) with 0%nat. rewrite drop_0. apply take_ge. lia. Qed.

Lemma slice_app_l l1 l2 off n :
  0 <= off -> 0 <= n -> off + n <= zlen l1 -> slice (l1 ++ l2) off n = slice l1 off n.
Proof.
  unfold slice, zlen. intros.
  rewrite drop_app_le by lia. apply take_app_le. rewrite length_drop. lia.
Qed.

Lemma slice_slice l o1 n1 o2 n2 :
  0 <= o1 -> 0 <= o2 -> 0 <= n2 -> o2 + n2 <= n1 ->
  slice (slice l o1 n1) o2 n2 = slice l (o1 + o2) n2.
Proof.
  unfold slice. intros.
  rewrite skipn_firstn_comm, take_take, drop_drop. f_equal; [lia | f_equal; lia].
Qed.

Lemma zget_app_l l1 l2 i : i < zlen l1 -> zget (l1 ++ l2) i = zget l1 i.
Proof.
  unfold zget, zlen. intros. destruct (Z.leb_spec 0 i); [|done].
  apply lookup_app_l. lia.
Qed.

Lemma zget_app_r l1 l2 i : zlen l1 <= i -> zget (l1 ++ l2) i = zget l2 (i - zlen l1).
Proof.
  unfold zget, zlen. intros.
  destruct (Z.leb_spec 0 i), (Z.leb_spec 0 (i - Z.of_nat (length l1))); try lia.
  rewrite lookup_app_r by lia. f_equal. lia.
Qed.

Lemma zget_Some l i x : zget l i = Some x -> 0 <= i < zlen l.
Proof.
  unfold zget, zlen. destruct (Z.leb_spec 0 i); [|done].
  intros E%lookup_lt_Some. lia.
Qed.

Lemma zget_is_Some l i : 0 <= i < zlen l -> is_Some (zget l i).
Proof.
  unfold zget, zlen. intros. destruct (Z.leb_spec 0 i); [|lia].
  apply lookup_lt_is_Some. lia.
Qed.

Lemma zget_slice l off n i :
  0 <= off -> 0 <= i < n -> zget (slice l off n) i = zget l (off + i).
Proof.
  unfold zget, slice. intros.
  destruct (Z.leb_spec 0 i), (Z.leb_spec 0 (off + i)); try lia.
  rewrite lookup_take_lt, lookup_drop by lia. f_equal. lia.
Qed.
End Slices.

Lemma drop_cons_zget {A} (d : list A) i :
  0 <= i < zlen d ->
  exists a, zget d i = Some a /\ drop (Z.to_nat i) d = a :: drop (Z.to_nat (i + 1)) d.
Proof.
  intros Hi. destruct (zget_is_Some d i Hi) as [a Ha]. exists a. split; [done|].
  unfold zget in Ha. destruct (Z.leb_spec 0 i); [|done].
  rewrite (drop_S _ _ _ Ha). do 2 f_equal. lia.
Qed.

Lemma zlen_drop {A} (d : list A) i : 0 <= i <= zlen d -> zlen (drop (Z.to_nat i) d) = zlen d - i.
Proof. unfold zlen. rewrite length_drop. lia. Qed.

Lemma drop_nil_ge {A} (d : list A) i : zlen d <= i -> drop (Z.to_nat i) d = [].
Proof. unfold zlen. intros. apply drop_ge. lia. Qed.

Lemma drop_drop_z {A} (d : list A) i j :
  0 <= i -> 0 <= j -> drop (Z.to_nat j) (drop (Z.to_nat i) d) = drop (Z.to_nat (i + j)) d.
Proof. intros. rewrite drop_drop. f_equal. lia. Qed.

Lemma drop_zget2 {A} (d : list A) i :
  0 <= i -> i + 2 <= zlen d -> exists a b r, drop (Z.to_nat i) d = a :: b :: r.
Proof.
  intros. destruct (drop_cons_zget d i) as (a & _ & ->); [lia|].
  destruct (drop_cons_zget d (i + 1)) as (b & _ & ->); [lia|]. eauto.
Qed.

(** ** Errors

    [absl::Status] / [absl::StatusOr]: a code with a message.  A modelled C++
    function returns [res A]: [Ok] for a value, [Err] for a status other than
    ok, and [UB] for an access outside the memory the source is allowed to
    touch (so that memory safety is the theorem "never [UB]"). *)

Inductive StatusCode :=
  | kInvalidArgument | kResourceExhausted | kUnavailable | kNotFound
  | kFailedPrecondition | kUnauthenticated.

Record Status := mkStatus { status_code : StatusCode; status_message : bytes }.

#[export] Instance StatusCode_eq_dec : EqDecision StatusCode.
Proof. solve_decision. Defined.
#[export] Instance Status_eq_dec : EqDecision Status.
Proof. solve_decision. Defined.

Definition InvalidArgumentError m := mkStatus kInvalidArgument m.
Definition ResourceExhaustedError m := mkStatus kResourceExhausted m.
Definition UnavailableError m := mkStatus kUnavailable m.
Definition NotFoundError m := mkStatus kNotFound m.
Definition FailedPreconditionError m := mkStatus kFailedPrecondition m.
Definition UnauthenticatedError m := mkStatus kUnauthenticated m.

Inductive res (A : Type) :=
  | Ok (a : A)
  | Err (s : Status)
  | UB.
Arguments Ok {A} a.
Arguments Err {A} s.
Arguments UB {A}.

#[export] Instance res_ret : MRet res := fun A a => Ok a.
#[export] Instance res_bind : MBind res := fun A B f m =>
  match m with Ok a => f a | Err s => Err s | UB => UB end.
#[export] Instance res_fmap : FMap res := fun A B f m =>
  match m with Ok a => Ok (f a) | Err s => Err s | UB => UB end.
#[export] Instance res_eq_dec `{EqDecision A} : EqDecision (res A).
Proof. solve_decision. Defined.

(** Reading memory: [d[i]] and the range [[off, off+n)] of [d]. *)
Definition rd {A} (d : list A) (i : Z) : res A :=
  match zget d i with Some b => Ok b | None => UB end.
Definition rdn {A} (d : list A) (off n : Z) : res (list A) :=
  if (0 <=? off) && (0 <=? n) && (off + n <=? zlen d) then Ok (slice d off n) else UB.

Lemma res_bind_ok {A B} (m : res A) (f : A -> res B) b : (m ≫= f) = Ok b <-> exists a, m = Ok a /\ f a = Ok b.
Proof.
  split; [|by intros (a & -> & E)]. destruct m as [a| |]; [|done..]. intros E. by exists a.
Qed.

Lemma res_bind_ub {A B} (m : res A) (f : A -> res B) :
  (m ≫= f) = UB <-> m = UB \/ exists a, m = Ok a /\ f a = UB.
Proof.
  split.
  - destruct m as [a| |]; [|done|by left]. intros E. right. by exists a.
  - by intros [->|(a & -> & E)].
Qed.

(** A computation without undefined behaviour. *)
Definition defined {A} (m : res A) : Prop := m <> UB.

Lemma defined_bind {A B} (m : res A) (f : A -> res B) :
  defined m -> (forall a, m = Ok a -> defined (f a)) -> defined (m ≫= f).
Proof. intros Hm Hf [?|(a & E & Hu)]%res_bind_ub; [done|by eapply Hf]. Qed.

Lemma rd_zget {A} (d : list A) i b : zget d i = Some b -> rd d i = Ok b.
Proof. unfold rd. by intros ->. Qed.
Lemma rd_Ok {A} (d : list A) i : 0 <= i < zlen d -> exists b, rd d i = Ok b.
Proof. intros [b Hb]%zget_is_Some. exists b. unfold rd. by rewrite Hb. Qed.
Lemma rdn_Ok {A} (d : list A) off n :
  0 <= off -> 0 <= n -> off + n <= zlen d -> rdn d off n = Ok (slice d off n).
Proof.
  intros. unfold rdn.
  destruct (Z.leb_spec 0 off), (Z.leb_spec 0 n), (Z.leb_spec (off + n) (zlen d)); done || lia.
Qed.

(** ** Decimal digits *)

Definition is_digit (b : byte) : bool := (48 <=? b2z b) && (b2z b <=? 57).
Definition dec_value (ds : bytes) : Z :=
  fold_left (fun v b => v * 10 + (b2z b - 48)) ds 0.

Lemma dec_value_app ds d : dec_value (ds ++ [d]) = dec_value ds * 10 + (b2z d - 48).
Proof. unfold dec_value. by rewrite fold_left_app. Qed.

Lemma sublist_Forall {A} (P : A -> Prop) (l k : list A) : sublist l k -> Forall P k -> Forall P l.
Proof. induction 1 as [|x l k _ IH|x l k _ IH]; intros Hk; [done|apply Forall_cons in Hk as [? ?]..]; [constructor|]; auto. Qed.

(** ** Automation *)

(** Split the boolean comparisons that guard a branch of the goal. *)
Ltac zcase :=
  match goal with
  | |- context [?a <=? ?b] => destruct (Z.leb_spec a b)
  | |- context [?a <? ?b] => destruct (Z.ltb_spec a b)
  | |- context [?a =? ?b] => destruct (Z.eqb_spec a b)
  end; simpl; try lia.

(** Split every match and conditional of hypothesis [H] that is stuck. *)
Ltac res_inv H :=
  repeat (simpl in H;
    match type of H with
    | Err _ = Ok _ => discriminate H
    | UB = Ok _ => discriminate H
    | Ok _ = Err _ => discriminate H
    | Ok _ = UB => discriminate H
    | mbind _ ?m = _ => let E := fresh "E" in destruct m eqn:E; simpl in H; try discriminate H
    | (if ?b then _ else _) = _ => let E := fresh "E" in destruct b eqn:E; try discriminate H
    | match ?m with _ => _ end = _ => let E := fresh "E" in destruct m eqn:E; try discriminate H
    end).

Create HintDb shine.
Create Rewrite HintDb zlen.
#[export] Hint Resolve b2z_range zlen_nonneg u64_range u32_range i64_range : shine.
#[export] Hint Rewrite @zlen_nil @zlen_cons @zlen_app : zlen.

(** Arithmetic over [zlen]: normalise lengths of literals, then [lia]. *)
Ltac zlia := autorewrite with zlen in *; lia.
