(* ===== verification/Absl.v ===== *)
(** * The Abseil routines the sources call

    [absl::SimpleAtoi], [absl::StrCat] of an integer, [absl::Hex],
    [absl::StrSplit], [absl::StartsWith] and [absl::EndsWith] live outside the
    repository.  [AbslOps] is the interface the models are written
    against, [AbslSpec] the documented behaviour they rely on, and
    [reference_absl] an implementation that satisfies it (used to evaluate the
    models on concrete inputs and to show that the laws are satisfiable). *)
From S2P Require Import Prelude.
From Stdlib Require Import Strings.Byte.

(** [SimpleAtoi lo hi s]: [absl::SimpleAtoi<T>] for the integer type [T] with
    range [[lo, hi]] (the first two arguments).  [StrCatInt z]: the piece [absl::StrCat] and
    [absl::StrAppend] produce for an integer argument.  [StrCatHex2 z]:
    [absl::Hex(z, absl::kZeroPad2)].  [StrSplit s d]: the pieces of [s] between
    the occurrences of [d].  [StartsWith s t] and [EndsWith s t]: [t] is a prefix
    (suffix) of [s]. *)
Class AbslOps := {
  SimpleAtoi : Z -> Z -> bytes -> option Z;
  StrCatInt : Z -> bytes;
  StrCatHex2 : Z -> bytes;
  StrSplit : bytes -> byte -> list bytes;
  StartsWith : bytes -> bytes -> bool;
  EndsWith : bytes -> bytes -> bool;
}.

(** Documented behaviour.  SimpleAtoi accepts a base-10 integer whose value is
    in the range of the type, optionally signed and surrounded by ASCII
    whitespace, and rejects everything else; StrCat prints an integer in base
    10; the pieces of StrSplit contain no delimiter and, joined by it, give the
    string back. *)
Fixpoint join (d : byte) (ps : list bytes) : bytes :=
  match ps with
  | [] => []
  | [p] => p
  | p :: rest => p ++ d :: join d rest
  end.
Definition is_space (b : byte) : bool :=
  (b2z b =? 32) || ((9 <=? b2z b) && (b2z b <=? 13)).
Definition atoi_char (b : byte) : bool :=
  is_digit b || is_space b || (b2z b =? 43) || (b2z b =? 45).

Class AbslSpec `{AbslOps} : Prop := {
  atoi_digits lo hi ds :
    lo <= 0 -> ds <> [] -> forallb is_digit ds = true ->
    SimpleAtoi lo hi ds = if dec_value ds <=? hi then Some (dec_value ds) else None;
  atoi_range lo hi s v : SimpleAtoi lo hi s = Some v -> lo <= v <= hi;
  atoi_reject lo hi s : forallb atoi_char s = false -> SimpleAtoi lo hi s = None;
  atoi_empty lo hi : SimpleAtoi lo hi [] = None;
  strcat_nonneg n :
    0 <= n ->
    StrCatInt n <> [] /\ forallb is_digit (StrCatInt n) = true /\ dec_value (StrCatInt n) = n;
  split_nonempty s d : StrSplit s d <> [];
  split_join s d : join d (StrSplit s d) = s;
  split_pieces s d : Forall (fun p => d ∉ p) (StrSplit s d);
  starts_with s t : StartsWith s t = true <-> exists r, s = t ++ r;
  ends_with s t : EndsWith s t = true <-> exists r, s = r ++ t;
}.

(** The pieces are determined by the string: no other list has them. *)
Lemma join_inj d ps qs :
  ps <> [] -> qs <> [] -> Forall (fun p => d ∉ p) ps -> Forall (fun p => d ∉ p) qs ->
  join d ps = join d qs -> ps = qs.
Proof.
  intros Hne1 Hne2 H1. revert qs Hne2. induction H1 as [|p ps Hp Hps IH]; intros qs Hne2 H2 E; [done|].
  destruct H2 as [|q qs Hq Hqs]; [done|].
  assert (Hhd : forall x y (u v : bytes), d ∉ x -> d ∉ y -> x ++ d :: u = y ++ d :: v -> x = y /\ u = v).
  { clear. induction x as [|a x IHx]; intros [|b y] u v Hx Hy E; simplify_eq/=; [done|set_solver..|].
    destruct (IHx y u v) as [-> ->]; [set_solver..|done|done]. }
  assert (Hno : forall x y (u : bytes), d ∉ x -> x = y ++ d :: u -> False).
  { intros x y u Hx ->. apply Hx. set_solver. }
  destruct ps as [|p2 ps], qs as [|q2 qs]; cbn [join] in E.
  - by rewrite E.
  - by destruct (Hno p q _ Hp E).
  - by destruct (Hno q p _ Hq (eq_sym E)).
  - apply Hhd in E as [-> E]; [|done..]. f_equal. by apply IH.
Qed.

Lemma split_unique `{AbslSpec} s d ps :
  ps <> [] -> Forall (fun p => d ∉ p) ps -> join d ps = s -> StrSplit s d = ps.
Proof.
  intros Hne Hps <-. apply (join_inj d); auto using split_nonempty, split_pieces, split_join.
Qed.

(** ** A reference implementation *)

Fixpoint print_dec (fuel : nat) (n : Z) (acc : bytes) : bytes :=
  match fuel with
  | O => acc
  | S f =>
      let acc' := z2b (48 + n mod 10) :: acc in
      if n <? 10 then acc' else print_dec f (n / 10) acc'
  end.
Definition ref_print_nonneg (n : Z) : bytes := print_dec (S (Z.to_nat (Z.log2 n))) n [].
Definition ref_StrCatInt (n : Z) : bytes :=
  if n <? 0 then x2d :: ref_print_nonneg (- n) else ref_print_nonneg n.

Definition hex_digit (d : Z) : byte := if d <? 10 then z2b (48 + d) else z2b (87 + d).
Definition ref_StrCatHex2 (z : Z) : bytes := [hex_digit ((z / 16) mod 16); hex_digit (z mod 16)].

Fixpoint skip_spaces (s : bytes) : bytes :=
  match s with b :: r => if is_space b then skip_spaces r else s | [] => [] end.
Definition trim (s : bytes) : bytes := rev (skip_spaces (rev (skip_spaces s))).
Definition ref_digits (ds : bytes) : option Z :=
  match ds with
  | [] => None
  | _ => if forallb is_digit ds then Some (dec_value ds) else None
  end.
Definition ref_SimpleAtoi (lo hi : Z) (s : bytes) : option Z :=
  let v := match trim s with
           | b :: r => if b2z b =? 45 then option_map Z.opp (ref_digits r)
                       else if b2z b =? 43 then ref_digits r
                       else ref_digits (b :: r)
           | [] => None
           end in
  match v with
  | Some z => if (lo <=? z) && (z <=? hi) then Some z else None
  | None => None
  end.

Fixpoint ref_StrSplit (s : bytes) (d : byte) : list bytes :=
  match s with
  | [] => [[]]
  | c :: r =>
      match ref_StrSplit r d with
      | p :: ps => if decide (c = d) then [] :: p :: ps else (c :: p) :: ps
      | [] => []
      end
  end.

Definition ref_StartsWith (s t : bytes) : bool := bool_decide (take (length t) s = t).
Definition ref_EndsWith (s t : bytes) : bool :=
  bool_decide ((length t <= length s)%nat /\ drop (length s - length t) s = t).

#[export] Instance reference_absl : AbslOps := {|
  SimpleAtoi := ref_SimpleAtoi;
  StrCatInt := ref_StrCatInt;
  StrCatHex2 := ref_StrCatHex2;
  StrSplit := ref_StrSplit;
  StartsWith := ref_StartsWith;
  EndsWith := ref_EndsWith;
|}.

(** ** It satisfies the specification *)

Lemma is_digit_z2b n : is_digit (z2b (48 + n mod 10)) = true.
Proof.
  pose proof (Z.mod_pos_bound n 10 ltac:(lia)).
  unfold is_digit. rewrite b2z_z2b_small by lia. repeat zcase.
Qed.

Lemma digit_not_space b : is_digit b = true -> is_space b = false.
Proof. unfold is_digit, is_space. repeat zcase. Qed.

Definition dec_from (v : Z) (ds : bytes) : Z :=
  fold_left (fun v b => v * 10 + (b2z b - 48)) ds v.

Lemma dec_from_nonneg ds v : 0 <= v -> forallb is_digit ds = true -> 0 <= dec_from v ds.
Proof.
  revert v. induction ds as [|d ds IH]; simpl; intros v Hv; [done|].
  intros [Hd Hds]%andb_true_iff. apply IH; [|done].
  unfold is_digit in Hd. apply andb_true_iff in Hd as [?%Z.leb_le ?%Z.leb_le]. lia.
Qed.

Lemma print_dec_spec fuel n acc :
  0 <= n < 10 ^ Z.of_nat fuel -> (0 < fuel)%nat -> forallb is_digit acc = true ->
  print_dec fuel n acc <> [] /\ forallb is_digit (print_dec fuel n acc) = true /\
  forall v, dec_from v (print_dec fuel n acc)
            = dec_from (v * 10 ^ Z.of_nat (length (print_dec fuel n acc) - length acc) + n) acc
            /\ (length acc <= length (print_dec fuel n acc))%nat.
Proof.
  revert n acc. induction fuel as [|f IH]; intros n acc Hn Hf Hacc; [lia|].
  cbn [print_dec].
  pose proof (Z.mod_pos_bound n 10 ltac:(lia)) as Hm.
  pose proof (Z.div_mod n 10 ltac:(lia)) as Hdm.
  assert (Hacc' : forallb is_digit (z2b (48 + n mod 10) :: acc) = true)
    by (simpl; by rewrite is_digit_z2b).
  destruct (Z.ltb_spec n 10).
  - split; [done|]. split; [done|]. intros v. split; [|simpl; lia].
    replace (length (z2b (48 + n mod 10) :: acc) - length acc)%nat with 1%nat by (cbn [length]; lia).
    cbn [dec_from fold_left]. rewrite b2z_z2b_small by lia.
    unfold dec_from. f_equal. rewrite (Z.mod_small n) by lia. lia.
  - rewrite Nat2Z.inj_succ, Z.pow_succ_r in Hn by lia.
    destruct f as [|f']; [simpl in Hn; lia|].
    edestruct (IH (n / 10) (z2b (48 + n mod 10) :: acc)) as (Hne & Hd & Hv);
      [|lia|done|].
    { split; [apply Z.div_pos; lia|]. apply Z.div_lt_upper_bound; lia. }
    split; [done|]. split; [done|]. intros v.
    destruct (Hv v) as [Hv1 Hl]. split; [|cbn [length] in Hl; lia].
    rewrite Hv1. cbn [dec_from fold_left]. rewrite b2z_z2b_small by lia.
    unfold dec_from. f_equal. cbn [length] in Hl |- *.
    set (L := length _) in *.
    replace (Z.of_nat (L - length acc)) with (Z.succ (Z.of_nat (L - S (length acc)))) by lia.
    rewrite Z.pow_succ_r by lia. nia.
Qed.

Lemma ref_print_fuel n : 0 <= n -> n < 10 ^ Z.of_nat (S (Z.to_nat (Z.log2 n))).
Proof.
  intros Hn. rewrite Nat2Z.inj_succ, Z2Nat.id by apply Z.log2_nonneg.
  destruct (Z.eq_dec n 0) as [->|]; [done|].
  pose proof (Z.log2_spec n ltac:(lia)) as [_ Hlt].
  eapply Z.lt_le_trans; [exact Hlt|]. apply Z.pow_le_mono_l. lia.
Qed.

Lemma skip_spaces_digits ds : forallb is_digit ds = true -> skip_spaces ds = ds.
Proof. destruct ds as [|d ds]; [done|]. simpl. intros [Hd _]%andb_true_iff. by rewrite digit_not_space. Qed.

Lemma forallb_rev {A} (f : A -> bool) l : forallb f (rev l) = forallb f l.
Proof.
  induction l as [|x l IH]; [done|]. simpl. rewrite forallb_app, IH. simpl.
  rewrite andb_true_r. apply andb_comm.
Qed.

Lemma trim_digits ds : forallb is_digit ds = true -> trim ds = ds.
Proof.
  intros H. unfold trim. rewrite (skip_spaces_digits ds) by done.
  rewrite skip_spaces_digits by (by rewrite forallb_rev). apply rev_involutive.
Qed.

Lemma ref_atoi_digits lo hi ds :
  lo <= 0 -> ds <> [] -> forallb is_digit ds = true ->
  ref_SimpleAtoi lo hi ds = if dec_value ds <=? hi then Some (dec_value ds) else None.
Proof.
  intros Hlo Hne Hd. unfold ref_SimpleAtoi. rewrite trim_digits by done.
  destruct ds as [|d ds]; [done|].
  assert (is_digit d = true) as Hd0 by (simpl in Hd; by apply andb_true_iff in Hd as [? ?]).
  unfold is_digit in Hd0. apply andb_true_iff in Hd0 as [?%Z.leb_le ?%Z.leb_le].
  destruct (Z.eqb_spec (b2z d) 45); [lia|]. destruct (Z.eqb_spec (b2z d) 43); [lia|].
  unfold ref_digits. rewrite Hd.
  pose proof (dec_from_nonneg (d :: ds) 0 ltac:(lia) Hd) as Hnn.
  unfold dec_from in Hnn. fold (dec_value (d :: ds)) in Hnn.
  destruct (Z.leb_spec lo (dec_value (d :: ds))); [done|lia].
Qed.

Lemma skip_spaces_reject s :
  forallb atoi_char (skip_spaces s) = true -> forallb atoi_char s = true.
Proof.
  induction s as [|b s IH]; [done|]. simpl. destruct (is_space b) eqn:E; [|done].
  intros H. rewrite (IH H), andb_true_r. unfold atoi_char. by rewrite E, orb_true_r.
Qed.

Lemma trim_reject s : forallb atoi_char (trim s) = true -> forallb atoi_char s = true.
Proof.
  unfold trim. rewrite forallb_rev. intros H%skip_spaces_reject.
  rewrite forallb_rev in H. by apply skip_spaces_reject.
Qed.

Lemma digits_atoi_char ds : forallb is_digit ds = true -> forallb atoi_char ds = true.
Proof.
  induction ds as [|d ds IH]; [done|]. simpl. intros [Hd H]%andb_true_iff.
  rewrite IH by done. unfold atoi_char. by rewrite Hd.
Qed.

Lemma ref_digits_char ds v : ref_digits ds = Some v -> forallb atoi_char ds = true.
Proof.
  destruct ds as [|d ds]; [done|]. unfold ref_digits.
  destruct (forallb is_digit _) eqn:E; [|done]. intros _. by apply digits_atoi_char.
Qed.

Lemma ref_atoi_reject lo hi s : forallb atoi_char s = false -> ref_SimpleAtoi lo hi s = None.
Proof.
  intros H. unfold ref_SimpleAtoi.
  destruct (trim s) as [|b r] eqn:Et; [done|].
  assert (Hr : forallb atoi_char (b :: r) = false).
  { destruct (forallb atoi_char (b :: r)) eqn:E; [|done].
    rewrite <- Et in E. apply trim_reject in E. congruence. }
  assert (Hc : forall c, b2z b = c -> c = 45 \/ c = 43 -> ref_digits r = None).
  { intros c Hb Hc. destruct (ref_digits r) eqn:E; [|done].
    apply ref_digits_char in E. simpl in Hr. rewrite E, andb_true_r in Hr.
    unfold atoi_char in Hr. rewrite Hb in Hr.
    destruct Hc as [-> | ->]; rewrite ?orb_true_r in Hr; done. }
  destruct (Z.eqb_spec (b2z b) 45) as [E|]; [by rewrite (Hc 45) by auto|].
  destruct (Z.eqb_spec (b2z b) 43) as [E|]; [by rewrite (Hc 43) by auto|].
  destruct (ref_digits (b :: r)) eqn:E; [|done].
  apply ref_digits_char in E. congruence.
Qed.

Lemma ref_split_spec s d :
  ref_StrSplit s d <> [] /\ join d (ref_StrSplit s d) = s /\
  Forall (fun p => d ∉ p) (ref_StrSplit s d).
Proof.
  induction s as [|c r (Hne & Hj & Hf)]; simpl.
  { split_and!; [done|done|]. repeat constructor. set_solver. }
  destruct (ref_StrSplit r d) as [|p ps]; [done|]. inversion Hf; subst.
  destruct (decide (c = d)) as [->|Hc]; split_and!; try done.
  - repeat constructor; [set_solver|done..].
  - by destruct ps.
  - constructor; [set_solver|done].
Qed.

#[export] Instance reference_absl_spec : AbslSpec.
Proof.
  split.
  - apply ref_atoi_digits.
  - intros lo hi s v. cbn [SimpleAtoi reference_absl]. unfold ref_SimpleAtoi.
    destruct (match trim s with [] => None | _ => _ end) as [z|]; [|done].
    destruct (Z.leb_spec lo z), (Z.leb_spec z hi); simpl; [|done..].
    intros [= <-]. lia.
  - apply ref_atoi_reject.
  - done.
  - intros n Hn. cbn [StrCatInt reference_absl]. unfold ref_StrCatInt, ref_print_nonneg.
    destruct (Z.ltb_spec n 0); [lia|].
    destruct (print_dec_spec (S (Z.to_nat (Z.log2 n))) n []) as (H1 & H2 & H3);
      [by auto using ref_print_fuel | lia | done |].
    split; [done|]. split; [done|]. destruct (H3 0) as [H3' _].
    unfold dec_value. unfold dec_from in H3'. rewrite H3'. simpl. lia.
  - intros s d. apply ref_split_spec.
  - intros s d. apply ref_split_spec.
  - intros s d. apply ref_split_spec.
  - intros s t. cbn. unfold ref_StartsWith. rewrite bool_decide_eq_true. split.
    + intros E. exists (drop (length t) s). by rewrite <- E at 1; rewrite take_drop.
    + intros [r ->]. apply take_app_length.
  - intros s t. cbn. unfold ref_EndsWith. rewrite bool_decide_eq_true. split.
    + intros [_ E]. exists (take (length s - length t) s). by rewrite <- E at 2; rewrite take_drop.
    + intros [r ->]. rewrite length_app. split; [lia|].
      replace (length r + length t - length t)%nat with (length r) by lia. apply drop_app_length.
Qed.

Example StrCatInt_ex : StrCatInt 262144 = lit "262144".
Proof. reflexivity. Qed.
Example SimpleAtoi_ex : SimpleAtoi INT64_MIN INT64_MAX (lit " -17 ") = Some (-17).
Proof. reflexivity. Qed.
