(* ===== verification/Buffer.v ===== *)
(** * The receive buffer (src/core/buffer.hpp)

    [ReadBuffer] is the linear buffer between the socket and the RESP2 parser:
    a storage vector [buf_] whose bytes [[head_, size_)] are readable and whose
    bytes from [size_] on are writable.  Its contract is that of a byte queue:
    [rb_view] is the queue's contents, [committed] (after a write through
    [writable_ptr]) appends, [consume] drops from the front and
    [ensure_writable] changes neither.  [BufferSlab] is the fixed slab of the
    same header. *)
From S2P Require Import Prelude.
From Stdlib Require Import Strings.Byte.

Record ReadBuffer := mkRB { buf_ : bytes; head_ : Z; size_ : Z }.

(** [explicit ReadBuffer(std::size_t initial = 16 * 1024) : buf_(initial)] *)
Definition kInitialCapacity : Z := 16 * 1024.
Definition ReadBuffer_new (initial : Z) : ReadBuffer :=
  mkRB (replicate (Z.to_nat initial) x00) 0 0.

Definition writable_size (rb : ReadBuffer) : Z := sub64 (zlen (buf_ rb)) (size_ rb).
Definition rb_size (rb : ReadBuffer) : Z := sub64 (size_ rb) (head_ rb).
(** The readable bytes [data() .. data() + size()). *)
Definition rb_view (rb : ReadBuffer) : bytes := slice (buf_ rb) (head_ rb) (rb_size rb).

Definition committed (n : Z) (rb : ReadBuffer) : ReadBuffer :=
  mkRB (buf_ rb) (head_ rb) (add64 (size_ rb) n).

(** [std::memcpy]/[memmove] of [d] to offset [off] of a vector. *)
Definition store (buf : bytes) (off : Z) (d : bytes) : bytes :=
  take (Z.to_nat off) buf ++ d ++ drop (Z.to_nat (off + zlen d)) buf.

(** A read of [d] from the socket into [writable_ptr()], then
    [committed(d.size())]; the socket never writes more than [writable_size()]. *)
Definition rb_fill (d : bytes) (rb : ReadBuffer) : res ReadBuffer :=
  if zlen d <=? writable_size rb
  then Ok (committed (zlen d) (mkRB (store (buf_ rb) (size_ rb) d) (head_ rb) (size_ rb)))
  else UB.

Definition consume (n : Z) (rb : ReadBuffer) : ReadBuffer :=
  let head := add64 (head_ rb) n in
  if size_ rb <=? head then mkRB (buf_ rb) 0 0
  else if zlen (buf_ rb) / 2 <? head then
    let live := sub64 (size_ rb) head in
    mkRB (store (buf_ rb) 0 (slice (buf_ rb) head live)) 0 (sub64 (size_ rb) head)
  else mkRB (buf_ rb) head (size_ rb).

(** [std::vector::resize]: truncate or extend with zero bytes. *)
Definition vec_resize (v : bytes) (cap : Z) : bytes :=
  take (Z.to_nat cap) v ++ replicate (Z.to_nat cap - length v) x00.

Definition ensure_writable (n : Z) (rb : ReadBuffer) : ReadBuffer :=
  if n <=? writable_size rb then rb
  else
    let rb1 := if 0 <? head_ rb then consume 0 rb else rb in
    if n <=? writable_size rb1 then rb1
    else
      let need := add64 (sub64 (size_ rb1) (head_ rb1)) n in
      let cap := Z.max (mul64 (zlen (buf_ rb1)) 2) need in
      mkRB (vec_resize (buf_ rb1) cap) (head_ rb1) (size_ rb1).

Module BufferSlab.
Record t := mk { data_ : bytes; size_ : Z }.
Definition make (capacity : Z) : t := mk (replicate (Z.to_nat capacity) x00) 0.
Definition capacity (s : t) : Z := zlen (data_ s).
Definition resize (n : Z) (s : t) : t := mk (data_ s) n.
Definition span (s : t) : res bytes := rdn (data_ s) 0 (size_ s).
End BufferSlab.

(** ** Invariant and queue contract *)

(** A buffer of less than 2^62 bytes: what an address space allows. *)
Definition rb_wf (rb : ReadBuffer) : Prop :=
  0 <= head_ rb <= size_ rb /\ size_ rb <= zlen (buf_ rb) /\ zlen (buf_ rb) < 2 ^ 62.

#[export] Instance rb_wf_dec rb : Decision (rb_wf rb).
Proof. unfold rb_wf. apply _. Defined.

Lemma zlen_store buf off d :
  0 <= off -> off + zlen d <= zlen buf -> zlen (store buf off d) = zlen buf.
Proof.
  unfold store, zlen. intros. rewrite !length_app, length_take, length_drop. lia.
Qed.

Lemma slice_store_same buf off d :
  0 <= off -> off + zlen d <= zlen buf -> slice (store buf off d) off (zlen d) = d.
Proof.
  intros. unfold store. apply slice_mid; [|done].
  unfold zlen in *. rewrite length_take. lia.
Qed.

Lemma slice_store_before buf off d o n :
  0 <= o -> 0 <= n -> o + n <= off -> off <= zlen buf -> slice (store buf off d) o n = slice buf o n.
Proof.
  unfold store, zlen. intros.
  rewrite slice_app_l by (unfold zlen; rewrite ?length_take; lia).
  unfold slice. rewrite skipn_firstn_comm, take_take. f_equal. lia.
Qed.

Lemma slice_join {A} (l : list A) o n m :
  0 <= o -> 0 <= n -> 0 <= m -> slice l o (n + m) = slice l o n ++ slice l (o + n) m.
Proof.
  intros. unfold slice. rewrite Z2Nat.inj_add, Z2Nat.inj_add, <- drop_drop by lia.
  set (l' := drop (Z.to_nat o) l).
  rewrite <- (take_drop (Z.to_nat n) (take (Z.to_nat n + Z.to_nat m) l')).
  rewrite take_take, skipn_firstn_comm. f_equal; f_equal; lia.
Qed.

Lemma slice_resize v cap off n :
  0 <= off -> 0 <= n -> off + n <= zlen v -> zlen v <= cap ->
  slice (vec_resize v cap) off n = slice v off n.
Proof.
  intros. unfold vec_resize. rewrite take_ge by (unfold zlen in *; lia).
  by apply slice_app_l.
Qed.

Lemma zlen_resize v cap : 0 <= cap -> zlen (vec_resize v cap) = cap.
Proof.
  intros. unfold vec_resize, zlen. rewrite length_app, length_take, length_replicate. lia.
Qed.

Section Contract.
Implicit Types rb : ReadBuffer.

Lemma rb_size_wf rb : rb_wf rb -> rb_size rb = size_ rb - head_ rb.
Proof. intros (? & ? & ?). apply sub64_small. lia. Qed.

Lemma writable_size_wf rb : rb_wf rb -> writable_size rb = zlen (buf_ rb) - size_ rb.
Proof. intros (? & ? & ?). apply sub64_small. lia. Qed.

Lemma rb_view_wf rb : rb_wf rb -> rb_view rb = slice (buf_ rb) (head_ rb) (size_ rb - head_ rb).
Proof. intros H. unfold rb_view. by rewrite rb_size_wf. Qed.

Lemma zlen_view rb : rb_wf rb -> zlen (rb_view rb) = size_ rb - head_ rb.
Proof. intros H. rewrite rb_view_wf by done. destruct H as (? & ? & ?). apply zlen_slice; lia. Qed.

Lemma ReadBuffer_new_wf n : 0 <= n < 2 ^ 62 -> rb_wf (ReadBuffer_new n).
Proof. intros. unfold rb_wf, ReadBuffer_new, zlen. simpl. rewrite length_replicate. lia. Qed.

Lemma consume_spec rb n :
  rb_wf rb -> 0 <= n <= zlen (rb_view rb) ->
  rb_wf (consume n rb) /\ rb_view (consume n rb) = drop (Z.to_nat n) (rb_view rb) /\
  zlen (buf_ (consume n rb)) = zlen (buf_ rb).
Proof.
  intros Hwf Hn. pose proof Hwf as (? & ? & ?).
  rewrite zlen_view in Hn by done. rewrite (rb_view_wf rb) by done.
  assert (Hdrop : forall k, k = size_ rb - head_ rb - n -> 0 <= k ->
    drop (Z.to_nat n) (slice (buf_ rb) (head_ rb) (size_ rb - head_ rb))
    = slice (buf_ rb) (head_ rb + n) k).
  { intros k -> ?. unfold slice. rewrite skipn_firstn_comm, drop_drop. f_equal; [|f_equal]; lia. }
  unfold consume. rewrite add64_small, !sub64_small by lia.
  destruct (Z.leb_spec (size_ rb) (head_ rb + n)).
  { split; [unfold rb_wf; simpl; lia|]. split; [|done].
    rewrite (Hdrop 0) by lia. unfold rb_view, rb_size. simpl. done. }
  destruct (Z.ltb_spec (zlen (buf_ rb) / 2) (head_ rb + n)).
  - set (d := slice _ _ _).
    assert (Hd : zlen d = size_ rb - (head_ rb + n)) by (apply zlen_slice; lia).
    assert (Hl : zlen (store (buf_ rb) 0 d) = zlen (buf_ rb)) by (apply zlen_store; lia).
    assert (Hwf' : rb_wf (mkRB (store (buf_ rb) 0 d) 0 (size_ rb - (head_ rb + n))))
      by (unfold rb_wf; simpl; lia).
    split; [done|]. split; [|done].
    rewrite rb_view_wf by done. simpl. rewrite Z.sub_0_r, <- Hd.
    rewrite slice_store_same by lia. symmetry. apply Hdrop; lia.
  - split; [unfold rb_wf; simpl; lia|]. split; [|done].
    rewrite rb_view_wf by (unfold rb_wf; simpl; lia). simpl.
    rewrite (Hdrop _ eq_refl) by lia. f_equal. lia.
Qed.

Lemma rb_fill_spec rb d :
  rb_wf rb -> zlen d <= writable_size rb ->
  exists rb', rb_fill d rb = Ok rb' /\ rb_wf rb' /\ rb_view rb' = rb_view rb ++ d /\
              zlen (buf_ rb') = zlen (buf_ rb).
Proof.
  intros Hwf Hd. pose proof Hwf as (? & ? & ?).
  pose proof (zlen_nonneg d). rewrite writable_size_wf in Hd by done.
  unfold rb_fill. rewrite writable_size_wf by done.
  destruct (Z.leb_spec (zlen d) (zlen (buf_ rb) - size_ rb)); [|lia].
  eexists. split; [done|]. unfold committed. simpl. rewrite add64_small by lia.
  assert (Hl : zlen (store (buf_ rb) (size_ rb) d) = zlen (buf_ rb)) by (apply zlen_store; lia).
  assert (Hwf' : rb_wf (mkRB (store (buf_ rb) (size_ rb) d) (head_ rb) (size_ rb + zlen d)))
    by (unfold rb_wf; simpl; lia).
  split; [done|]. split; [|done].
  rewrite !rb_view_wf by done. simpl.
  replace (size_ rb + zlen d - head_ rb) with ((size_ rb - head_ rb) + zlen d) by lia.
  rewrite slice_join by lia. f_equal.
  - apply slice_store_before; lia.
  - replace (head_ rb + (size_ rb - head_ rb)) with (size_ rb) by lia.
    apply slice_store_same; lia.
Qed.

(** Growing never loses readable bytes, and gives the room asked for when the
    request does not exceed the capacity the buffer already has, or when
    nothing has been consumed yet. *)
Lemma ensure_writable_spec rb n :
  rb_wf rb -> 0 <= n -> n + 2 * zlen (buf_ rb) < 2 ^ 62 ->
  rb_wf (ensure_writable n rb) /\ rb_view (ensure_writable n rb) = rb_view rb /\
  zlen (buf_ rb) <= zlen (buf_ (ensure_writable n rb)) /\
  (n <= zlen (buf_ rb) \/ head_ rb = 0 -> n <= writable_size (ensure_writable n rb)).
Proof.
  intros Hwf Hn Hb. unfold ensure_writable.
  destruct (Z.leb_spec n (writable_size rb)) as [Hle|Hgt].
  { by split_and!. }
  set (rb1 := if 0 <? head_ rb then consume 0 rb else rb).
  assert (H1 : rb_wf rb1 /\ rb_view rb1 = rb_view rb /\ zlen (buf_ rb1) = zlen (buf_ rb) /\
               (head_ rb = 0 -> head_ rb1 = 0)).
  { unfold rb1. destruct (Z.ltb_spec 0 (head_ rb)); [|done].
    destruct (consume_spec rb 0 Hwf) as (? & ? & ?); [pose proof (zlen_nonneg (rb_view rb)); lia|].
    rewrite drop_0 in *. split_and!; [done..|lia]. }
  clearbody rb1. destruct H1 as (Hwf1 & Hv1 & Hl1 & Hh1).
  destruct (Z.leb_spec n (writable_size rb1)) as [Hle1|Hgt1].
  { split_and!; [done|done|lia|done]. }
  pose proof Hwf1 as (? & ? & ?).
  rewrite mul64_small, (sub64_small (size_ rb1)) by lia. rewrite add64_small by lia.
  remember (Z.max _ _) as cap eqn:Hcap.
  assert (Hwf2 : rb_wf (mkRB (vec_resize (buf_ rb1) cap) (head_ rb1) (size_ rb1)))
    by (unfold rb_wf; simpl; rewrite zlen_resize; lia).
  split; [done|]. split; [|split].
  - rewrite <- Hv1, !rb_view_wf by done. simpl. apply slice_resize; lia.
  - simpl. rewrite zlen_resize; lia.
  - intros Hor. rewrite writable_size_wf by done. simpl. rewrite zlen_resize by lia.
    destruct Hor as [Hor|Hor%Hh1]; lia.
Qed.

(** Compaction keeps the consumed prefix below half of the storage, so growth
    is bounded by the live bytes and the request, whatever was read before. *)
Lemma consume0_head rb :
  rb_wf rb -> head_ (consume 0 rb) <= zlen (buf_ (consume 0 rb)) / 2.
Proof.
  intros Hwf. pose proof Hwf as (? & ? & ?). unfold consume.
  rewrite add64_small, !sub64_small by lia.
  destruct (Z.leb_spec (size_ rb) (head_ rb + 0)); simpl; [apply Z.div_pos; lia|].
  destruct (Z.ltb_spec (zlen (buf_ rb) / 2) (head_ rb + 0)); simpl; [apply Z.div_pos|]; try lia.
  apply zlen_nonneg.
Qed.

Lemma ensure_writable_capacity rb n :
  rb_wf rb -> 0 <= n -> n + 2 * zlen (buf_ rb) < 2 ^ 62 ->
  zlen (buf_ (ensure_writable n rb)) <= Z.max (zlen (buf_ rb)) (4 * (zlen (rb_view rb) + n)).
Proof.
  intros Hwf Hn Hb. unfold ensure_writable.
  destruct (Z.leb_spec n (writable_size rb)) as [Hle|Hgt]; [lia|].
  set (rb1 := if 0 <? head_ rb then consume 0 rb else rb).
  assert (H1 : rb_wf rb1 /\ zlen (rb_view rb1) = zlen (rb_view rb) /\
               zlen (buf_ rb1) = zlen (buf_ rb) /\ head_ rb1 <= zlen (buf_ rb1) / 2).
  { unfold rb1. pose proof Hwf as (? & ? & ?). destruct (Z.ltb_spec 0 (head_ rb)).
    - destruct (consume_spec rb 0 Hwf) as (? & Hv & ?); [pose proof (zlen_nonneg (rb_view rb)); lia|].
      rewrite drop_0 in Hv. rewrite Hv. split_and!; auto using consume0_head.
    - split_and!; [done..|]. transitivity 0; [lia|]. apply Z.div_pos; lia. }
  clearbody rb1. destruct H1 as (Hwf1 & Hv1 & Hl1 & Hh1).
  destruct (Z.leb_spec n (writable_size rb1)) as [Hle1|Hgt1]; [lia|].
  rewrite writable_size_wf in Hgt1 by done. rewrite zlen_view in Hv1 by done.
  pose proof Hwf1 as (? & ? & ?).
  rewrite mul64_small, (sub64_small (size_ rb1)) by lia. rewrite add64_small by lia.
  pose proof (Z.mul_div_le (zlen (buf_ rb1)) 2 ltac:(lia)).
  simpl. rewrite zlen_resize by lia. rewrite <- Hv1. lia.
Qed.
End Contract.

(** ** Reachable buffers

    [rb_reach rb q]: a buffer the link can hold, with the bytes [q] it has
    received and not consumed.  Every request for room the link makes is at
    most [kInitialCapacity] (8192 in the handshake, 16384 in the reader loop),
    and a peer cannot make it hold 2^56 unread bytes. *)
Inductive rb_reach : ReadBuffer -> bytes -> Prop :=
  | reach_new : rb_reach (ReadBuffer_new kInitialCapacity) []
  | reach_ensure rb q n :
      rb_reach rb q -> 0 <= n <= kInitialCapacity -> zlen q < 2 ^ 56 ->
      rb_reach (ensure_writable n rb) q
  | reach_fill rb q d rb' :
      rb_reach rb q -> zlen d <= writable_size rb -> rb_fill d rb = Ok rb' ->
      rb_reach rb' (q ++ d)
  | reach_consume rb q n :
      rb_reach rb q -> 0 <= n <= zlen q -> rb_reach (consume n rb) (drop (Z.to_nat n) q).

Definition rb_inv (rb : ReadBuffer) (q : bytes) : Prop :=
  rb_wf rb /\ rb_view rb = q /\ kInitialCapacity <= zlen (buf_ rb) < 2 ^ 59.

Lemma rb_inv_new : rb_inv (ReadBuffer_new kInitialCapacity) [].
Proof.
  unfold rb_inv, kInitialCapacity.
  split_and!; [by apply ReadBuffer_new_wf|done|vm_compute; discriminate|done].
Qed.

Lemma rb_inv_ensure rb q n :
  rb_inv rb q -> 0 <= n <= kInitialCapacity -> zlen q < 2 ^ 56 ->
  rb_inv (ensure_writable n rb) q /\ n <= writable_size (ensure_writable n rb).
Proof.
  unfold rb_inv, kInitialCapacity. intros (Hwf & Hv & Hc) Hn Hq.
  destruct (ensure_writable_spec rb n) as (? & ? & ? & Hroom); [done|lia|lia|].
  pose proof (ensure_writable_capacity rb n ltac:(done) ltac:(lia) ltac:(lia)).
  rewrite Hv in *. split; [split_and!; [done|done|lia|lia]|]. apply Hroom. lia.
Qed.

Lemma rb_inv_fill rb q d :
  rb_inv rb q -> zlen d <= writable_size rb -> exists rb', rb_fill d rb = Ok rb' /\ rb_inv rb' (q ++ d).
Proof.
  intros (Hwf & Hv & Hc) Hd. destruct (rb_fill_spec rb d Hwf Hd) as (rb' & E & ? & Hv' & Hc').
  exists rb'. split; [done|]. unfold rb_inv. rewrite Hv', Hv, Hc'. done.
Qed.

Lemma rb_inv_consume rb q n :
  rb_inv rb q -> 0 <= n <= zlen q -> rb_inv (consume n rb) (drop (Z.to_nat n) q).
Proof.
  intros (Hwf & Hv & Hc) Hn. rewrite <- Hv in *. destruct (consume_spec rb n Hwf Hn) as (? & Hv2 & Hc2).
  unfold rb_inv. rewrite Hv2, Hc2. done.
Qed.

Lemma rb_reach_inv rb q : rb_reach rb q -> rb_inv rb q.
Proof.
  induction 1 as [|rb q n _ IH Hn Hq|rb q d rb' _ IH Hd E|rb q n _ IH Hn].
  - apply rb_inv_new.
  - by apply rb_inv_ensure.
  - destruct (rb_inv_fill rb q d IH Hd) as (rb2 & E2 & ?). congruence.
  - by apply rb_inv_consume.
Qed.

(** ** Properties *)

(** C33. The receive buffer is a byte queue: along every sequence of
    [ensure_writable], socket reads and [consume] that a link performs, the
    readable view is exactly the bytes received and not yet consumed (no loss,
    no duplication, no reordering across compaction and growth), and each
    request for at most 16 KiB of room is granted. *)
Theorem read_buffer_is_queue rb q :
  rb_reach rb q ->
  rb_view rb = q /\
  (forall n, 0 <= n <= kInitialCapacity -> zlen q < 2 ^ 56 ->
             n <= writable_size (ensure_writable n rb)).
Proof.
  intros (Hwf & Hv & Hc)%rb_reach_inv. split; [done|]. intros n Hn Hq.
  unfold kInitialCapacity in *. apply ensure_writable_spec; [done|lia|lia|left; lia].
Qed.

Definition sample_buffer : ReadBuffer :=
  consume 3 (default (ReadBuffer_new 0)
    (match rb_fill (lit "$5..") (ensure_writable 4 (ReadBuffer_new kInitialCapacity)) with
     | Ok rb => Some rb | _ => None end)).

Lemma read_buffer_is_queue_witness :
  rb_view sample_buffer = lit "." /\
  (forall n, 0 <= n <= kInitialCapacity -> zlen (lit ".") < 2 ^ 56 ->
             n <= writable_size (ensure_writable n sample_buffer)).
Proof.
  apply (read_buffer_is_queue sample_buffer (lit ".")).
  apply (reach_consume _ (lit "$5..") 3); [|by vm_compute].
  apply (reach_fill (ensure_writable 4 (ReadBuffer_new kInitialCapacity)) [] (lit "$5.."));
    [|by vm_compute|by vm_compute].
  apply reach_ensure; [apply reach_new|by vm_compute..].
Defined.

(** Memory of a link is bounded: a request for [n] bytes leaves a storage
    no larger than before or than four times the unread bytes plus the request;
    bytes already consumed never make the buffer grow further. *)
Theorem read_buffer_growth_bounded rb n :
  rb_wf rb -> 0 <= n -> n + 2 * zlen (buf_ rb) < 2 ^ 62 ->
  zlen (buf_ (ensure_writable n rb)) <= Z.max (zlen (buf_ rb)) (4 * (zlen (rb_view rb) + n)).
Proof. apply ensure_writable_capacity. Qed.

Lemma read_buffer_growth_bounded_witness :
  zlen (buf_ (ensure_writable 100 (mkRB (lit "abcdefghijklmnop") 8 16))) <= Z.max 16 (4 * (8 + 100)).
Proof.
  exact (read_buffer_growth_bounded (mkRB (lit "abcdefghijklmnop") 8 16) 100
           ltac:(by vm_compute) ltac:(lia) ltac:(by vm_compute)).
Defined.

(** [ensure_writable(n)] does not always make [n] bytes writable: when
    bytes have been consumed but not compacted and [n] exceeds the doubled
    capacity, the new size leaves out the consumed prefix (the request is
    computed from the live bytes, the room from [size_]). *)
Theorem ensure_writable_can_fall_short :
  exists rb n, rb_wf rb /\ 0 <= n /\ writable_size (ensure_writable n rb) < n.
Proof. exists (mkRB (lit "abcdefghijklmnop") 8 16), 100. by vm_compute. Qed.
