(* ===== verification/Resp2.v ===== *)
(** * The RESP2 layer (src/proto/resp2_parser.cpp, src/proto/resp2_writer.cpp)

    [tryParse] is the incremental parser of the link's receive buffer, written
    with the offsets, [size_t] arithmetic and memory accesses of the source;
    [Resp2Writer] holds the emitters.  [spec_value] is a reference parser on
    byte lists; [tryParse_refines] shows that the offset-based parser computes
    exactly it (and so never reads outside the readable bytes, never wraps and
    never runs out of fuel), and the theorems about framing, streaming and
    round trips are proved on the reference. *)
From S2P Require Import Prelude Absl Buffer.
From Stdlib Require Import Strings.Byte.

(** [struct BulkStringView { const u8* data; size_t size; }] points into the
    receive buffer: [bulk_data] is an index of [buf_]. *)
Record BulkStringView := mkBulkView { bulk_data : Z; bulk_size : Z }.

Inductive Resp2Frame :=
  | Resp2Monostate
  | Resp2BulkFrame (bulk : BulkStringView)
  | Resp2ArrayFrame (elements : list bytes).

Definition kMaxBulkLen : Z := 512 * 1024 * 1024.

Definition CRLF : bytes := [x0d; x0a].

(** The three ways [parseBulkString] returns without an error. *)
Inductive BulkResult :=
  | BulkIncomplete
  | BulkValue (value_off value_len end_off : Z).

Section Resp2Parser.
Context `{AbslOps}.

(** [for (i = from; i + 1 < size; ++i)].  The loop makes at most [size - from]
    iterations; running out of fuel is [UB], which [tryParse_refines] excludes. *)
Fixpoint findCrlf_loop (fuel : nat) (data : bytes) (size i : Z) : res (option Z) :=
  if add64 i 1 <? size then
    match fuel with
    | O => UB
    | S fuel =>
        a ← rd data i;
        if decide (a = x0d) then
          b ← rd data (add64 i 1);
          if decide (b = x0a) then Ok (Some i)
          else findCrlf_loop fuel data size (add64 i 1)
        else findCrlf_loop fuel data size (add64 i 1)
    end
  else Ok None.

Definition findCrlf (data : bytes) (size from : Z) : res (option Z) :=
  if size <? 2 then Ok None
  else findCrlf_loop (Z.to_nat (size - from)) data size from.

Definition parseInt64 (data : bytes) (off len : Z) : res (option Z) :=
  sv ← rdn data off len; Ok (SimpleAtoi INT64_MIN INT64_MAX sv).

Definition parseBulkString (data : bytes) (size off max_bulk : Z) : res BulkResult :=
  if size <=? off then Ok BulkIncomplete else
  marker ← rd data off;
  if decide (marker <> "$"%byte)
  then Err (InvalidArgumentError (lit "expected '$' bulk marker")) else
  hdr ← findCrlf data size (add64 off 1);
  match hdr with
  | None => Ok BulkIncomplete
  | Some hdr_end =>
      parsed ← parseInt64 data (add64 off 1) (sub64 (sub64 hdr_end off) 1);
      match parsed with
      | None => Err (InvalidArgumentError (lit "bad bulk length"))
      | Some len =>
          if len <? 0 then Err (InvalidArgumentError (lit "null bulk not supported")) else
          if max_bulk <? u64 len then
            Err (ResourceExhaustedError
                   (lit "bulk length " ++ StrCatInt len ++ lit " exceeds max " ++
                    StrCatInt max_bulk)) else
          let body_start := add64 hdr_end 2 in
          let body_end := add64 body_start (u64 len) in
          if size <? add64 body_end 2 then Ok BulkIncomplete else
          c1 ← rd data body_end;
          if decide (c1 <> x0d)
          then Err (InvalidArgumentError (lit "missing CRLF after bulk body")) else
          c2 ← rd data (add64 body_end 1);
          if decide (c2 <> x0a)
          then Err (InvalidArgumentError (lit "missing CRLF after bulk body")) else
          Ok (BulkValue body_start (u64 len) (add64 body_end 2))
      end
  end.

(** [for (i64 i = 0; i < n; ++i)] over the elements; [None] is incomplete. *)
Fixpoint parse_elements (n : nat) (data : bytes) (size off max_bulk : Z) (elements : list bytes)
  : res (option (list bytes * Z)) :=
  match n with
  | O => Ok (Some (elements, off))
  | S n =>
      r ← parseBulkString data size off max_bulk;
      match r with
      | BulkIncomplete => Ok None
      | BulkValue vo vl eo =>
          e ← rdn data vo vl;
          parse_elements n data size eo max_bulk (elements ++ [e])
      end
  end.

(** [StatusOr<size_t> tryParse(const ReadBuffer& rb, Resp2Frame& out)]: the
    bytes consumed and the new value of [out]. *)
Definition tryParse (max_bulk : Z) (rb : ReadBuffer) (out : Resp2Frame) : res (Z * Resp2Frame) :=
  let data := rb_view rb in
  let size := rb_size rb in
  if size =? 0 then Ok (0, out) else
  type ← rd data 0;
  if decide (type = "$"%byte) then
    r ← parseBulkString data size 0 max_bulk;
    match r with
    | BulkIncomplete => Ok (0, out)
    | BulkValue vo vl eo => Ok (eo, Resp2BulkFrame (mkBulkView (head_ rb + vo) vl))
    end
  else if decide (type = "*"%byte) then
    hdr ← findCrlf data size 1;
    match hdr with
    | None => Ok (0, out)
    | Some hdr_end =>
        parsed ← parseInt64 data 1 (sub64 hdr_end 1);
        match parsed with
        | None => Err (InvalidArgumentError (lit "bad array length"))
        | Some n =>
            if (n <? 0) || (1024 <? n)
            then Err (InvalidArgumentError (lit "array length out of range")) else
            r ← parse_elements (Z.to_nat n) data size (add64 hdr_end 2) max_bulk [];
            match r with
            | None => Ok (0, out)
            | Some (elements, off) => Ok (off, Resp2ArrayFrame elements)
            end
        end
    end
  else Err (InvalidArgumentError (lit "unexpected RESP2 type byte 0x" ++ StrCatHex2 (b2z type))).
End Resp2Parser.

Module Resp2Writer.
Section Emitters.
Context `{AbslOps}.

Definition writeBulkHeader (out : bytes) (payload_len : Z) : bytes :=
out ++ lit "$" ++ StrCatInt payload_len ++ CRLF.

Definition writeBulk (out payload : bytes) : bytes :=
(writeBulkHeader out (zlen payload) ++ payload) ++ CRLF.

Definition writeArray (out : bytes) (parts : list bytes) : bytes :=
fold_left writeBulk parts (out ++ lit "*" ++ StrCatInt (zlen parts) ++ CRLF).
End Emitters.
End Resp2Writer.

(** ** The reference parser *)

Inductive Resp2Value := VBulk (payload : bytes) | VArray (elements : list bytes).

#[export] Instance Resp2Value_eq_dec : EqDecision Resp2Value.
Proof. solve_decision. Defined.

Inductive parsed (A : Type) :=
  | More
  | Bad (s : Status)
  | Done (v : A) (rest : bytes).
Arguments More {A}.
Arguments Bad {A} s.
Arguments Done {A} v rest.

(** Position of the first CRLF. *)
Fixpoint first_crlf (d : bytes) : option Z :=
  match d with
  | a :: r =>
      match r with
      | b :: _ =>
          if decide (a = x0d /\ b = x0a) then Some 0 else Z.succ <$> first_crlf r
      | [] => None
      end
  | [] => None
  end.

(** A line: the bytes up to the first CRLF, and what follows it. *)
Definition split_line (d : bytes) : option (bytes * bytes) :=
  match first_crlf d with
  | Some k => Some (take (Z.to_nat k) d, drop (Z.to_nat (k + 2)) d)
  | None => None
  end.

Section Reference.
Context `{AbslOps}.

Definition spec_bulk (max_bulk : Z) (d : bytes) : parsed bytes :=
  match d with
  | [] => More
  | marker :: r =>
      if decide (marker <> "$"%byte)
      then Bad (InvalidArgumentError (lit "expected '$' bulk marker")) else
      match split_line r with
      | None => More
      | Some (h, body) =>
          match SimpleAtoi INT64_MIN INT64_MAX h with
          | None => Bad (InvalidArgumentError (lit "bad bulk length"))
          | Some len =>
              if len <? 0 then Bad (InvalidArgumentError (lit "null bulk not supported")) else
              if max_bulk <? len then
                Bad (ResourceExhaustedError
                       (lit "bulk length " ++ StrCatInt len ++ lit " exceeds max " ++
                        StrCatInt max_bulk)) else
              if zlen body <? len + 2 then More else
              match drop (Z.to_nat len) body with
              | c1 :: c2 :: rest =>
                  if decide (c1 = x0d /\ c2 = x0a) then Done (take (Z.to_nat len) body) rest
                  else Bad (InvalidArgumentError (lit "missing CRLF after bulk body"))
              | _ => More
              end
          end
      end
  end.

Fixpoint spec_elements (max_bulk : Z) (n : nat) (d : bytes) : parsed (list bytes) :=
  match n with
  | O => Done [] d
  | S n =>
      match spec_bulk max_bulk d with
      | More => More
      | Bad s => Bad s
      | Done e r =>
          match spec_elements max_bulk n r with
          | More => More
          | Bad s => Bad s
          | Done es r' => Done (e :: es) r'
          end
      end
  end.

Definition spec_value (max_bulk : Z) (d : bytes) : parsed Resp2Value :=
  match d with
  | [] => More
  | type :: r =>
      if decide (type = "$"%byte) then
        match spec_bulk max_bulk d with
        | More => More
        | Bad s => Bad s
        | Done p rest => Done (VBulk p) rest
        end
      else if decide (type = "*"%byte) then
        match split_line r with
        | None => More
        | Some (h, body) =>
            match SimpleAtoi INT64_MIN INT64_MAX h with
            | None => Bad (InvalidArgumentError (lit "bad array length"))
            | Some n =>
                if (n <? 0) || (1024 <? n)
                then Bad (InvalidArgumentError (lit "array length out of range")) else
                match spec_elements max_bulk (Z.to_nat n) body with
                | More => More
                | Bad s => Bad s
                | Done es rest => Done (VArray es) rest
                end
            end
        end
      else Bad (InvalidArgumentError (lit "unexpected RESP2 type byte 0x" ++ StrCatHex2 (b2z type)))
  end.
End Reference.

(** What a parsed frame stands for, given the storage its pointers refer to. *)
Definition resp2_denote (buf : bytes) (rf : Resp2Frame) : option Resp2Value :=
  match rf with
  | Resp2Monostate => None
  | Resp2BulkFrame b => Some (VBulk (slice buf (bulk_data b) (bulk_size b)))
  | Resp2ArrayFrame es => Some (VArray es)
  end.

(** Its pointers stay inside the storage. *)
Definition resp2_valid (buf : bytes) (rf : Resp2Frame) : Prop :=
  match rf with
  | Resp2BulkFrame b =>
      0 <= bulk_data b /\ 0 <= bulk_size b /\ bulk_data b + bulk_size b <= zlen buf
  | _ => True
  end.

(** ** Scanning lemmas *)

Lemma first_crlf_cons a b r :
  first_crlf (a :: b :: r)
  = if decide (a = x0d /\ b = x0a) then Some 0 else Z.succ <$> first_crlf (b :: r).
Proof. done. Qed.

Lemma first_crlf_bound d k : first_crlf d = Some k -> 0 <= k /\ k + 2 <= zlen d.
Proof.
  revert k. induction d as [|a r IH]; intros k; [done|].
  destruct r as [|b r]; [done|]. rewrite first_crlf_cons.
  destruct (decide (a = x0d /\ b = x0a)); [intros [= <-]; rewrite !zlen_cons; pose proof (zlen_nonneg r); lia|].
  destruct (first_crlf (b :: r)) as [j|]; [|done].
  intros [= <-]. destruct (IH j eq_refl). rewrite zlen_cons. lia.
Qed.

Lemma first_crlf_short d : zlen d <= 1 -> first_crlf d = None.
Proof.
  intros Hd. destruct (first_crlf d) as [k|] eqn:E; [|done].
  apply first_crlf_bound in E. lia.
Qed.

Lemma first_crlf_app d e k : first_crlf d = Some k -> first_crlf (d ++ e) = Some k.
Proof.
  revert k. induction d as [|a r IH]; intros k; [done|].
  destruct r as [|b r]; [done|]. cbn [app] in *. rewrite !first_crlf_cons.
  destruct (decide (a = x0d /\ b = x0a)); [done|].
  destruct (first_crlf (b :: r)) as [j|]; [|done].
  intros [= <-]. by rewrite (IH j).
Qed.

(** A header without carriage return is a line of its own. *)
Lemma first_crlf_line h e :
  Forall (fun b => b <> x0d) h -> first_crlf (h ++ CRLF ++ e) = Some (zlen h).
Proof.
  induction 1 as [|b h Hb Hh IH]; [done|].
  cbn [app first_crlf]. destruct (h ++ CRLF ++ e) as [|c r] eqn:E; [by destruct h|].
  rewrite decide_False by tauto. rewrite IH. simpl. by rewrite zlen_cons, Z.add_1_l.
Qed.

Section Refinement.
Context `{AbslOps, !AbslSpec}.
Implicit Types data : bytes.

Lemma findCrlf_loop_spec fuel data i :
  zlen data < 2 ^ 62 -> 0 <= i <= zlen data -> zlen data - i <= Z.of_nat fuel ->
  findCrlf_loop fuel data (zlen data) i
  = Ok (Z.add i <$> first_crlf (drop (Z.to_nat i) data)).
Proof.
  revert i. induction fuel as [|fuel IH]; intros i Hs Hi Hf; cbn [findCrlf_loop];
    rewrite add64_small by lia; destruct (Z.ltb_spec (i + 1) (zlen data));
    try (rewrite first_crlf_short; [done|rewrite zlen_drop by lia; lia]); [lia|].
  destruct (drop_cons_zget data i) as (a & Ha & ->); [lia|].
  destruct (drop_cons_zget data (i + 1)) as (b & Hb & Hd); [lia|].
  rewrite (rd_zget _ _ _ Ha), (rd_zget _ _ _ Hb).
  cbn [mbind res_bind]. rewrite IH by lia. rewrite Hd, first_crlf_cons.
  destruct (first_crlf (b :: _)) as [k|];
    destruct (decide (a = x0d)), (decide (b = x0a)), (decide (a = x0d /\ b = x0a));
    simpl; try tauto; try done; do 2 f_equal; lia.
Qed.

Lemma findCrlf_spec data from :
  zlen data < 2 ^ 62 -> 0 <= from <= zlen data ->
  findCrlf data (zlen data) from = Ok (Z.add from <$> first_crlf (drop (Z.to_nat from) data)).
Proof.
  intros Hs Hf. unfold findCrlf. destruct (Z.ltb_spec (zlen data) 2) as [Hlt|].
  - rewrite first_crlf_short; [done|]. rewrite zlen_drop by lia.
    destruct (Z.eq_dec from 0); lia.
  - apply findCrlf_loop_spec; lia.
Qed.

Lemma parseInt64_spec data off len :
  0 <= off -> 0 <= len -> off + len <= zlen data ->
  parseInt64 data off len = Ok (SimpleAtoi INT64_MIN INT64_MAX (slice data off len)).
Proof. intros. unfold parseInt64. by rewrite rdn_Ok by lia. Qed.

(** The bounds of a parsed bulk: its body lies in the readable bytes. *)
Definition bulk_at data (off vo vl eo : Z) (p rest : bytes) : Prop :=
  0 <= vo /\ vo + vl + 2 = eo /\ off < eo <= zlen data /\ vl = zlen p /\
  slice data vo vl = p /\ drop (Z.to_nat eo) data = rest.

Lemma parseBulkString_spec data off max_bulk :
  zlen data < 2 ^ 62 -> 0 <= off <= zlen data ->
  match spec_bulk max_bulk (drop (Z.to_nat off) data) with
  | More => parseBulkString data (zlen data) off max_bulk = Ok BulkIncomplete
  | Bad s => parseBulkString data (zlen data) off max_bulk = Err s
  | Done p rest => exists vo vl eo,
      parseBulkString data (zlen data) off max_bulk = Ok (BulkValue vo vl eo) /\
      bulk_at data off vo vl eo p rest
  end.
Proof.
  intros Hs Hoff. unfold parseBulkString.
  destruct (Z.leb_spec (zlen data) off) as [Hge|Hlt]; [by rewrite drop_nil_ge|].
  destruct (drop_cons_zget data off) as (mk & Hmk & ->); [lia|].
  rewrite (rd_zget _ _ _ Hmk). cbn [mbind res_bind spec_bulk].
  case_decide; [done|]. rewrite add64_small by lia.
  rewrite findCrlf_spec by lia. unfold split_line.
  destruct (first_crlf (drop (Z.to_nat (off + 1)) data)) as [k|] eqn:Ek; [|done].
  apply first_crlf_bound in Ek. rewrite zlen_drop in Ek by lia.
  cbn [mbind res_bind fmap option_fmap option_map].
  rewrite (sub64_small (off + 1 + k)), sub64_small by lia.
  rewrite parseInt64_spec by lia.
  replace (off + 1 + k - off - 1) with k by lia. cbn [mbind res_bind].
  unfold slice at 1. destruct (SimpleAtoi _ _ _) as [len|] eqn:Ea; [|done].
  apply atoi_range in Ea. unfold INT64_MIN, INT64_MAX in Ea.
  destruct (Z.ltb_spec len 0); [done|]. rewrite (u64_small len) by lia.
  destruct (Z.ltb_spec max_bulk len); [done|].
  rewrite drop_drop_z by lia. rewrite zlen_drop by lia.
  rewrite (add64_small (off + 1 + k)), (add64_small _ len) by lia. rewrite !add64_small by lia.
  replace (off + 1 + (k + 2)) with (off + 1 + k + 2) by lia.
  set (bs := off + 1 + k + 2) in *.
  destruct (Z.ltb_spec (zlen data) (bs + len + 2)), (Z.ltb_spec (zlen data - bs) (len + 2));
    [done|lia|lia|].
  rewrite drop_drop_z by lia.
  destruct (drop_cons_zget data (bs + len)) as (c1 & Hc1 & ->); [lia|].
  destruct (drop_cons_zget data (bs + len + 1)) as (c2 & Hc2 & ->); [lia|].
  rewrite (rd_zget _ _ _ Hc1), (rd_zget _ _ _ Hc2). cbn [mbind res_bind].
  destruct (decide (c1 = x0d /\ c2 = x0a)) as [[-> ->]|Hn].
  - simpl. exists bs, len, (bs + len + 2). split; [done|].
    assert (Hb : zlen (slice data bs len) = len) by (apply zlen_slice; lia).
    unfold bulk_at. unfold slice in Hb. rewrite Hb. split_and!; try done; try lia.
    do 2 f_equal. lia.
  - destruct (decide (c1 <> x0d)); [done|]. destruct (decide (c2 <> x0a)); [done|].
    destruct Hn. split; by apply dec_stable.
Qed.
End Refinement.

Section Refinement2.
Context `{AbslOps, !AbslSpec}.

Lemma parse_elements_spec n data off max_bulk acc :
  zlen data < 2 ^ 62 -> 0 <= off <= zlen data ->
  match spec_elements max_bulk n (drop (Z.to_nat off) data) with
  | More => parse_elements n data (zlen data) off max_bulk acc = Ok None
  | Bad s => parse_elements n data (zlen data) off max_bulk acc = Err s
  | Done es rest => exists off',
      parse_elements n data (zlen data) off max_bulk acc = Ok (Some (acc ++ es, off')) /\
      off <= off' <= zlen data /\ drop (Z.to_nat off') data = rest
  end.
Proof.
  intros Hs. revert off acc. induction n as [|n IH]; intros off acc Hoff; simpl.
  { exists off. rewrite app_nil_r. split; [done|]. split; [lia|done]. }
  pose proof (parseBulkString_spec data off max_bulk Hs Hoff) as Hb.
  destruct (spec_bulk max_bulk (drop (Z.to_nat off) data)) as [|s|p r]; [by rewrite Hb..|].
  destruct Hb as (vo & vl & eo & -> & Hvo & Heo & Hin & Hvl & Hp & Hr).
  pose proof (zlen_nonneg p). simpl. rewrite rdn_Ok by lia. simpl. rewrite Hp.
  specialize (IH eo (acc ++ [p]) ltac:(lia)). rewrite Hr in IH.
  destruct (spec_elements max_bulk n r) as [|s|es r']; [done..|].
  destruct IH as (off' & -> & ? & ?). exists off'. rewrite <- app_assoc. split; [done|]. split; [lia|done].
Qed.

(** The result of [tryParse] that corresponds to a reference result. *)
Definition tryParse_agrees (max_bulk : Z) (rb : ReadBuffer) (out : Resp2Frame) : Prop :=
  match spec_value max_bulk (rb_view rb) with
  | More => tryParse max_bulk rb out = Ok (0, out)
  | Bad s => tryParse max_bulk rb out = Err s
  | Done v rest => exists n rf,
      tryParse max_bulk rb out = Ok (n, rf) /\ 0 < n <= zlen (rb_view rb) /\
      drop (Z.to_nat n) (rb_view rb) = rest /\ resp2_denote (buf_ rb) rf = Some v /\
      resp2_valid (buf_ rb) rf
  end.

Lemma tryParse_refines max_bulk rb out : rb_wf rb -> tryParse_agrees max_bulk rb out.
Proof.
  intros Hwf. pose proof Hwf as (? & ? & ?).
  pose proof (rb_size_wf rb Hwf) as Hsz. pose proof (zlen_view rb Hwf) as Hlen.
  unfold tryParse_agrees, tryParse. rewrite Hsz, <- Hlen.
  remember (rb_view rb) as d eqn:Hd.
  assert (Hs : zlen d < 2 ^ 62) by lia.
  destruct (Z.eqb_spec (zlen d) 0) as [E|E]; [by destruct d|].
  destruct d as [|ty r]; [done|].
  cbn [rd zget]. change (Z.to_nat 0) with 0%nat. cbn [lookup list_lookup spec_value].
  change (rd (ty :: r) 0) with (Ok ty). cbn [mbind res_bind].
  destruct (decide (ty = "$"%byte)).
  - pose proof (parseBulkString_spec (ty :: r) 0 max_bulk Hs ltac:(lia)) as Hb.
    change (Z.to_nat 0) with 0%nat in Hb. rewrite drop_0 in Hb.
    destruct (spec_bulk max_bulk (ty :: r)) as [|s|p rest]; [by rewrite Hb..|].
    destruct Hb as (vo & vl & eo & -> & Hvo & Heo & Hin & Hvl & Hp & Hr).
    pose proof (zlen_nonneg p). eexists _, _. split; [done|]. split_and!; [lia..|done| |simpl; lia].
    simpl. do 2 f_equal. rewrite <- Hp, Hd, rb_view_wf by done. symmetry. apply slice_slice; lia.
  - destruct (decide (ty = "*"%byte)); [|done].
    rewrite findCrlf_spec by lia. change (drop (Z.to_nat 1) (ty :: r)) with r.
    unfold split_line. destruct (first_crlf r) as [k|] eqn:Ek; [|done].
    apply first_crlf_bound in Ek. assert (zlen (ty :: r) = 1 + zlen r) by apply zlen_cons.
    cbn [fmap option_fmap option_map mbind res_bind].
    rewrite sub64_small, add64_small by lia. rewrite parseInt64_spec by lia.
    replace (1 + k - 1) with k by lia. change (slice (ty :: r) 1 k) with (take (Z.to_nat k) r).
    cbn [mbind res_bind]. destruct (SimpleAtoi _ _ _) as [cnt|]; [|done].
    destruct ((cnt <? 0) || (1024 <? cnt)); [done|].
    pose proof (parse_elements_spec (Z.to_nat cnt) (ty :: r) (1 + k + 2) max_bulk [] Hs ltac:(lia)) as He.
    replace (Z.to_nat (1 + k + 2)) with (S (Z.to_nat (k + 2))) in He by lia. cbn [drop] in He.
    destruct (spec_elements _ _ _) as [|s|es rest]; [by rewrite He..|].
    destruct He as (off' & -> & ? & ?). eexists _, _. split; [done|]. by split_and!; try lia.
Qed.
End Refinement2.

(** ** Streaming: more input never changes a decision already taken *)

(** [y] is [x] computed with [e] appended to the input. *)
Definition extends {A} (x y : parsed A) (e : bytes) : Prop :=
  match x with
  | More => True
  | Bad s => y = Bad s
  | Done v r => y = Done v (r ++ e)
  end.

Lemma split_line_app d e h b :
  split_line d = Some (h, b) -> split_line (d ++ e) = Some (h, b ++ e).
Proof.
  unfold split_line. destruct (first_crlf d) as [k|] eqn:E; [|done].
  intros [= <- <-]. rewrite (first_crlf_app _ _ _ E). apply first_crlf_bound in E.
  unfold zlen in E. rewrite take_app_le, drop_app_le by lia. done.
Qed.

Section Streaming.
Context `{AbslOps}.

Lemma spec_bulk_extends m d e : extends (spec_bulk m d) (spec_bulk m (d ++ e)) e.
Proof.
  destruct d as [|c r]; [done|]. cbn [app spec_bulk]. destruct (decide _); [done|].
  destruct (split_line r) as [[h b]|] eqn:E; [|done]. rewrite (split_line_app _ _ _ _ E).
  destruct (SimpleAtoi _ _ h) as [len|]; [|done].
  destruct (Z.ltb_spec len 0); [done|]. destruct (m <? len); [done|].
  destruct (Z.ltb_spec (zlen b) (len + 2)); [done|].
  pose proof (zlen_nonneg e).
  destruct (Z.ltb_spec (zlen (b ++ e)) (len + 2)); [rewrite zlen_app in *; lia|].
  unfold zlen in *. rewrite drop_app_le, take_app_le by lia.
  destruct (drop (Z.to_nat len) b) as [|c1 [|c2 r']]; [done..|].
  cbn [app]. destruct (decide _); done.
Qed.

Lemma spec_elements_extends m n d e :
  extends (spec_elements m n d) (spec_elements m n (d ++ e)) e.
Proof.
  revert d. induction n as [|n IH]; intros d; [done|]. simpl.
  pose proof (spec_bulk_extends m d e) as Hb.
  destruct (spec_bulk m d) as [|s|p r]; [done|by rewrite Hb|]. rewrite Hb.
  specialize (IH r). destruct (spec_elements m n r) as [|s|es r']; [done|by rewrite IH|].
  by rewrite IH.
Qed.

Lemma spec_value_extends m d e : extends (spec_value m d) (spec_value m (d ++ e)) e.
Proof.
  destruct d as [|c r]; [done|]. cbn [app spec_value].
  destruct (decide _).
  - pose proof (spec_bulk_extends m (c :: r) e) as Hb. cbn [app] in Hb.
    destruct (spec_bulk m (c :: r)) as [|s|p r']; [done|by rewrite Hb|]. by rewrite Hb.
  - destruct (decide _); [|done].
    destruct (split_line r) as [[h b]|] eqn:E; [|done]. rewrite (split_line_app _ _ _ _ E).
    destruct (SimpleAtoi _ _ h) as [cnt|]; [|done]. destruct (_ || _); [done|].
    pose proof (spec_elements_extends m (Z.to_nat cnt) b e) as He.
    destruct (spec_elements m _ b) as [|s|es r']; [done|by rewrite He|]. by rewrite He.
Qed.
End Streaming.

(** ** Writing and reading back *)

Section RoundTrip.
Context `{AbslOps, !AbslSpec}.

Definition wire_bulk (p : bytes) : bytes :=
  lit "$" ++ StrCatInt (zlen p) ++ CRLF ++ p ++ CRLF.
Definition wire_array (parts : list bytes) : bytes :=
  lit "*" ++ StrCatInt (zlen parts) ++ CRLF ++ concat (map wire_bulk parts).

Lemma writeBulk_wire out p : Resp2Writer.writeBulk out p = out ++ wire_bulk p.
Proof. unfold Resp2Writer.writeBulk, Resp2Writer.writeBulkHeader, wire_bulk. by rewrite <- !app_assoc. Qed.

Lemma writeArray_wire out parts : Resp2Writer.writeArray out parts = out ++ wire_array parts.
Proof.
  unfold Resp2Writer.writeArray, wire_array.
  assert (Hf : forall ps o, fold_left Resp2Writer.writeBulk ps o = o ++ concat (map wire_bulk ps)).
  { induction ps as [|p ps IH]; intros o; simpl; [by rewrite app_nil_r|].
    by rewrite IH, writeBulk_wire, <- app_assoc. }
  rewrite Hf. by rewrite <- !app_assoc.
Qed.

Lemma digits_no_cr ds : forallb is_digit ds = true -> Forall (fun b => b <> x0d) ds.
Proof.
  induction ds as [|d ds IH]; [constructor|]. simpl. intros [Hd Hds]%andb_true_iff.
  constructor; [|auto]. by intros ->.
Qed.

Lemma split_line_int n e : 0 <= n -> split_line (StrCatInt n ++ CRLF ++ e) = Some (StrCatInt n, e).
Proof.
  intros Hn. destruct (strcat_nonneg n Hn) as (_ & Hd & _). unfold split_line.
  rewrite first_crlf_line by (by apply digits_no_cr).
  rewrite zlen_to_nat, take_app_length, app_assoc. do 2 f_equal.
  replace (Z.to_nat (zlen (StrCatInt n) + 2)) with (length (StrCatInt n ++ CRLF))
    by (unfold zlen; rewrite length_app; cbn [CRLF length]; lia).
  by rewrite drop_app_length.
Qed.

Lemma atoi_strcat n : 0 <= n <= INT64_MAX -> SimpleAtoi INT64_MIN INT64_MAX (StrCatInt n) = Some n.
Proof.
  intros Hn. destruct (strcat_nonneg n ltac:(lia)) as (Hne & Hd & Hv).
  rewrite atoi_digits by done. rewrite Hv. destruct (Z.leb_spec n INT64_MAX); [done|lia].
Qed.

Lemma spec_bulk_wire m p rest :
  zlen p <= m -> zlen p <= INT64_MAX -> spec_bulk m (wire_bulk p ++ rest) = Done p rest.
Proof.
  intros Hm Hi. pose proof (zlen_nonneg p). unfold wire_bulk. rewrite <- !app_assoc.
  change (lit "$") with ["$"%byte]. cbn [app spec_bulk].
  destruct (decide ("$"%byte <> "$"%byte)); [done|].
  rewrite split_line_int, atoi_strcat by lia.
  destruct (Z.ltb_spec (zlen p) 0); [lia|]. destruct (Z.ltb_spec m (zlen p)); [lia|].
  rewrite !zlen_app. pose proof (zlen_nonneg rest).
  change (zlen CRLF) with 2. destruct (Z.ltb_spec (zlen p + (2 + zlen rest)) (zlen p + 2)); [lia|].
  rewrite zlen_to_nat, drop_app_length, take_app_length. done.
Qed.

Lemma spec_elements_wire m parts rest :
  Forall (fun p => zlen p <= m /\ zlen p <= INT64_MAX) parts ->
  spec_elements m (length parts) (concat (map wire_bulk parts) ++ rest) = Done parts rest.
Proof.
  induction 1 as [|p ps [? ?] Hps IH]; [done|]. cbn [map concat length spec_elements].
  rewrite <- app_assoc, spec_bulk_wire by done. by rewrite IH.
Qed.

Lemma spec_value_wire_array m parts rest :
  zlen parts <= 1024 -> Forall (fun p => zlen p <= m /\ zlen p <= INT64_MAX) parts ->
  spec_value m (wire_array parts ++ rest) = Done (VArray parts) rest.
Proof.
  intros Hn Hps. pose proof (zlen_nonneg parts). unfold wire_array. rewrite <- !app_assoc.
  change (lit "*") with ["*"%byte]. cbn [app spec_value].
  rewrite decide_False, decide_True by done. rewrite split_line_int by lia.
  rewrite atoi_strcat by (unfold INT64_MAX; lia).
  destruct (Z.ltb_spec (zlen parts) 0); [lia|]. destruct (Z.ltb_spec 1024 (zlen parts)); [lia|].
  cbn [orb]. rewrite zlen_to_nat, spec_elements_wire by done. done.
Qed.

Lemma wire_bulk_len p : zlen p <= zlen (wire_bulk p).
Proof.
  unfold wire_bulk. rewrite !zlen_app. change (zlen (lit "$")) with 1. change (zlen CRLF) with 2.
  pose proof (zlen_nonneg (StrCatInt (zlen p))). lia.
Qed.

Lemma wire_array_elem parts p : p ∈ parts -> zlen p <= zlen (wire_array parts).
Proof.
  intros Hp. assert (Hc : zlen p <= zlen (concat (map wire_bulk parts))).
  { induction parts as [|q ps IH]; [set_solver|]. cbn [map concat]. rewrite zlen_app.
    pose proof (wire_bulk_len q). pose proof (zlen_nonneg (concat (map wire_bulk ps))).
    pose proof (zlen_nonneg q). apply elem_of_cons in Hp as [->|Hp%IH]; lia. }
  unfold wire_array. rewrite !zlen_app. pose proof (zlen_nonneg (StrCatInt (zlen parts))).
  pose proof (zlen_nonneg (lit "*")). pose proof (zlen_nonneg CRLF). lia.
Qed.

Lemma spec_value_wire_bulk m p rest :
  zlen p <= m -> zlen p <= INT64_MAX -> spec_value m (wire_bulk p ++ rest) = Done (VBulk p) rest.
Proof.
  intros ? ?. pose proof (spec_bulk_wire m p rest ltac:(done) ltac:(done)) as E.
  destruct (wire_bulk p ++ rest) as [|c r] eqn:Ew; [done|].
  assert (c = "$"%byte) as -> by (unfold wire_bulk in Ew; cbn in Ew; congruence).
  cbn [spec_value]. rewrite decide_True by done. by rewrite E.
Qed.
End RoundTrip.

(** ** The wire grammar

    [bulk_image m p w]: [w] is a wire image of the bulk string [p] (any header
    spelling [SimpleAtoi] accepts for its length); [value_image] is the same for
    a top-level value. *)
Section Grammar.
Context `{AbslOps, !AbslSpec}.

Definition header_image (h : bytes) (n : Z) : Prop :=
  first_crlf (h ++ CRLF) = Some (zlen h) /\ SimpleAtoi INT64_MIN INT64_MAX h = Some n.

Inductive bulk_image (m : Z) : bytes -> bytes -> Prop :=
  | bulk_image_intro h p :
      header_image h (zlen p) -> zlen p <= m ->
      bulk_image m p (lit "$" ++ h ++ CRLF ++ p ++ CRLF).

Inductive elements_image (m : Z) : list bytes -> bytes -> Prop :=
  | elements_image_nil : elements_image m [] []
  | elements_image_cons p w ps ws :
      bulk_image m p w -> elements_image m ps ws -> elements_image m (p :: ps) (w ++ ws).

Inductive value_image (m : Z) : Resp2Value -> bytes -> Prop :=
  | value_image_bulk p w : bulk_image m p w -> value_image m (VBulk p) w
  | value_image_array h es w :
      header_image h (zlen es) -> zlen es <= 1024 -> elements_image m es w ->
      value_image m (VArray es) (lit "*" ++ h ++ CRLF ++ w).

(** What is not a value yet: the readable bytes end before the value does, and
    everything read so far is well formed.  [first_crlf r = None] says that no
    CRLF has arrived. *)
Inductive bulk_more (m : Z) : bytes -> Prop :=
  | bulk_more_nothing : bulk_more m []
  | bulk_more_header r : first_crlf r = None -> bulk_more m (lit "$" ++ r)
  | bulk_more_body h n b :
      header_image h n -> 0 <= n <= m -> zlen b < n + 2 ->
      bulk_more m (lit "$" ++ h ++ CRLF ++ b).

Inductive elements_more (m n : Z) : bytes -> Prop :=
  | elements_more_intro es w d :
      elements_image m es w -> zlen es < n -> bulk_more m d -> elements_more m n (w ++ d).

Inductive value_more (m : Z) : bytes -> Prop :=
  | value_more_nothing : value_more m []
  | value_more_bulk r : bulk_more m (lit "$" ++ r) -> value_more m (lit "$" ++ r)
  | value_more_header r : first_crlf r = None -> value_more m (lit "*" ++ r)
  | value_more_elements h n d :
      header_image h n -> 0 <= n <= 1024 -> elements_more m n d ->
      value_more m (lit "*" ++ h ++ CRLF ++ d).

(** What can no longer become a value, with the error it is answered with. *)
Inductive bulk_bad (m : Z) : Status -> bytes -> Prop :=
  | bulk_bad_marker c r :
      c <> "$"%byte ->
      bulk_bad m (InvalidArgumentError (lit "expected '$' bulk marker")) (c :: r)
  | bulk_bad_length h b :
      first_crlf (h ++ CRLF) = Some (zlen h) -> SimpleAtoi INT64_MIN INT64_MAX h = None ->
      bulk_bad m (InvalidArgumentError (lit "bad bulk length")) (lit "$" ++ h ++ CRLF ++ b)
  | bulk_bad_null h n b :
      header_image h n -> n < 0 ->
      bulk_bad m (InvalidArgumentError (lit "null bulk not supported"))
               (lit "$" ++ h ++ CRLF ++ b)
  | bulk_bad_large h n b :
      header_image h n -> 0 <= n -> m < n ->
      bulk_bad m (ResourceExhaustedError
                    (lit "bulk length " ++ StrCatInt n ++ lit " exceeds max " ++ StrCatInt m))
               (lit "$" ++ h ++ CRLF ++ b)
  | bulk_bad_end h p c1 c2 rest :
      header_image h (zlen p) -> zlen p <= m -> ~ (c1 = x0d /\ c2 = x0a) ->
      bulk_bad m (InvalidArgumentError (lit "missing CRLF after bulk body"))
               (lit "$" ++ h ++ CRLF ++ p ++ c1 :: c2 :: rest).

Inductive elements_bad (m n : Z) (s : Status) : bytes -> Prop :=
  | elements_bad_intro es w d :
      elements_image m es w -> zlen es < n -> bulk_bad m s d -> elements_bad m n s (w ++ d).

Inductive value_bad (m : Z) : Status -> bytes -> Prop :=
  | value_bad_bulk s r : bulk_bad m s (lit "$" ++ r) -> value_bad m s (lit "$" ++ r)
  | value_bad_length h d :
      first_crlf (h ++ CRLF) = Some (zlen h) -> SimpleAtoi INT64_MIN INT64_MAX h = None ->
      value_bad m (InvalidArgumentError (lit "bad array length")) (lit "*" ++ h ++ CRLF ++ d)
  | value_bad_range h n d :
      header_image h n -> n < 0 \/ 1024 < n ->
      value_bad m (InvalidArgumentError (lit "array length out of range"))
                (lit "*" ++ h ++ CRLF ++ d)
  | value_bad_elements h n s d :
      header_image h n -> 0 <= n <= 1024 -> elements_bad m n s d ->
      value_bad m s (lit "*" ++ h ++ CRLF ++ d)
  | value_bad_type c r :
      c <> "$"%byte -> c <> "*"%byte ->
      value_bad m (InvalidArgumentError
                     (lit "unexpected RESP2 type byte 0x" ++ StrCatHex2 (b2z c))) (c :: r).

Lemma first_crlf_prefix d k :
  first_crlf d = Some k ->
  d = take (Z.to_nat k) d ++ CRLF ++ drop (Z.to_nat (k + 2)) d /\
  first_crlf (take (Z.to_nat k) d ++ CRLF) = Some k.
Proof.
  revert k. induction d as [|a r IH]; intros k; [done|].
  destruct r as [|b r]; [done|]. rewrite first_crlf_cons.
  destruct (decide (a = x0d /\ b = x0a)) as [[-> ->]|Hn]; [by intros [= <-]|].
  destruct (first_crlf (b :: r)) as [j|] eqn:Ej; [|done]. simpl. intros [= <-].
  pose proof (first_crlf_bound _ _ Ej). destruct (IH j eq_refl) as [Hd Hf].
  replace (Z.to_nat (Z.succ j)) with (S (Z.to_nat j)) by lia.
  replace (Z.to_nat (Z.succ j + 2)) with (S (Z.to_nat (j + 2))) by lia.
  cbn [take drop app]. split; [f_equal; exact Hd|].
  destruct (take (Z.to_nat j) (b :: r) ++ CRLF) as [|c t] eqn:Ec; [done|].
  assert (c = b) as ->.
  { clear Hf. generalize dependent (Z.to_nat j). intros [|i] Hd Ec; cbn in Hd, Ec;
      unfold CRLF in Ec; congruence. }
  rewrite first_crlf_cons, decide_False by done. by rewrite Hf.
Qed.

Lemma split_line_inv d h b :
  split_line d = Some (h, b) -> d = h ++ CRLF ++ b /\ first_crlf (h ++ CRLF) = Some (zlen h).
Proof.
  unfold split_line. destruct (first_crlf d) as [k|] eqn:E; [|done]. intros [= <- <-].
  destruct (first_crlf_prefix d k E) as [Hd Hf]. split; [done|].
  rewrite Hf. f_equal. apply first_crlf_bound in E. unfold zlen in *.
  rewrite length_take. lia.
Qed.

Lemma split_line_intro h b :
  first_crlf (h ++ CRLF) = Some (zlen h) -> split_line (h ++ CRLF ++ b) = Some (h, b).
Proof.
  intros E. unfold split_line. rewrite app_assoc, (first_crlf_app _ _ _ E).
  rewrite zlen_to_nat, <- app_assoc, take_app_length, app_assoc. do 2 f_equal.
  replace (Z.to_nat (zlen h + 2)) with (length (h ++ CRLF))
    by (unfold zlen; rewrite length_app; cbn [CRLF length]; lia).
  by rewrite drop_app_length.
Qed.

Lemma spec_bulk_sound m d p rest :
  spec_bulk m d = Done p rest -> exists w, bulk_image m p w /\ d = w ++ rest.
Proof.
  destruct d as [|c r]; [done|]. cbn [spec_bulk]. destruct (decide _) as [|Hc%dec_stable]; [done|].
  destruct (split_line r) as [[h b]|] eqn:E; [|done].
  apply split_line_inv in E as [-> Hh].
  destruct (SimpleAtoi _ _ h) as [len|] eqn:Ea; [|done].
  destruct (Z.ltb_spec len 0); [done|]. destruct (Z.ltb_spec m len); [done|].
  destruct (Z.ltb_spec (zlen b) (len + 2)); [done|].
  destruct (drop (Z.to_nat len) b) as [|c1 [|c2 r']] eqn:Ed; [done..|].
  destruct (decide _) as [[-> ->]|]; [|done]. intros [= <- <-].
  assert (Hl : zlen (take (Z.to_nat len) b) = len)
    by (unfold zlen in *; rewrite length_take; lia).
  exists (lit "$" ++ h ++ CRLF ++ take (Z.to_nat len) b ++ CRLF). split.
  - apply bulk_image_intro; [by rewrite Hl|lia].
  - rewrite Hc, <- !app_assoc. cbn [app lit]. change (lit "$") with ["$"%byte]. cbn [app].
    do 3 f_equal. rewrite <- (take_drop (Z.to_nat len) b) at 1. by rewrite Ed.
Qed.

Lemma spec_bulk_complete m p w rest :
  bulk_image m p w -> spec_bulk m (w ++ rest) = Done p rest.
Proof.
  intros [h p' [Hh Ha] Hm]. rewrite <- !app_assoc. change (lit "$") with ["$"%byte].
  cbn [app spec_bulk]. destruct (decide ("$"%byte <> "$"%byte)); [done|].
  rewrite split_line_intro by done. rewrite Ha.
  pose proof (zlen_nonneg p'). pose proof (zlen_nonneg rest).
  destruct (Z.ltb_spec (zlen p') 0); [lia|]. destruct (Z.ltb_spec m (zlen p')); [lia|].
  rewrite !zlen_app. change (zlen CRLF) with 2.
  destruct (Z.ltb_spec (zlen p' + (2 + zlen rest)) (zlen p' + 2)); [lia|].
  by rewrite zlen_to_nat, drop_app_length, take_app_length.
Qed.

Lemma spec_elements_sound m n d es rest :
  spec_elements m n d = Done es rest ->
  exists w, elements_image m es w /\ d = w ++ rest /\ length es = n.
Proof.
  revert d es. induction n as [|n IH]; intros d es; simpl.
  { intros [= <- <-]. exists []. split; [constructor|done]. }
  destruct (spec_bulk m d) as [|s|p r] eqn:Eb; [done..|].
  destruct (spec_elements m n r) as [|s|ps r'] eqn:Ee; [done..|]. intros [= <- <-].
  apply spec_bulk_sound in Eb as (w & Hw & ->).
  apply IH in Ee as (ws & Hws & -> & Hl). exists (w ++ ws).
  split; [by constructor|]. split; [by rewrite <- app_assoc|]. simpl. by rewrite Hl.
Qed.

Lemma spec_elements_complete m es w rest :
  elements_image m es w -> spec_elements m (length es) (w ++ rest) = Done es rest.
Proof.
  induction 1 as [|p w ps ws Hp Hps IH]; [done|]. cbn [length spec_elements].
  rewrite <- app_assoc, (spec_bulk_complete _ _ _ _ Hp). by rewrite IH.
Qed.

Lemma spec_value_sound m d v rest :
  spec_value m d = Done v rest -> exists w, value_image m v w /\ d = w ++ rest.
Proof.
  destruct d as [|c r]; [done|]. cbn [spec_value]. destruct (decide _) as [->|].
  - destruct (spec_bulk m _) as [|s|p r'] eqn:Eb; [done..|]. intros [= <- <-].
    apply spec_bulk_sound in Eb as (w & Hw & ->). exists w. split; [by constructor|done].
  - destruct (decide _) as [->|]; [|done].
    destruct (split_line r) as [[h b]|] eqn:E; [|done]. apply split_line_inv in E as [-> Hh].
    destruct (SimpleAtoi _ _ h) as [cnt|] eqn:Ea; [|done].
    destruct (Z.ltb_spec cnt 0); [done|]. destruct (Z.ltb_spec 1024 cnt); [done|]. cbn [orb].
    destruct (spec_elements _ _ _) as [|s|es r'] eqn:Ee; [done..|]. intros [= <- <-].
    apply spec_elements_sound in Ee as (w & Hw & -> & Hl).
    assert (Hz : zlen es = cnt) by (unfold zlen; lia).
    exists (lit "*" ++ h ++ CRLF ++ w). split; [|by rewrite <- !app_assoc].
    constructor; [by rewrite Hz|lia|done].
Qed.

Lemma spec_value_complete m v w rest :
  value_image m v w -> spec_value m (w ++ rest) = Done v rest.
Proof.
  intros [p w' Hp|h es w' [Hh Ha] Hn Hes].
  - pose proof (spec_bulk_complete _ _ _ rest Hp) as E. destruct Hp as [h p Hh Hm].
    cbn [spec_value]. rewrite <- !app_assoc in *. change (lit "$") with ["$"%byte] in *.
    cbn [app spec_value] in *. rewrite decide_True by done. by rewrite E.
  - rewrite <- !app_assoc. change (lit "*") with ["*"%byte]. cbn [app spec_value].
    rewrite decide_False, decide_True by done. rewrite split_line_intro by done. rewrite Ha.
    pose proof (zlen_nonneg es).
    destruct (Z.ltb_spec (zlen es) 0); [lia|]. destruct (Z.ltb_spec 1024 (zlen es)); [lia|].
    cbn [orb]. rewrite zlen_to_nat. by rewrite (spec_elements_complete _ _ _ _ Hes).
Qed.

(** *** The other two verdicts *)

Lemma split_line_none d : split_line d = None <-> first_crlf d = None.
Proof. unfold split_line. by destruct (first_crlf d). Qed.

Lemma spec_bulk_not_done m d :
  match spec_bulk m d with
  | More => bulk_more m d
  | Bad s => bulk_bad m s d
  | Done _ _ => True
  end.
Proof.
  destruct d as [|c r]; [constructor|]. cbn [spec_bulk].
  destruct (decide _) as [|Hc%dec_stable]; [by constructor|]. subst c.
  change ("$"%byte :: r) with (lit "$" ++ r).
  destruct (split_line r) as [[h b]|] eqn:E; [|by apply split_line_none in E; constructor].
  apply split_line_inv in E as [-> Hh].
  destruct (SimpleAtoi _ _ h) as [len|] eqn:Ea; [|by constructor].
  destruct (Z.ltb_spec len 0); [by econstructor|].
  destruct (Z.ltb_spec m len); [by econstructor|].
  destruct (Z.ltb_spec (zlen b) (len + 2)); [by econstructor|].
  destruct (drop (Z.to_nat len) b) as [|c1 [|c2 r']] eqn:Ed;
    [apply (f_equal zlen) in Ed; rewrite zlen_drop in Ed by lia;
     rewrite ?zlen_cons in Ed; change (zlen (A:=byte) []) with 0 in Ed; lia..|].
  destruct (decide _); [done|].
  assert (Hl : zlen (take (Z.to_nat len) b) = len)
    by (unfold zlen in *; rewrite length_take; lia).
  rewrite <- (take_drop (Z.to_nat len) b), Ed. apply bulk_bad_end; [by rewrite Hl|lia|done].
Qed.

Lemma spec_bulk_more m d : bulk_more m d -> spec_bulk m d = More.
Proof.
  intros [|r E|h n b [Hh Ha] Hn Hb]; [done|..]; change (lit "$") with ["$"%byte];
    cbn [app spec_bulk]; rewrite decide_False by (intros []; done).
  - by apply split_line_none in E as ->.
  - rewrite split_line_intro, Ha by done.
    destruct (Z.ltb_spec n 0); [lia|]. destruct (Z.ltb_spec m n); [lia|].
    destruct (Z.ltb_spec (zlen b) (n + 2)); [done|lia].
Qed.

Lemma spec_bulk_bad m s d : bulk_bad m s d -> spec_bulk m d = Bad s.
Proof.
  intros [c r Hc|h b Hh Ha|h n b [Hh Ha] Hn|h n b [Hh Ha] Hge Hn|h p c1 c2 rest [Hh Ha] Hp Hc];
    [cbn [spec_bulk]; by rewrite decide_True by done|..];
    change (lit "$") with ["$"%byte]; cbn [app spec_bulk];
    rewrite decide_False by (intros []; done); rewrite split_line_intro, Ha by done; [done|..].
  - by destruct (Z.ltb_spec n 0); [|lia].
  - destruct (Z.ltb_spec n 0); [lia|]. by destruct (Z.ltb_spec m n); [|lia].
  - pose proof (zlen_nonneg p). pose proof (zlen_nonneg rest).
    destruct (Z.ltb_spec (zlen p) 0); [lia|]. destruct (Z.ltb_spec m (zlen p)); [lia|].
    rewrite zlen_app, !zlen_cons.
    destruct (Z.ltb_spec (zlen p + (1 + (1 + zlen rest))) (zlen p + 2)); [lia|].
    rewrite zlen_to_nat, drop_app_length. cbv beta iota. by rewrite decide_False by done.
Qed.

Lemma elements_more_here m n d : 0 < n -> bulk_more m d -> elements_more m n d.
Proof. intros Hn Hd. by apply (elements_more_intro m n [] [] d); [constructor|..]. Qed.

Lemma elements_bad_here m n s d : 0 < n -> bulk_bad m s d -> elements_bad m n s d.
Proof. intros Hn Hd. by apply (elements_bad_intro m n s [] [] d); [constructor|..]. Qed.

Lemma elements_more_next m n p w d :
  bulk_image m p w -> elements_more m n d -> elements_more m (n + 1) (w ++ d).
Proof.
  intros Hp [es ws d' Hes Hn Hd]. rewrite app_assoc. apply (elements_more_intro m _ (p :: es)).
  - by constructor.
  - rewrite zlen_cons. lia.
  - done.
Qed.

Lemma elements_bad_next m n s p w d :
  bulk_image m p w -> elements_bad m n s d -> elements_bad m (n + 1) s (w ++ d).
Proof.
  intros Hp [es ws d' Hes Hn Hd]. rewrite app_assoc. apply (elements_bad_intro m _ s (p :: es)).
  - by constructor.
  - rewrite zlen_cons. lia.
  - done.
Qed.

Lemma spec_elements_not_done m n d :
  match spec_elements m n d with
  | More => elements_more m (Z.of_nat n) d
  | Bad s => elements_bad m (Z.of_nat n) s d
  | Done _ _ => True
  end.
Proof.
  revert d. induction n as [|n IH]; intros d; cbn [spec_elements]; [done|].
  pose proof (spec_bulk_not_done m d) as Hb.
  destruct (spec_bulk m d) as [|s|p r] eqn:Eb;
    [apply elements_more_here; [lia|done]|apply elements_bad_here; [lia|done]|].
  apply spec_bulk_sound in Eb as (w & Hw & ->). specialize (IH r).
  destruct (spec_elements m n r) as [|s|ps r']; [..|done];
    rewrite Nat2Z.inj_succ, <- Z.add_1_r.
  - by eapply elements_more_next.
  - by eapply elements_bad_next.
Qed.

(** Elements that parse are skipped. *)
Lemma spec_elements_skip m es w d n :
  elements_image m es w -> (length es < n)%nat ->
  spec_elements m n (w ++ d)
  = match spec_elements m (n - length es) d with
    | More => More
    | Bad s => Bad s
    | Done es' r => Done (es ++ es') r
    end.
Proof.
  intros Hes. revert n. induction Hes as [|p w ps ws Hp Hps IH]; intros n Hn.
  - cbn [app length]. rewrite Nat.sub_0_r. by destruct (spec_elements m n d).
  - destruct n as [|n]; [cbn in Hn; lia|]. cbn [spec_elements length Nat.sub] in *.
    rewrite <- app_assoc, (spec_bulk_complete _ _ _ _ Hp), IH by lia.
    by destruct (spec_elements m (n - length ps) d).
Qed.

Lemma spec_elements_more m n d :
  elements_more m n d -> spec_elements m (Z.to_nat n) d = More.
Proof.
  intros [es w d' Hes Hn Hd]. unfold zlen in Hn. rewrite (spec_elements_skip m es) by (done || lia).
  destruct (Z.to_nat n - length es)%nat eqn:E; [lia|]. cbn [spec_elements].
  by rewrite (spec_bulk_more _ _ Hd).
Qed.

Lemma spec_elements_bad m n s d :
  elements_bad m n s d -> spec_elements m (Z.to_nat n) d = Bad s.
Proof.
  intros [es w d' Hes Hn Hd]. unfold zlen in Hn. rewrite (spec_elements_skip m es) by (done || lia).
  destruct (Z.to_nat n - length es)%nat eqn:E; [lia|]. cbn [spec_elements].
  by rewrite (spec_bulk_bad _ _ _ Hd).
Qed.

Lemma spec_value_not_done m d :
  match spec_value m d with
  | More => value_more m d
  | Bad s => value_bad m s d
  | Done _ _ => True
  end.
Proof.
  destruct d as [|c r]; [constructor|]. cbn [spec_value].
  destruct (decide (c = "$"%byte)) as [->|Hd].
  { change ("$"%byte :: r) with (lit "$" ++ r). pose proof (spec_bulk_not_done m (lit "$" ++ r)).
    destruct (spec_bulk m _); [by constructor..|done]. }
  destruct (decide (c = "*"%byte)) as [->|Hs]; [|by constructor].
  change ("*"%byte :: r) with (lit "*" ++ r).
  destruct (split_line r) as [[h b]|] eqn:E; [|by apply split_line_none in E; constructor].
  apply split_line_inv in E as [-> Hh].
  destruct (SimpleAtoi _ _ h) as [n|] eqn:Ea; [|by constructor].
  destruct (Z.ltb_spec n 0); [by apply (value_bad_range m h n b); [|left]|].
  destruct (Z.ltb_spec 1024 n); [by apply (value_bad_range m h n b); [|right]|]. cbn [orb].
  pose proof (spec_elements_not_done m (Z.to_nat n) b) as He. rewrite Z2Nat.id in He by done.
  destruct (spec_elements m (Z.to_nat n) b); [..|done].
  - by apply (value_more_elements m h n).
  - by apply (value_bad_elements m h n).
Qed.

Lemma spec_value_more m d : value_more m d -> spec_value m d = More.
Proof.
  intros [|r Hr|r E|h n d' [Hh Ha] Hn Hd]; [done|apply spec_bulk_more in Hr|..];
    [change (lit "$") with ["$"%byte] in *|change (lit "*") with ["*"%byte]..];
    cbn [app spec_value] in *; [rewrite decide_True by done; by rewrite Hr|..];
    rewrite decide_False, decide_True by done.
  - by apply split_line_none in E as ->.
  - rewrite split_line_intro, Ha by done.
    destruct (Z.ltb_spec n 0); [lia|]. destruct (Z.ltb_spec 1024 n); [lia|]. cbn [orb].
    by rewrite (spec_elements_more _ _ _ Hd).
Qed.

Lemma spec_value_bad m s d : value_bad m s d -> spec_value m d = Bad s.
Proof.
  intros [s' r Hr|h d' Hh Ha|h n d' [Hh Ha] Hn|h n s' d' [Hh Ha] Hn Hd|c r Hc1 Hc2];
    [apply spec_bulk_bad in Hr; change (lit "$") with ["$"%byte] in *
    |change (lit "*") with ["*"%byte]..|]; cbn [app spec_value] in *;
    [rewrite decide_True by done; by rewrite Hr|..|by rewrite !decide_False by done];
    rewrite decide_False, decide_True by done; rewrite split_line_intro, Ha by done; [done|..].
  - destruct (Z.ltb_spec n 0), (Z.ltb_spec 1024 n); cbn [orb]; [done..|lia].
  - destruct (Z.ltb_spec n 0); [lia|]. destruct (Z.ltb_spec 1024 n); [lia|]. cbn [orb].
    by rewrite (spec_elements_bad _ _ _ _ Hd).
Qed.

Lemma value_image_nonempty m v w : value_image m v w -> w <> [].
Proof. intros [p w' []|]; done. Qed.
End Grammar.

(** ** Properties *)

(** A buffer that has received exactly [s]. *)
Definition rb_of (s : bytes) : ReadBuffer := mkRB s 0 (zlen s).

Lemma rb_of_wf s : zlen s < 2 ^ 62 -> rb_wf (rb_of s).
Proof. pose proof (zlen_nonneg s). unfold rb_wf. simpl. lia. Qed.

Section Properties.
Context `{AbslOps, !AbslSpec}.

(** C1. The parser decides the RESP2 subset of the protocol exactly, and each
    of its three verdicts is characterised.  It returns a value and [n > 0]
    consumed bytes if and only if the readable bytes start with a wire image of
    that value, of [n] bytes; it answers [0] (wait for more bytes, [out]
    untouched) if and only if they are a proper beginning, well formed so far,
    of an image; and it answers the error [s] if and only if they are malformed
    in the way [s] names.  There is no other outcome: no byte outside the
    readable ones is accessed and the scans terminate. *)
Theorem tryParse_exact m rb out :
  rb_wf rb ->
  (forall v n,
     (exists rf, tryParse m rb out = Ok (n, rf) /\ 0 < n /\ resp2_denote (buf_ rb) rf = Some v) <->
     (exists w rest, value_image m v w /\ rb_view rb = w ++ rest /\ n = zlen w)) /\
  (forall rf, (tryParse m rb out = Ok (0, rf)) <-> (rf = out /\ value_more m (rb_view rb))) /\
  (forall s, tryParse m rb out = Err s <-> value_bad m s (rb_view rb)) /\
  match tryParse m rb out with
  | Ok (n, rf) => 0 <= n /\ (0 < n -> exists v, resp2_denote (buf_ rb) rf = Some v)
  | Err _ => True
  | UB => False
  end.
Proof.
  intros Hwf. pose proof (tryParse_refines m rb out Hwf) as Hr. unfold tryParse_agrees in Hr.
  pose proof (spec_value_not_done m (rb_view rb)) as Hnd.
  pose proof (spec_value_more m (rb_view rb)) as Hmore.
  pose proof (fun s => spec_value_bad m s (rb_view rb)) as Hbad.
  assert (Himg : forall v w rest, value_image m v w -> rb_view rb = w ++ rest ->
                   spec_value m (rb_view rb) = Done v rest)
    by (intros v w rest Hw ->; by apply spec_value_complete).
  destruct (spec_value m (rb_view rb)) as [|s|v rest] eqn:Ev.
  - rewrite Hr. split_and!; [|naive_solver..|lia].
    intros v n. split; [intros (rf & [= <- <-] & ? & ?); lia|].
    intros (w & rest & Hw & Hv & ->). by specialize (Himg _ _ _ Hw Hv).
  - rewrite Hr. split_and!; [|naive_solver..|done].
    intros v n. split; [by intros (rf & ? & _)|].
    intros (w & rest & Hw & Hv & ->). by specialize (Himg _ _ _ Hw Hv).
  - destruct Hr as (n & rf & -> & Hn & Hd & Hden & _).
    apply spec_value_sound in Ev as (w & Hw & Hvw).
    assert (Hnw : n = zlen w).
    { apply (f_equal zlen) in Hd; apply (f_equal zlen) in Hvw. rewrite zlen_drop in Hd by lia.
      rewrite zlen_app in Hvw. lia. }
    split_and!; [|naive_solver lia..|intros _; by exists v].
    intros v' n'. split.
    + intros (rf' & [= <- <-] & _ & Hden'). assert (v' = v) as -> by congruence. eauto.
    + intros (w' & rest' & Hw' & Hv' & ->). pose proof (Himg _ _ _ Hw' Hv') as [= <- <-].
      rewrite Hv' in Hvw. apply app_inv_tail in Hvw as ->. exists rf. subst n.
      split_and!; [done|lia|done].
Qed.

(** Parsing is memory safe and terminates: for every content of the
    receive buffer, a result is returned and no byte outside the readable
    view is accessed (no access is [UB], and the scans never run out of
    fuel). *)
Theorem tryParse_safe m rb out : rb_wf rb -> tryParse m rb out <> UB.
Proof.
  intros Hwf. pose proof (tryParse_refines m rb out Hwf) as Hr. unfold tryParse_agrees in Hr.
  destruct (spec_value m (rb_view rb)); [congruence..|]. destruct Hr as (? & ? & ? & _). congruence.
Qed.

(** Parsing is insensitive to how the stream is cut: once a value or an
    error has been decided, bytes that arrive later change neither the number
    of bytes consumed, nor the value, nor the error. *)
Theorem tryParse_incremental m rb rb' out e :
  rb_wf rb -> rb_wf rb' -> rb_view rb' = rb_view rb ++ e ->
  match tryParse m rb out with
  | Ok (n, rf) => 0 < n -> exists rf', tryParse m rb' out = Ok (n, rf') /\
                    resp2_denote (buf_ rb') rf' = resp2_denote (buf_ rb) rf
  | Err s => tryParse m rb' out = Err s
  | UB => False
  end.
Proof.
  intros Hwf Hwf' He.
  pose proof (tryParse_refines m rb out Hwf) as Hr. unfold tryParse_agrees in Hr.
  pose proof (tryParse_refines m rb' out Hwf') as Hr'. unfold tryParse_agrees in Hr'.
  pose proof (spec_value_extends m (rb_view rb) e) as Hx. rewrite He in Hr'.
  destruct (spec_value m (rb_view rb)) as [|s|v rest]; simpl in Hx; try rewrite Hx in Hr'.
  - rewrite Hr. lia.
  - by rewrite Hr, Hr'.
  - destruct Hr as (n & rf & -> & Hn & Hd & Hv & _), Hr' as (n' & rf' & -> & Hn' & Hd' & Hv' & _).
    intros _. exists rf'. rewrite Hv, Hv'. split; [|done]. do 2 f_equal.
    apply (f_equal zlen) in Hd, Hd'. rewrite zlen_drop in Hd by lia.
    rewrite zlen_drop, !zlen_app in Hd' by lia. lia.
Qed.

(** Round trip: what [Resp2Writer::writeArray] appends to the stream,
    [tryParse] gives back as the same elements, consuming exactly those
    bytes, whatever follows them. *)
Theorem writeArray_tryParse m rb out parts rest :
  rb_wf rb -> zlen parts <= 1024 -> Forall (fun p => zlen p <= m) parts ->
  rb_view rb = Resp2Writer.writeArray [] parts ++ rest ->
  tryParse m rb out = Ok (zlen (Resp2Writer.writeArray [] parts), Resp2ArrayFrame parts).
Proof.
  intros Hwf Hn Hm Hv. rewrite writeArray_wire in *. cbn [app] in *.
  pose proof (tryParse_refines m rb out Hwf) as Hr. unfold tryParse_agrees in Hr.
  rewrite Hv, spec_value_wire_array in Hr; [|done|].
  - destruct Hr as (n & rf & -> & Hb & Hd & Hden & _).
    destruct rf; simpl in Hden; simplify_eq. do 2 f_equal.
    apply (f_equal zlen) in Hd. rewrite zlen_app in Hb.
    rewrite zlen_drop, zlen_app in Hd by (rewrite zlen_app; lia). lia.
  - apply Forall_forall. intros p Hp. rewrite Forall_forall in Hm. split; [auto|].
    assert (Hl : zlen p <= zlen (rb_view rb)).
    { rewrite Hv, zlen_app. pose proof (wire_array_elem parts p Hp).
      pose proof (zlen_nonneg rest). lia. }
    rewrite zlen_view in Hl by done. destruct Hwf as (? & ? & ?). unfold INT64_MAX. lia.
Qed.
End Properties.

(** Witnesses: the frames of the repository's own tests. *)
Definition hello_wire : bytes := Resp2Writer.writeArray [] [lit "HELLO"; lit "1"; lit "mux"].

Example hello_wire_text :
  hello_wire = lit "*3" ++ CRLF ++ lit "$5" ++ CRLF ++ lit "HELLO" ++ CRLF ++ lit "$1" ++ CRLF ++
               lit "1" ++ CRLF ++ lit "$3" ++ CRLF ++ lit "mux" ++ CRLF.
Proof. reflexivity. Qed.

(** The three verdicts: the frame is read in full; without its last byte it is
    waited for; with a bulk length in place of the array marker's count it is
    refused. *)
Lemma tryParse_exact_witness :
  (exists w rest, value_image kMaxBulkLen (VArray [lit "HELLO"; lit "1"; lit "mux"]) w /\
     hello_wire = w ++ rest /\ 31 = zlen w) /\
  value_more kMaxBulkLen (take 30 hello_wire) /\
  value_bad kMaxBulkLen (InvalidArgumentError (lit "bad array length")) (lit "*$5" ++ CRLF).
Proof.
  split_and!.
  - apply (proj1 (tryParse_exact kMaxBulkLen (rb_of hello_wire) Resp2Monostate
                    ltac:(by vm_compute)) (VArray [lit "HELLO"; lit "1"; lit "mux"]) 31).
    exists (Resp2ArrayFrame [lit "HELLO"; lit "1"; lit "mux"]). by vm_compute.
  - apply (proj1 (proj2 (tryParse_exact kMaxBulkLen (rb_of (take 30 hello_wire)) Resp2Monostate
                           ltac:(by vm_compute))) Resp2Monostate). by vm_compute.
  - apply (proj1 (proj2 (proj2 (tryParse_exact kMaxBulkLen (rb_of (lit "*$5" ++ CRLF))
                                  Resp2Monostate ltac:(by vm_compute))))). by vm_compute.
Defined.

Lemma tryParse_safe_witness :
  tryParse 100 (rb_of (lit "$200" ++ CRLF)) Resp2Monostate <> UB.
Proof. apply (tryParse_safe 100 (rb_of (lit "$200" ++ CRLF)) Resp2Monostate). by vm_compute. Defined.

Lemma tryParse_incremental_witness :
  exists rf', tryParse kMaxBulkLen (rb_of (hello_wire ++ lit "*1")) Resp2Monostate = Ok (31, rf') /\
    resp2_denote (hello_wire ++ lit "*1") rf' = Some (VArray [lit "HELLO"; lit "1"; lit "mux"]).
Proof.
  pose proof (tryParse_incremental kMaxBulkLen (rb_of hello_wire) (rb_of (hello_wire ++ lit "*1"))
                Resp2Monostate (lit "*1") ltac:(by vm_compute) ltac:(by vm_compute)
                ltac:(by vm_compute)) as P.
  replace (tryParse kMaxBulkLen (rb_of hello_wire) Resp2Monostate)
    with (Ok (31, Resp2ArrayFrame [lit "HELLO"; lit "1"; lit "mux"])) in P by (by vm_compute).
  apply P. lia.
Defined.

Lemma writeArray_tryParse_witness :
  tryParse kMaxBulkLen (rb_of (hello_wire ++ lit "$")) Resp2Monostate
  = Ok (zlen hello_wire, Resp2ArrayFrame [lit "HELLO"; lit "1"; lit "mux"]).
Proof.
  apply (writeArray_tryParse kMaxBulkLen (rb_of (hello_wire ++ lit "$")) Resp2Monostate
           [lit "HELLO"; lit "1"; lit "mux"] (lit "$"));
    [by vm_compute|by vm_compute|repeat constructor; by vm_compute|by vm_compute].
Defined.
