(* ===== verification/ShineFrame.v ===== *)
(** * Shine protocol frames (src/proto/shine_frame.cpp)

    The fourteen frame types, their encoders into RESP2 and [decodeShineFrame].
    [ShineFrame P] is the variant of the source with the representation of a
    DATA payload as a parameter: the decoder produces a pointer into the receive
    buffer ([BulkStringView]), [resolve] reads it. *)
From S2P Require Import Prelude Absl Buffer Resp2.
From Stdlib Require Import Strings.Byte.

Definition kDataMagic : byte := xd1.

Inductive ShineFrame (P : Type) :=
  | HelloFrame (version features : bytes)
  | AuthFrame (password : bytes)
  | OkFrame
  | ErrFrame (code message : bytes)
  | NewFrame (sid : Z) (addr_blob : bytes) (init_window : Z)
  | AckFrame (sid : Z)
  | CloseFrame (sid : Z) (reason : bytes)
  | ResetFrame (sid : Z)
  | WindowFrame (sid : Z) (delta : Z)
  | PingFrame (nonce : Z)
  | PongFrame (nonce : Z)
  | DataFrame (sid : Z) (payload : P)
  | NewUdpFrame (sid : Z)
  | UdpDataFrame (sid : Z) (addr_blob payload : bytes).
Arguments HelloFrame {P}.
Arguments AuthFrame {P}.
Arguments OkFrame {P}.
Arguments ErrFrame {P}.
Arguments NewFrame {P}.
Arguments AckFrame {P}.
Arguments CloseFrame {P}.
Arguments ResetFrame {P}.
Arguments WindowFrame {P}.
Arguments PingFrame {P}.
Arguments PongFrame {P}.
Arguments DataFrame {P}.
Arguments NewUdpFrame {P}.
Arguments UdpDataFrame {P}.

Definition frame_map {P Q} (g : P -> Q) (f : ShineFrame P) : ShineFrame Q :=
  match f with
  | HelloFrame v fs => HelloFrame v fs
  | AuthFrame p => AuthFrame p
  | OkFrame => OkFrame
  | ErrFrame c m => ErrFrame c m
  | NewFrame s a w => NewFrame s a w
  | AckFrame s => AckFrame s
  | CloseFrame s r => CloseFrame s r
  | ResetFrame s => ResetFrame s
  | WindowFrame s d => WindowFrame s d
  | PingFrame n => PingFrame n
  | PongFrame n => PongFrame n
  | DataFrame s p => DataFrame s (g p)
  | NewUdpFrame s => NewUdpFrame s
  | UdpDataFrame s a p => UdpDataFrame s a p
  end.

(** The bytes a payload pointer refers to. *)
Definition view_bytes (buf : bytes) (v : BulkStringView) : bytes :=
  slice buf (bulk_data v) (bulk_size v).
Definition resolve (buf : bytes) : ShineFrame BulkStringView -> ShineFrame bytes :=
  frame_map (view_bytes buf).

(** ** Fixed-width big-endian integers *)

Definition putU32BE (out : bytes) (v : Z) : bytes :=
  out ++ [z2b (Z.land (Z.shiftr v 24) 255); z2b (Z.land (Z.shiftr v 16) 255);
          z2b (Z.land (Z.shiftr v 8) 255); z2b (Z.land v 255)].

(** [for (int i = 0; i < 8; ++i) b[i] = (v >> (56 - 8 * i)) & 0xff] *)
Definition be64 (v : Z) : bytes :=
  map (fun i => z2b (Z.land (Z.shiftr v (56 - 8 * i)) 255)) [0; 1; 2; 3; 4; 5; 6; 7].
Definition putU64BE (out : bytes) (v : Z) : bytes := out ++ be64 v.

Definition readU32BE (s : bytes) : option Z :=
  match s with
  | [s0; s1; s2; s3] =>
      Some (Z.lor (Z.lor (Z.lor (u32 (Z.shiftl (b2z s0) 24)) (u32 (Z.shiftl (b2z s1) 16)))
                         (u32 (Z.shiftl (b2z s2) 8))) (b2z s3))
  | _ => None
  end.

(** [v = (v << 8) | s[i]] on [u64]. *)
Definition shl_or (v : Z) (b : byte) : Z := Z.lor (u64 (Z.shiftl v 8)) (b2z b).
Definition readU64BE (s : bytes) : option Z :=
  if zlen s =? 8 then Some (fold_left shl_or s 0) else None.

(** ** Decoder *)

Definition decodeSid (s : bytes) : res Z :=
  match readU64BE s with
  | Some v => Ok v
  | None => Err (InvalidArgumentError (lit "bad sid"))
  end.

Definition decodeU32 (s : bytes) : res Z :=
  match readU32BE s with
  | Some v => Ok v
  | None => Err (InvalidArgumentError (lit "bad u32"))
  end.

Section Codec.
Context `{AbslOps}.

(** The lambda [need]. *)
Definition need (arr : list bytes) (cmd : bytes) (n : Z) : res unit :=
  if zlen arr <? n
  then Err (InvalidArgumentError
              (lit "command " ++ cmd ++ lit " needs " ++ StrCatInt (n - 1) ++ lit " args"))
  else Ok tt.

Definition decodeData (buf : bytes) (b : BulkStringView) : res (ShineFrame BulkStringView) :=
  let bad := Err (InvalidArgumentError (lit "bad DATA frame header")) in
  if bulk_size b <? 1 + 8 then bad else
  magic ← rd buf (bulk_data b);
  if decide (magic <> kDataMagic) then bad else
  sid_bytes ← rdn buf (bulk_data b + 1) 8;
  Ok (DataFrame (fold_left shl_or sid_bytes 0)
                (mkBulkView (bulk_data b + 9) (sub64 (bulk_size b) 9))).

Definition decodeArray (arr : list bytes) (cmd : bytes) : res (ShineFrame BulkStringView) :=
  if decide (cmd = lit "HELLO") then
    _ ← need arr cmd 3; a1 ← rd arr 1; a2 ← rd arr 2; Ok (HelloFrame a1 a2)
  else if decide (cmd = lit "AUTH") then
    _ ← need arr cmd 2; a1 ← rd arr 1; Ok (AuthFrame a1)
  else if decide (cmd = lit "OK") then Ok OkFrame
  else if decide (cmd = lit "ERR") then
    _ ← need arr cmd 3; a1 ← rd arr 1; a2 ← rd arr 2; Ok (ErrFrame a1 a2)
  else if decide (cmd = lit "NEW") then
    _ ← need arr cmd 4; a1 ← rd arr 1; a2 ← rd arr 2; a3 ← rd arr 3;
    sid ← decodeSid a1; win ← decodeU32 a3; Ok (NewFrame sid a2 win)
  else if decide (cmd = lit "ACK") then
    _ ← need arr cmd 2; a1 ← rd arr 1; sid ← decodeSid a1; Ok (AckFrame sid)
  else if decide (cmd = lit "CLOSE") then
    _ ← need arr cmd 2; a1 ← rd arr 1; sid ← decodeSid a1;
    reason ← (if 3 <=? zlen arr then rd arr 2 else Ok []);
    Ok (CloseFrame sid reason)
  else if decide (cmd = lit "RESET") then
    _ ← need arr cmd 2; a1 ← rd arr 1; sid ← decodeSid a1; Ok (ResetFrame sid)
  else if decide (cmd = lit "WINDOW") then
    _ ← need arr cmd 3; a1 ← rd arr 1; a2 ← rd arr 2;
    sid ← decodeSid a1; dlt ← decodeU32 a2; Ok (WindowFrame sid dlt)
  else if decide (cmd = lit "PING") then
    _ ← need arr cmd 2; a1 ← rd arr 1; n ← decodeSid a1; Ok (PingFrame n)
  else if decide (cmd = lit "PONG") then
    _ ← need arr cmd 2; a1 ← rd arr 1; n ← decodeSid a1; Ok (PongFrame n)
  else if decide (cmd = lit "NEW_UDP") then
    _ ← need arr cmd 2; a1 ← rd arr 1; sid ← decodeSid a1; Ok (NewUdpFrame sid)
  else if decide (cmd = lit "UDP_DATA") then
    _ ← need arr cmd 4; a1 ← rd arr 1; a2 ← rd arr 2; a3 ← rd arr 3;
    sid ← decodeSid a1; Ok (UdpDataFrame sid a2 a3)
  else Err (InvalidArgumentError (lit "unknown cmd: " ++ cmd)).

(** [decodeShineFrame], reading DATA headers through the bulk's pointer. *)
Definition decodeShineFrame (buf : bytes) (rf : Resp2Frame) : res (ShineFrame BulkStringView) :=
  match rf with
  | Resp2BulkFrame b => decodeData buf b
  | Resp2Monostate => Err (InvalidArgumentError (lit "empty frame"))
  | Resp2ArrayFrame arr =>
      match arr with
      | [] => Err (InvalidArgumentError (lit "empty array frame"))
      | cmd :: _ => decodeArray arr cmd
      end
  end.

(** ** Encoders *)

Definition encodeHello (out version features : bytes) : bytes :=
  Resp2Writer.writeArray out [lit "HELLO"; version; features].
Definition encodeAuth (out password : bytes) : bytes :=
  Resp2Writer.writeArray out [lit "AUTH"; password].
Definition encodeOk (out : bytes) : bytes := Resp2Writer.writeArray out [lit "OK"].
Definition encodeErr (out code message : bytes) : bytes :=
  Resp2Writer.writeArray out [lit "ERR"; code; message].
Definition encodeNew (out : bytes) (sid : Z) (addr_blob : bytes) (init_window : Z) : bytes :=
  Resp2Writer.writeArray out [lit "NEW"; putU64BE [] sid; addr_blob; putU32BE [] init_window].
Definition encodeAck (out : bytes) (sid : Z) : bytes :=
  Resp2Writer.writeArray out [lit "ACK"; putU64BE [] sid].
Definition encodeClose (out : bytes) (sid : Z) (reason : bytes) : bytes :=
  Resp2Writer.writeArray out [lit "CLOSE"; putU64BE [] sid; reason].
Definition encodeReset (out : bytes) (sid : Z) : bytes :=
  Resp2Writer.writeArray out [lit "RESET"; putU64BE [] sid].
Definition encodeWindow (out : bytes) (sid delta : Z) : bytes :=
  Resp2Writer.writeArray out [lit "WINDOW"; putU64BE [] sid; putU32BE [] delta].
Definition encodePing (out : bytes) (nonce : Z) : bytes :=
  Resp2Writer.writeArray out [lit "PING"; putU64BE [] nonce].
Definition encodePong (out : bytes) (nonce : Z) : bytes :=
  Resp2Writer.writeArray out [lit "PONG"; putU64BE [] nonce].
Definition encodeNewUdp (out : bytes) (sid : Z) : bytes :=
  Resp2Writer.writeArray out [lit "NEW_UDP"; putU64BE [] sid].
Definition encodeUdpData (out : bytes) (sid : Z) (addr_blob payload : bytes) : bytes :=
  Resp2Writer.writeArray out [lit "UDP_DATA"; putU64BE [] sid; addr_blob; payload].
Definition encodeData (out : bytes) (sid : Z) (payload : bytes) : bytes :=
  let bulk_len := add64 (1 + 8) (zlen payload) in
  ((((out ++ lit "$" ++ StrCatInt bulk_len ++ CRLF) ++ [kDataMagic]) ++ be64 sid) ++ payload)
    ++ CRLF.

(** The encoder for each alternative of the variant. *)
Definition encodeFrame (out : bytes) (f : ShineFrame bytes) : bytes :=
  match f with
  | HelloFrame v fs => encodeHello out v fs
  | AuthFrame p => encodeAuth out p
  | OkFrame => encodeOk out
  | ErrFrame c m => encodeErr out c m
  | NewFrame s a w => encodeNew out s a w
  | AckFrame s => encodeAck out s
  | CloseFrame s r => encodeClose out s r
  | ResetFrame s => encodeReset out s
  | WindowFrame s d => encodeWindow out s d
  | PingFrame n => encodePing out n
  | PongFrame n => encodePong out n
  | DataFrame s p => encodeData out s p
  | NewUdpFrame s => encodeNewUdp out s
  | UdpDataFrame s a p => encodeUdpData out s a p
  end.
End Codec.

(** ** Big-endian arithmetic *)

Lemma shl_or_add a b : 0 <= a < 2 ^ 56 -> shl_or a b = a * 256 + b2z b.
Proof.
  intros Ha. pose proof (b2z_range b). unfold shl_or.
  rewrite Z.shiftl_mul_pow2, u64_small by lia. apply (lor_low a _ 8); lia.
Qed.

Lemma shl_or_step v k :
  0 <= v < 2 ^ 64 -> 0 <= k ->
  shl_or (v / 2 ^ (k + 8)) (z2b (Z.land (Z.shiftr v k) 255)) = v / 2 ^ k.
Proof.
  intros Hv Hk. rewrite shl_or_add.
  - rewrite byte_of_shift by done. rewrite Z.pow_add_r, <- Z.div_div by lia.
    change (2 ^ 8) with 256. pose proof (Z.div_mod (v / 2 ^ k) 256 ltac:(lia)). lia.
  - split; [apply Z.div_pos; lia|]. apply Z.div_lt_upper_bound; [lia|].
    rewrite Z.pow_add_r by lia. assert (2 ^ 0 <= 2 ^ k) by (apply Z.pow_le_mono_r; lia). nia.
Qed.

Lemma fold_be64 v : 0 <= v < 2 ^ 64 -> fold_left shl_or (be64 v) 0 = v.
Proof.
  intros Hv. unfold be64. cbn [map fold_left].
  replace (shl_or 0) with (shl_or (v / 2 ^ (56 - 8 * 0 + 8))) by (by rewrite Z.div_small by lia).
  rewrite shl_or_step by lia.
  do 7 (lazymatch goal with
        | |- context [shl_or (v / 2 ^ ?k) (z2b (Z.land (Z.shiftr v ?j) 255))] =>
            replace k with (j + 8) by lia; rewrite (shl_or_step v j) by lia
        end).
  change (2 ^ (56 - 8 * 7)) with 1. apply Z.div_1_r.
Qed.

Definition be_val (s : bytes) : Z := fold_left (fun a b => a * 256 + b2z b) s 0.

Lemma be_val_snoc s b : be_val (s ++ [b]) = be_val s * 256 + b2z b.
Proof. unfold be_val. by rewrite fold_left_app. Qed.

Lemma be_val_range s : 0 <= be_val s < 2 ^ (8 * zlen s).
Proof.
  induction s as [|b s IH] using rev_ind; [done|].
  pose proof (b2z_range b). rewrite be_val_snoc, zlen_app.
  change (zlen [b]) with 1. rewrite Z.mul_add_distr_l, Z.pow_add_r by (pose proof (zlen_nonneg s); lia).
  change (2 ^ (8 * 1)) with 256. lia.
Qed.

Lemma fold_shl_or s : zlen s <= 8 -> fold_left shl_or s 0 = be_val s.
Proof.
  induction s as [|b s IH] using rev_ind; [done|]. rewrite zlen_app. change (zlen [b]) with 1. intros Hs.
  rewrite fold_left_app, IH, be_val_snoc by lia. simpl. apply shl_or_add.
  pose proof (be_val_range s). split; [lia|]. eapply Z.lt_le_trans; [apply H|].
  apply Z.pow_le_mono_r; lia.
Qed.

Lemma be_val_inj s t : length s = length t -> be_val s = be_val t -> s = t.
Proof.
  revert t. induction s as [|b s IH] using rev_ind; intros t Hl Hv.
  - by destruct t.
  - destruct t as [|c t _] using rev_ind; [rewrite length_app in Hl; simpl in Hl; lia|].
    rewrite !length_app in Hl. simpl in Hl. rewrite !be_val_snoc in Hv.
    pose proof (b2z_range b). pose proof (b2z_range c).
    assert (be_val s = be_val t) as Hst by lia. rewrite Hst in Hv.
    rewrite (IH t) by (done || lia). f_equal. f_equal. apply b2z_inj. lia.
Qed.

Lemma length_be64 v : length (be64 v) = 8%nat.
Proof. done. Qed.

Lemma readU64BE_put v : 0 <= v < 2 ^ 64 -> readU64BE (putU64BE [] v) = Some v.
Proof. intros Hv. unfold readU64BE, putU64BE. simpl app. change (zlen (be64 v) =? 8) with true. cbn iota. by rewrite fold_be64. Qed.

Lemma putU64BE_read s v : readU64BE s = Some v -> putU64BE [] v = s /\ 0 <= v < 2 ^ 64.
Proof.
  unfold readU64BE. destruct (Z.eqb_spec (zlen s) 8) as [Hs|]; [|done]. intros [= <-].
  rewrite fold_shl_or by lia. pose proof (be_val_range s) as Hr. rewrite Hs in Hr.
  split; [|done]. unfold putU64BE. simpl. apply be_val_inj.
  - rewrite length_be64. unfold zlen in Hs. lia.
  - rewrite <- (fold_shl_or (be64 _)) by done. by apply fold_be64.
Qed.

Lemma readU32BE_val s0 s1 s2 s3 : readU32BE [s0; s1; s2; s3] = Some (be_val [s0; s1; s2; s3]).
Proof.
  pose proof (b2z_range s0). pose proof (b2z_range s1). pose proof (b2z_range s2).
  pose proof (b2z_range s3). unfold readU32BE. rewrite !Z.shiftl_mul_pow2, !u32_small by lia.
  rewrite (lor_low (b2z s0) (b2z s1 * 2 ^ 16) 24) by lia.
  replace (b2z s0 * 2 ^ 24 + b2z s1 * 2 ^ 16) with ((b2z s0 * 256 + b2z s1) * 2 ^ 16) by lia.
  rewrite (lor_low _ (b2z s2 * 2 ^ 8) 16) by lia.
  replace ((b2z s0 * 256 + b2z s1) * 2 ^ 16 + b2z s2 * 2 ^ 8)
    with (((b2z s0 * 256 + b2z s1) * 256 + b2z s2) * 2 ^ 8) by lia.
  rewrite (lor_low _ (b2z s3) 8) by lia. unfold be_val. cbn [fold_left]. done.
Qed.

Lemma putU32BE_val v : 0 <= v < 2 ^ 32 -> be_val (putU32BE [] v) = v.
Proof.
  intros Hv. unfold be_val, putU32BE. cbn [app fold_left].
  change (Z.land v 255) with (Z.land (Z.shiftr v 0) 255). rewrite !byte_of_shift by lia.
  change (2 ^ 0) with 1. rewrite Z.div_1_r.
  change (2 ^ 24) with (256 * 256 * 256). change (2 ^ 16) with (256 * 256). change (2 ^ 8) with 256.
  rewrite <- !Z.div_div by lia.
  pose proof (Z.div_mod v 256 ltac:(lia)). pose proof (Z.div_mod (v / 256) 256 ltac:(lia)).
  pose proof (Z.div_mod (v / 256 / 256) 256 ltac:(lia)).
  pose proof (Z.mod_pos_bound v 256 ltac:(lia)). pose proof (Z.mod_pos_bound (v / 256) 256 ltac:(lia)).
  pose proof (Z.mod_pos_bound (v / 256 / 256) 256 ltac:(lia)).
  rewrite (Z.mod_small (v / 256 / 256 / 256)); lia.
Qed.

Lemma readU32BE_put v : 0 <= v < 2 ^ 32 -> readU32BE (putU32BE [] v) = Some v.
Proof. intros Hv. unfold putU32BE. cbn [app]. rewrite readU32BE_val. f_equal. by apply putU32BE_val. Qed.

Lemma readU32BE_range s v : readU32BE s = Some v -> 0 <= v < 2 ^ 32.
Proof.
  destruct s as [|s0 [|s1 [|s2 [|s3 [|]]]]]; try done. rewrite readU32BE_val. intros [= <-].
  apply (be_val_range [s0; s1; s2; s3]).
Qed.

Lemma putU32BE_read s v : readU32BE s = Some v -> putU32BE [] v = s.
Proof.
  intros E. pose proof (readU32BE_range _ _ E).
  destruct s as [|s0 [|s1 [|s2 [|s3 [|]]]]]; try done. rewrite readU32BE_val in E.
  apply be_val_inj; [done|]. rewrite putU32BE_val by done. by injection E.
Qed.

(** ** Frames on the wire *)

(** The RESP2 value a frame is encoded as. *)
Definition frame_value (f : ShineFrame bytes) : Resp2Value :=
  match f with
  | HelloFrame v fs => VArray [lit "HELLO"; v; fs]
  | AuthFrame p => VArray [lit "AUTH"; p]
  | OkFrame => VArray [lit "OK"]
  | ErrFrame c m => VArray [lit "ERR"; c; m]
  | NewFrame s a w => VArray [lit "NEW"; putU64BE [] s; a; putU32BE [] w]
  | AckFrame s => VArray [lit "ACK"; putU64BE [] s]
  | CloseFrame s r => VArray [lit "CLOSE"; putU64BE [] s; r]
  | ResetFrame s => VArray [lit "RESET"; putU64BE [] s]
  | WindowFrame s d => VArray [lit "WINDOW"; putU64BE [] s; putU32BE [] d]
  | PingFrame n => VArray [lit "PING"; putU64BE [] n]
  | PongFrame n => VArray [lit "PONG"; putU64BE [] n]
  | DataFrame s p => VBulk (kDataMagic :: be64 s ++ p)
  | NewUdpFrame s => VArray [lit "NEW_UDP"; putU64BE [] s]
  | UdpDataFrame s a p => VArray [lit "UDP_DATA"; putU64BE [] s; a; p]
  end.

(** The fields of a frame are in the range of their C++ types. *)
Definition frame_wf {P} (f : ShineFrame P) : Prop :=
  match f with
  | NewFrame s _ w => 0 <= s < 2 ^ 64 /\ 0 <= w < 2 ^ 32
  | WindowFrame s d => 0 <= s < 2 ^ 64 /\ 0 <= d < 2 ^ 32
  | AckFrame s | CloseFrame s _ | ResetFrame s | PingFrame s | PongFrame s
  | NewUdpFrame s | UdpDataFrame s _ _ | DataFrame s _ => 0 <= s < 2 ^ 64
  | HelloFrame _ _ | AuthFrame _ | OkFrame | ErrFrame _ _ => True
  end.

(** Every bulk string of the encoding is within the receiver's limit [m]. *)
Definition value_fits (m : Z) (v : Resp2Value) : Prop :=
  match v with
  | VBulk p => zlen p <= m /\ zlen p <= INT64_MAX
  | VArray es => zlen es <= 1024 /\ Forall (fun p => zlen p <= m /\ zlen p <= INT64_MAX) es
  end.

Section FrameRoundTrip.
Context `{AbslOps, !AbslSpec}.

Definition wire_value (v : Resp2Value) : bytes :=
  match v with VBulk p => wire_bulk p | VArray es => wire_array es end.

Lemma spec_value_wire m v rest :
  value_fits m v -> spec_value m (wire_value v ++ rest) = Done v rest.
Proof.
  destruct v; simpl; intros [? ?]; [by apply spec_value_wire_bulk|by apply spec_value_wire_array].
Qed.

Lemma encodeData_wire out s p :
  zlen p < 2 ^ 63 -> encodeData out s p = out ++ wire_bulk (kDataMagic :: be64 s ++ p).
Proof.
  intros Hp. pose proof (zlen_nonneg p). unfold encodeData, wire_bulk.
  rewrite add64_small by lia. rewrite zlen_cons, zlen_app. change (zlen (be64 s)) with 8.
  replace (1 + (8 + zlen p)) with (1 + 8 + zlen p) by lia.
  rewrite <- !app_assoc. done.
Qed.

Lemma encodeFrame_wire out f :
  value_fits INT64_MAX (frame_value f) -> encodeFrame out f = out ++ wire_value (frame_value f).
Proof.
  intros Hf. destruct f; try (apply writeArray_wire). apply encodeData_wire.
  cbn [frame_value value_fits] in Hf. rewrite zlen_cons, zlen_app in Hf.
  change (zlen (be64 sid)) with 8 in Hf.
  unfold INT64_MAX in Hf. lia.
Qed.

(** Decoding the array form of a control frame. *)
Lemma decode_array_value buf f es :
  frame_wf f -> frame_value f = VArray es ->
  decodeShineFrame buf (Resp2ArrayFrame es) = Ok (frame_map (fun _ => mkBulkView 0 0) f).
Proof.
  intros Hwf Hes.
  assert (Hs : forall s, 0 <= s < 2 ^ 64 -> decodeSid (putU64BE [] s) = Ok s)
    by (intros s Hr; unfold decodeSid; by rewrite readU64BE_put).
  assert (Hu : forall s, 0 <= s < 2 ^ 32 -> decodeU32 (putU32BE [] s) = Ok s)
    by (intros s Hr; unfold decodeU32; by rewrite readU32BE_put).
  destruct f; simpl in Hes, Hwf; try discriminate Hes; injection Hes as <-; clear -Hwf Hs Hu;
    lazy -[decodeSid decodeU32 putU64BE putU32BE];
    rewrite ?Hs, ?Hu by tauto; reflexivity.
Qed.

Lemma decode_data_value buf b s p :
  0 <= s < 2 ^ 64 -> resp2_valid buf (Resp2BulkFrame b) -> bulk_size b < 2 ^ 64 ->
  view_bytes buf b = kDataMagic :: be64 s ++ p ->
  decodeShineFrame buf (Resp2BulkFrame b)
  = Ok (DataFrame s (mkBulkView (bulk_data b + 9) (bulk_size b - 9))) /\
  view_bytes buf (mkBulkView (bulk_data b + 9) (bulk_size b - 9)) = p.
Proof.
  intros Hs (Hd & Hn & Hb) Hlt Hv.
  assert (Hz : bulk_size b = 9 + zlen p).
  { rewrite <- (zlen_slice buf (bulk_data b) (bulk_size b)) by lia. unfold view_bytes in Hv.
    rewrite Hv, zlen_cons, zlen_app. change (zlen (be64 s)) with 8. lia. }
  pose proof (zlen_nonneg p).
  assert (Hsub : forall o n, 0 <= o -> 0 <= n -> o + n <= bulk_size b ->
            slice buf (bulk_data b + o) n = slice (kDataMagic :: be64 s ++ p) o n).
  { intros o n ? ? ?. rewrite <- Hv. unfold view_bytes. rewrite slice_slice by lia. done. }
  cbn [decodeShineFrame]. unfold decodeData.
  destruct (Z.ltb_spec (bulk_size b) (1 + 8)); [lia|].
  assert (Hm : rd buf (bulk_data b) = Ok kDataMagic).
  { apply rd_zget. rewrite <- (Z.add_0_r (bulk_data b)).
    rewrite <- (zget_slice buf _ (bulk_size b)) by lia. unfold view_bytes in Hv. by rewrite Hv. }
  rewrite Hm. cbn [mbind res_bind]. destruct (decide (kDataMagic <> kDataMagic)); [done|].
  rewrite rdn_Ok by lia. cbn [mbind res_bind]. rewrite Hsub by lia.
  change (slice (kDataMagic :: be64 s ++ p) 1 8) with (be64 s). rewrite fold_be64 by done.
  rewrite sub64_small by lia. split; [done|].
  unfold view_bytes. cbn [bulk_data bulk_size]. rewrite Hsub by lia.
  replace (bulk_size b - 9) with (zlen p) by lia.
  change (kDataMagic :: be64 s ++ p) with ((kDataMagic :: be64 s) ++ p).
  rewrite <- (app_nil_r p) at 1. apply slice_mid; done.
Qed.

Lemma decode_value buf rf f :
  frame_wf f -> zlen buf < 2 ^ 62 -> resp2_valid buf rf ->
  resp2_denote buf rf = Some (frame_value f) ->
  exists g, decodeShineFrame buf rf = Ok g /\ resolve buf g = f.
Proof.
  intros Hwf Hbuf Hval Hden. destruct rf as [|b|es]; [done| |].
  - simpl in Hden. injection Hden as Hden.
    destruct f as [| | | | | | | | | | |s p| |]; simpl in Hden; try discriminate Hden.
    injection Hden as Hden. pose proof Hval as (? & ? & ?).
    destruct (decode_data_value buf b s p) as [E1 E2]; [done|done|lia|done|].
    eexists. split; [exact E1|]. simpl. by rewrite E2.
  - simpl in Hden. injection Hden as Hden.
    eexists. split; [eapply decode_array_value; [exact Hwf|by symmetry]|].
    by destruct f.
Qed.
End FrameRoundTrip.

(** ** Decoding arbitrary input *)

(** A decoded frame: fields in range, payload pointer inside the storage. *)
Definition frame_ok (buf : bytes) (g : ShineFrame BulkStringView) : Prop :=
  frame_wf g /\
  match g with
  | DataFrame _ b => 0 <= bulk_data b /\ 0 <= bulk_size b /\ bulk_data b + bulk_size b <= zlen buf
  | _ => True
  end.

Definition decode_good (buf : bytes) (r : res (ShineFrame BulkStringView)) : Prop :=
  match r with
  | Ok g => frame_ok buf g
  | Err _ => True
  | UB => False
  end.

Lemma decodeSid_cases s :
  (exists v, decodeSid s = Ok v /\ 0 <= v < 2 ^ 64) \/
  decodeSid s = Err (InvalidArgumentError (lit "bad sid")).
Proof.
  unfold decodeSid. destruct (readU64BE s) as [v|] eqn:E; [left|by right].
  exists v. apply putU64BE_read in E as [_ ?]. done.
Qed.

Lemma decodeU32_cases s :
  (exists v, decodeU32 s = Ok v /\ 0 <= v < 2 ^ 32) \/
  decodeU32 s = Err (InvalidArgumentError (lit "bad u32")).
Proof.
  unfold decodeU32. destruct (readU32BE s) as [v|] eqn:E; [left|by right].
  exists v. apply readU32BE_range in E. done.
Qed.

(** One command of [decodeArray]: the guard makes the element accesses safe. *)
Ltac decode_command :=
  repeat match goal with
  | |- decode_good _ (Ok _) => cbn; unfold frame_ok; cbn; tauto
  | |- decode_good _ (Err _) => exact I
  | |- context [need ?a ?c ?n] =>
      unfold need at 1; destruct (Z.ltb_spec (zlen a) n); cbn [mbind res_bind]
  | |- context [rd ?a ?k] => destruct (rd_Ok a k) as [? ->]; [lia|]; cbn [mbind res_bind]
  | |- context [decodeSid ?x] =>
      destruct (decodeSid_cases x) as [(? & -> & ?)| ->]; cbn [mbind res_bind]
  | |- context [decodeU32 ?x] =>
      destruct (decodeU32_cases x) as [(? & -> & ?)| ->]; cbn [mbind res_bind]
  | |- context [3 <=? zlen ?a] => destruct (Z.leb_spec 3 (zlen a)); cbn [mbind res_bind]
  end.

Lemma decodeArray_good `{AbslOps} buf arr cmd : decode_good buf (decodeArray arr cmd).
Proof.
  unfold decodeArray.
  repeat lazymatch goal with
  | |- decode_good _ (if decide ?P then _ else _) => destruct (decide P); [solve [decode_command]|]
  end. exact I.
Qed.

Lemma decodeData_good buf b :
  resp2_valid buf (Resp2BulkFrame b) -> zlen buf < 2 ^ 62 -> decode_good buf (decodeData buf b).
Proof.
  intros (? & ? & ?) ?. unfold decodeData.
  destruct (Z.ltb_spec (bulk_size b) (1 + 8)); [exact I|].
  destruct (rd_Ok buf (bulk_data b)) as [mg ->]; [lia|]. cbn [mbind res_bind].
  destruct (decide _); [exact I|]. rewrite rdn_Ok by lia. cbn [mbind res_bind].
  rewrite sub64_small by lia. cbn. unfold frame_ok. cbn.
  rewrite fold_shl_or by (rewrite zlen_slice; lia).
  pose proof (be_val_range (slice buf (bulk_data b + 1) 8)) as Hr.
  rewrite zlen_slice in Hr by lia. lia.
Qed.

Lemma decodeShineFrame_good `{AbslOps} buf rf :
  resp2_valid buf rf -> zlen buf < 2 ^ 62 -> decode_good buf (decodeShineFrame buf rf).
Proof.
  intros Hv Hb. destruct rf as [|b|[|cmd arr]]; [exact I|by apply decodeData_good|exact I|].
  apply decodeArray_good.
Qed.

(** Reading one frame off a buffer: [tryParse] then [decodeShineFrame]. *)
Lemma tryParse_decode `{AbslOps, !AbslSpec} m rb out f rest :
  rb_wf rb -> frame_wf f -> value_fits m (frame_value f) ->
  rb_view rb = wire_value (frame_value f) ++ rest ->
  exists rf g, tryParse m rb out = Ok (zlen (wire_value (frame_value f)), rf) /\
    decodeShineFrame (buf_ rb) rf = Ok g /\ resolve (buf_ rb) g = f.
Proof.
  intros Hwf Hf Hfit Hv.
  pose proof (tryParse_refines m rb out Hwf) as Hr. unfold tryParse_agrees in Hr.
  rewrite Hv, spec_value_wire in Hr by done.
  destruct Hr as (n & rf & -> & Hn & Hd & Hden & Hval).
  destruct (decode_value (buf_ rb) rf f) as (g & Hg & Hres); [done|apply Hwf|done|done|].
  exists rf, g. split_and!; [|done|done]. do 2 f_equal.
  apply (f_equal zlen) in Hd. rewrite zlen_app in Hn.
  rewrite zlen_drop, zlen_app in Hd by (rewrite zlen_app; lia). lia.
Qed.

(** No two frames share an encoding. *)
Definition frame_fits (f : ShineFrame bytes) : Prop := frame_wf f /\ value_fits INT64_MAX (frame_value f).

Lemma data_fits sid p : 0 <= sid < 2 ^ 64 -> zlen p < 2 ^ 32 -> frame_fits (DataFrame sid p).
Proof.
  intros Hs Hp. split; [done|]. cbn [frame_value value_fits]. rewrite zlen_cons, zlen_app. change (zlen (be64 sid)) with 8.
  unfold INT64_MAX. lia.
Qed.

Lemma window_fits sid d : 0 <= sid < 2 ^ 64 -> 0 <= d < 2 ^ 32 -> frame_fits (WindowFrame sid d).
Proof.
  intros Hs Hd. split; [done|]. cbn [frame_value value_fits]. split; [done|].
  repeat constructor; change (zlen (putU64BE [] sid)) with 8; change (zlen (putU32BE [] d)) with 4; done.
Qed.

Lemma ack_fits sid : 0 <= sid < 2 ^ 64 -> frame_fits (AckFrame sid).
Proof. intros Hs. split; [done|]. cbn [frame_value value_fits]. split; [done|]. by repeat constructor. Qed.

Lemma close_fits sid reason : 0 <= sid < 2 ^ 64 -> zlen reason < 2 ^ 62 -> frame_fits (CloseFrame sid reason).
Proof.
  intros Hs Hr. split; [done|]. cbn [frame_value value_fits]. split; [done|]. unfold INT64_MAX.
  repeat constructor; change (zlen (putU64BE [] sid)) with 8; try done; lia.
Qed.

Lemma putU64BE_inj a b :
  0 <= a < 2 ^ 64 -> 0 <= b < 2 ^ 64 -> putU64BE [] a = putU64BE [] b -> a = b.
Proof.
  intros Ha Hb E. apply (f_equal readU64BE) in E. rewrite !readU64BE_put in E by done. congruence.
Qed.
Lemma putU32BE_inj a b :
  0 <= a < 2 ^ 32 -> 0 <= b < 2 ^ 32 -> putU32BE [] a = putU32BE [] b -> a = b.
Proof.
  intros Ha Hb E. apply (f_equal readU32BE) in E. rewrite !readU32BE_put in E by done. congruence.
Qed.

Lemma data_value_inj a b p q :
  0 <= a < 2 ^ 64 -> 0 <= b < 2 ^ 64 -> be64 a ++ p = be64 b ++ q -> a = b /\ p = q.
Proof.
  intros Ha Hb E. apply app_inj_1 in E as [E ->]; [|by rewrite !length_be64].
  split; [by apply putU64BE_inj|done].
Qed.

Lemma frame_value_inj f g : frame_wf f -> frame_wf g -> frame_value f = frame_value g -> f = g.
Proof.
  intros Hf Hg E. destruct f, g; cbn [frame_value] in E; try discriminate E; try reflexivity;
    repeat match type of E with
    | context [putU64BE [] ?x] => let y := fresh "y" in remember (putU64BE [] x) as y
    | context [putU32BE [] ?x] => let y := fresh "y" in remember (putU32BE [] x) as y
    | context [be64 ?x ++ ?p] => let y := fresh "y" in remember (be64 x ++ p) as y
    end;
    injection E; clear E; intros; cbn [frame_wf] in *; subst;
    repeat match goal with
    | H : putU64BE [] ?a = putU64BE [] ?b |- _ => apply putU64BE_inj in H; [|lia..]
    | H : putU32BE [] ?a = putU32BE [] ?b |- _ => apply putU32BE_inj in H; [|lia..]
    | H : be64 ?a ++ _ = be64 ?b ++ _ |- _ => apply data_value_inj in H as [? ?]; [|lia..]
    end; by subst.
Qed.

Lemma encodeFrame_inj `{AbslOps, !AbslSpec} f g :
  frame_fits f -> frame_fits g -> encodeFrame [] f = encodeFrame [] g -> f = g.
Proof.
  intros [Hf Ff] [Hg Fg] E. rewrite !encodeFrame_wire in E by done.
  apply frame_value_inj; [done..|].
  pose proof (spec_value_wire INT64_MAX _ [] Ff) as Sf. pose proof (spec_value_wire INT64_MAX _ [] Fg) as Sg.
  rewrite !app_nil_l in E. rewrite E in Sf. congruence.
Qed.

(** ** Properties *)

(** C2. End-to-end round trip of every frame type: the bytes an encoder appends
    to the stream are parsed and decoded by the peer into the same frame
    (including the bytes a DATA pointer refers to), consuming exactly those
    bytes, whatever follows on the stream. *)
Theorem frame_wire_roundtrip `{AbslOps, !AbslSpec} m rb out f rest :
  rb_wf rb -> frame_wf f -> value_fits m (frame_value f) ->
  value_fits INT64_MAX (frame_value f) ->
  rb_view rb = encodeFrame [] f ++ rest ->
  exists rf g, tryParse m rb out = Ok (zlen (encodeFrame [] f), rf) /\
    decodeShineFrame (buf_ rb) rf = Ok g /\ resolve (buf_ rb) g = f.
Proof.
  intros Hwf Hf Hm Hi Hv. rewrite encodeFrame_wire in * by done.
  by eapply tryParse_decode.
Qed.

Definition data_frame : ShineFrame bytes := DataFrame 0x1122334455667788 (lit "hello world").

Lemma frame_wire_roundtrip_witness :
  exists rf g,
    tryParse kMaxBulkLen (rb_of (encodeFrame [] data_frame)) Resp2Monostate
    = Ok (zlen (encodeFrame [] data_frame), rf) /\
    decodeShineFrame (encodeFrame [] data_frame) rf = Ok g /\
    resolve (encodeFrame [] data_frame) g = data_frame.
Proof.
  apply (frame_wire_roundtrip kMaxBulkLen (rb_of (encodeFrame [] data_frame)) Resp2Monostate
           data_frame []); by vm_compute.
Defined.

(** Session ids and nonces are carried as 8-byte big-endian fields without
    loss: reading what was written gives the value back, and only 8-byte fields
    are accepted, each being the encoding of the value read. *)
Theorem u64_field_bijection :
  (forall v, 0 <= v < 2 ^ 64 -> readU64BE (putU64BE [] v) = Some v) /\
  (forall s v, readU64BE s = Some v -> putU64BE [] v = s /\ 0 <= v < 2 ^ 64) /\
  (forall v, 0 <= v < 2 ^ 32 -> readU32BE (putU32BE [] v) = Some v) /\
  (forall s v, readU32BE s = Some v -> putU32BE [] v = s /\ 0 <= v < 2 ^ 32).
Proof.
  split_and!; [apply readU64BE_put|apply putU64BE_read|apply readU32BE_put|].
  intros s v E. split; [by apply putU32BE_read|by eapply readU32BE_range].
Qed.

(** Decoding hostile input is safe: for every value the parser can hand
    over, [decodeShineFrame] returns a frame or an error without touching
    memory outside the buffer or an array element that is not there; a decoded
    frame has its integer fields in range and its payload inside the buffer. *)
Theorem decode_safe `{AbslOps, !AbslSpec} m rb out n rf :
  rb_wf rb -> tryParse m rb out = Ok (n, rf) -> 0 < n ->
  decode_good (buf_ rb) (decodeShineFrame (buf_ rb) rf).
Proof.
  intros Hwf E Hn. apply decodeShineFrame_good; [|apply Hwf].
  pose proof (tryParse_refines m rb out Hwf) as Hr. unfold tryParse_agrees in Hr.
  destruct (spec_value m (rb_view rb)); [rewrite E in Hr; injection Hr as -> _; lia|congruence|].
  destruct Hr as (n' & rf' & E' & _ & _ & _ & Hv). rewrite E in E'. by injection E' as <- <-.
Qed.

Lemma decode_safe_witness :
  decode_good (buf_ (rb_of (encodeFrame [] data_frame)))
    (decodeShineFrame (buf_ (rb_of (encodeFrame [] data_frame)))
       (Resp2BulkFrame (mkBulkView 5 20))).
Proof.
  apply (decode_safe kMaxBulkLen (rb_of (encodeFrame [] data_frame)) Resp2Monostate 27);
    [by vm_compute|by vm_compute|lia].
Defined.
