(* ===== verification/Address.v ===== *)
(** * Target addresses (src/transport/address.cpp)

    [Address] with its factories, the text form ["host:port"] ([parseHostPort],
    [toString]) and the binary form of the NEW and UDP_DATA frames
    ([parseBinary], [toBinary]).  Boost.Asio's textual IPv6 conversions and its
    resolver are outside the repository: [BoostIp] is their interface. *)
From S2P Require Import Prelude Absl.
From Stdlib Require Import Strings.Byte.

(** [make_address_v6(str, ec)] ([None] when [ec] is set), [address_v6::to_string]
    and [address_v6]'s bytes. *)
Class BoostIp := {
  make_address_v6 : bytes -> option bytes;
  v6_to_string : bytes -> bytes;
}.

(** Documented: the presentation format of [to_string] is read back by
    [make_address_v6], and is made of hexadecimal digits, colons and dots. *)
Definition v6_char (b : byte) : bool :=
  let v := b2z b in
  ((48 <=? v) && (v <=? 58)) || ((97 <=? v) && (v <=? 102)) || ((65 <=? v) && (v <=? 70)) || (v =? 46).
Class BoostIpSpec `{BoostIp} : Prop := {
  make_v6_length s b : make_address_v6 s = Some b -> length b = 16%nat;
  v6_roundtrip b : length b = 16%nat -> make_address_v6 (v6_to_string b) = Some b;
  v6_chars b : forallb v6_char (v6_to_string b) = true;
}.

Inductive AddrType := IPv4 | IPv6 | Domain.
#[export] Instance AddrType_eq_dec : EqDecision AddrType.
Proof. solve_decision. Defined.

(** [enum class Type : u8 { IPv4 = 1, IPv6 = 2, Domain = 3 }] *)
Definition type_code (t : AddrType) : Z := match t with IPv4 => 1 | IPv6 => 2 | Domain => 3 end.

Record Address := mkAddress {
  type_ : AddrType;
  bytes_ : bytes;     (* std::array<u8, 16>; IPv4 uses the first 4 *)
  domain_ : bytes;
  port_ : Z;          (* u16 *)
}.
#[export] Instance Address_eq_dec : EqDecision Address.
Proof. solve_decision. Defined.

Definition zero16 : bytes := replicate 16 x00.
Definition Address_default : Address := mkAddress Domain zero16 [] 0.

Definition fromIPv4 (b : bytes) (port : Z) : Address :=
  mkAddress IPv4 (take 4 b ++ drop 4 zero16) [] port.
Definition fromIPv6 (b : bytes) (port : Z) : Address := mkAddress IPv6 b [] port.
Definition fromDomain (domain : bytes) (port : Z) : Address := mkAddress Domain zero16 domain port.

Definition isDomain (a : Address) : bool := bool_decide (type_ a = Domain).
Definition isIP (a : Address) : bool := negb (isDomain a).

(** [std::string_view::find] and [rfind] of a character; [None] is [npos]. *)
Fixpoint sv_find (s : bytes) (c : byte) : option Z :=
  match s with
  | [] => None
  | b :: r => if decide (b = c) then Some 0 else Z.succ <$> sv_find r c
  end.
Fixpoint sv_rfind (s : bytes) (c : byte) : option Z :=
  match s with
  | [] => None
  | b :: r =>
      match sv_rfind r c with
      | Some i => Some (Z.succ i)
      | None => if decide (b = c) then Some 0 else None
      end
  end.
(** [substr(pos, n)] and [substr(pos)] for [pos <= size()]. *)
Definition sv_substr (s : bytes) (pos n : Z) : bytes := slice s pos n.
Definition sv_from (s : bytes) (pos : Z) : bytes := drop (Z.to_nat pos) s.

Section Text.
Context `{AbslOps, BoostIp}.

(** The loop over the four parts; a part outside [0, 255] fails. *)
Fixpoint parse_octets (parts : list bytes) : option bytes :=
  match parts with
  | [] => Some []
  | p :: rest =>
      match SimpleAtoi INT32_MIN INT32_MAX p with
      | Some v => if (v <? 0) || (255 <? v) then None
                  else match parse_octets rest with
                       | Some bs => Some (z2b v :: bs)
                       | None => None
                       end
      | None => None
      end
  end.

Definition parseIPv4 (s : bytes) : option bytes :=
  let parts := StrSplit s "."%byte in
  if negb (zlen parts =? 4) then None else parse_octets parts.

Definition parseIPv6 (s : bytes) : option bytes := make_address_v6 s.

Definition bad (m : string) : res Address := Err (InvalidArgumentError (lit m)).

(** [int port; SimpleAtoi(port_s, &port) && 0 < port && port <= 65535] *)
Definition parse_port (port_s : bytes) : option Z :=
  match SimpleAtoi INT32_MIN INT32_MAX port_s with
  | Some port => if (port <=? 0) || (65535 <? port) then None else Some port
  | None => None
  end.

Definition parseHostPort (s : bytes) : res Address :=
  match s with
  | [] => bad "empty address"
  | front :: _ =>
      if decide (front = "["%byte) then
        match sv_find s "]"%byte with
        | None => bad "missing ]"
        | Some rb =>
            let host := sv_substr s 1 (sub64 rb 1) in
            colon ← (if zlen s <=? rb + 1 then Ok false
                     else c ← rd s (rb + 1); Ok (bool_decide (c = ":"%byte)));
            if negb colon then bad "missing :port" else
            match parse_port (sv_from s (rb + 2)) with
            | None => bad "bad port"
            | Some port =>
                match parseIPv6 host with
                | None => bad "bad ipv6"
                | Some b => Ok (fromIPv6 b (u16 port))
                end
            end
        end
      else
        match sv_rfind s ":"%byte with
        | None => bad "missing :port"
        | Some colon =>
            let host := sv_substr s 0 colon in
            match parse_port (sv_from s (colon + 1)) with
            | None => bad "bad port"
            | Some port =>
                match parseIPv4 host with
                | Some v4 => Ok (fromIPv4 v4 (u16 port))
                | None => Ok (fromDomain host (u16 port))
                end
            end
        end
  end.

Definition toString (a : Address) : bytes :=
  match type_ a with
  | IPv4 =>
      match bytes_ a with
      | b0 :: b1 :: b2 :: b3 :: _ =>
          StrCatInt (b2z b0) ++ lit "." ++ StrCatInt (b2z b1) ++ lit "." ++
          StrCatInt (b2z b2) ++ lit "." ++ StrCatInt (b2z b3) ++ lit ":" ++ StrCatInt (port_ a)
      | _ => []
      end
  | IPv6 => lit "[" ++ v6_to_string (bytes_ a) ++ lit "]:" ++ StrCatInt (port_ a)
  | Domain => domain_ a ++ lit ":" ++ StrCatInt (port_ a)
  end.
End Text.

(** ** Binary form *)

Definition parseBinary (blob : bytes) : res Address :=
  if zlen blob <? 4 then bad "addr blob too short" else
  t ← rd blob 0;
  lenb ← rd blob 1;
  let len := b2z lenb in
  if zlen blob <? 2 + len + 2 then bad "addr blob truncated" else
  hi ← rd blob (2 + len);
  lo ← rd blob (2 + len + 1);
  let port := Z.lor (u16 (Z.shiftl (b2z hi) 8)) (b2z lo) in
  if b2z t =? type_code IPv4 then
    if negb (len =? 4) then bad "bad ipv4 len" else
    b ← rdn blob 2 4; Ok (fromIPv4 b port)
  else if b2z t =? type_code IPv6 then
    if negb (len =? 16) then bad "bad ipv6 len" else
    b ← rdn blob 2 16; Ok (fromIPv6 b port)
  else if b2z t =? type_code Domain then
    if len =? 0 then bad "empty domain" else
    d ← rdn blob 2 len; Ok (fromDomain d port)
  else bad "unknown addr type".

(** The [len] and [p] the switch of [toBinary] selects. *)
Definition bin_len (a : Address) : Z :=
  match type_ a with
  | IPv4 => 4
  | IPv6 => 16
  | Domain => u8 (Z.min (zlen (domain_ a)) 255)
  end.
Definition bin_src (a : Address) : bytes :=
  match type_ a with Domain => domain_ a | _ => bytes_ a end.

Definition toBinary (a : Address) : bytes :=
  [z2b (type_code (type_ a)); z2b (bin_len a)] ++ slice (bin_src a) 0 (bin_len a) ++
  [z2b (Z.land (Z.shiftr (port_ a) 8) 255); z2b (Z.land (port_ a) 255)].

(** ** Resolution *)

(** [tcp::endpoint]: the address bytes (4 or 16) and the port. *)
Record Endpoint := mkEndpoint { ep_addr : bytes; ep_port : Z }.
#[export] Instance Endpoint_eq_dec : EqDecision Endpoint.
Proof. solve_decision. Defined.

(** [std::to_string]. *)
Definition std_to_string (n : Z) : bytes := ref_StrCatInt n.

(** [resolveOne]; the resolver's answer to a query (host, service) is the
    argument: its endpoints, or the message of the error code. *)
Definition resolveOne (async_resolve : bytes -> bytes -> list Endpoint + bytes) (a : Address)
  : res Endpoint :=
  match type_ a with
  | IPv4 => b ← rdn (bytes_ a) 0 4; Ok (mkEndpoint b (port_ a))
  | IPv6 => b ← rdn (bytes_ a) 0 16; Ok (mkEndpoint b (port_ a))
  | Domain =>
      match async_resolve (domain_ a) (std_to_string (port_ a)) with
      | inr msg => Err (UnavailableError (lit "resolve failed: " ++ msg))
      | inl [] => Err (NotFoundError (lit "no endpoints"))
      | inl (e :: _) => Ok e
      end
  end.

(** ** Invariant *)

(** What the factories establish: the port is a [u16], the unused part of the
    address array is zero and the domain is only set for domain addresses. *)
Definition addr_wf (a : Address) : Prop :=
  0 <= port_ a < 2 ^ 16 /\ length (bytes_ a) = 16%nat /\
  match type_ a with
  | IPv4 => drop 4 (bytes_ a) = drop 4 zero16 /\ domain_ a = []
  | IPv6 => domain_ a = []
  | Domain => bytes_ a = zero16
  end.
#[export] Instance addr_wf_dec a : Decision (addr_wf a).
Proof. unfold addr_wf. destruct (type_ a); apply _. Defined.

(** Addresses whose binary form is faithful: the length field is one byte. *)
Definition addr_encodable (a : Address) : Prop :=
  type_ a = Domain -> 1 <= zlen (domain_ a) <= 255.

Lemma fromIPv4_wf b port : length b = 4%nat -> 0 <= port < 2 ^ 16 -> addr_wf (fromIPv4 b port).
Proof. intros Hb Hp. destruct b as [|b0 [|b1 [|b2 [|b3 [|]]]]]; try done. Qed.

Lemma fromIPv6_wf b port : length b = 16%nat -> 0 <= port < 2 ^ 16 -> addr_wf (fromIPv6 b port).
Proof. done. Qed.

Lemma fromDomain_wf d port : 0 <= port < 2 ^ 16 -> addr_wf (fromDomain d port).
Proof. done. Qed.

Lemma addr_eta_v4 a : addr_wf a -> type_ a = IPv4 -> a = fromIPv4 (take 4 (bytes_ a)) (port_ a).
Proof.
  intros (_ & _ & Hw) Ht. rewrite Ht in Hw. destruct Hw as [Hd Hdom].
  unfold fromIPv4. rewrite take_take, <- Hd. change (4 `min` 4)%nat with 4%nat. rewrite take_drop.
  destruct a. cbn in Ht, Hdom. by subst.
Qed.

(** ** Binary round trip *)

Lemma port_bytes p :
  0 <= p < 2 ^ 16 ->
  Z.lor (u16 (Z.shiftl (b2z (z2b (Z.land (Z.shiftr p 8) 255))) 8)) (b2z (z2b (Z.land p 255))) = p.
Proof.
  intros Hp. change (Z.land p 255) with (Z.land (Z.shiftr p 0) 255).
  rewrite !byte_of_shift by lia. change (2 ^ 0) with 1. rewrite Z.div_1_r.
  rewrite (Z.mod_small (p / 2 ^ 8)) by
    (split; [apply Z.div_pos; lia|apply Z.div_lt_upper_bound; lia]).
  rewrite Z.shiftl_mul_pow2, u16_small by
    (try (split; [apply Z.mul_nonneg_nonneg; [apply Z.div_pos|]|]); try lia;
     pose proof (Z.mul_div_le p (2 ^ 8)); lia).
  rewrite lor_low by (pose proof (Z.mod_pos_bound p 256); lia).
  pose proof (Z.div_mod p 256). change (2 ^ 8) with 256. lia.
Qed.

Lemma bytes_port hi lo :
  let p := Z.lor (u16 (Z.shiftl (b2z hi) 8)) (b2z lo) in
  0 <= p < 2 ^ 16 /\ z2b (Z.land (Z.shiftr p 8) 255) = hi /\ z2b (Z.land p 255) = lo.
Proof.
  intros p. pose proof (b2z_range hi). pose proof (b2z_range lo).
  assert (Hp : p = b2z hi * 256 + b2z lo).
  { unfold p. rewrite Z.shiftl_mul_pow2, u16_small by lia. by rewrite lor_low by lia. }
  split; [lia|]. split; apply b2z_inj.
  - rewrite byte_of_shift by lia. change (2 ^ 8) with 256. rewrite Hp, Z.div_add_l by lia.
    rewrite (Z.div_small (b2z lo)), Z.add_0_r by lia. apply Z.mod_small. lia.
  - change (Z.land p 255) with (Z.land (Z.shiftr p 0) 255). rewrite byte_of_shift by lia.
    change (2 ^ 0) with 1. rewrite Z.div_1_r, Hp, Z.add_comm, Z.mod_add by lia. apply Z.mod_small. lia.
Qed.

(** The shape of a blob, and how [parseBinary] reads it. *)
Definition blob (t len : byte) (body : bytes) (hi lo : byte) (rest : bytes) : bytes :=
  [t; len] ++ body ++ [hi; lo] ++ rest.

Definition parse_body (t : Z) (body : bytes) (port : Z) : res Address :=
  if t =? 1 then (if negb (zlen body =? 4) then bad "bad ipv4 len" else Ok (fromIPv4 body port))
  else if t =? 2 then (if negb (zlen body =? 16) then bad "bad ipv6 len" else Ok (fromIPv6 body port))
  else if t =? 3 then (if zlen body =? 0 then bad "empty domain" else Ok (fromDomain body port))
  else bad "unknown addr type".

Lemma parseBinary_blob t len body hi lo rest :
  b2z len = zlen body ->
  parseBinary (blob t len body hi lo rest)
  = parse_body (b2z t) body (Z.lor (u16 (Z.shiftl (b2z hi) 8)) (b2z lo)).
Proof.
  intros Hl. pose proof (zlen_nonneg body). pose proof (zlen_nonneg rest).
  set (bl := blob t len body hi lo rest).
  assert (Hz : zlen bl = 4 + zlen body + zlen rest)
    by (unfold bl, blob; rewrite !zlen_app, !zlen_cons, zlen_nil; lia).
  assert (Hat : forall i c, zget ([hi; lo] ++ rest) i = Some c -> rd bl (2 + zlen body + i) = Ok c).
  { intros i c Hc. apply zget_Some in Hc as Hi. unfold rd, bl, blob.
    rewrite zget_app_r by (change (zlen [t; len]) with 2; lia). change (zlen [t; len]) with 2.
    rewrite zget_app_r by lia. replace (2 + zlen body + i - 2 - zlen body) with i by lia.
    by rewrite Hc. }
  assert (Hb : rdn bl 2 (zlen body) = Ok body).
  { rewrite rdn_Ok by lia. f_equal. unfold bl, blob. by apply slice_mid. }
  unfold parseBinary. rewrite Hz. destruct (Z.ltb_spec (4 + zlen body + zlen rest) 4); [lia|].
  change (rd bl 0) with (Ok t). change (rd bl 1) with (Ok len). cbn [mbind res_bind]. rewrite Hl.
  destruct (Z.ltb_spec (4 + zlen body + zlen rest) (2 + zlen body + 2)); [lia|].
  rewrite (Hat 1 lo eq_refl). rewrite <- (Z.add_0_r (2 + zlen body)), (Hat 0 hi eq_refl).
  cbn [mbind res_bind]. unfold parse_body, type_code.
  destruct (b2z t =? 1).
  { destruct (Z.eqb_spec (zlen body) 4) as [E|]; [|done]. simpl. rewrite <- E, Hb. done. }
  destruct (b2z t =? 2).
  { destruct (Z.eqb_spec (zlen body) 16) as [E|]; [|done]. simpl. rewrite <- E, Hb. done. }
  destruct (b2z t =? 3); [|done]. destruct (zlen body =? 0); [done|]. by rewrite Hb.
Qed.

Lemma toBinary_blob a rest :
  toBinary a ++ rest =
    blob (z2b (type_code (type_ a))) (z2b (bin_len a)) (slice (bin_src a) 0 (bin_len a))
         (z2b (Z.land (Z.shiftr (port_ a) 8) 255)) (z2b (Z.land (port_ a) 255)) rest.
Proof. unfold toBinary, blob. by rewrite <- !app_assoc. Qed.

Definition bin_body (a : Address) : bytes :=
  match type_ a with
  | IPv4 => take 4 (bytes_ a)
  | IPv6 => bytes_ a
  | Domain => take 255 (domain_ a)
  end.

Lemma bin_body_spec a :
  length (bytes_ a) = 16%nat ->
  slice (bin_src a) 0 (bin_len a) = bin_body a /\ b2z (z2b (bin_len a)) = zlen (bin_body a).
Proof.
  intros Hb. unfold slice, bin_src, bin_len, bin_body. change (Z.to_nat 0) with 0%nat. rewrite drop_0.
  destruct (type_ a).
  - split; [done|]. rewrite b2z_z2b_small by lia. unfold zlen. by rewrite length_take, Hb.
  - rewrite b2z_z2b_small by lia. unfold zlen. rewrite Hb. split; [|done]. apply take_ge. lia.
  - pose proof (zlen_nonneg (domain_ a)). rewrite u8_small, b2z_z2b_small by lia.
    unfold zlen in *. rewrite length_take. split; [|lia].
    destruct (Z.min_spec (Z.of_nat (length (domain_ a))) 255) as [[? ->]|[? ->]]; [|done].
    rewrite !take_ge by lia. done.
Qed.

Lemma parse_toBinary a rest :
  addr_wf a ->
  parseBinary (toBinary a ++ rest) =
    match type_ a with
    | Domain => if zlen (domain_ a) =? 0 then bad "empty domain"
                else Ok (fromDomain (take 255 (domain_ a)) (port_ a))
    | _ => Ok a
    end.
Proof.
  intros Hwf. pose proof Hwf as (Hp & Hb & Hw).
  destruct (bin_body_spec a Hb) as [Hs Hl]. rewrite toBinary_blob, Hs.
  rewrite parseBinary_blob, port_bytes by done. unfold parse_body, bin_body in *.
  rewrite b2z_z2b_small by (destruct (type_ a); simpl; lia).
  destruct (type_ a) eqn:Et; cbn [type_code]; cbn [Z.eqb Pos.eqb].
  - unfold zlen. rewrite length_take, Hb. cbn. by rewrite <- addr_eta_v4.
  - unfold zlen. rewrite Hb. cbn. destruct a; cbn in *; by subst.
  - unfold zlen. rewrite length_take. destruct (domain_ a) as [|c d]; [done|]. done.
Qed.

Lemma parse_toBinary_encodable a rest :
  addr_wf a -> addr_encodable a -> parseBinary (toBinary a ++ rest) = Ok a.
Proof.
  intros Hwf He. rewrite parse_toBinary by done. unfold addr_encodable in He.
  destruct (type_ a) eqn:Et; [done|done|]. specialize (He eq_refl).
  destruct (Z.eqb_spec (zlen (domain_ a)) 0); [lia|].
  rewrite take_ge by (unfold zlen in He; lia).
  destruct Hwf as (_ & _ & Hw). rewrite Et in Hw. destruct a; cbn in *. by subst.
Qed.

(** ** Arbitrary blobs *)

Lemma blob_split (bl : bytes) :
  4 <= zlen bl ->
  exists t len r, bl = t :: len :: r /\ rd bl 0 = Ok t /\ rd bl 1 = Ok len.
Proof.
  destruct bl as [|t [|len r]]; unfold zlen; simpl; try lia. intros _. by exists t, len, r.
Qed.

Lemma blob_shape t len r :
  2 + b2z len + 2 <= zlen (t :: len :: r) ->
  exists body hi lo rest, t :: len :: r = blob t len body hi lo rest /\ zlen body = b2z len.
Proof.
  intros Hz. rewrite !zlen_cons in Hz. pose proof (b2z_range len).
  destruct (drop_zget2 r (b2z len)) as (hi & lo & rest & E); [lia|lia|].
  exists (take (Z.to_nat (b2z len)) r), hi, lo, rest. split.
  - unfold blob. cbn [app]. do 2 f_equal. rewrite <- (take_drop (Z.to_nat (b2z len)) r) at 1.
    by rewrite E.
  - unfold zlen in *. rewrite length_take. lia.
Qed.

Lemma parseBinary_cases bl :
  (exists m, parseBinary bl = bad m) \/
  (exists t len body hi lo rest, bl = blob t len body hi lo rest /\ zlen body = b2z len /\
     parseBinary bl = parse_body (b2z t) body (Z.lor (u16 (Z.shiftl (b2z hi) 8)) (b2z lo))).
Proof.
  destruct (Z.lt_ge_cases (zlen bl) 4) as [Hs|Hs].
  { left. unfold parseBinary. destruct (Z.ltb_spec (zlen bl) 4); [eauto|lia]. }
  destruct (blob_split bl Hs) as (t & len & r & -> & Ht & Hl).
  destruct (Z.lt_ge_cases (zlen (t :: len :: r)) (2 + b2z len + 2)) as [Hn|Hn].
  - left. unfold parseBinary. destruct (Z.ltb_spec (zlen (t :: len :: r)) 4); [lia|].
    rewrite Ht, Hl. cbn [mbind res_bind].
    destruct (Z.ltb_spec (zlen (t :: len :: r)) (2 + b2z len + 2)); [eauto|lia].
  - right. destruct (blob_shape t len r Hn) as (body & hi & lo & rest & -> & Hb).
    exists t, len, body, hi, lo, rest. split; [done|]. split; [done|]. by apply parseBinary_blob.
Qed.

Lemma parse_body_inv t body port a :
  0 <= port < 2 ^ 16 -> zlen body <= 255 -> parse_body t body port = Ok a ->
  addr_wf a /\ addr_encodable a /\ port_ a = port /\ t = type_code (type_ a) /\ bin_body a = body.
Proof.
  intros Hp Hb. unfold parse_body.
  destruct (Z.eqb_spec t 1) as [->|].
  { destruct (Z.eqb_spec (zlen body) 4) as [E|]; [|done]. intros [= <-].
    assert (length body = 4%nat) by (unfold zlen in E; lia).
    split; [by apply fromIPv4_wf|]. split; [done|]. split; [done|]. split; [done|].
    destruct body as [|b0 [|b1 [|b2 [|b3 [|]]]]]; done. }
  destruct (Z.eqb_spec t 2) as [->|].
  { destruct (Z.eqb_spec (zlen body) 16) as [E|]; [|done]. intros [= <-].
    split; [|done]. apply fromIPv6_wf; [unfold zlen in E; lia|done]. }
  destruct (Z.eqb_spec t 3) as [->|]; [|done].
  destruct (Z.eqb_spec (zlen body) 0) as [|E]; [done|]. intros [= <-].
  pose proof (zlen_nonneg body). split; [done|]. split; [intros _; simpl; lia|].
  split; [done|]. split; [done|]. unfold bin_body. simpl. apply take_ge. unfold zlen in *. lia.
Qed.

(** A blob that parses is the binary form of the address, plus trailing bytes. *)
Lemma parseBinary_inv bl a :
  parseBinary bl = Ok a ->
  addr_wf a /\ addr_encodable a /\ exists rest, bl = toBinary a ++ rest.
Proof.
  intros E. destruct (parseBinary_cases bl) as [[m Em]|(t & len & body & hi & lo & rest & -> & Hb & Ep)];
    [rewrite Em in E; done|].
  rewrite Ep in E. destruct (bytes_port hi lo) as (Hp & Hhi & Hlo). pose proof (b2z_range len).
  apply parse_body_inv in E as (Hwf & He & Hport & Ht & Hbody); [|done|lia].
  split; [done|]. split; [done|]. exists rest.
  rewrite toBinary_blob, Hport, Hhi, Hlo.
  destruct (bin_body_spec a ltac:(apply Hwf)) as [-> Hl].
  rewrite Hbody, <- Ht, z2b_b2z. f_equal. rewrite Hbody in Hl. apply b2z_inj. lia.
Qed.

(** ** Text round trip *)

Lemma sv_find_app h c r : c ∉ h -> sv_find (h ++ c :: r) c = Some (zlen h).
Proof.
  induction h as [|b h IH]; intros Hc; simpl.
  - by rewrite decide_True.
  - rewrite decide_False by set_solver. rewrite IH by set_solver. simpl. f_equal. rewrite zlen_cons. lia.
Qed.

Lemma sv_rfind_none h c : c ∉ h -> sv_rfind h c = None.
Proof.
  induction h as [|b h IH]; intros Hc; simpl; [done|].
  rewrite IH by set_solver. by rewrite decide_False by set_solver.
Qed.

Lemma sv_rfind_app h c r : c ∉ r -> sv_rfind (h ++ c :: r) c = Some (zlen h).
Proof.
  intros Hc. induction h as [|b h IH]; simpl.
  - rewrite sv_rfind_none by done. by rewrite decide_True.
  - rewrite IH. f_equal. rewrite zlen_cons. lia.
Qed.

Lemma not_in_forallb (f : byte -> bool) c h : f c = false -> forallb f h = true -> c ∉ h.
Proof.
  intros Hf. induction h as [|b h IH]; simpl; [set_solver|].
  intros [Hb Hh]%andb_true_iff. apply not_elem_of_cons. split; [congruence|auto].
Qed.

Section TextRoundTrip.
Context `{AbslOps, !AbslSpec, BoostIp, !BoostIpSpec}.

Lemma strcat_no_char n c : 0 <= n -> is_digit c = false -> c ∉ StrCatInt n.
Proof. intros Hn Hc. destruct (strcat_nonneg n Hn) as (_ & Hd & _). by eapply not_in_forallb. Qed.

Lemma atoi32_strcat n :
  0 <= n <= INT32_MAX -> SimpleAtoi INT32_MIN INT32_MAX (StrCatInt n) = Some n.
Proof.
  intros Hn. destruct (strcat_nonneg n ltac:(lia)) as (Hne & Hd & Hv).
  rewrite atoi_digits by (done || unfold INT32_MIN; lia). rewrite Hv.
  destruct (Z.leb_spec n INT32_MAX); [done|lia].
Qed.

Lemma parse_port_strcat p : 1 <= p <= 65535 -> parse_port (StrCatInt p) = Some p.
Proof.
  intros Hp. unfold parse_port. rewrite atoi32_strcat by (unfold INT32_MAX; lia).
  destruct (Z.leb_spec p 0); [lia|]. destruct (Z.ltb_spec 65535 p); [lia|]. done.
Qed.

Lemma parse_octets_strcat bs : parse_octets (map (fun b => StrCatInt (b2z b)) bs) = Some bs.
Proof.
  induction bs as [|b bs IH]; [done|]. cbn [map parse_octets]. pose proof (b2z_range b).
  rewrite atoi32_strcat by (unfold INT32_MAX; lia).
  destruct (Z.ltb_spec (b2z b) 0); [lia|]. destruct (Z.ltb_spec 255 (b2z b)); [lia|].
  rewrite IH. cbn. by rewrite z2b_b2z.
Qed.

Lemma parseIPv4_dotted b0 b1 b2 b3 :
  parseIPv4 (join "."%byte (map (fun b => StrCatInt (b2z b)) [b0; b1; b2; b3]))
  = Some [b0; b1; b2; b3].
Proof.
  set (ps := map _ _). unfold parseIPv4.
  rewrite (split_unique _ _ ps); [|done| |done].
  - change (zlen ps =? 4) with true. cbn [negb]. apply parse_octets_strcat.
  - unfold ps. cbn [map].
    repeat (constructor; [apply strcat_no_char; [apply b2z_range|done]|]). constructor.
Qed.

(** A text address whose host part is unambiguous: a domain that is not a
    dotted quad and does not start with a bracket. *)
Definition addr_printable (a : Address) : Prop :=
  type_ a = Domain -> head (domain_ a) <> Some "["%byte /\ parseIPv4 (domain_ a) = None.

(** The unbracketed branch, on [host:port]. *)
Lemma parseHostPort_plain host p :
  head host <> Some "["%byte -> 1 <= p <= 65535 ->
  parseHostPort (host ++ lit ":" ++ StrCatInt p) =
    match parseIPv4 host with
    | Some v4 => Ok (fromIPv4 v4 p)
    | None => Ok (fromDomain host p)
    end.
Proof.
  intros Hh Hp. change (lit ":") with [":"%byte]. cbn [app].
  assert (Hc : ":"%byte ∉ StrCatInt p) by (apply strcat_no_char; [lia|done]).
  unfold parseHostPort. destruct (host ++ ":"%byte :: StrCatInt p) as [|c r] eqn:E; [by destruct host|].
  rewrite decide_False by (destruct host; simpl in *; congruence).
  rewrite <- E, sv_rfind_app by done.
  unfold sv_from. replace (Z.to_nat (zlen host + 1)) with (length (host ++ [":"%byte]))
    by (rewrite length_app; unfold zlen; cbn [length]; lia).
  change (host ++ ":"%byte :: StrCatInt p) with (host ++ [":"%byte] ++ StrCatInt p).
  rewrite app_assoc, drop_app_length, parse_port_strcat by done. rewrite <- app_assoc.
  unfold sv_substr. rewrite slice_0_app by done. by rewrite u16_small by lia.
Qed.

(** The bracketed branch, on [[host]:port]. *)
Lemma parseHostPort_bracket h p :
  "]"%byte ∉ h -> 1 <= p <= 65535 -> zlen h < 2 ^ 62 ->
  parseHostPort (lit "[" ++ h ++ lit "]:" ++ StrCatInt p) =
    match parseIPv6 h with Some b => Ok (fromIPv6 b p) | None => bad "bad ipv6" end.
Proof.
  intros Hh Hp Hlt. pose proof (zlen_nonneg h). pose proof (zlen_nonneg (StrCatInt p)).
  set (s := lit "[" ++ h ++ lit "]:" ++ StrCatInt p).
  assert (Hs : s = (lit "[" ++ h) ++ "]"%byte :: ":"%byte :: StrCatInt p)
    by (unfold s; by rewrite <- app_assoc).
  assert (H1h : zlen (lit "[" ++ h) = 1 + zlen h) by (by rewrite zlen_app).
  assert (Hf : sv_find s "]"%byte = Some (1 + zlen h)).
  { rewrite Hs, sv_find_app; [by rewrite H1h|]. apply not_elem_of_app. split; [|done].
    change (lit "[") with ["["%byte]. set_solver. }
  assert (Hr : rd s (1 + zlen h + 1) = Ok ":"%byte).
  { apply rd_zget. rewrite Hs, zget_app_r, H1h by lia.
    by replace (1 + zlen h + 1 - (1 + zlen h)) with 1 by lia. }
  assert (Hl : zlen s = 3 + zlen h + zlen (StrCatInt p))
    by (rewrite Hs, zlen_app, H1h, !zlen_cons; lia).
  assert (Hp2 : sv_from s (1 + zlen h + 2) = StrCatInt p).
  { unfold sv_from. rewrite Hs.
    change ("]"%byte :: ":"%byte :: StrCatInt p) with (["]"%byte; ":"%byte] ++ StrCatInt p).
    rewrite app_assoc.
    replace (Z.to_nat (1 + zlen h + 2)) with (length ((lit "[" ++ h) ++ ["]"%byte; ":"%byte]))
      by (rewrite length_app; unfold zlen in H1h |- *; cbn [length]; lia).
    apply drop_app_length. }
  assert (Hhost : sv_substr s 1 (zlen h) = h) by (unfold sv_substr, s; by apply slice_mid).
  change (parseHostPort s) with
    (match sv_find s "]"%byte with
     | None => bad "missing ]"
     | Some rb =>
         colon ← (if zlen s <=? rb + 1 then Ok false
                  else c ← rd s (rb + 1); Ok (bool_decide (c = ":"%byte)));
         if negb colon then bad "missing :port" else
         match parse_port (sv_from s (rb + 2)) with
         | None => bad "bad port"
         | Some port =>
             match parseIPv6 (sv_substr s 1 (sub64 rb 1)) with
             | None => bad "bad ipv6"
             | Some b => Ok (fromIPv6 b (u16 port))
             end
         end
     end).
  clearbody s. rewrite Hf, sub64_small by lia. destruct (Z.leb_spec (zlen s) (1 + zlen h + 1)); [lia|].
  rewrite Hr. cbn [mbind res_bind]. rewrite bool_decide_true by done. cbn [negb].
  rewrite Hp2, parse_port_strcat by done. replace (1 + zlen h - 1) with (zlen h) by lia.
  rewrite Hhost. by rewrite u16_small by lia.
Qed.
Lemma parseHostPort_toString a :
  addr_wf a -> addr_printable a -> 1 <= port_ a -> zlen (v6_to_string (bytes_ a)) < 2 ^ 62 ->
  parseHostPort (toString a) = Ok a.
Proof.
  intros Hwf Hpr Hp Hz. pose proof Hwf as (Hpw & Hb & Hw).
  unfold toString, addr_printable in *. destruct (type_ a) eqn:Et.
  - rewrite (addr_eta_v4 a Hwf Et) at 2.
    destruct (bytes_ a) as [|b0 [|b1 [|b2 [|b3 r]]]]; try done.
    pose proof (parseHostPort_plain
      (join "."%byte (map (fun b => StrCatInt (b2z b)) [b0; b1; b2; b3])) (port_ a)) as E.
    rewrite parseIPv4_dotted in E. cbn [map join] in E.
    repeat (rewrite <- app_assoc in E; cbn [app] in E).
    change (lit ".") with ["."%byte]. cbn [app]. rewrite E; [done| |lia].
    pose proof (b2z_range b0). destruct (strcat_nonneg (b2z b0) ltac:(lia)) as (_ & Hd & _).
    destruct (StrCatInt (b2z b0)); [done|]. intros [= ->]. done.
  - rewrite parseHostPort_bracket; [|eapply not_in_forallb; [|apply v6_chars]; done|lia|done].
    unfold parseIPv6. rewrite v6_roundtrip by done. destruct a; cbn in *. by subst.
  - destruct (Hpr eq_refl) as [Hh H4]. rewrite parseHostPort_plain by (done || lia). rewrite H4.
    destruct a; cbn in *. by subst.
Qed.

(** What [parseHostPort] can return. *)
Lemma sv_find_nonneg s c i : sv_find s c = Some i -> 0 <= i.
Proof.
  revert i. induction s as [|b s IH]; intros i; cbn [sv_find]; [done|]. case_decide; [by intros [= <-]|].
  destruct (sv_find s c) as [j|]; cbn; [|done]. intros [= <-]. specialize (IH j eq_refl). lia.
Qed.

Lemma parse_octets_length ps b : parse_octets ps = Some b -> length b = length ps.
Proof.
  revert b. induction ps as [|p ps IH]; intros b; cbn [parse_octets]; [by intros [= <-]|].
  destruct (SimpleAtoi _ _ p) as [v|]; [|done]. case_match; [done|].
  destruct (parse_octets ps) as [b'|]; cbn; [|done]. intros [= <-]. cbn. by rewrite (IH b').
Qed.

Lemma parse_port_range s p : parse_port s = Some p -> 1 <= p <= 65535.
Proof.
  unfold parse_port. destruct (SimpleAtoi _ _ s) as [v|]; [|done].
  destruct (Z.leb_spec v 0), (Z.ltb_spec 65535 v); intros [= <-]; lia.
Qed.

Lemma parseHostPort_result s :
  match parseHostPort s with Ok a => addr_wf a /\ 1 <= port_ a <= 65535 | Err _ => True | UB => False end.
Proof.
  assert (forall p, 1 <= p <= 65535 -> u16 p = p) as Hu by (intros; apply u16_small; lia).
  unfold parseHostPort. destruct s as [|front s']; [done|]. set (s := front :: s'). case_decide as Ef.
  - destruct (sv_find s "]"%byte) as [rb|] eqn:Er; [|done]. apply sv_find_nonneg in Er.
    destruct (Z.leb_spec (zlen s) (rb + 1)) as [|Hlt]; cbn [mbind res_bind]; [done|].
    destruct (rd s (rb + 1)) as [c| |] eqn:Ec; cbn [mbind res_bind]; [|done|].
    + destruct (bool_decide _); [|done]. cbn [negb]. destruct (parse_port _) as [p|] eqn:Ep; [|done].
      unfold parseIPv6. destruct (make_address_v6 _) as [b|] eqn:Eb; [|done]. apply parse_port_range in Ep.
      rewrite Hu by done. split; [|done]. apply fromIPv6_wf; [by eapply make_v6_length|lia].
    + unfold rd, zget in Ec. rewrite (proj2 (Z.leb_le _ _)) in Ec by lia.
      destruct (lookup_lt_is_Some_2 s (Z.to_nat (rb + 1))) as [c E]; [unfold zlen in *; lia|]. by rewrite E in Ec.
  - destruct (sv_rfind s ":"%byte) as [colon|]; [|done]. destruct (parse_port _) as [p|] eqn:Ep; [|done].
    apply parse_port_range in Ep. rewrite Hu by done. destruct (parseIPv4 _) as [v4|] eqn:E4.
    + split; [|done]. apply fromIPv4_wf; [|lia]. unfold parseIPv4 in E4. destruct (Z.eqb_spec (zlen (StrSplit (sv_substr s 0 colon) "."%byte)) 4) as [E|]; [|done].
      apply parse_octets_length in E4. unfold zlen in E. lia.
    + split; [|done]. apply fromDomain_wf. lia.
Qed.

(** Text in brackets never reads as a domain. *)
Lemma parseHostPort_bracket_type s a :
  parseHostPort s = Ok a -> head s = Some "["%byte -> type_ a = IPv6.
Proof.
  unfold parseHostPort. destruct s as [|front s']; [done|]. intros E Ef. cbn [head] in Ef. injection Ef as ->. revert E.
  rewrite decide_True by done. destruct (sv_find _ _) as [rb|]; [|done].
  destruct (if _ <=? _ then _ else _) as [c| |]; cbn [mbind res_bind]; [|done..].
  destruct (negb c); [done|]. destruct (parse_port _); [|done].
  destruct (parseIPv6 _); [|done]. by intros [= <-].
Qed.

Lemma parseHostPort_printable a :
  addr_wf a -> parseHostPort (toString a) = Ok a -> addr_printable a.
Proof.
  intros [Hpw _] E Et. pose proof (parseHostPort_result (toString a)) as Hr.
  rewrite E in Hr. destruct Hr as [_ Hp].
  assert (Hh : head (domain_ a) <> Some "["%byte).
  { intros Hh. assert (type_ a = IPv6); [|congruence].
    eapply parseHostPort_bracket_type; [exact E|]. unfold toString. rewrite Et.
    by destruct (domain_ a). }
  split; [done|]. revert E. unfold toString. rewrite Et, parseHostPort_plain by done.
  destruct (parseIPv4 _) as [v4|]; [|done]. intros [= E]. by rewrite <- E in Et.
Qed.

Lemma resolveOne_defined dns a : addr_wf a -> resolveOne dns a <> UB.
Proof.
  intros (_ & Hb & _). unfold resolveOne, rdn, zlen. rewrite Hb. destruct (type_ a); [done|done|].
  by destruct (dns _ _) as [[|e es]|msg].
Qed.

(** The characters a printed address can have. *)
Definition host_char (b : byte) : bool := is_digit b || v6_char b || (b2z b =? 91) || (b2z b =? 93).

Lemma host_char_strcat n : 0 <= n -> forallb host_char (StrCatInt n) = true.
Proof.
  intros Hn. destruct (strcat_nonneg n Hn) as (_ & Hd & _). rewrite forallb_forall in Hd |- *.
  intros b Hb. unfold host_char. by rewrite (Hd b Hb).
Qed.

Lemma toString_chars a (ok : byte -> bool) :
  length (bytes_ a) = 16%nat -> 0 <= port_ a ->
  (forall b, host_char b = true -> ok b = true) -> forallb ok (domain_ a) = true ->
  forallb ok (toString a) = true.
Proof.
  intros Hb Hp Hok Hd.
  assert (forall s, forallb host_char s = true -> forallb ok s = true) as Hs.
  { intros s. rewrite !forallb_forall. eauto. }
  pose proof (Hs _ (host_char_strcat (port_ a) Hp)) as Hport. unfold toString. destruct (type_ a).
  - destruct (bytes_ a) as [|b0 [|b1 [|b2 [|b3 r]]]]; try done.
    pose proof (b2z_range b0). pose proof (b2z_range b1). pose proof (b2z_range b2). pose proof (b2z_range b3).
    rewrite !forallb_app, !(Hs (StrCatInt _)), !(Hs (lit _)) by (done || (apply host_char_strcat; lia)). done.
  - rewrite !forallb_app, Hport, !(Hs (lit _)), (Hs (v6_to_string _)); [done| |done..].
    pose proof (v6_chars (bytes_ a)) as Hv. rewrite forallb_forall in Hv |- *. intros b Hin. unfold host_char.
    by rewrite (Hv b Hin), orb_true_r.
  - by rewrite !forallb_app, Hport, Hd, (Hs (lit _)).
Qed.
End TextRoundTrip.

(** ** Properties *)

(** Binary addresses round trip: [parseBinary] recovers every address with
    an encodable domain (1 to 255 bytes) from what [toBinary] produces, whatever
    bytes follow it in the frame. *)
Theorem address_binary_roundtrip a rest :
  addr_wf a -> addr_encodable a -> parseBinary (toBinary a ++ rest) = Ok a.
Proof. apply parse_toBinary_encodable. Qed.

Lemma address_binary_roundtrip_witness :
  parseBinary (toBinary (fromDomain (lit "example.com") 443) ++ []) = Ok (fromDomain (lit "example.com") 443).
Proof.
  apply (address_binary_roundtrip (fromDomain (lit "example.com") 443) []); [by vm_compute|].
  intros _. by vm_compute.
Defined.

(** [parseBinary] is safe and canonical on arbitrary bytes from the peer:
    it never reads outside the blob, and accepts exactly the binary forms of
    well-formed addresses with a 1 to 255 byte domain, followed by any bytes. *)
Theorem parseBinary_exact bl :
  parseBinary bl <> UB /\
  forall a, parseBinary bl = Ok a <->
            addr_wf a /\ addr_encodable a /\ exists rest, bl = toBinary a ++ rest.
Proof.
  split.
  - destruct (parseBinary_cases bl) as [[m ->]|(t & len & body & hi & lo & rest & _ & _ & ->)]; [done|].
    unfold parse_body. repeat case_match; done.
  - intros a. split; [apply parseBinary_inv|]. intros (Hwf & He & rest & ->).
    by apply parse_toBinary_encodable.
Qed.

(** C34. Text addresses round trip exactly when they can.  For every
    well-formed address, [parseHostPort] gives back what [toString] printed if
    and only if the port is not [0] and, for a domain address, the name neither
    begins with ['['] nor reads as a dotted quad.  In the last case the text is
    read as the IPv4 address it spells: a domain request for ["1.2.3.4"] comes
    back as an address of another kind. *)
Theorem address_text_roundtrip `{AbslOps, !AbslSpec, BoostIp, !BoostIpSpec} a :
  addr_wf a -> zlen (v6_to_string (bytes_ a)) < 2 ^ 62 ->
  (parseHostPort (toString a) = Ok a <->
   1 <= port_ a /\
   (type_ a = Domain -> head (domain_ a) <> Some "["%byte /\ parseIPv4 (domain_ a) = None)) /\
  (forall v4, type_ a = Domain -> 1 <= port_ a -> head (domain_ a) <> Some "["%byte ->
     parseIPv4 (domain_ a) = Some v4 ->
     parseHostPort (toString a) = Ok (fromIPv4 v4 (port_ a))).
Proof.
  intros Hwf Hz. split.
  - split; [|intros [Hp Hpr]; by apply parseHostPort_toString]. intros E.
    split; [|by apply parseHostPort_printable].
    pose proof (parseHostPort_result (toString a)) as Hr. rewrite E in Hr. lia.
  - intros v4 Et Hp Hh H4. destruct Hwf as [? _]. unfold toString. rewrite Et.
    rewrite parseHostPort_plain by (done || lia). by rewrite H4.
Qed.

(** C36. Addresses are parsed safely and well-typed: on every string
    [parseHostPort] either reports an error or returns an address with the
    invariant of its type and a port between 1 and 65535, which [resolveOne] can
    then use; it never reads outside the string. *)
Theorem parseHostPort_well_typed `{AbslOps, !AbslSpec, BoostIp, !BoostIpSpec} s dns :
  match parseHostPort s with
  | Ok a => addr_wf a /\ 1 <= port_ a <= 65535 /\ resolveOne dns a <> UB
  | Err _ => True
  | UB => False
  end.
Proof.
  pose proof (parseHostPort_result s) as Hr. destruct (parseHostPort s) as [a| |]; [|done..].
  destruct Hr as [Hwf Hp]. split; [done|]. split; [done|]. by apply resolveOne_defined.
Qed.

(** ** A satisfiable instance

    An implementation of the two Boost conversions for the uncompressed text form
    (eight groups of four hexadecimal digits), to evaluate the definitions on and
    to show that the laws of [BoostIpSpec] can hold. *)
Definition hex_val (b : byte) : option Z :=
  let v := b2z b in
  if (48 <=? v) && (v <=? 57) then Some (v - 48)
  else if (97 <=? v) && (v <=? 102) then Some (v - 87) else None.
Definition hex_pair (h l : byte) : option byte :=
  match hex_val h, hex_val l with
  | Some x, Some y => Some (z2b (x * 16 + y))
  | _, _ => None
  end.
Fixpoint full_v6_print (b : bytes) : bytes :=
  match b with
  | x :: y :: r =>
      (ref_StrCatHex2 (b2z x) ++ ref_StrCatHex2 (b2z y)) ++
      match r with [] => [] | _ => ":"%byte :: full_v6_print r end
  | _ => []
  end.
Fixpoint full_v6_groups (s : bytes) : option bytes :=
  match s with
  | h0 :: l0 :: h1 :: l1 :: r =>
      match hex_pair h0 l0, hex_pair h1 l1 with
      | Some x, Some y =>
          match r with
          | [] => Some [x; y]
          | c :: r' =>
              if decide (c = ":"%byte) then
                match full_v6_groups r' with Some bs => Some (x :: y :: bs) | None => None end
              else None
          end
      | _, _ => None
      end
  | _ => None
  end.
Definition full_v6_parse (s : bytes) : option bytes :=
  match full_v6_groups s with
  | Some b => if decide (length b = 16%nat) then Some b else None
  | None => None
  end.

#[export] Instance full_form_boost : BoostIp :=
  {| make_address_v6 := full_v6_parse; v6_to_string := full_v6_print |}.

Lemma hex_digit_spec d : 0 <= d < 16 -> hex_val (hex_digit d) = Some d /\ v6_char (hex_digit d) = true.
Proof.
  intros Hd. assert (Hin : d ∈ [0; 1; 2; 3; 4; 5; 6; 7; 8; 9; 10; 11; 12; 13; 14; 15]).
  { rewrite !elem_of_cons. lia. }
  revert Hin. rewrite list_elem_of_In. simpl. intros Hin.
  repeat destruct Hin as [<-|Hin]; by vm_compute.
Qed.

Lemma hex_byte_spec b :
  exists h l, ref_StrCatHex2 (b2z b) = [h; l] /\ hex_pair h l = Some b /\
              v6_char h = true /\ v6_char l = true.
Proof.
  pose proof (b2z_range b). unfold ref_StrCatHex2.
  assert (b2z b / 16 < 16) by (apply Z.div_lt_upper_bound; lia).
  assert (0 <= b2z b / 16) by (apply Z.div_pos; lia).
  destruct (hex_digit_spec ((b2z b / 16) mod 16)) as [Hh Hhc]; [apply Z.mod_pos_bound; lia|].
  destruct (hex_digit_spec (b2z b mod 16)) as [Hl Hlc]; [apply Z.mod_pos_bound; lia|].
  eexists _, _. split; [done|]. split; [|done]. unfold hex_pair. rewrite Hh, Hl. f_equal.
  rewrite Z.mod_small by lia. rewrite <- (z2b_b2z b) at 3. f_equal.
  pose proof (Z.div_mod (b2z b) 16). lia.
Qed.

Lemma full_v6_print_groups n b :
  length b = (2 * S n)%nat -> full_v6_groups (full_v6_print b) = Some b.
Proof.
  revert b. induction n as [|n IH]; intros b Hb;
    (destruct b as [|x [|y r]]; [simpl in Hb; lia..|]);
    destruct (hex_byte_spec x) as (hx & lx & Ex & Px & _);
    destruct (hex_byte_spec y) as (hy & ly & Ey & Py & _); cbn [full_v6_print]; rewrite Ex, Ey.
  - destruct r; [|simpl in Hb; lia]. cbn. by rewrite Px, Py.
  - destruct r as [|z r]; [simpl in Hb; lia|].
    cbn [app full_v6_groups]. rewrite Px, Py, decide_True by done.
    rewrite IH by (simpl in *; lia). done.
Qed.

Lemma full_v6_print_chars n b :
  (length b <= n)%nat -> forallb v6_char (full_v6_print b) = true.
Proof.
  revert b. induction n as [|n IH]; intros b Hb; (destruct b as [|x [|y r]]; [done|done|]);
    [simpl in Hb; lia|].
  destruct (hex_byte_spec x) as (hx & lx & Ex & _ & Hx1 & Hx2).
  destruct (hex_byte_spec y) as (hy & ly & Ey & _ & Hy1 & Hy2).
  cbn [full_v6_print]. rewrite Ex, Ey. cbn [app forallb]. rewrite Hx1, Hx2, Hy1, Hy2. cbn [andb].
  destruct r as [|z r]; [done|]. cbn [forallb]. rewrite IH by (simpl in *; lia). done.
Qed.

#[export] Instance full_form_boost_spec : BoostIpSpec.
Proof.
  split.
  - intros s b. cbn. unfold full_v6_parse. destruct (full_v6_groups s); [|done].
    destruct (decide _); [|done]. by intros [= <-].
  - intros b Hb. cbn. unfold full_v6_parse. rewrite (full_v6_print_groups 7) by (by rewrite Hb).
    by rewrite decide_True.
  - intros b. by apply (full_v6_print_chars (length b)).
Qed.

Lemma address_text_roundtrip_witness :
  parseHostPort (toString (fromIPv4 [xc0; xa8; x01; x01] 80)) = Ok (fromIPv4 [xc0; xa8; x01; x01] 80) /\
  parseHostPort (toString (fromIPv6 (x20 :: x01 :: replicate 13 x00 ++ [x01]) 443))
  = Ok (fromIPv6 (x20 :: x01 :: replicate 13 x00 ++ [x01]) 443) /\
  parseHostPort (toString (fromDomain (lit "1.2.3.4") 80)) = Ok (fromIPv4 [x01; x02; x03; x04] 80) /\
  parseHostPort (toString (fromDomain (lit "a.example") 0)) <> Ok (fromDomain (lit "a.example") 0).
Proof.
  split_and!.
  - apply (proj1 (address_text_roundtrip (fromIPv4 [xc0; xa8; x01; x01] 80)
                    ltac:(by vm_compute) ltac:(by vm_compute))). by vm_compute.
  - apply (proj1 (address_text_roundtrip (fromIPv6 (x20 :: x01 :: replicate 13 x00 ++ [x01]) 443)
                    ltac:(by vm_compute) ltac:(by vm_compute))). by vm_compute.
  - apply (proj2 (address_text_roundtrip (fromDomain (lit "1.2.3.4") 80)
                    ltac:(by vm_compute) ltac:(by vm_compute))); by vm_compute.
  - intros E. apply (proj1 (address_text_roundtrip (fromDomain (lit "a.example") 0)
                    ltac:(by vm_compute) ltac:(by vm_compute))) in E as [Hp _]. by apply Hp.
Defined.

(** Domains longer than 255 bytes are not refused but truncated on the
    wire: the peer connects to a different name than the one requested. *)
Theorem toBinary_truncates_domain d port :
  0 <= port < 2 ^ 16 -> 255 < zlen d ->
  parseBinary (toBinary (fromDomain d port)) = Ok (fromDomain (take 255 d) port) /\
  fromDomain (take 255 d) port <> fromDomain d port.
Proof.
  intros Hp Hd. rewrite <- (app_nil_r (toBinary _)), parse_toBinary by (by apply fromDomain_wf).
  cbn [fromDomain type_ domain_ port_]. destruct (Z.eqb_spec (zlen d) 0); [lia|]. split; [done|].
  intros [= E]. apply (f_equal length) in E. rewrite length_take in E. unfold zlen in Hd. lia.
Qed.

Lemma toBinary_truncates_domain_witness :
  parseBinary (toBinary (fromDomain (replicate 300 "a"%byte) 80))
  = Ok (fromDomain (take 255 (replicate 300 "a"%byte)) 80) /\
  fromDomain (take 255 (replicate 300 "a"%byte)) 80 <> fromDomain (replicate 300 "a"%byte) 80.
Proof. apply (toBinary_truncates_domain (replicate 300 "a"%byte) 80); [lia|by vm_compute]. Defined.

Lemma parseHostPort_well_typed_witness :
  match parseHostPort (lit "host:70000"), parseHostPort (lit "host:70") with
  | Err _, Ok a => addr_wf a /\ port_ a = 70
  | _, _ => False
  end.
Proof.
  pose proof (parseHostPort_well_typed (lit "host:70") (fun _ _ => inl [])) as Ht.
  destruct (parseHostPort (lit "host:70000")) eqn:E1; [by vm_compute in E1| |by vm_compute in E1].
  destruct (parseHostPort (lit "host:70")) as [a| |] eqn:E2; [|by vm_compute in E2..].
  split; [apply Ht|]. vm_compute in E2. by injection E2 as <-.
Defined.
