(* ===== verification/Request.v ===== *)
(** * Routed requests (src/transport/session_request.hpp)

    What an inbound hands to the router and the router to an outbound: the
    target, the transport and where the request came from.  The streams that
    travel with it are values of their own in the models of the handlers. *)
From S2P Require Import Prelude Absl Address.
From Stdlib Require Import Strings.Byte.

(** [SessionRequest::Protocol] *)
Inductive Protocol := TCP | UDP.
#[export] Instance Protocol_eq_dec : EqDecision Protocol.
Proof. solve_decision. Defined.

Record Request := mkRequest {
  req_inbound_tag : bytes;
  req_inbound_protocol : bytes;
  req_protocol : Protocol;
  req_target : Address;
}.
