(* ===== verification/Channel.v ===== *)
(** * Channels (boost::asio::experimental::concurrent_channel)

    The queues between coroutines are Boost.Asio channels, outside the
    repository.  [ChannelOps] is the interface the sources use, [ChannelSpec]
    the documented behaviour: a channel is a FIFO of messages with a buffer
    bound and a closed flag.  [fifo_channel] is an implementation.

    [ch_queue] is what a receiver will get, in order: the buffered messages
    followed by those of senders still suspended in [async_send]. *)
From S2P Require Import Prelude.

(** The outcome of [async_receive]: a message, an error code, or suspension
    until one of them is available. *)
Inductive recv (A : Type) := RecvMsg (a : A) | RecvError | RecvPending.
Arguments RecvMsg {A} a.
Arguments RecvError {A}.
Arguments RecvPending {A}.

Class ChannelOps (C : Type -> Type) := {
  ch_make : forall {A}, Z -> C A;
  ch_async_send : forall {A}, A -> C A -> C A;
  ch_try_send : forall {A}, A -> C A -> C A;
  ch_async_receive : forall {A}, C A -> recv A * C A;
  ch_close : forall {A}, C A -> C A;
  ch_queue : forall {A}, C A -> list A;
  ch_closed : forall {A}, C A -> bool;
  ch_bound : forall {A}, C A -> Z;
}.

Class ChannelSpec (C : Type -> Type) `{ChannelOps C} : Prop := {
  make_queue A n : ch_queue (@ch_make C _ A n) = [];
  make_closed A n : ch_closed (@ch_make C _ A n) = false;
  make_bound A n : ch_bound (@ch_make C _ A n) = n;
  (* async_send: appended unless the channel is closed *)
  send_queue A (a : A) c : ch_queue (ch_async_send a c) = ch_queue c ++ (if ch_closed c then [] else [a]);
  send_closed A (a : A) c : ch_closed (ch_async_send a c) = ch_closed c;
  send_bound A (a : A) c : ch_bound (ch_async_send a c) = ch_bound c;
  (* try_send: appended when open and the buffer has room, otherwise dropped *)
  try_send_queue A (a : A) c :
    ch_queue (ch_try_send a c)
    = ch_queue c ++ (if negb (ch_closed c) && (zlen (ch_queue c) <? ch_bound c) then [a] else []);
  try_send_closed A (a : A) c : ch_closed (ch_try_send a c) = ch_closed c;
  try_send_bound A (a : A) c : ch_bound (ch_try_send a c) = ch_bound c;
  (* async_receive on an open channel: the oldest message, or suspension *)
  recv_open_cons A (c : C A) a q :
    ch_closed c = false -> ch_queue c = a :: q ->
    exists c', ch_async_receive c = (RecvMsg a, c') /\ ch_queue c' = q /\
               ch_closed c' = false /\ ch_bound c' = ch_bound c;
  recv_open_nil A (c : C A) :
    ch_closed c = false -> ch_queue c = [] -> ch_async_receive c = (RecvPending, c);
  (* on a closed and drained channel: an error, at once *)
  recv_closed_nil A (c : C A) :
    ch_closed c = true -> ch_queue c = [] -> ch_async_receive c = (RecvError, c);
  (* on a closed channel: a message or an error, never suspension *)
  recv_closed_ready A (c : C A) : ch_closed c = true -> fst (ch_async_receive c) <> RecvPending;
  (* whatever its state: a receiver gets the oldest message or takes nothing *)
  recv_queue A (c : C A) r c' :
    ch_async_receive c = (r, c') ->
    ch_queue c = (if r is RecvMsg a then [a] else []) ++ ch_queue c' /\
    ch_closed c' = ch_closed c /\ ch_bound c' = ch_bound c;
  close_closed A (c : C A) : ch_closed (ch_close c) = true;
  close_bound A (c : C A) : ch_bound (ch_close c) = ch_bound c;
  (* closing adds no message *)
  close_queue A (c : C A) : exists q, ch_queue c = ch_queue (ch_close c) ++ q;
}.

(** ** An implementation *)

Record fifo (A : Type) := mkFifo { fifo_queue : list A; fifo_closed : bool; fifo_bound : Z }.
Arguments mkFifo {A}.
Arguments fifo_queue {A}.
Arguments fifo_closed {A}.
Arguments fifo_bound {A}.

#[export] Instance fifo_channel : ChannelOps fifo := {|
  ch_make A n := mkFifo [] false n;
  ch_async_send A a c :=
    if fifo_closed c then c else mkFifo (fifo_queue c ++ [a]) false (fifo_bound c);
  ch_try_send A a c :=
    if negb (fifo_closed c) && (zlen (fifo_queue c) <? fifo_bound c)
    then mkFifo (fifo_queue c ++ [a]) (fifo_closed c) (fifo_bound c) else c;
  ch_async_receive A c :=
    match fifo_queue c with
    | a :: q => (RecvMsg a, mkFifo q (fifo_closed c) (fifo_bound c))
    | [] => (if fifo_closed c then RecvError else RecvPending, c)
    end;
  ch_close A c := mkFifo (fifo_queue c) true (fifo_bound c);
  ch_queue A := fifo_queue;
  ch_closed A := fifo_closed;
  ch_bound A := fifo_bound;
|}.

#[export] Instance fifo_channel_spec : ChannelSpec fifo.
Proof.
  split; try done.
  - intros A a [q [] b]; cbn; by rewrite ?app_nil_r.
  - intros A a [q [] b]; done.
  - intros A a [q [] b]; done.
  - intros A a [q cl b]; cbn. destruct (negb cl && (zlen q <? b)); cbn; by rewrite ?app_nil_r.
  - intros A a [q cl b]; cbn. by destruct (negb cl && (zlen q <? b)).
  - intros A a [q cl b]; cbn. by destruct (negb cl && (zlen q <? b)).
  - intros A [q cl b] a q' Hc Hq; cbn in *; subst. by eexists.
  - intros A [q cl b] Hc Hq; cbn in *; by subst.
  - intros A [q cl b] Hc Hq; cbn in *; by subst.
  - intros A [[|a q] cl b] Hc; cbn in *; by subst.
  - intros A [[|a q] cl b] r c' E; cbn in *; injection E as <- <-; by destruct cl.
  - intros A [q cl b]; cbn. exists []. by rewrite app_nil_r.
Qed.
