(* ===== verification/Socket.v ===== *)
(** * Sockets and conversations

    A TCP socket as its reader sees it, and the little monad in which the proxy
    handshakes are written: a coroutine that reads and writes one socket and may
    return early.  [asio::async_read_until] with its [streambuf] is Boost.Asio's
    own: [ReadUntil] is its interface. *)
From S2P Require Import Prelude Absl Address.
From Stdlib Require Import Strings.Byte.

(** The socket as the reader sees it: what the peer has sent and not been read,
    and how many bytes each [async_read_some] completes with (any split the
    network may choose; all that is there when the list is exhausted). *)
Record Sock := mkSock { stream : bytes; splits : list Z }.

(** [async_read_some] into [cap] bytes; no bytes is end of file. *)
Definition sock_read_some (cap : Z) (sk : Sock) : bytes * Sock :=
  let avail := Z.min cap (zlen (stream sk)) in
  let '(n, more) :=
    match splits sk with
    | [] => (avail, [])
    | k :: ks => (Z.min avail (Z.max 1 k), ks)
    end in
  (take (Z.to_nat n) (stream sk), mkSock (drop (Z.to_nat n) (stream sk)) more).

(** A socket read: some bytes of the stream, at least one unless it is empty. *)
Lemma sock_read_spec cap sk :
  0 < cap ->
  exists d sk', sock_read_some cap sk = (d, sk') /\ stream sk = d ++ stream sk' /\ zlen d <= cap /\
    (stream sk <> [] -> 0 < zlen d).
Proof.
  intros Hc. unfold sock_read_some.
  set (p := match splits sk with [] => _ | _ :: _ => _ end).
  assert (exists n ks, p = (n, ks) /\ 0 <= n <= Z.min cap (zlen (stream sk)) /\
            (0 < zlen (stream sk) -> 0 < n)) as (n & ks & -> & Hn & Hpos).
  { unfold p. pose proof (zlen_nonneg (stream sk)). destruct (splits sk) as [|k ks'];
      eexists _, _; (split; [done|]); lia. }
  eexists _, _. split; [done|]. cbn [stream]. split; [by rewrite take_drop|].
  assert (zlen (take (Z.to_nat n) (stream sk)) = n) as Hl
    by (unfold zlen in *; rewrite length_take; lia).
  rewrite Hl. split; [lia|]. intros Hne. by apply Hpos, zlen_pos.
Qed.

(** What an [async_receive_from] completes with: a datagram and its sender, or
    an error message. *)
Notation Arrival := (Endpoint * bytes + bytes)%type.

(** ** Conversations with a peer *)

(** The socket, how the next [async_write]s end ([Some] error message; they
    succeed when the list is exhausted) and what was written. *)
Record Peer := mkPeer { p_sock : Sock; p_writes : list (option bytes); p_out : bytes }.
Definition p_in (p : Peer) : bytes := stream (p_sock p).

(** A coroutine over the socket; [Err] is an early [co_return]. *)
Definition Io (A : Type) : Type := Peer -> res A * Peer.
#[export] Instance Io_ret : MRet Io := fun A a p => (Ok a, p).
#[export] Instance Io_bind : MBind Io := fun A B f m p =>
  match m p with
  | (Ok a, p') => f a p'
  | (Err e, p') => (Err e, p')
  | (UB, p') => (UB, p')
  end.
Definition io_fail {A} (st : Status) : Io A := fun p => (Err st, p).

(** [co_return;] of a handler that returns no status. *)
Definition drop_client {A} : Io A := io_fail (UnavailableError []).

Definition eof_message : bytes := lit "End of file".

(** [readExact], [s5ReadExact]: all [n] bytes, or an error. *)
Definition readExact (n : Z) : Io bytes := fun p =>
  let sk := p_sock p in
  if n <=? zlen (stream sk)
  then (Ok (take (Z.to_nat n) (stream sk)),
        mkPeer (mkSock (drop (Z.to_nat n) (stream sk)) (splits sk)) (p_writes p) (p_out p))
  else (Err (UnavailableError eof_message), mkPeer (mkSock [] (splits sk)) (p_writes p) (p_out p)).

(** [writeAll], [s5WriteAll]: what a failed write put on the wire is not
    recorded. *)
Definition writeAll (d : bytes) : Io unit := fun p =>
  match p_writes p with
  | Some msg :: ws => (Err (UnavailableError msg), mkPeer (p_sock p) ws (p_out p))
  | None :: ws => (Ok tt, mkPeer (p_sock p) ws (p_out p ++ d))
  | [] => (Ok tt, mkPeer (p_sock p) [] (p_out p ++ d))
  end.

(** A single byte just read. *)
Definition io_ub {A} : Io A := fun p => (UB, p).
Definition first_byte (b : bytes) : Io byte := match b with x :: _ => mret x | [] => io_ub end.
Definition readByte : Io byte := b ← readExact 1; first_byte b.

Definition healthy (p : Peer) : Prop := p_writes p = [].
Definition peer_of (input : bytes) (splits : list Z) : Peer := mkPeer (mkSock input splits) [] [].

(** One stretch of conversation: [s] was read, [w] written. *)
Definition exchange (p : Peer) (s w : bytes) (p' : Peer) : Prop :=
  p_in p = s ++ p_in p' /\ p_out p' = p_out p ++ w /\ splits (p_sock p') = splits (p_sock p) /\
  p_writes p' = p_writes p.

Section IoFacts.
Implicit Types p : Peer.

Lemma peer_ext p q :
  p_in p = p_in q -> p_out p = p_out q -> splits (p_sock p) = splits (p_sock q) -> p_writes p = p_writes q -> p = q.
Proof. destruct p as [[] ? ?], q as [[] ? ?]. unfold p_in. cbn. by intros -> -> -> ->. Qed.

Lemma exchange_make p s w rest : p_in p = s ++ rest -> exists p', exchange p s w p' /\ p_in p' = rest.
Proof.
  intros E. exists (mkPeer (mkSock rest (splits (p_sock p))) (p_writes p) (p_out p ++ w)).
  unfold exchange, p_in in *. by split.
Qed.

Lemma exchange_det p s w p1 p2 : exchange p s w p1 -> exchange p s w p2 -> p1 = p2.
Proof.
  intros (A1 & A2 & A3 & A4) (B1 & B2 & B3 & B4). rewrite A1 in B1. apply app_inv_head in B1.
  apply peer_ext; congruence.
Qed.

Lemma exchange_trans p s1 w1 p1 s2 w2 p2 :
  exchange p s1 w1 p1 -> exchange p1 s2 w2 p2 -> exchange p (s1 ++ s2) (w1 ++ w2) p2.
Proof.
  intros (A1 & A2 & A3 & A4) (B1 & B2 & B3 & B4). unfold exchange.
  rewrite A1, B1, B2, A2, B3, A3, B4, A4, !app_assoc. done.
Qed.

Lemma exchange_split p s1 w1 s2 w2 p2 :
  exchange p (s1 ++ s2) (w1 ++ w2) p2 -> exists p1, exchange p s1 w1 p1 /\ exchange p1 s2 w2 p2.
Proof.
  intros (A1 & A2 & A3 & A4). destruct (exchange_make p s1 w1 (s2 ++ p_in p2)) as (p1 & E1 & Hin).
  { by rewrite A1, app_assoc. }
  exists p1. split; [done|]. destruct E1 as (B1 & B2 & B3 & B4). unfold exchange.
  rewrite Hin, A2, B2, app_assoc, A3, A4. done.
Qed.

Lemma exchange_healthy p s w p' : exchange p s w p' -> healthy p -> healthy p'.
Proof. intros (_ & _ & _ & E). unfold healthy. by rewrite E. Qed.

Lemma exchange_refl p : exchange p [] [] p.
Proof. unfold exchange. by rewrite app_nil_r. Qed.

Lemma exchange_nil p p' : exchange p [] [] p' <-> p' = p.
Proof.
  split; [|intros ->; apply exchange_refl]. intros E. eapply exchange_det; [exact E|apply exchange_refl].
Qed.

Lemma exchange_new input spl s w p' :
  exchange (peer_of input spl) s w p' <-> exists rest, input = s ++ rest /\ p' = mkPeer (mkSock rest spl) [] w.
Proof.
  split.
  - intros (E1 & E2 & E3 & E4). exists (p_in p'). split; [done|]. by apply peer_ext.
  - intros (rest & -> & ->). by split.
Qed.

Lemma io_bind_iff {A B} (m : Io A) (f : A -> Io B) p b p' :
  (m ≫= f) p = (Ok b, p') <-> exists a p1, m p = (Ok a, p1) /\ f a p1 = (Ok b, p').
Proof.
  unfold mbind, Io_bind. destruct (m p) as [[a|e|] p1].
  - split; [eauto|]. by intros (a' & p1' & [= <- <-] & E).
  - split; [done|]. by intros (? & ? & ? & _).
  - split; [done|]. by intros (? & ? & ? & _).
Qed.

Lemma io_bind_err {A B} (m : Io A) (f : A -> Io B) p e p' :
  m p = (Err e, p') -> (m ≫= f) p = (Err e, p').
Proof. intros E. unfold mbind, Io_bind. by rewrite E. Qed.

Lemma io_bind_ok {A B} (m : Io A) (f : A -> Io B) p a p' :
  m p = (Ok a, p') -> (m ≫= f) p = f a p'.
Proof. intros E. unfold mbind, Io_bind. by rewrite E. Qed.

Lemma io_ret_iff {A} (a b : A) p p' : (mret a : Io A) p = (Ok b, p') <-> a = b /\ exchange p [] [] p'.
Proof. rewrite exchange_nil. unfold mret, Io_ret. split; [by intros [= -> ->]|by intros [-> ->]]. Qed.

Lemma readExact_iff n p d p' :
  0 <= n -> readExact n p = (Ok d, p') <-> zlen d = n /\ exchange p d [] p'.
Proof.
  intros Hn. unfold readExact. split.
  - destruct (Z.leb_spec n (zlen (stream (p_sock p)))); [|done]. intros [= <- <-]. split.
    + unfold zlen in *. rewrite length_take. lia.
    + unfold exchange, p_in. cbn [stream p_sock p_out splits p_writes]. rewrite take_drop, app_nil_r. done.
  - intros [<- E]. pose proof E as (E1 & _). unfold p_in in E1. rewrite E1, zlen_app.
    pose proof (zlen_nonneg (stream (p_sock p'))). rewrite (proj2 (Z.leb_le _ _)) by lia.
    rewrite zlen_to_nat, take_app_length, drop_app_length. f_equal.
    eapply exchange_det; [|exact E]. unfold exchange, p_in. cbn. by rewrite app_nil_r, E1.
Qed.

Lemma readByte_iff p b p' : readByte p = (Ok b, p') <-> exchange p [b] [] p'.
Proof.
  unfold readByte. rewrite io_bind_iff. split.
  - intros (d & p1 & [Hl E]%readExact_iff & E2); [|lia]. destruct d as [|x [|y d]]; [done| |].
    + cbn [first_byte] in E2. apply io_ret_iff in E2 as [<- ->%exchange_nil]. done.
    + rewrite !zlen_cons in Hl. pose proof (zlen_nonneg d). lia.
  - intros E. exists [b], p'. rewrite readExact_iff by lia. split; [done|]. apply io_ret_iff. by rewrite exchange_nil.
Qed.

Lemma writeAll_iff w p u p' : healthy p -> writeAll w p = (Ok u, p') <-> exchange p [] w p'.
Proof.
  unfold healthy, writeAll. intros Hh. rewrite Hh. destruct u.
  assert (exchange p [] w (mkPeer (p_sock p) [] (p_out p ++ w))) as E by (split; [done|]; by rewrite Hh).
  split; [by intros [= <-]|]. intros E'. f_equal. by eapply exchange_det.
Qed.

Lemma readExact_short n p :
  zlen (p_in p) < n -> exists p', readExact n p = (Err (UnavailableError eof_message), p') /\ p_out p' = p_out p.
Proof.
  unfold readExact, p_in. intros Hn. rewrite (proj2 (Z.leb_gt _ _)) by lia. eexists. by split.
Qed.
End IoFacts.

(** Coroutines without undefined behaviour, whatever the peer does. *)
Definition io_safe {A} (m : Io A) : Prop := forall p, fst (m p) <> UB.

Section IoSafe.
Lemma io_safe_bind {A B} (m : Io A) (f : A -> Io B) : io_safe m -> (forall a, io_safe (f a)) -> io_safe (m ≫= f).
Proof.
  intros Hm Hf p. unfold mbind, Io_bind. specialize (Hm p). destruct (m p) as [[a|e|] p']; [apply Hf|done|done].
Qed.
Lemma io_safe_ret {A} (a : A) : io_safe (mret a).
Proof. done. Qed.
Lemma io_safe_fail {A} st : io_safe (io_fail st : Io A).
Proof. done. Qed.
Lemma io_safe_write d : io_safe (writeAll d).
Proof. intros p. unfold writeAll. by destruct (p_writes p) as [|[msg|] ws]. Qed.
Lemma io_safe_read n : io_safe (readExact n).
Proof. intros p. unfold readExact. by destruct (n <=? _). Qed.
Lemma io_safe_byte : io_safe readByte.
Proof.
  intros p. unfold readByte, readExact, mbind, Io_bind.
  destruct (Z.leb_spec 1 (zlen (stream (p_sock p)))) as [Hl|]; [|done]. cbn.
  destruct (stream (p_sock p)); [by rewrite zlen_nil in Hl|done].
Qed.
End IoSafe.
Create HintDb io_safe.
#[export] Hint Resolve io_safe_bind io_safe_ret io_safe_fail io_safe_write io_safe_read io_safe_byte : io_safe.

(** ** [async_read_until]

    On success the [streambuf] holds a first part of the stream that contains
    the delimiter, possibly with bytes after it; it fails when the stream ends
    before the delimiter. *)
Class ReadUntil := async_read_until : bytes -> Sock -> option (bytes * Sock).
Definition occurs (d s : bytes) : Prop := exists a b, s = a ++ d ++ b.
Class ReadUntilSpec `{ReadUntil} : Prop := {
  read_until_some d sk buf sk' :
    async_read_until d sk = Some (buf, sk') -> stream sk = buf ++ stream sk' /\ occurs d buf;
  read_until_complete d sk : occurs d (stream sk) -> is_Some (async_read_until d sk);
}.

(** A reference: reads of at most 512 bytes until the delimiter shows up. *)
Fixpoint occursb (d s : bytes) : bool :=
  bool_decide (take (length d) s = d) || match s with [] => false | _ :: r => occursb d r end.

Lemma occursb_spec d s : occursb d s = true <-> occurs d s.
Proof.
  induction s as [|x s IH]; cbn [occursb]; rewrite orb_true_iff, bool_decide_eq_true.
  - rewrite take_nil. split.
    + intros [<-|?]; [by exists [], []|done].
    + intros (a & b & E). symmetry in E. apply app_eq_nil in E as [-> E]. apply app_eq_nil in E as [-> _]. by left.
  - rewrite IH. split.
    + intros [E|(a & b & ->)]; [|by exists (x :: a), b]. exists [], (drop (length d) (x :: s)). cbn [app].
      rewrite <- E at 1. by rewrite take_drop.
    + intros ([|y a] & b & E); cbn [app] in E.
      * left. by rewrite E, take_app_length.
      * right. injection E as -> ->. by exists a, b.
Qed.

Fixpoint ru_loop (fuel : nat) (d buf : bytes) (sk : Sock) : option (bytes * Sock) :=
  if occursb d buf then Some (buf, sk)
  else match fuel with
       | O => None
       | S fuel =>
           let '(x, sk') := sock_read_some 512 sk in
           if bool_decide (x = []) then None else ru_loop fuel d (buf ++ x) sk'
       end.
Definition reference_read_until : ReadUntil := fun d sk => ru_loop (length (stream sk)) d [] sk.

Lemma ru_loop_some fuel d : forall buf sk r sk',
  ru_loop fuel d buf sk = Some (r, sk') -> buf ++ stream sk = r ++ stream sk' /\ occurs d r.
Proof.
  induction fuel as [|fuel IH]; intros buf sk r sk'; cbn [ru_loop]; destruct (occursb d buf) eqn:Eo; try done.
  1, 2: intros [= <- <-]; split; [done|by apply occursb_spec].
  destruct (sock_read_spec 512 sk) as (x & sk1 & -> & Hs & _); [lia|]. case_bool_decide; [done|].
  intros E. apply IH in E as [E Ho]. split; [|done]. by rewrite Hs, app_assoc.
Qed.

Lemma ru_loop_complete fuel d : forall buf sk,
  (length (stream sk) <= fuel)%nat -> occurs d (buf ++ stream sk) -> is_Some (ru_loop fuel d buf sk).
Proof.
  induction fuel as [|fuel IH]; intros buf sk Hf Ho; cbn [ru_loop]; destruct (occursb d buf) eqn:Eo; eauto.
  - assert (stream sk = []) as E by (apply length_zero_iff_nil; lia). rewrite E, app_nil_r in Ho.
    apply occursb_spec in Ho. congruence.
  - destruct (sock_read_spec 512 sk) as (x & sk1 & -> & Hs & _ & Hx); [lia|].
    case_bool_decide as Ex.
    + subst x. destruct (stream sk) as [|c s] eqn:Es; [|by specialize (Hx ltac:(done))].
      rewrite app_nil_r in Ho. apply occursb_spec in Ho. congruence.
    + apply IH.
      * rewrite Hs, length_app in Hf. destruct x; [done|]. cbn in Hf. lia.
      * by rewrite <- app_assoc, <- Hs.
Qed.

Lemma reference_read_until_spec : @ReadUntilSpec reference_read_until.
Proof.
  split; unfold async_read_until, reference_read_until.
  - intros d sk buf sk' E. by apply ru_loop_some in E.
  - intros d sk Ho. by apply ru_loop_complete.
Qed.
