(* ===== verification/Session.v ===== *)
(** * Logical sessions (src/transport/session.cpp)

    A session is one multiplexed stream (or datagram flow) of a link: a state
    machine, a credit window in each direction, the inbox filled by the link's
    reader and the bytes of a payload not yet read.  Each method is a function
    on the session record; what it asks of its link (the frames handed to
    [enqueueFrame], a call of [eraseSession]) is part of its result.  A method
    that suspends on a channel returns a [Pending] outcome. *)
From S2P Require Import Prelude Absl Buffer Resp2 ShineFrame Address Request Channel.
From Stdlib Require Import Strings.Byte.

Inductive SessionState := Init | Open | HalfClosedLocal | HalfClosedRemote | Closed.
#[export] Instance SessionState_eq_dec : EqDecision SessionState.
Proof. solve_decision. Defined.

Definition kDefaultInitWindow : Z := 256 * 1024.

Record Session (C : Type -> Type) := mkSession {
  sid_ : Z;
  target_ : Address;
  protocol_ : Protocol;
  our_initial_window_ : Z;                   (* u32 *)
  send_credit_ : Z;                          (* atomic<i64> *)
  recv_unacked_ : Z;                         (* atomic<u32> *)
  state_ : SessionState;
  inbox_ : option (C (option bytes));        (* unique_ptr of a channel of shared_ptr<string> *)
  udp_inbox_ : option (C (option bytes * Address)%type);
  leftover_ : option bytes;
  leftover_off_ : Z;
  credit_signal_ : option (C unit);
  bytes_in_ : Z;                             (* atomic<u64> *)
  bytes_out_ : Z;
}.
Arguments mkSession {C}.
Arguments sid_ {C}.
Arguments target_ {C}.
Arguments protocol_ {C}.
Arguments our_initial_window_ {C}.
Arguments send_credit_ {C}.
Arguments recv_unacked_ {C}.
Arguments state_ {C}.
Arguments inbox_ {C}.
Arguments udp_inbox_ {C}.
Arguments leftover_ {C}.
Arguments leftover_off_ {C}.
Arguments credit_signal_ {C}.
Arguments bytes_in_ {C}.
Arguments bytes_out_ {C}.

Section Setters.
Context {C : Type -> Type}.
Implicit Types s : Session C.

Definition set_credit v s := mkSession (sid_ s) (target_ s) (protocol_ s) (our_initial_window_ s)
  v (recv_unacked_ s) (state_ s) (inbox_ s) (udp_inbox_ s) (leftover_ s) (leftover_off_ s)
  (credit_signal_ s) (bytes_in_ s) (bytes_out_ s).
Definition set_unacked v s := mkSession (sid_ s) (target_ s) (protocol_ s) (our_initial_window_ s)
  (send_credit_ s) v (state_ s) (inbox_ s) (udp_inbox_ s) (leftover_ s) (leftover_off_ s)
  (credit_signal_ s) (bytes_in_ s) (bytes_out_ s).
Definition set_state v s := mkSession (sid_ s) (target_ s) (protocol_ s) (our_initial_window_ s)
  (send_credit_ s) (recv_unacked_ s) v (inbox_ s) (udp_inbox_ s) (leftover_ s) (leftover_off_ s)
  (credit_signal_ s) (bytes_in_ s) (bytes_out_ s).
Definition set_inbox v s := mkSession (sid_ s) (target_ s) (protocol_ s) (our_initial_window_ s)
  (send_credit_ s) (recv_unacked_ s) (state_ s) v (udp_inbox_ s) (leftover_ s) (leftover_off_ s)
  (credit_signal_ s) (bytes_in_ s) (bytes_out_ s).
Definition set_udp_inbox v s := mkSession (sid_ s) (target_ s) (protocol_ s) (our_initial_window_ s)
  (send_credit_ s) (recv_unacked_ s) (state_ s) (inbox_ s) v (leftover_ s) (leftover_off_ s)
  (credit_signal_ s) (bytes_in_ s) (bytes_out_ s).
Definition set_leftover v off s := mkSession (sid_ s) (target_ s) (protocol_ s) (our_initial_window_ s)
  (send_credit_ s) (recv_unacked_ s) (state_ s) (inbox_ s) (udp_inbox_ s) v off
  (credit_signal_ s) (bytes_in_ s) (bytes_out_ s).
Definition set_signal v s := mkSession (sid_ s) (target_ s) (protocol_ s) (our_initial_window_ s)
  (send_credit_ s) (recv_unacked_ s) (state_ s) (inbox_ s) (udp_inbox_ s) (leftover_ s)
  (leftover_off_ s) v (bytes_in_ s) (bytes_out_ s).
Definition add_bytes_in n s := mkSession (sid_ s) (target_ s) (protocol_ s) (our_initial_window_ s)
  (send_credit_ s) (recv_unacked_ s) (state_ s) (inbox_ s) (udp_inbox_ s) (leftover_ s)
  (leftover_off_ s) (credit_signal_ s) (u64 (bytes_in_ s + n)) (bytes_out_ s).
Definition add_bytes_out n s := mkSession (sid_ s) (target_ s) (protocol_ s) (our_initial_window_ s)
  (send_credit_ s) (recv_unacked_ s) (state_ s) (inbox_ s) (udp_inbox_ s) (leftover_ s)
  (leftover_off_ s) (credit_signal_ s) (bytes_in_ s) (u64 (bytes_out_ s + n)).
End Setters.

(** What a session sees of its link: whether [link_.lock()] succeeds,
    [isClosed()], and [options().max_data_frame]. *)
Record LinkView := mkLinkView { lv_alive : bool; lv_closed : bool; lv_max_data_frame : Z }.
Definition lv_usable (lv : LinkView) : bool := lv_alive lv && negb (lv_closed lv).

(** What it asks of it. *)
Record LinkEffects := mkEffects { enqueued : list bytes; erased : bool }.
Definition no_effects : LinkEffects := mkEffects [] false.

(** How a coroutine call ends: a result, suspended on a channel, or through a
    null [unique_ptr]. *)
Inductive outcome (A : Type) := Return (a : A) | Pending | NullDeref.
Arguments Return {A} a.
Arguments Pending {A}.
Arguments NullDeref {A}.

(** One turn of the loop of [Session::write]. *)
Inductive WriteStep {C : Type -> Type} :=
  | WriteReturn (st : option Status)              (* co_return; None is OkStatus *)
  | WriteAgain (s : Session C)                    (* back to the loop condition *)
  | WriteSent (s : Session C) (wire : bytes) (rest : bytes)
  | WriteWait                                     (* suspended on credit_signal_ *)
  | WriteUB.                                      (* null credit_signal_ *)
Arguments WriteStep : clear implicits.

Section SessionOps.
Context `{AbslOps} {C : Type -> Type} `{ChannelOps C}.
Implicit Types s : Session C.

Definition Session_new (sid : Z) (target : Address) (peer_initial_window our_initial_window : Z)
    (protocol : Protocol) : Session C :=
  let tcp := bool_decide (protocol = TCP) in
  mkSession sid target protocol our_initial_window (i64 peer_initial_window) 0 Open
    (if tcp then Some (ch_make 1024) else None)
    (if tcp then None else Some (ch_make 1024))
    None 0
    (if tcp then Some (ch_make 1) else None)
    0 0.

(** [maybeSendWindow] *)
Definition maybeSendWindow (lv : LinkView) s : Session C * LinkEffects :=
  if lv_usable lv then
    let threshold := our_initial_window_ s / 2 in
    let cur := recv_unacked_ s in
    if threshold <=? cur then
      let delta := recv_unacked_ s in
      (set_unacked 0 s, mkEffects [encodeWindow [] (sid_ s) delta] false)
    else (s, no_effects)
  else (s, no_effects).

(** The accounting at the end of both branches of [read]. *)
Definition read_account (lv : LinkView) (n : Z) s : Session C * LinkEffects :=
  maybeSendWindow lv (set_unacked (u32 (recv_unacked_ s + u32 n)) (add_bytes_in n s)).

(** [read] from [leftover_]. *)
Definition read_leftover (lv : LinkView) (cap : Z) (l : bytes) s
  : bytes * (Session C * LinkEffects) :=
  let off := leftover_off_ s in
  let n := Z.min cap (zlen l - off) in
  let data := slice l off n in
  let s1 := if zlen l <=? off + n then set_leftover None 0 s else set_leftover (Some l) (off + n) s in
  (data, read_account lv n s1).

(** The continuation of [read] after [inbox_->async_receive] gave [pay]. *)
Definition read_payload (lv : LinkView) (cap : Z) (pay : bytes) s
  : bytes * (Session C * LinkEffects) :=
  let n := Z.min cap (zlen pay) in
  let data := slice pay 0 n in
  let s1 := if n <? zlen pay then set_leftover (Some pay) n s else s in
  (data, read_account lv n s1).

(** [read(buf)] with [cap = buf.size()]: the bytes copied to [buf] (none is
    end of stream), the session and the effects. *)
Definition read (lv : LinkView) (cap : Z) s : outcome bytes * (Session C * LinkEffects) :=
  let fresh :=
    if bool_decide (state_ s = Closed) || bool_decide (state_ s = HalfClosedRemote)
    then (Return [], (s, no_effects))
    else match inbox_ s with
         | None => (NullDeref, (s, no_effects))
         | Some c =>
             match ch_async_receive c with
             | (RecvPending, _) => (Pending, (s, no_effects))
             | (RecvError, c') | (RecvMsg None, c') => (Return [], (set_inbox (Some c') s, no_effects))
             | (RecvMsg (Some pay), c') =>
                 let '(d, r) := read_payload lv cap pay (set_inbox (Some c') s) in (Return d, r)
             end
         end in
  match leftover_ s with
  | Some l =>
      if leftover_off_ s <? zlen l
      then let '(d, r) := read_leftover lv cap l s in (Return d, r)
      else fresh
  | None => fresh
  end.

(** The guards of [write]. *)
Definition write_guard (lv : LinkView) s : option Status :=
  if negb (lv_usable lv) then Some (UnavailableError (lit "link closed"))
  else if bool_decide (state_ s = Closed) || bool_decide (state_ s = HalfClosedLocal)
  then Some (FailedPreconditionError (lit "session write side closed"))
  else None.

(** One iteration of [while (remaining > 0)], up to and including one wait of
    the inner [while (send_credit_ <= 0)]. *)
Definition write_iter (lv : LinkView) s (remaining : bytes) : WriteStep C :=
  if zlen remaining =? 0 then WriteReturn None
  else if send_credit_ s <=? 0 then
    match credit_signal_ s with
    | None => WriteUB
    | Some c =>
        match ch_async_receive c with
        | (RecvPending, _) => WriteWait
        | (_, c') =>
            if lv_closed lv then WriteReturn (Some (UnavailableError (lit "link closed")))
            else WriteAgain (set_signal (Some c') s)
        end
    end
  else
    let chunk := Z.min (Z.min (zlen remaining) (lv_max_data_frame lv)) (u64 (send_credit_ s)) in
    if chunk =? 0 then WriteAgain s
    else
      let p := slice remaining 0 chunk in
      let s1 := set_credit (i64 (send_credit_ s - chunk)) s in
      WriteSent (add_bytes_out chunk s1) (encodeData [] (sid_ s) p)
                (drop (Z.to_nat chunk) remaining).

(** How the loop ends: a status, a suspension, or still running when the
    fuel is spent. *)
Inductive WriteEnd := WEReturn (st : option Status) | WEWait (rest : bytes) | WEUB | WEFuel.

Fixpoint write_loop (fuel : nat) (lv : LinkView) s (remaining : bytes) (wires : list bytes)
  : WriteEnd * Session C * list bytes :=
  match fuel with
  | O => (WEFuel, s, wires)
  | S fuel =>
      match write_iter lv s remaining with
      | WriteReturn st => (WEReturn st, s, wires)
      | WriteAgain s' => write_loop fuel lv s' remaining wires
      | WriteSent s' wire rest => write_loop fuel lv s' rest (wires ++ [wire])
      | WriteWait => (WEWait remaining, s, wires)
      | WriteUB => (WEUB, s, wires)
      end
  end.

(** [write(data)]: result, session and the frames enqueued, in order. *)
Definition write (fuel : nat) (lv : LinkView) s (data : bytes) : WriteEnd * Session C * list bytes :=
  match write_guard lv s with
  | Some st => (WEReturn (Some st), s, [])
  | None => write_loop fuel lv s data []
  end.

Definition shutdownWrite (lv : LinkView) s : Session C * LinkEffects :=
  if negb (lv_usable lv) then (s, no_effects)
  else
    let close_frame := encodeClose [] (sid_ s) [] in
    if bool_decide (state_ s = Open) then (set_state HalfClosedLocal s, mkEffects [close_frame] false)
    else if bool_decide (state_ s = HalfClosedRemote)
    then (set_state Closed s, mkEffects [close_frame] true)
    else (s, no_effects).

Definition close_inboxes s : Session C :=
  set_udp_inbox (option_map ch_close (udp_inbox_ s)) (set_inbox (option_map ch_close (inbox_ s)) s).
Definition close_channels s : Session C :=
  let s1 := close_inboxes s in set_signal (option_map ch_close (credit_signal_ s1)) s1.

Definition close (lv : LinkView) s : Session C * LinkEffects :=
  let '(s1, eff) :=
    if negb (bool_decide (state_ s = Closed)) then
      (set_state Closed s,
       if lv_alive lv
       then mkEffects (if lv_closed lv then [] else [encodeClose [] (sid_ s) []]) true
       else no_effects)
    else (s, no_effects) in
  (close_channels s1, eff).

Definition sendTo (lv : LinkView) s (data : bytes) (target : Address)
  : option Status * (Session C * LinkEffects) :=
  match write_guard lv s with
  | Some st => (Some st, (s, no_effects))
  | None =>
      (None, (add_bytes_out (zlen data) s,
              mkEffects [encodeUdpData [] (sid_ s) (toBinary target) data] false))
  end.

Definition receiveFrom s : outcome (res (option bytes * Address)) * Session C :=
  let closed := Err (UnavailableError (lit "session closed")) in
  if bool_decide (state_ s = Closed) || bool_decide (state_ s = HalfClosedRemote)
  then (Return closed, s)
  else match udp_inbox_ s with
       | None => (NullDeref, s)
       | Some c =>
           match ch_async_receive c with
           | (RecvPending, _) => (Pending, s)
           | (RecvError, c') => (Return closed, set_udp_inbox (Some c') s)
           | (RecvMsg pay, c') =>
               match fst pay with
               | None => (NullDeref, set_udp_inbox (Some c') s)
               | Some p => (Return (Ok pay), add_bytes_in (zlen p) (set_udp_inbox (Some c') s))
               end
           end
       end.

(** ** Calls from the link's reader *)

Definition onData (payload : option bytes) s : Session C :=
  match payload, inbox_ s with
  | Some (b :: p), Some c => set_inbox (Some (ch_async_send (Some (b :: p)) c)) s
  | _, _ => s
  end.

(** [onData] awaits its [async_send]: while the inbox holds more than its 1024
    messages, the last one is that of the link's reader, suspended in it. *)
Definition inbox_full s : bool :=
  match inbox_ s with
  | Some c => negb (ch_closed c) && (1024 <? zlen (ch_queue c))
  | None => false
  end.

Definition onUdpData (payload : option bytes) (addr : Address) s : Session C :=
  match payload, udp_inbox_ s with
  | Some p, Some c => set_udp_inbox (Some (ch_try_send (Some p, addr) c)) s
  | _, _ => s
  end.

Definition onWindow (delta : Z) s : Session C :=
  let s1 := set_credit (i64 (send_credit_ s + delta)) s in
  set_signal (option_map (ch_try_send tt) (credit_signal_ s1)) s1.

Definition onPeerClose s : Session C :=
  let s1 := match state_ s with
            | HalfClosedLocal => set_state Closed s
            | Open => set_state HalfClosedRemote s
            | _ => s
            end in
  close_inboxes s1.

Definition onReset s : Session C := close_channels (set_state Closed s).
End SessionOps.

(** ** The well-formedness invariant *)

(** A payload the reader hands to a TCP session is never empty ([onData]
    refuses it). *)
Definition payload_ok (p : option bytes) : Prop := exists b l, p = Some (b :: l).

Section Wf.
Context {C : Type -> Type} `{ChannelOps C}.
Implicit Types s : Session C.

Definition ranges_ok s : Prop :=
  0 <= our_initial_window_ s < 2 ^ 32 /\ - 2 ^ 63 <= send_credit_ s < 2 ^ 63 /\
  0 <= recv_unacked_ s < 2 ^ 32 /\ 0 <= bytes_in_ s < 2 ^ 64 /\ 0 <= bytes_out_ s < 2 ^ 64.

Definition leftover_ok s : Prop :=
  match leftover_ s with Some l => 0 <= leftover_off_ s < zlen l | None => leftover_off_ s = 0 end.

Definition tcp_ok s : Prop :=
  udp_inbox_ s = None /\ leftover_ok s /\ is_Some (credit_signal_ s) /\
  exists c, inbox_ s = Some c /\ Forall payload_ok (ch_queue c).

Definition udp_ok s : Prop :=
  inbox_ s = None /\ credit_signal_ s = None /\ leftover_ s = None /\
  exists c, udp_inbox_ s = Some c /\ Forall (fun m => is_Some (fst m)) (ch_queue c) /\
    ch_bound c = 1024 /\ zlen (ch_queue c) <= 1024.

Definition session_wf s : Prop :=
  ranges_ok s /\ match protocol_ s with TCP => tcp_ok s | UDP => udp_ok s end.

(** The bytes received from the peer and not yet read, in order. *)
Definition payload_bytes (p : option bytes) : bytes := match p with Some l => l | None => [] end.
Definition inbox_bytes s : bytes :=
  match inbox_ s with Some c => mjoin (payload_bytes <$> ch_queue c) | None => [] end.
Definition leftover_bytes s : bytes :=
  match leftover_ s with Some l => drop (Z.to_nat (leftover_off_ s)) l | None => [] end.
Definition pending s : bytes := leftover_bytes s ++ inbox_bytes s.
Definition inbox_open s : Prop := exists c, inbox_ s = Some c /\ ch_closed c = false.
End Wf.

(** ** Steps

    Everything that can happen to a session, at the granularity at which other
    coroutines can interleave: a completed call of each method, one iteration
    of the loop of [write].  The label says which bytes were handed over by the
    reader and which were returned to the caller of [read]. *)
Record event := mkEvent { ev_in : bytes; ev_out : bytes; ev_frames : list bytes }.
Definition ev_none : event := mkEvent [] [] [].

Section Steps.
Context `{AbslOps} {C : Type -> Type} `{ChannelOps C}.
Implicit Types s : Session C.

Inductive session_step s : event -> Session C -> Prop :=
  | st_read lv cap d s' eff : 0 <= cap -> read lv cap s = (Return d, (s', eff)) ->
      session_step s (mkEvent [] d (enqueued eff)) s'
  | st_write_again lv rem s' : write_iter lv s rem = WriteAgain s' -> session_step s ev_none s'
  | st_write_sent lv rem s' wire rest : 0 <= lv_max_data_frame lv ->
      write_iter lv s rem = WriteSent s' wire rest -> session_step s (mkEvent [] [] [wire]) s'
  | st_shutdown lv s' eff : shutdownWrite lv s = (s', eff) ->
      session_step s (mkEvent [] [] (enqueued eff)) s'
  | st_close lv s' eff : close lv s = (s', eff) ->
      session_step s (mkEvent [] [] (enqueued eff)) s'
  | st_send_to lv data target r s' eff : sendTo lv s data target = (r, (s', eff)) ->
      session_step s (mkEvent [] [] (enqueued eff)) s'
  | st_receive_from r s' : receiveFrom s = (Return r, s') -> session_step s ev_none s'
  | st_on_data p : session_step s (mkEvent (payload_bytes p) [] []) (onData p s)
  | st_on_udp_data p a : session_step s ev_none (onUdpData p a s)
  | st_on_window delta : 0 <= delta < 2 ^ 32 -> session_step s ev_none (onWindow delta s)
  | st_on_peer_close : session_step s ev_none (onPeerClose s)
  | st_on_reset : session_step s ev_none (onReset s).

Inductive session_run s : list event -> Session C -> Prop :=
  | run_nil : session_run s [] s
  | run_snoc evs s1 ev s2 : session_run s evs s1 -> session_step s1 ev s2 ->
      session_run s (evs ++ [ev]) s2.

Definition received (evs : list event) : bytes := mjoin (ev_in <$> evs).
Definition returned (evs : list event) : bytes := mjoin (ev_out <$> evs).
End Steps.

(** ** Preservation of the invariant *)

Section Preservation.
Context `{AbslOps} {C : Type -> Type} `{ChannelSpec C}.
Implicit Types s : Session C.

Lemma maybeSendWindow_fields lv s :
  exists v, fst (maybeSendWindow lv s) = set_unacked v s /\ (v = 0 \/ v = recv_unacked_ s).
Proof.
  unfold maybeSendWindow. destruct (lv_usable lv); [destruct (_ <=? _)|]; cbn;
    [exists 0|exists (recv_unacked_ s)..]; split; auto; by destruct s.
Qed.

Lemma read_account_fields lv n s :
  exists v, fst (read_account lv n s) = set_unacked v (add_bytes_in n s) /\ 0 <= v < 2 ^ 32.
Proof.
  unfold read_account. destruct (maybeSendWindow_fields lv
    (set_unacked (u32 (recv_unacked_ s + u32 n)) (add_bytes_in n s))) as (v & -> & Hv).
  exists v. split; [by destruct s|]. cbn in Hv.
  destruct Hv as [-> | ->]; [lia|apply u32_range].
Qed.

(** The bytes of a payload that did not fit are kept for the next call. *)
Lemma read_leftover_fields lv cap l s d s' eff :
  0 <= cap -> leftover_ s = Some l -> 0 <= leftover_off_ s < zlen l ->
  read_leftover lv cap l s = (d, (s', eff)) ->
  exists left off v, 0 <= v < 2 ^ 32 /\
    s' = set_unacked v (add_bytes_in (zlen d) (set_leftover left off s)) /\
    leftover_ok s' /\ leftover_bytes s = d ++ leftover_bytes s' /\ zlen d = Z.min cap (zlen (leftover_bytes s)).
Proof.
  intros Hc El Ho E. unfold read_leftover in E.
  set (n := Z.min cap (zlen l - leftover_off_ s)) in *.
  assert (zlen (slice l (leftover_off_ s) n) = n) as Hn by (apply zlen_slice; lia).
  assert (leftover_bytes s = drop (Z.to_nat (leftover_off_ s)) l) as Hb by (unfold leftover_bytes; by rewrite El).
  assert (slice l (leftover_off_ s) n ++ drop (Z.to_nat (leftover_off_ s + n)) l
          = drop (Z.to_nat (leftover_off_ s)) l) as Hsplit.
  { unfold slice. rewrite <- (take_drop (Z.to_nat n) (drop (Z.to_nat (leftover_off_ s)) l)) at 2.
    f_equal. rewrite drop_drop. f_equal. lia. }
  destruct (Z.leb_spec (zlen l) (leftover_off_ s + n)) as [Hge|Hlt];
    injection E as <- Er; apply (f_equal fst) in Er; cbn [fst] in Er; subst s';
    edestruct read_account_fields as (v & -> & Hv);
    [exists None, 0, v | exists (Some l), (leftover_off_ s + n), v];
    rewrite Hb, <- Hsplit, Hn; (split_and!; [lia|lia|done| | |]).
  - done.
  - rewrite (drop_nil_ge l) by lia. cbn. by rewrite !app_nil_r.
  - rewrite Hsplit, zlen_drop; lia.
  - unfold leftover_ok; cbn. lia.
  - done.
  - rewrite Hsplit, zlen_drop; lia.
Qed.

Lemma read_payload_fields lv cap p s d s' eff :
  0 <= cap -> 0 < zlen p -> leftover_ s = None -> leftover_off_ s = 0 ->
  read_payload lv cap p s = (d, (s', eff)) ->
  exists left off v, 0 <= v < 2 ^ 32 /\
    s' = set_unacked v (add_bytes_in (zlen d) (set_leftover left off s)) /\
    leftover_ok s' /\ p = d ++ leftover_bytes s' /\ zlen d = Z.min cap (zlen p).
Proof.
  intros Hc Hp El Ho E. unfold read_payload in E. set (n := Z.min cap (zlen p)) in *.
  assert (zlen (slice p 0 n) = n) as Hn by (apply zlen_slice; lia).
  destruct (Z.ltb_spec n (zlen p)) as [Hlt|Hge];
    injection E as <- Er; apply (f_equal fst) in Er; cbn [fst] in Er; subst s';
    edestruct read_account_fields as (v & -> & Hv);
    [exists (Some p), n, v | exists None, 0, v]; rewrite Hn; (split_and!; [lia|lia| | | |done]).
  - done.
  - unfold leftover_ok; cbn. lia.
  - cbn. unfold slice. by rewrite take_drop.
  - by destruct s; cbn in *; subst.
  - unfold leftover_ok; cbn. by rewrite El.
  - unfold leftover_bytes; cbn. by rewrite El, app_nil_r, slice_full by lia.
Qed.
Lemma read_eof_fields s c' :
  session_wf s -> leftover_ s = None -> leftover_off_ s = 0 ->
  set_inbox (Some c') s
  = set_unacked (recv_unacked_ s) (add_bytes_in 0 (set_leftover None 0 (set_inbox (Some c') s))).
Proof.
  intros (Hr & _) El Eo. unfold ranges_ok in Hr.
  destruct s; unfold add_bytes_in, set_unacked, set_leftover, set_inbox; cbn in *; subst.
  f_equal. rewrite u64_small; lia.
Qed.

(** What a call of [read] that returns does to the session. *)
Definition read_effect s d s' : Prop :=
  exists c c' left off v k, inbox_ s = Some c /\ ch_queue c = k ++ ch_queue c' /\
    ch_closed c' = ch_closed c /\
    s' = set_unacked v (add_bytes_in (zlen d) (set_leftover left off (set_inbox (Some c') s))) /\
    0 <= v < 2 ^ 32 /\ leftover_ok s' /\ pending s = d ++ pending s'.

Lemma read_effect_eof s c c' :
  session_wf s -> inbox_ s = Some c -> leftover_ s = None -> leftover_off_ s = 0 ->
  ch_queue c = ch_queue c' -> ch_closed c' = ch_closed c ->
  read_effect s [] (set_inbox (Some c') s).
Proof.
  intros Hwf Hi El Eo Hq Hcl. pose proof Hwf as (Hr & _). unfold ranges_ok in Hr.
  exists c, c', None, 0, (recv_unacked_ s), []. split_and!; auto; try lia.
  - by apply read_eof_fields.
  - unfold leftover_ok. cbn. by rewrite El.
  - unfold pending, leftover_bytes, inbox_bytes. cbn. by rewrite El, Hi, Hq.
Qed.

Lemma read_return lv cap s d s' eff :
  0 <= cap -> session_wf s -> protocol_ s = TCP -> read lv cap s = (Return d, (s', eff)) ->
  read_effect s d s'.
Proof.
  intros Hc Hwf Hp E. pose proof Hwf as (Hr & Ht). rewrite Hp in Ht.
  destruct Ht as (_ & Hl & _ & c & Hi & Hq). unfold leftover_ok in Hl.
  unfold read in E. rewrite Hi in E.
  destruct (leftover_ s) as [l|] eqn:El.
  - destruct (Z.ltb_spec (leftover_off_ s) (zlen l)); [|lia].
    destruct (read_leftover lv cap l s) as [d' r] eqn:Er. injection E as -> ->.
    destruct (read_leftover_fields _ _ _ _ _ _ _ Hc El Hl Er) as (left & off & v & Hv & Es & Hok & Hb & _).
    exists c, c, left, off, v, []. split_and!; auto; try lia.
    { rewrite Es. destruct s; cbn in *; by subst. }
    unfold pending. rewrite Hb, <- app_assoc, Es. by destruct s.
  - assert (s = set_inbox (Some c) s) as Es by (destruct s; cbn in *; by subst).
    destruct (bool_decide (state_ s = Closed) || bool_decide (state_ s = HalfClosedRemote)).
    { injection E as <- <- <-. rewrite Es at 2. by apply (read_effect_eof _ c). }
    destruct (ch_async_receive c) as [r c'] eqn:Erc.
    destruct (recv_queue _ _ _ _ Erc) as (Hqc & Hclc & _).
    destruct r as [[p|]| |]; try discriminate E.
    + destruct (read_payload lv cap p (set_inbox (Some c') s)) as [d' r'] eqn:Er. injection E as -> ->.
      rewrite Hqc in Hq. apply Forall_cons in Hq as [(b & p' & [= ->]) Hq].
      destruct (read_payload_fields lv cap (b :: p') (set_inbox (Some c') s) _ _ _ Hc
                  ltac:(pose proof (zlen_nonneg p'); zlia) El Hl Er) as (left & off & v & Hv & -> & Hok & Hb & _).
      exists c, c', left, off, v, [Some (b :: p')]. split_and!; auto; try lia.
      unfold pending at 1, leftover_bytes at 1, inbox_bytes. rewrite El, Hi, Hqc.
      transitivity ((b :: p') ++ mjoin (payload_bytes <$> ch_queue c')); [done|]. rewrite Hb. unfold pending, inbox_bytes. by rewrite <- app_assoc.
    + rewrite Hqc in Hq. apply Forall_cons in Hq as [(b & p' & [=]) _].
    + injection E as <- <- <-. by apply (read_effect_eof _ c).
Qed.

Lemma ranges_set_unacked v s : ranges_ok s -> 0 <= v < 2 ^ 32 -> ranges_ok (set_unacked v s).
Proof. unfold ranges_ok; cbn. lia. Qed.
Lemma ranges_add_in n s : ranges_ok s -> ranges_ok (add_bytes_in n s).
Proof. unfold ranges_ok; cbn. pose proof (u64_range (bytes_in_ s + n)). lia. Qed.
Lemma ranges_add_out n s : ranges_ok s -> ranges_ok (add_bytes_out n s).
Proof. unfold ranges_ok; cbn. pose proof (u64_range (bytes_out_ s + n)). lia. Qed.
Lemma ranges_set_credit v s : ranges_ok s -> ranges_ok (set_credit (i64 v) s).
Proof. unfold ranges_ok; cbn. pose proof (i64_range v). lia. Qed.
#[local] Hint Resolve ranges_set_unacked ranges_add_in ranges_add_out ranges_set_credit : shine.

Lemma read_wf lv cap s d s' eff :
  0 <= cap -> session_wf s -> read lv cap s = (Return d, (s', eff)) -> session_wf s'.
Proof.
  intros Hc Hwf E. destruct (protocol_ s) eqn:Hp.
  - destruct (read_return _ _ _ _ _ _ Hc Hwf Hp E)
      as (c & c' & left & off & v & k & Hi & Hk & _ & -> & Hv & Hl & _).
    destruct Hwf as (Hr & Ht). rewrite Hp in Ht. destruct Ht as (Hu & _ & Hg & c0 & Hi0 & Hq).
    split; [auto with shine|]. cbn [protocol_ set_unacked add_bytes_in set_leftover set_inbox].
    rewrite Hp. split_and!; [done|done|done|]. exists c'. split; [done|].
    simplify_eq. rewrite Hk in Hq. by apply Forall_app in Hq as [_ ?].
  - destruct Hwf as (Hr & Ht). pose proof Ht as Ht'. rewrite Hp in Ht'. destruct Ht' as (Hi & _ & El & _).
    unfold read in E. rewrite El, Hi in E.
    destruct (_ || _); [|discriminate]. injection E as <- <- <-. by split.
Qed.

Lemma write_iter_wf lv s rem s' :
  session_wf s ->
  write_iter lv s rem = WriteAgain s' \/ (exists w r, write_iter lv s rem = WriteSent s' w r) ->
  session_wf s'.
Proof.
  intros (Hr & Ht) E. unfold write_iter in E.
  destruct (zlen rem =? 0); [by destruct E as [|(? & ? & ?)]|].
  destruct (send_credit_ s <=? 0).
  - destruct (credit_signal_ s) as [g|] eqn:Eg; [|by destruct E as [|(? & ? & ?)]].
    destruct (ch_async_receive g) as [r g']. destruct r, (lv_closed lv); destruct E as [E|(w & r & E)];
      try discriminate E; injection E as <-; (split; [done|]); cbn;
      (destruct (protocol_ s); [unfold tcp_ok in *; naive_solver|unfold udp_ok in *; naive_solver]).
  - destruct (_ =? 0) in E; destruct E as [E|(w & r & E)]; try discriminate E; injection E; intros; subst.
    + by split.
    + split; [auto with shine|]. by cbn; destruct (protocol_ s).
Qed.

Lemma close_Forall {A} (P : A -> Prop) (c : C A) : Forall P (ch_queue c) -> Forall P (ch_queue (ch_close c)).
Proof. destruct (close_queue _ c) as [q ->]. by intros [? _]%Forall_app. Qed.

Lemma set_state_wf v s : session_wf s -> session_wf (set_state v s).
Proof. by unfold session_wf; cbn; destruct (protocol_ s). Qed.

Lemma close_inboxes_wf s : session_wf s -> session_wf (close_inboxes s).
Proof.
  intros (Hr & Ht). split; [done|]. cbn. destruct (protocol_ s).
  - destruct Ht as (Hu & Hl & Hg & c & Hi & Hq). unfold tcp_ok; cbn. rewrite Hu, Hi.
    split_and!; auto. exists (ch_close c). split; [done|by apply close_Forall].
  - destruct Ht as (Hi & Hg & El & c & Hu & Hq & Hb & Hn). unfold udp_ok; cbn. rewrite Hu, Hi.
    split_and!; auto. exists (ch_close c). rewrite close_bound.
    split_and!; auto; [by apply close_Forall|].
    destruct (close_queue _ c) as [q E]. rewrite E in Hn. pose proof (zlen_nonneg q). zlia.
Qed.

Lemma set_signal_wf f s : session_wf s -> session_wf (set_signal (option_map f (credit_signal_ s)) s).
Proof.
  intros (Hr & Ht). split; [done|]. cbn. destruct (protocol_ s).
  - destruct Ht as (Hu & Hl & [g Hg] & Hi). unfold tcp_ok; cbn. rewrite Hg. by split_and!.
  - destruct Ht as (Hi & Hg & Hu). unfold udp_ok; cbn. by rewrite Hg.
Qed.

Lemma close_channels_wf s : session_wf s -> session_wf (close_channels s).
Proof. intros. by apply set_signal_wf, close_inboxes_wf. Qed.

Lemma shutdownWrite_wf lv s : session_wf s -> session_wf (fst (shutdownWrite lv s)).
Proof.
  intros. unfold shutdownWrite. repeat case_match; cbn; auto using set_state_wf.
Qed.

Lemma close_wf lv s : session_wf s -> session_wf (fst (close lv s)).
Proof.
  intros. unfold close. destruct (negb _); cbn; auto using set_state_wf, close_channels_wf.
Qed.

Lemma add_out_wf n s : session_wf s -> session_wf (add_bytes_out n s).
Proof. intros (Hr & Ht). split; [auto with shine|]. by cbn; destruct (protocol_ s). Qed.
Lemma set_credit_wf v s : session_wf s -> session_wf (set_credit (i64 v) s).
Proof. intros (Hr & Ht). split; [auto with shine|]. by cbn; destruct (protocol_ s). Qed.
Lemma add_in_wf n s : session_wf s -> session_wf (add_bytes_in n s).
Proof. intros (Hr & Ht). split; [auto with shine|]. by cbn; destruct (protocol_ s). Qed.

Lemma sendTo_wf lv s data a r s' eff :
  session_wf s -> sendTo lv s data a = (r, (s', eff)) -> session_wf s'.
Proof.
  intros Hwf E. unfold sendTo in E. destruct (write_guard lv s); injection E as <- <- <-;
    auto using add_out_wf.
Qed.

Lemma receive_wf s c c' r :
  session_wf s -> udp_inbox_ s = Some c -> ch_async_receive c = (r, c') ->
  session_wf (set_udp_inbox (Some c') s).
Proof.
  intros (Hr & Ht) Hu E. split; [done|]. cbn. destruct (recv_queue _ _ _ _ E) as (Hq & Hc & Hb).
  destruct (protocol_ s).
  - destruct Ht as (Hu' & _). congruence.
  - destruct Ht as (Hi & Hg & El & c0 & Hu' & Hq' & Hb' & Hn). simplify_eq.
    unfold udp_ok; cbn. split_and!; auto. exists c'. rewrite Hq in Hq', Hn.
    apply Forall_app in Hq' as [_ ?]. split_and!; auto; [congruence|].
    rewrite zlen_app in Hn. pose proof (zlen_nonneg (if r is RecvMsg a then [a] else [])). lia.
Qed.

Lemma receiveFrom_wf s r s' : session_wf s -> receiveFrom s = (Return r, s') -> session_wf s'.
Proof.
  intros Hwf E. unfold receiveFrom in E.
  destruct (_ || _); [injection E as <- <-; done|].
  destruct (udp_inbox_ s) as [c|] eqn:Eu; [|discriminate].
  destruct (ch_async_receive c) as [m c'] eqn:Er.
  pose proof (receive_wf _ _ _ _ Hwf Eu Er) as Hwf'.
  destruct m as [[[p|] a]| |]; try discriminate E; injection E as <- <-; auto using add_in_wf.
Qed.

Lemma onData_wf p s : session_wf s -> session_wf (onData p s).
Proof.
  intros (Hr & Ht). unfold onData. destruct p as [[|b p]|]; try (by split).
  destruct (inbox_ s) as [c|] eqn:Ei; [|by split]. split; [done|]. cbn.
  destruct (protocol_ s); [|destruct Ht; congruence].
  destruct Ht as (Hu & Hl & Hg & c0 & Hi & Hq). assert (c0 = c) as -> by congruence.
  unfold tcp_ok; cbn. split_and!; auto. eexists; split; [done|].
  rewrite send_queue. apply Forall_app; split; [done|]. destruct (ch_closed c); [done|].
  constructor; [by eexists _, _|done].
Qed.

Lemma onUdpData_wf p a s : session_wf s -> session_wf (onUdpData p a s).
Proof.
  intros (Hr & Ht). unfold onUdpData. destruct p as [p|]; [|by split].
  destruct (udp_inbox_ s) as [c|] eqn:Ei; [|by split]. split; [done|]. cbn.
  destruct (protocol_ s); [destruct Ht; congruence|].
  destruct Ht as (Hi & Hg & El & c0 & Hu & Hq & Hb & Hn). assert (c0 = c) as -> by congruence.
  unfold udp_ok; cbn. split_and!; auto. eexists; split; [done|].
  rewrite try_send_queue, try_send_bound, Hb.
  destruct (ch_closed c); cbn; [by rewrite app_nil_r|].
  destruct (Z.ltb_spec (zlen (ch_queue c)) 1024); [|by rewrite app_nil_r].
  split_and!; auto; [apply Forall_app; split; [done|by repeat constructor]|zlia].
Qed.

Lemma onWindow_wf d s : session_wf s -> session_wf (onWindow d s).
Proof. intros. by apply set_signal_wf, set_credit_wf. Qed.

Lemma onPeerClose_wf s : session_wf s -> session_wf (onPeerClose s).
Proof. intros. apply close_inboxes_wf. destruct (state_ s); auto using set_state_wf. Qed.

Lemma onReset_wf s : session_wf s -> session_wf (onReset s).
Proof. intros. by apply close_channels_wf, set_state_wf. Qed.

Lemma step_wf s ev s' : session_step s ev s' -> session_wf s -> session_wf s'.
Proof.
  intros [] ?; eauto using read_wf, write_iter_wf, sendTo_wf, receiveFrom_wf, onData_wf, onUdpData_wf,
    onWindow_wf, onPeerClose_wf, onReset_wf.
  - replace s'0 with (fst (shutdownWrite lv s)) by (by rewrite H2). by apply shutdownWrite_wf.
  - replace s'0 with (fst (close lv s)) by (by rewrite H2). by apply close_wf.
Qed.

Lemma run_wf s evs s' : session_run s evs s' -> session_wf s -> session_wf s'.
Proof. induction 1; eauto using step_wf. Qed.

Lemma step_protocol s ev s' : session_step s ev s' -> protocol_ s' = protocol_ s.
Proof.
  destruct 1;
    unfold read, read_leftover, read_payload, read_account, maybeSendWindow, write_iter, shutdownWrite, close,
      sendTo, receiveFrom, onData, onUdpData, onPeerClose in *; try done; repeat case_match; simplify_eq/=; done.
Qed.
Lemma run_protocol s evs s' : session_run s evs s' -> protocol_ s' = protocol_ s.
Proof. induction 1 as [|? ? ? ? ? IH Hst%step_protocol]; [done|congruence]. Qed.

Lemma Session_new_wf sid target pw ow proto :
  0 <= ow < 2 ^ 32 -> session_wf (Session_new (C := C) sid target pw ow proto).
Proof.
  intros Ho. split.
  - unfold ranges_ok; cbn. pose proof (i64_range pw). lia.
  - destruct proto; cbn; [unfold tcp_ok|unfold udp_ok]; cbn; split_and!; auto; eexists;
      rewrite ?make_queue, ?make_bound; (split; [done|]);
      rewrite ?zlen_nil; split_and?; auto; lia.
Qed.
End Preservation.

(** ** The byte stream of a session *)

Section Stream.
Context `{AbslOps} {C : Type -> Type} `{ChannelSpec C}.
Implicit Types s : Session C.

(** Methods that do not touch the receive path. *)
Definition receive_path s := (inbox_ s, leftover_ s, leftover_off_ s).

Lemma receive_path_pending s s' : receive_path s' = receive_path s -> pending s' = pending s.
Proof.
  unfold receive_path. intros [= E1 E2 E3].
  unfold pending, leftover_bytes, inbox_bytes. by rewrite E1, E2, E3.
Qed.
Lemma receive_path_open s s' : receive_path s' = receive_path s -> inbox_open s' -> inbox_open s.
Proof. unfold receive_path. intros [= E1 E2 E3]. unfold inbox_open. by rewrite E1. Qed.

Lemma close_inboxes_pending s : exists lost, pending s = pending (close_inboxes s) ++ lost.
Proof.
  unfold pending, inbox_bytes. cbn. destruct (inbox_ s) as [c|]; cbn.
  - destruct (close_queue _ c) as [q E]. exists (mjoin (payload_bytes <$> q)).
    rewrite E, fmap_app, join_app, <- app_assoc. f_equal.
  - exists []. by rewrite !app_nil_r.
Qed.

Lemma close_inboxes_not_open s : ~ inbox_open (close_inboxes s).
Proof.
  intros (c & Hi & Hc). cbn in Hi. destruct (inbox_ s); [|done]. injection Hi as <-.
  rewrite close_closed in Hc. done.
Qed.

(** One step neither invents, drops, duplicates nor reorders bytes, except that
    closing the inbox drops a suffix and makes later payloads lost. *)
Definition stream_ok s (i o : bytes) s' : Prop :=
  (inbox_open s' -> inbox_open s /\ pending s ++ i = o ++ pending s') /\
  (exists lost, pending s ++ i = o ++ pending s' ++ lost) /\
  (~ inbox_open s -> exists lost, pending s = o ++ pending s' ++ lost).

Lemma stream_ok_same s s' : receive_path s' = receive_path s -> stream_ok s [] [] s'.
Proof.
  intros E. unfold stream_ok. rewrite (receive_path_pending _ _ E), !app_nil_r.
  split_and!; [eauto using receive_path_open|exists []..]; by rewrite ?app_nil_r.
Qed.

Lemma stream_ok_close s s' :
  receive_path s' = receive_path (close_inboxes s) -> stream_ok s [] [] s'.
Proof.
  intros E. unfold stream_ok. rewrite (receive_path_pending _ _ E), !app_nil_r.
  split_and!; [|apply close_inboxes_pending|intros _; apply close_inboxes_pending].
  intros Ho. by destruct (close_inboxes_not_open s (receive_path_open _ _ E Ho)).
Qed.

Lemma stream_ok_read lv cap s d s' eff :
  0 <= cap -> session_wf s -> read lv cap s = (Return d, (s', eff)) -> stream_ok s [] d s'.
Proof.
  intros Hc Hwf E. destruct (protocol_ s) eqn:Hp.
  - destruct (read_return _ _ _ _ _ _ Hc Hwf Hp E)
      as (c & c' & left & off & v & k & Hi & Hk & Hcl & -> & Hv & Hl & Hpend).
    unfold stream_ok. rewrite app_nil_r. split_and!; [|exists []; by rewrite app_nil_r
      |intros _; exists []; by rewrite app_nil_r].
    intros (c0 & Hi0 & Hc0). cbn in Hi0. split; [|done]. exists c. split; [done|congruence].
  - destruct Hwf as (Hr & Ht). rewrite Hp in Ht. destruct Ht as (Hi & _ & El & _).
    unfold read in E. rewrite El, Hi in E.
    destruct (_ || _); [|discriminate]. injection E as <- <- <-. by apply stream_ok_same.
Qed.

Lemma stream_ok_data p s : stream_ok s (payload_bytes p) [] (onData p s).
Proof.
  unfold onData. destruct p as [[|b p]|]; try by apply stream_ok_same.
  destruct (inbox_ s) as [c|] eqn:Ei.
  - unfold stream_ok, pending, inbox_bytes, leftover_bytes; cbn [inbox_ leftover_ leftover_off_ set_inbox].
    rewrite Ei, send_queue, fmap_app, join_app, <- !app_assoc.
    destruct (ch_closed c) eqn:Ec; cbn; rewrite ?app_nil_r; split_and!.
    + intros (c' & [= <-] & Hc). rewrite send_closed in Hc. cbn in *. congruence.
    + exists (b :: p). by rewrite <- ?app_assoc.
    + exists []. by rewrite app_nil_r.
    + intros _. split; [by exists c|by rewrite <- ?app_assoc].
    + exists []. by rewrite ?app_nil_r, <- ?app_assoc.
    + intros Hn. destruct Hn. by exists c.
  - unfold stream_ok. split_and!; [by intros (c & Hc & _); congruence|by exists (b :: p)|].
    intros _. exists []. by rewrite app_nil_r.
Qed.

Lemma write_iter_path lv s rem s' :
  write_iter lv s rem = WriteAgain s' \/ (exists w r, write_iter lv s rem = WriteSent s' w r) ->
  receive_path s' = receive_path s /\ state_ s' = state_ s.
Proof.
  intros E. unfold write_iter in E. repeat case_match; naive_solver.
Qed.

Lemma shutdownWrite_path lv s s' eff :
  shutdownWrite lv s = (s', eff) -> receive_path s' = receive_path s.
Proof. unfold shutdownWrite. intros. repeat case_match; naive_solver. Qed.

Lemma close_path lv s s' eff :
  close lv s = (s', eff) -> receive_path s' = receive_path (close_inboxes s).
Proof. unfold close. intros. repeat case_match; naive_solver. Qed.

Lemma sendTo_path lv s data a r s' eff :
  sendTo lv s data a = (r, (s', eff)) -> receive_path s' = receive_path s /\ state_ s' = state_ s.
Proof. unfold sendTo. intros. repeat case_match; naive_solver. Qed.

Lemma receiveFrom_path s r s' :
  receiveFrom s = (Return r, s') -> receive_path s' = receive_path s /\ state_ s' = state_ s.
Proof. unfold receiveFrom. intros. repeat case_match; naive_solver. Qed.

Lemma onUdpData_path p a s :
  receive_path (onUdpData p a s) = receive_path s /\ state_ (onUdpData p a s) = state_ s.
Proof. unfold onUdpData. by repeat case_match. Qed.

Lemma step_stream s ev s' :
  session_step s ev s' -> session_wf s -> stream_ok s (ev_in ev) (ev_out ev) s'.
Proof.
  intros Hst Hwf; destruct Hst; cbn; eauto using stream_ok_read, stream_ok_data.
  - apply stream_ok_same. eapply write_iter_path; eauto.
  - apply stream_ok_same. eapply write_iter_path; eauto.
  - eapply stream_ok_same, shutdownWrite_path; eauto.
  - eapply stream_ok_close, close_path; eauto.
  - apply stream_ok_same. eapply sendTo_path; eauto.
  - apply stream_ok_same. eapply receiveFrom_path; eauto.
  - apply stream_ok_same. apply onUdpData_path.
  - by apply stream_ok_same.
  - apply stream_ok_close. by destruct (state_ s) eqn:E; unfold onPeerClose; rewrite E.
  - by apply stream_ok_close.
Qed.

Lemma received_snoc evs ev : received (evs ++ [ev]) = received evs ++ ev_in ev.
Proof. unfold received. rewrite fmap_app, join_app. cbn. by rewrite app_nil_r. Qed.
Lemma returned_snoc evs ev : returned (evs ++ [ev]) = returned evs ++ ev_out ev.
Proof. unfold returned. rewrite fmap_app, join_app. cbn. by rewrite app_nil_r. Qed.

Lemma inbox_open_dec s : inbox_open s \/ ~ inbox_open s.
Proof.
  destruct (inbox_ s) as [c|] eqn:Ei; [destruct (ch_closed c) eqn:Ec|];
    [right|left; by exists c|right]; intros (c' & ? & ?); congruence.
Qed.

Lemma run_stream s evs s' :
  session_run s evs s' -> session_wf s ->
  exists lost, pending s ++ received evs = returned evs ++ pending s' ++ lost /\
    (inbox_open s' -> inbox_open s /\ lost = []).
Proof.
  induction 1 as [|evs s1 ev s2 Hr IH Hst]; intros Hwf.
  { exists []. by rewrite !app_nil_r. }
  destruct (IH Hwf) as (lost & E & Ho).
  destruct (step_stream _ _ _ Hst (run_wf _ _ _ Hr Hwf)) as (S1 & (l2 & S2) & S3).
  rewrite received_snoc, returned_snoc, app_assoc, E.
  destruct (inbox_open_dec s1) as [O1|N1].
  - destruct (Ho O1) as [O ->]. rewrite app_nil_r, <- app_assoc.
    destruct (inbox_open_dec s2) as [O2|N2].
    + destruct (S1 O2) as [_ ->]. exists []. by rewrite app_nil_r, <- app_assoc.
    + exists l2. by rewrite S2, <- app_assoc.
  - destruct (S3 N1) as [l3 S3']. exists (l3 ++ lost ++ ev_in ev). split.
    + by rewrite S3', <- !app_assoc.
    + intros O2. by destruct (S1 O2).
Qed.

(** The accounting of a call of [read] that returned data. *)
Lemma read_accounting lv cap s d s' eff :
  0 <= cap -> lv_usable lv = true -> session_wf s -> read lv cap s = (Return d, (s', eff)) ->
  0 < zlen d ->
  let u := u32 (recv_unacked_ s + u32 (zlen d)) in
  if our_initial_window_ s / 2 <=? u
  then recv_unacked_ s' = 0 /\ enqueued eff = [encodeWindow [] (sid_ s) u]
  else recv_unacked_ s' = u /\ enqueued eff = [].
Proof.
  intros Hc Hu Hwf E Hd u.
  assert (forall s1, recv_unacked_ s1 = recv_unacked_ s -> our_initial_window_ s1 = our_initial_window_ s ->
    sid_ s1 = sid_ s -> read_account lv (zlen d) s1 = (s', eff) ->
    if our_initial_window_ s / 2 <=? u
    then recv_unacked_ s' = 0 /\ enqueued eff = [encodeWindow [] (sid_ s) u]
    else recv_unacked_ s' = u /\ enqueued eff = []) as Hacc.
  { intros s1 E1 E2 E3. unfold read_account, maybeSendWindow. rewrite Hu. cbn.
    rewrite E1, E2, E3. fold u. destruct (_ <=? _); intros [= <- <-]; done. }
  unfold read in E. destruct Hwf as (_ & Ht).
  destruct (leftover_ s) as [l|] eqn:El; [destruct (Z.ltb_spec (leftover_off_ s) (zlen l))|].
  1: { unfold read_leftover in E.
       destruct (protocol_ s); [|destruct Ht as (_ & _ & ? & _); congruence].
       destruct Ht as (_ & Hl & _). unfold leftover_ok in Hl. rewrite El in Hl.
       injection E as Ed Er. rewrite <- Ed, zlen_slice in Hacc by lia.
       eapply Hacc; [| | |exact Er]; by destruct (_ <=? _). }
  all: destruct (_ || _); [by injection E as <- _ _|];
    destruct (inbox_ s) as [c|]; [|discriminate];
    destruct (ch_async_receive c) as [[[p|]| |] c']; try discriminate E;
    try (by injection E as <- _ _).
  all: unfold read_payload in E; injection E as Ed Er; pose proof (zlen_nonneg p);
    rewrite <- Ed, zlen_slice in Hacc by lia; eapply Hacc; [| | |exact Er]; by destruct (_ <? _).
Qed.
End Stream.

(** ** The state machine and the flow-controlled writer *)

(** The order in which the life-cycle states can follow each other. *)
Definition state_le (a b : SessionState) : bool :=
  match a, b with
  | Init, _ | _, Closed => true
  | Open, Init => false
  | Open, _ => true
  | HalfClosedLocal, HalfClosedLocal | HalfClosedRemote, HalfClosedRemote => true
  | _, _ => false
  end.

Definition write_closed (a : SessionState) : bool := state_le HalfClosedLocal a.

Section Machine.
Context `{AbslOps} {C : Type -> Type} `{ChannelSpec C}.
Implicit Types s : Session C.

Lemma state_le_refl a : state_le a a = true.
Proof. by destruct a. Qed.
Lemma state_le_trans a b c : state_le a b = true -> state_le b c = true -> state_le a c = true.
Proof. by destruct a, b, c. Qed.

Lemma read_keeps lv cap s r s' eff :
  read lv cap s = (r, (s', eff)) ->
  state_ s' = state_ s /\ our_initial_window_ s' = our_initial_window_ s /\ sid_ s' = sid_ s.
Proof.
  assert (forall n s1 s2 e, read_account lv n s1 = (s2, e) ->
    state_ s2 = state_ s1 /\ our_initial_window_ s2 = our_initial_window_ s1 /\ sid_ s2 = sid_ s1) as Ha.
  { intros n s1 s2 e E. destruct (read_account_fields lv n s1) as (v & Ev & _). rewrite E in Ev.
    cbn in Ev. by subst. }
  unfold read, read_leftover, read_payload. intros E. repeat case_match; simplify_eq; auto;
    match goal with E : _ = (s', _) |- _ => apply Ha in E end; done.
Qed.

Lemma state_le_eq s s' : state_ s' = state_ s -> state_le (state_ s) (state_ s') = true.
Proof. intros ->. apply state_le_refl. Qed.

Lemma step_state s ev s' : session_step s ev s' -> state_le (state_ s) (state_ s') = true.
Proof.
  intros Hst; destruct Hst.
  - eapply state_le_eq, read_keeps; eauto.
  - eapply state_le_eq, write_iter_path; eauto.
  - eapply state_le_eq, write_iter_path; eauto.
  - unfold shutdownWrite in *. repeat case_match; simplify_eq; try apply state_le_refl;
      case_bool_decide as E; try discriminate; cbn; try rewrite E; done.
  - unfold close in *. repeat case_match; simplify_eq; try apply state_le_refl; cbn; by destruct (state_ s).
  - eapply state_le_eq, sendTo_path; eauto.
  - eapply state_le_eq, receiveFrom_path; eauto.
  - unfold onData. repeat case_match; apply state_le_refl.
  - apply state_le_eq, onUdpData_path.
  - apply state_le_refl.
  - unfold onPeerClose. by destruct (state_ s) eqn:E; cbn; rewrite ?E.
  - cbn. by destruct (state_ s).
Qed.

Lemma run_state s evs s' : session_run s evs s' -> state_le (state_ s) (state_ s') = true.
Proof. induction 1; eauto using state_le_refl, state_le_trans, step_state. Qed.

Lemma write_guard_closed lv s : write_closed (state_ s) = true -> exists st, write_guard lv s = Some st.
Proof.
  intros Hc. unfold write_guard. destruct (negb _); [by eexists|].
  destruct (state_ s) eqn:E; try discriminate; by eexists.
Qed.

(** The loop of [write] sends what the credit allows, in frames of at most
    [max_data_frame] bytes, and suspends on the credit signal for the rest. *)
Lemma write_iter_send lv s rem :
  0 < zlen rem -> 0 < lv_max_data_frame lv -> 0 < send_credit_ s < 2 ^ 63 ->
  let n := Z.min (Z.min (zlen rem) (lv_max_data_frame lv)) (send_credit_ s) in
  write_iter lv s rem
  = WriteSent (add_bytes_out n (set_credit (send_credit_ s - n) s))
      (encodeData [] (sid_ s) (take (Z.to_nat n) rem)) (drop (Z.to_nat n) rem).
Proof.
  intros Hr Hm Hc n. unfold write_iter.
  rewrite (proj2 (Z.eqb_neq _ _)), (proj2 (Z.leb_gt _ _)) by lia.
  rewrite u64_small by lia. fold n. rewrite (proj2 (Z.eqb_neq _ _)) by lia.
  rewrite i64_small by lia. done.
Qed.

Definition sent_ok lv s (rem : bytes) (s' : Session C) (chunks : list bytes) (n : Z) : Prop :=
  concat chunks = take (Z.to_nat n) rem /\
  Forall (fun p => 0 < zlen p <= lv_max_data_frame lv) chunks /\
  send_credit_ s' = send_credit_ s - n /\ bytes_out_ s' = u64 (bytes_out_ s + n) /\
  sid_ s' = sid_ s /\ state_ s' = state_ s /\ receive_path s' = receive_path s.

Lemma sent_ok_nothing lv s rem : 0 <= bytes_out_ s < 2 ^ 64 -> sent_ok lv s rem s [] 0.
Proof.
  intros Hb. unfold sent_ok. rewrite Z.add_0_r, u64_small, Z.sub_0_r by lia. by split_and!.
Qed.

Lemma sent_ok_more lv s rem m s1 s' chunks n :
  0 < m <= lv_max_data_frame lv -> m <= zlen rem -> 0 <= n ->
  s1 = add_bytes_out m (set_credit (send_credit_ s - m) s) ->
  sent_ok lv s1 (drop (Z.to_nat m) rem) s' chunks n ->
  sent_ok lv s rem s' (take (Z.to_nat m) rem :: chunks) (m + n).
Proof.
  intros Hm Hr Hn -> (Hc & Hf & Hcr & Hb & Hs & Hst & Hp). unfold sent_ok. cbn in *.
  rewrite Hc, Hcr, Hb, Hs, Hst, Hp. split_and!; auto; try lia.
  - rewrite Z2Nat.inj_add by lia. rewrite <- (take_drop (Z.to_nat m) rem) at 3.
    rewrite take_app_add'; [done|]. rewrite length_take. unfold zlen in Hr. lia.
  - constructor; [|done]. unfold zlen in *. rewrite length_take. lia.
  - unfold u64. rewrite Zplus_mod_idemp_l. f_equal. lia.
Qed.

Definition write_result s (rem : bytes) (n : Z) : WriteEnd :=
  if zlen rem <=? send_credit_ s then WEReturn None else WEWait (drop (Z.to_nat n) rem).

Lemma write_loop_flow fuel : forall lv s rem wires g,
  lv_closed lv = false -> 0 < lv_max_data_frame lv -> 0 <= send_credit_ s < 2 ^ 63 ->
  0 <= bytes_out_ s < 2 ^ 64 -> credit_signal_ s = Some g -> ch_closed g = false ->
  (length rem + length (ch_queue g) < fuel)%nat ->
  let n := Z.min (send_credit_ s) (zlen rem) in
  exists chunks s', sent_ok lv s rem s' chunks n /\
    write_loop fuel lv s rem wires
    = (write_result s rem n, s', wires ++ map (encodeData [] (sid_ s)) chunks).
Proof.
  induction fuel as [|fuel IH]; intros lv s rem wires g Hl Hm Hc Hb Hg Hcl Hf n; [lia|].
  cbn [write_loop]. destruct rem as [|b rem].
  { exists [], s. cbn [write_iter]. unfold n, write_result, write_iter. rewrite !zlen_nil. cbn [Z.eqb map].
    rewrite Z.min_r, app_nil_r, (proj2 (Z.leb_le _ _)) by lia. split; [by apply sent_ok_nothing|done]. }
  pose proof (zlen_nonneg rem). assert (0 < zlen (b :: rem)) as Hr by zlia.
  destruct (Z.eq_dec (send_credit_ s) 0) as [E0|E0].
  - unfold write_iter. rewrite (proj2 (Z.eqb_neq _ _)), (proj2 (Z.leb_le _ _)), Hg, Hl by lia.
    destruct (ch_queue g) as [|[] q] eqn:Eq.
    + rewrite (recv_open_nil _ _ Hcl Eq). exists [], s. unfold n, write_result.
      rewrite E0, Z.min_l, app_nil_r, (proj2 (Z.leb_gt _ _)) by lia.
      split; [by apply sent_ok_nothing|done].
    + destruct (recv_open_cons _ _ _ _ Hcl Eq) as (g' & -> & Hq' & Hc' & _).
      apply (IH lv (set_signal (Some g') s) (b :: rem) wires g'); auto.
      rewrite Hq'. cbn in *. lia.
  - rewrite (write_iter_send lv s (b :: rem)) by lia.
    set (m := Z.min (Z.min _ _) _). set (s1 := add_bytes_out m _).
    destruct (IH lv s1 (drop (Z.to_nat m) (b :: rem)) (wires ++ [encodeData [] (sid_ s) (take (Z.to_nat m) (b :: rem))]) g)
      as (chunks & s' & Hs & ->); auto; cbn [send_credit_ s1 add_bytes_out set_credit bytes_out_]; [lia|apply u64_range| |].
    { rewrite length_drop. cbn [length] in *. lia. }
    exists (take (Z.to_nat m) (b :: rem) :: chunks), s'. cbn [send_credit_ s1 add_bytes_out set_credit] in Hs.
    rewrite zlen_drop in Hs by lia. split.
    + replace n with (m + Z.min (send_credit_ s - m) (zlen (b :: rem) - m)) by lia.
      eapply sent_ok_more; [| |lia|reflexivity|exact Hs]; lia.
    + unfold write_result. cbn [send_credit_ s1 add_bytes_out set_credit sid_].
      rewrite zlen_drop, <- app_assoc, drop_drop by lia. do 2 f_equal.
      destruct (Z.leb_spec (zlen (b :: rem)) (send_credit_ s)), (Z.leb_spec (zlen (b :: rem) - m) (send_credit_ s - m));
        try lia; [done|]. do 2 f_equal. lia.
Qed.

(** A suspended writer that nothing will serve: no credit, the credit signal
    closed and drained. *)
Lemma write_loop_spins fuel : forall lv s b rem wires g,
  lv_closed lv = false -> send_credit_ s <= 0 -> credit_signal_ s = Some g ->
  ch_closed g = true -> ch_queue g = [] ->
  write_loop fuel lv s (b :: rem) wires = (WEFuel, s, wires).
Proof.
  induction fuel as [|fuel IH]; intros lv s b rem wires g Hl Hc Hg Hcl Hq; [done|].
  cbn [write_loop]. unfold write_iter. pose proof (zlen_nonneg rem).
  rewrite (proj2 (Z.eqb_neq _ _)), (proj2 (Z.leb_le _ _)), Hg, Hl by zlia.
  rewrite (recv_closed_nil _ _ Hcl Hq).
  replace (set_signal (Some g) s) with s by (destruct s; cbn in *; by subst). eauto.
Qed.
End Machine.

(** ** Properties *)

Section Properties.
Context `{AbslOps} {C : Type -> Type} `{ChannelSpec C}.
Implicit Types s : Session C.

Lemma no_null_deref s :
  session_wf s ->
  match protocol_ s with
  | TCP => (forall lv cap, fst (read lv cap s) <> NullDeref) /\
           (forall lv rem, write_iter lv s rem <> WriteUB)
  | UDP => fst (receiveFrom s) <> NullDeref
  end.
Proof.
  intros (_ & Ht). destruct (protocol_ s).
  - destruct Ht as (_ & _ & [g Hg] & c & Hi & _). split.
    + intros lv cap. unfold read. rewrite Hi. repeat case_match; naive_solver.
    + intros lv rem. unfold write_iter. rewrite Hg. repeat case_match; naive_solver.
  - destruct Ht as (_ & _ & _ & c & Hu & Hq & _). unfold receiveFrom. rewrite Hu.
    destruct (_ || _); [done|]. destruct (ch_async_receive c) as [r c'] eqn:Er.
    destruct (recv_queue _ _ _ _ Er) as (Hqc & _). destruct r as [[[p|] a]| |]; try done.
    rewrite Hqc in Hq. apply Forall_cons in Hq as [[? ?] _]. done.
Qed.

Lemma pending_new sid target pw ow proto : pending (Session_new (C := C) sid target pw ow proto) = [].
Proof.
  unfold pending, leftover_bytes, inbox_bytes, Session_new. cbn [leftover_ inbox_].
  destruct proto; [|done]. change (bool_decide (TCP = TCP)) with true. cbn iota. by rewrite make_queue.
Qed.

Lemma read_from_leftover lv cap l s :
  leftover_ s = Some l -> leftover_off_ s < zlen l ->
  read lv cap s = (Return (fst (read_leftover lv cap l s)), snd (read_leftover lv cap l s)).
Proof. intros El Ho. unfold read. rewrite El, (proj2 (Z.ltb_lt _ _)) by lia. done. Qed.

Lemma read_from_inbox lv cap c s :
  leftover_ s = None -> inbox_ s = Some c -> state_ s = Open \/ state_ s = HalfClosedLocal ->
  ch_closed c = false -> Forall payload_ok (ch_queue c) ->
  (ch_queue c = [] /\ read lv cap s = (Pending, (s, no_effects))) \/
  (exists p q c', ch_queue c = Some p :: q /\ 0 < zlen p /\
     let r := read_payload lv cap p (set_inbox (Some c') s) in
     read lv cap s = (Return (fst r), snd r)).
Proof.
  intros El Hi Hst Hcl Hq. unfold read. rewrite El, Hi, !bool_decide_eq_false_2 by (destruct Hst; congruence).
  cbn [orb]. destruct (ch_queue c) as [|m q] eqn:Eq.
  - rewrite (recv_open_nil _ _ Hcl Eq). by left.
  - destruct (recv_open_cons _ _ _ _ Hcl Eq) as (c' & -> & _). right.
    apply Forall_cons in Hq as [(b & p & ->) _]. exists (b :: p), q, c'.
    pose proof (zlen_nonneg p). split_and!; [done|zlia|by destruct (read_payload _ _ _ _)].
Qed.

(** Session invariant: along every interleaving of calls and frames from
    the moment a session is created, all its machine integers stay in range,
    its unread tail stays inside the payload, its queued payloads are non-empty
    and its UDP queue never exceeds 1024 datagrams; and no method that belongs
    to its protocol goes through a null channel pointer. *)
Theorem session_invariant sid target pw ow proto evs s :
  0 <= ow < 2 ^ 32 -> session_run (Session_new (C := C) sid target pw ow proto) evs s ->
  session_wf s /\
  match protocol_ s with
  | TCP => (forall lv cap, fst (read lv cap s) <> NullDeref) /\
           (forall lv rem, write_iter lv s rem <> WriteUB)
  | UDP => fst (receiveFrom s) <> NullDeref
  end.
Proof.
  intros Ho Hr. assert (session_wf s) as Hwf by eauto using run_wf, Session_new_wf.
  split; [done|by apply no_null_deref].
Qed.

(** C6. Stream integrity: whatever the interleaving, the bytes [read] has
    returned are a prefix of the bytes the link delivered, in order and without
    gaps or duplicates; while the inbox is open nothing is lost: what was not
    returned yet is exactly what is pending. *)
Theorem session_stream_integrity sid target pw ow evs s :
  0 <= ow < 2 ^ 32 -> session_run (Session_new (C := C) sid target pw ow TCP) evs s ->
  exists lost, received evs = returned evs ++ pending s ++ lost /\ (inbox_open s -> lost = []).
Proof.
  intros Ho Hr. destruct (run_stream _ _ _ Hr (Session_new_wf _ _ _ _ _ Ho)) as (lost & E & Hl).
  exists lost. split; [|by intros; apply Hl]. rewrite <- E. by rewrite pending_new.
Qed.

(** A session with nothing to read has room. *)
Lemma pending_nil_room s : session_wf s -> protocol_ s = TCP -> pending s = [] -> inbox_full s = false.
Proof.
  intros (_ & Ht) Hp Hn. rewrite Hp in Ht. destruct Ht as (_ & _ & _ & c & Hi & Hq).
  apply app_eq_nil in Hn as [_ Hn]. unfold inbox_bytes, inbox_full in *. rewrite Hi in *.
  destruct (ch_queue c) as [|p q]; [by rewrite andb_false_r|]. apply Forall_cons in Hq as [(b & l & ->) _]. done.
Qed.

Lemma read_progress lv cap s :
  0 < cap -> session_wf s -> protocol_ s = TCP -> inbox_open s ->
  state_ s = Open \/ state_ s = HalfClosedLocal ->
  (pending s = [] /\ read lv cap s = (Pending, (s, no_effects))) \/
  (exists d s' eff, read lv cap s = (Return d, (s', eff)) /\ 0 < zlen d <= cap /\
     pending s = d ++ pending s').
Proof.
  intros Hc Hwf Hp (c & Hi & Hcl) Hst. pose proof Hwf as (Hr & Ht). rewrite Hp in Ht.
  destruct Ht as (_ & Hl & _ & c0 & Hi0 & Hq). assert (c0 = c) as -> by congruence.
  assert (forall d s' eff, read lv cap s = (Return d, (s', eff)) -> pending s = d ++ pending s') as Hpend.
  { intros d s' eff E. by destruct (read_return _ _ _ _ _ _ (Z.lt_le_incl _ _ Hc) Hwf Hp E)
      as (? & ? & ? & ? & ? & ? & _ & _ & _ & _ & _ & _ & ?). }
  unfold leftover_ok in Hl. destruct (leftover_ s) as [l|] eqn:El.
  - right. pose proof (read_from_leftover lv cap l s El ltac:(lia)) as E.
    destruct (read_leftover lv cap l s) as [d [s' eff]] eqn:Er. exists d, s', eff. split_and!; eauto;
      apply read_leftover_fields in Er as (? & ? & ? & _ & _ & _ & _ & ->); try done; try lia.
    unfold leftover_bytes. rewrite El, zlen_drop; lia.
  - destruct (read_from_inbox lv cap c s El Hi Hst Hcl Hq) as [(Eq & E)|(p & q & c' & Eq & Hpos & E)].
    + left. split; [|done]. unfold pending, leftover_bytes, inbox_bytes. by rewrite El, Hi, Eq.
    + right. destruct (read_payload _ _ _ _) as [d [s' eff]] eqn:Er. exists d, s', eff. split_and!; eauto;
        apply read_payload_fields in Er as (? & ? & ? & _ & _ & _ & _ & ->); try done; lia.
Qed.

(** [read] makes progress: on a session whose receive side is open it
    suspends exactly when nothing is pending, and otherwise returns at least
    one and at most [cap] bytes from the front of the pending stream. *)
Theorem read_serves_pending lv cap s :
  0 < cap -> session_wf s -> protocol_ s = TCP -> inbox_open s ->
  state_ s = Open \/ state_ s = HalfClosedLocal ->
  (pending s = [] /\ read lv cap s = (Pending, (s, no_effects))) \/
  (exists d s' eff, read lv cap s = (Return d, (s', eff)) /\ 0 < zlen d <= cap /\
     pending s = d ++ pending s').
Proof. apply read_progress. Qed.

(** [write] obeys the peer's window and terminates: from any credit, it
    sends exactly the first [min credit |data|] bytes, split in order into DATA
    frames of 1 to [max_data_frame] bytes, uses up exactly that much credit, and
    then returns OK if everything was sent or is suspended on the credit signal
    with the rest. *)
Theorem write_obeys_credit fuel lv s data g :
  lv_usable lv = true -> 0 < lv_max_data_frame lv ->
  state_ s = Open \/ state_ s = HalfClosedRemote ->
  0 <= send_credit_ s < 2 ^ 63 -> 0 <= bytes_out_ s < 2 ^ 64 ->
  credit_signal_ s = Some g -> ch_closed g = false ->
  (length data + length (ch_queue g) < fuel)%nat ->
  let n := Z.min (send_credit_ s) (zlen data) in
  exists chunks s',
    write fuel lv s data = (write_result s data n, s', map (encodeData [] (sid_ s)) chunks) /\
    concat chunks = take (Z.to_nat n) data /\
    Forall (fun p => 0 < zlen p <= lv_max_data_frame lv) chunks /\
    send_credit_ s' = send_credit_ s - n /\ bytes_out_ s' = u64 (bytes_out_ s + n).
Proof.
  intros Hu Hm Hst Hc Hb Hg Hcl Hf n. unfold write, write_guard. rewrite Hu. cbn [negb].
  rewrite !bool_decide_eq_false_2 by (destruct Hst; congruence). cbn [orb].
  assert (lv_closed lv = false) as Hlc by (unfold lv_usable in Hu; by destruct (lv_alive lv), (lv_closed lv)).
  destruct (write_loop_flow fuel lv s data [] g) as (chunks & s' & (H1' & H2' & H3' & H4' & _) & E); auto.
  by exists chunks, s'.
Qed.

(** Closing the write side is final: the life-cycle state only moves
    forward, and once it is [HalfClosedLocal] or [Closed] every later [write]
    and [sendTo] fails without sending anything and [shutdownWrite] sends no
    second CLOSE, whatever happens in between. *)
Theorem write_side_final s evs s' lv fuel data target :
  session_run s evs s' -> state_le (state_ s) (state_ s') = true /\
  (write_closed (state_ s) = true ->
   exists st, write fuel lv s' data = (WEReturn (Some st), s', []) /\
     sendTo lv s' data target = (Some st, (s', no_effects)) /\
     shutdownWrite lv s' = (s', no_effects)).
Proof.
  intros Hr. pose proof (run_state _ _ _ Hr) as Hle. split; [done|]. intros Hw.
  assert (write_closed (state_ s') = true) as Hw' by (by eapply state_le_trans).
  destruct (write_guard_closed lv _ Hw') as [st E]. exists st. unfold write, sendTo. rewrite E.
  split_and!; [done..|]. unfold shutdownWrite. destruct (negb _); [done|].
  by destruct (state_ s') eqn:Es; try discriminate.
Qed.

(** What half-closing loses: after the peer's CLOSE, [read] reports end of
    stream as soon as no partly read payload is left, even when payloads
    received before the CLOSE are still queued in the inbox. *)
Theorem peer_close_hides_inbox lv cap s :
  state_ s = Open \/ state_ s = HalfClosedLocal -> leftover_ s = None ->
  read lv cap (onPeerClose s) = (Return [], (onPeerClose s, no_effects)).
Proof.
  intros Hst El. unfold read, onPeerClose. destruct Hst as [-> | ->]; cbn; by rewrite El.
Qed.

(** A writer waiting for credit when its session is reset does not return
    while the link stays up: the closed credit signal completes at once, and the
    loop only looks at the link, so every number of iterations is too few. *)
Theorem reset_leaves_writer_spinning fuel lv s b rem wires g :
  lv_closed lv = false -> send_credit_ s <= 0 -> credit_signal_ s = Some g -> ch_queue g = [] ->
  write_loop fuel lv (onReset s) (b :: rem) wires = (WEFuel, onReset s, wires).
Proof.
  intros Hl Hc Hg Hq. destruct (close_queue _ g) as [q Eq]. rewrite Hq in Eq.
  symmetry in Eq. apply app_eq_nil in Eq as [Eq _].
  apply (write_loop_spins fuel lv (onReset s) b rem wires (ch_close g)); auto; [|apply close_closed].
  cbn. by rewrite Hg.
Qed.
End Properties.

(** ** Witnesses: a session on FIFO channels over a link that is up *)

Definition demo_link : LinkView := mkLinkView true false 4.
Definition demo_session : Session fifo := Session_new 7 (mkAddress Domain [] (lit "h") 80) 10 8 TCP.

Definition demo_event : event := mkEvent (lit "abc") [] [].
Definition demo_fed : Session fifo := onData (Some (lit "abc")) demo_session.

Lemma session_invariant_witness :
  session_wf demo_fed /\
  ((forall lv cap, fst (read lv cap demo_fed) <> NullDeref) /\
   (forall lv rem, write_iter lv demo_fed rem <> WriteUB)).
Proof.
  apply (session_invariant 7 (mkAddress Domain [] (lit "h") 80) 10 8 TCP [demo_event] demo_fed); [lia|].
  apply (run_snoc _ [] demo_session); [constructor|apply (st_on_data demo_session (Some (lit "abc")))].
Defined.

Lemma session_stream_integrity_witness :
  exists lost, received [demo_event] = returned [demo_event] ++ pending demo_fed ++ lost /\
    (inbox_open demo_fed -> lost = []).
Proof.
  apply (session_stream_integrity 7 (mkAddress Domain [] (lit "h") 80) 10 8 [demo_event] demo_fed); [lia|].
  apply (run_snoc _ [] demo_session); [constructor|apply (st_on_data demo_session (Some (lit "abc")))].
Defined.

Lemma demo_fed_wf : session_wf demo_fed.
Proof. apply onData_wf, Session_new_wf. lia. Qed.

Lemma read_serves_pending_witness :
  (pending demo_fed = [] /\ read demo_link 2 demo_fed = (Pending, (demo_fed, no_effects))) \/
  (exists d s' eff, read demo_link 2 demo_fed = (Return d, (s', eff)) /\ 0 < zlen d <= 2 /\
     pending demo_fed = d ++ pending s').
Proof.
  apply (read_serves_pending demo_link 2 demo_fed);
    [lia|apply demo_fed_wf|done|by eexists|by left].
Defined.

Lemma write_obeys_credit_witness :
  exists chunks s',
    write 14 demo_link demo_session (lit "hello, world")
    = (WEWait (lit "ld"), s', map (encodeData [] 7) chunks) /\
    concat chunks = lit "hello, wor" /\ Forall (fun p => 0 < zlen p <= 4) chunks /\
    send_credit_ s' = 0 /\ bytes_out_ s' = 10.
Proof.
  apply (write_obeys_credit 14 demo_link demo_session (lit "hello, world") (ch_make 1));
    try by vm_compute. by left. vm_compute; lia.
Defined.

Lemma write_side_final_witness :
  state_le HalfClosedLocal (state_ (onPeerClose (fst (shutdownWrite demo_link demo_session)))) = true /\
  (write_closed HalfClosedLocal = true ->
   exists st,
     write 5 demo_link (onPeerClose (fst (shutdownWrite demo_link demo_session))) (lit "x")
     = (WEReturn (Some st), onPeerClose (fst (shutdownWrite demo_link demo_session)), []) /\
     sendTo demo_link (onPeerClose (fst (shutdownWrite demo_link demo_session))) (lit "x")
       (mkAddress Domain [] (lit "h") 80)
     = (Some st, (onPeerClose (fst (shutdownWrite demo_link demo_session)), no_effects)) /\
     shutdownWrite demo_link (onPeerClose (fst (shutdownWrite demo_link demo_session)))
     = (onPeerClose (fst (shutdownWrite demo_link demo_session)), no_effects)).
Proof.
  apply (write_side_final (fst (shutdownWrite demo_link demo_session)) [ev_none]).
  apply (run_snoc _ [] (fst (shutdownWrite demo_link demo_session))); [constructor|].
  apply st_on_peer_close.
Defined.

Lemma peer_close_hides_inbox_witness :
  pending (onPeerClose demo_fed) = lit "abc" /\
  read demo_link 2 (onPeerClose demo_fed) = (Return [], (onPeerClose demo_fed, no_effects)).
Proof.
  split; [by vm_compute|]. apply (peer_close_hides_inbox demo_link 2 demo_fed); [by left|done].
Defined.

Definition demo_broke : Session fifo := set_credit 0 demo_session.

Lemma reset_leaves_writer_spinning_witness :
  write_loop 1000 demo_link (onReset demo_broke) (lit "x") [] = (WEFuel, onReset demo_broke, []).
Proof.
  apply (reset_leaves_writer_spinning 1000 demo_link demo_broke "x"%byte [] [] (ch_make 1)); by vm_compute.
Defined.
