(* ===== verification/FlowControl.v ===== *)
(** * End-to-end flow control of one direction of a session

    The sending [Session] at one end of a link, the receiving [Session] at the
    other, the DATA frames travelling one way and the WINDOW frames travelling
    back, as encoded on the wire.  The steps are the methods of session.cpp in
    any order; delivery is what [Link::dispatchFrame] does with the decoded
    frame.  [written] and [got] are history variables: the bytes accepted by
    [write] and those returned by [read]. *)
From S2P Require Import Prelude Absl Buffer Resp2 ShineFrame Address Request Channel Session.
From Stdlib Require Import Strings.Byte.

Record flow (C : Type -> Type) := mkFlow {
  tx : Session C;
  rx : Session C;
  data_wire : list bytes;
  win_wire : list bytes;
  written : bytes;
  got : bytes;
}.
Arguments mkFlow {C}.
Arguments tx {C}.
Arguments rx {C}.
Arguments data_wire {C}.
Arguments win_wire {C}.
Arguments written {C}.
Arguments got {C}.

Definition zsum (ds : list Z) : Z := foldr Z.add 0 ds.

Section Flow.
Context `{AbslOps} {C : Type -> Type} `{ChannelOps C}.
Implicit Types f : flow C.

(** The sender's link is up. *)
Inductive send_step f : flow C -> Prop :=
  | fl_send lv rem s' wire sent rest :
      lv_usable lv = true -> 0 < lv_max_data_frame lv ->
      write_iter lv (tx f) rem = WriteSent s' wire rest -> rem = sent ++ rest ->
      send_step f (mkFlow s' (rx f) (data_wire f ++ [wire]) (win_wire f) (written f ++ sent) (got f))
  | fl_wake lv rem s' : write_iter lv (tx f) rem = WriteAgain s' ->
      send_step f (mkFlow s' (rx f) (data_wire f) (win_wire f) (written f) (got f)).

(** What the receiver and the two links do. *)
Inductive drain_step f : flow C -> Prop :=
  | fl_data p ws :
      data_wire f = encodeFrame [] (DataFrame (sid_ (rx f)) p) :: ws ->
      frame_fits (DataFrame (sid_ (rx f)) p) -> inbox_full (rx f) = false ->
      drain_step f (mkFlow (tx f) (onData (Some p) (rx f)) ws (win_wire f) (written f) (got f))
  | fl_read lv cap d s' eff :
      lv_usable lv = true -> 0 < cap -> read lv cap (rx f) = (Return d, (s', eff)) ->
      drain_step f (mkFlow (tx f) s' (data_wire f) (win_wire f ++ enqueued eff) (written f) (got f ++ d))
  | fl_window d ws :
      win_wire f = encodeFrame [] (WindowFrame (sid_ (tx f)) d) :: ws ->
      frame_fits (WindowFrame (sid_ (tx f)) d) ->
      drain_step f (mkFlow (onWindow d (tx f)) (rx f) (data_wire f) ws (written f) (got f)).

Definition flow_step f f' : Prop := send_step f f' \/ drain_step f f'.

(** A fresh session: [W] is the window the sender starts with, [ow] the window
    the receiver believes it advertised. *)
Definition flow_init (sid : Z) (a b : Address) (W otx prx ow : Z) : flow C :=
  mkFlow (Session_new sid a W otx TCP) (Session_new sid b prx ow TCP) [] [] [] [].

Definition data_frames (sid : Z) (ps : list bytes) : list bytes :=
  map (fun p => encodeFrame [] (DataFrame sid p)) ps.
Definition window_frames (sid : Z) (ds : list Z) : list bytes :=
  map (fun d => encodeFrame [] (WindowFrame sid d)) ds.

Definition receiver_ok (s : Session C) : Prop :=
  session_wf s /\ protocol_ s = TCP /\ inbox_open s /\ state_ s = Open.

(** The receiver has not yet reached the threshold at which it must send a
    WINDOW frame. *)
Definition unacked_ok (s : Session C) : Prop :=
  0 <= recv_unacked_ s < Z.max 1 (our_initial_window_ s / 2).

(** The conservation law: every byte of the window is either credit of the
    sender, in flight, waiting to be read, read but not yet acknowledged, or in
    flight back to the sender. *)
Definition flow_inv (W : Z) f (ps : list bytes) (ds : list Z) : Prop :=
  data_wire f = data_frames (sid_ (tx f)) ps /\ win_wire f = window_frames (sid_ (tx f)) ds /\
  Forall (fun p => 0 < zlen p) ps /\ Forall (fun d => 0 < d) ds /\
  (0 <= sid_ (tx f) < 2 ^ 64 /\ sid_ (rx f) = sid_ (tx f)) /\ receiver_ok (rx f) /\
  unacked_ok (rx f) /\ 0 <= send_credit_ (tx f) /\
  send_credit_ (tx f) + zlen (concat ps) + zlen (pending (rx f)) + recv_unacked_ (rx f) + zsum ds = W /\
  written f = got f ++ pending (rx f) ++ concat ps.
End Flow.

Section Conservation.
Context `{AbslOps, !AbslSpec} {C : Type -> Type} `{ChannelSpec C}.
Implicit Types f : flow C.

Lemma zsum_app a b : zsum (a ++ b) = zsum a + zsum b.
Proof. unfold zsum. induction a; simpl; lia. Qed.
Lemma zsum_nonneg ds : Forall (fun d => 0 < d) ds -> 0 <= zsum ds.
Proof. unfold zsum. induction 1; simpl; lia. Qed.

(** Every quantity of the law is bounded by the window. *)
Lemma flow_inv_bounds W f ps ds :
  flow_inv W f ps ds ->
  0 <= send_credit_ (tx f) <= W /\ 0 <= zlen (concat ps) <= W /\ 0 <= zlen (pending (rx f)) <= W /\
  0 <= recv_unacked_ (rx f) <= W /\ 0 <= zsum ds <= W.
Proof.
  intros (_ & _ & _ & Hds & _ & _ & Hu & Hc & Hsum & _). unfold unacked_ok in Hu.
  pose proof (zlen_nonneg (concat ps)). pose proof (zlen_nonneg (pending (rx f))).
  pose proof (zsum_nonneg ds Hds). lia.
Qed.

Lemma write_iter_sent_inv lv (s : Session C) rem s' wire rest :
  write_iter lv s rem = WriteSent s' wire rest -> 0 < zlen rem /\ 0 < send_credit_ s.
Proof.
  intros E. unfold write_iter in E. pose proof (zlen_nonneg rem).
  destruct (Z.eqb_spec (zlen rem) 0); [discriminate|]. destruct (Z.leb_spec (send_credit_ s) 0); [|lia].
  repeat case_match; discriminate.
Qed.

Lemma flow_inv_init sid a b W otx prx ow :
  0 <= sid < 2 ^ 64 -> 0 <= W < 2 ^ 32 -> 0 <= ow < 2 ^ 32 ->
  flow_inv W (flow_init (C := C) sid a b W otx prx ow) [] [].
Proof.
  intros Hs HW Ho. unfold flow_inv. cbn [flow_init tx rx data_wire win_wire written got].
  rewrite pending_new. split_and!; try done; try (cbn; rewrite ?i64_small; lia).
  - split_and!; [by apply Session_new_wf|done| |done].
    eexists; split; [reflexivity|]. apply make_closed.
  - unfold unacked_ok. cbn. lia.
  - cbn [concat zsum foldr send_credit_ recv_unacked_ Session_new]. rewrite i64_small, !zlen_nil; lia.
Qed.

Lemma flow_inv_send W f ps ds f' :
  W < 2 ^ 32 -> flow_inv W f ps ds -> send_step f f' -> exists ps', flow_inv W f' ps' ds.
Proof.
  intros HW Hinv Hst. pose proof (flow_inv_bounds _ _ _ _ Hinv) as Hb.
  destruct Hinv as (Hd & Hw & Hps & Hds & [Hs1 Hs2] & Hr & Hu & Hc & Hsum & Hhist).
  destruct Hst as [lv rem s' wire sent rest Hl Hm E Hrem|lv rem s' E].
  - destruct (write_iter_sent_inv _ _ _ _ _ _ E) as [Hrem0 Hc0].
    rewrite write_iter_send in E by lia. injection E as <- <- <-.
    set (n := Z.min (Z.min (zlen rem) (lv_max_data_frame lv)) (send_credit_ (tx f))) in *.
    assert (sent = take (Z.to_nat n) rem) as Hsent
      by (apply (app_inv_tail (drop (Z.to_nat n) rem)); by rewrite take_drop).
    assert (zlen sent = n) as Hn by (rewrite Hsent; unfold zlen in *; rewrite length_take; lia).
    exists (ps ++ [sent]). rewrite <- Hsent. unfold flow_inv.
    cbn [tx rx data_wire win_wire written got sid_ send_credit_ add_bytes_out set_credit].
    rewrite concat_app. cbn [concat]. rewrite app_nil_r, zlen_app. split_and!; auto; try lia.
    + rewrite Hd. unfold data_frames. by rewrite map_app.
    + apply Forall_app. split; [done|]. repeat constructor. lia.
    + rewrite Hhist. by rewrite <- !app_assoc.
  - exists ps. assert (send_credit_ s' = send_credit_ (tx f) /\ sid_ s' = sid_ (tx f)) as [E1 E2].
    { unfold write_iter in E. repeat case_match; simplify_eq; done. }
    unfold flow_inv. cbn [tx rx data_wire win_wire written got]. rewrite E1, E2. split_and!; auto; lia.
Qed.

(** The frame at the head of a wire is the first of the list the wire encodes. *)
Lemma data_head sid ps p ws :
  0 <= sid < 2 ^ 64 -> zlen (concat ps) < 2 ^ 32 -> frame_fits (DataFrame sid p) ->
  data_frames sid ps = encodeFrame [] (DataFrame sid p) :: ws ->
  exists ps', ps = p :: ps' /\ ws = data_frames sid ps'.
Proof.
  intros Hs Hn Hf E. destruct ps as [|q ps']; [discriminate|].
  pose proof (f_equal tl E) as Et. apply (f_equal (hd [])) in E. cbn [data_frames map hd tl] in E, Et.
  exists ps'. split; [|done].
  f_equal. apply encodeFrame_inj in E; [congruence| |done].
  apply data_fits; [done|]. cbn in Hn. pose proof (zlen_nonneg (concat ps')). zlia.
Qed.

Lemma window_head sid ds d ws :
  0 <= sid < 2 ^ 64 -> zsum ds < 2 ^ 32 -> Forall (fun d => 0 < d) ds -> frame_fits (WindowFrame sid d) ->
  window_frames sid ds = encodeFrame [] (WindowFrame sid d) :: ws ->
  exists ds', ds = d :: ds' /\ ws = window_frames sid ds'.
Proof.
  intros Hs Hn Hpos Hf E. destruct ds as [|q ds']; [discriminate|].
  pose proof (f_equal tl E) as Et. apply (f_equal (hd [])) in E. cbn [window_frames map hd tl] in E, Et.
  exists ds'. split; [|done].
  f_equal. apply encodeFrame_inj in E; [congruence| |done].
  apply Forall_cons in Hpos as [Hq Hpos]. pose proof (zsum_nonneg ds' Hpos).
  apply window_fits; [done|]. cbn in Hn. unfold zsum in *. lia.
Qed.

Lemma onData_receiver p s :
  0 < zlen p -> receiver_ok s ->
  receiver_ok (onData (Some p) s) /\ pending (onData (Some p) s) = pending s ++ p /\
  recv_unacked_ (onData (Some p) s) = recv_unacked_ s /\ sid_ (onData (Some p) s) = sid_ s /\
  our_initial_window_ (onData (Some p) s) = our_initial_window_ s.
Proof.
  intros Hp (Hwf & Ht & (c & Hi & Hc) & Hst). destruct p as [|b p]; [done|].
  destruct (stream_ok_data (Some (b :: p)) s) as (Ho & _).
  pose proof (onData_wf (Some (b :: p)) s Hwf) as Hwf'.
  unfold onData in *. rewrite Hi in *.
  assert (inbox_open (set_inbox (Some (ch_async_send (Some (b :: p)) c)) s)) as Ho'
    by (eexists; split; [done|by rewrite send_closed]).
  destruct (Ho Ho') as [_ E]. by split_and!.
Qed.

Lemma read_receiver lv cap s d s' eff :
  0 <= cap -> receiver_ok s -> read lv cap s = (Return d, (s', eff)) ->
  receiver_ok s' /\ pending s = d ++ pending s' /\ sid_ s' = sid_ s /\
  our_initial_window_ s' = our_initial_window_ s.
Proof.
  intros Hc (Hwf & Ht & (c & Hi & Hcl) & Hst) E.
  destruct (read_return _ _ _ _ _ _ Hc Hwf Ht E) as (c0 & c' & left & off & v & k & Hi0 & _ & Hcl' & Es & _ & _ & Hp).
  pose proof (read_wf _ _ _ _ _ _ Hc Hwf E) as Hwf'. subst s'.
  split; [|done]. split; [exact Hwf'|]. split; [done|]. split; [|done].
  exists c'. split; [done|]. congruence.
Qed.

(** The WINDOW frame [read] may send, and what it returns to the sender. *)
Lemma read_receiver_account lv cap s d s' eff :
  0 < cap -> lv_usable lv = true -> receiver_ok s -> unacked_ok s ->
  recv_unacked_ s + zlen (pending s) < 2 ^ 32 -> read lv cap s = (Return d, (s', eff)) ->
  exists ds, enqueued eff = window_frames (sid_ s) ds /\ Forall (fun d => 0 < d) ds /\ unacked_ok s' /\
    recv_unacked_ s' + zsum ds = recv_unacked_ s + zlen d.
Proof.
  intros Hc Hl Hr Hu Hb E. pose proof Hr as (Hwf & Ht & Ho & Hst).
  destruct (read_receiver _ _ _ _ _ _ (Z.lt_le_incl _ _ Hc) Hr E) as (_ & Hp & _ & How).
  destruct (read_progress lv cap s Hc Hwf Ht Ho (or_introl Hst)) as [(_ & E')|(d' & s'' & eff' & E' & Hd & _)];
    rewrite E in E'; [discriminate|]. injection E' as <- <- <-.
  pose proof (read_accounting lv cap s d s' eff (Z.lt_le_incl _ _ Hc) Hl Hwf E ltac:(lia)) as Hacc.
  rewrite Hp, zlen_app in Hb. pose proof (zlen_nonneg (pending s')). unfold unacked_ok in *.
  cbn zeta in Hacc. rewrite (u32_small (zlen d)), u32_small in Hacc by lia. rewrite How.
  destruct (Z.leb_spec (our_initial_window_ s / 2) (recv_unacked_ s + zlen d)) as [Hle|Hlt];
    destruct Hacc as [-> ->].
  - exists [recv_unacked_ s + zlen d]. split_and!; try done; try lia; [by repeat constructor; lia|].
    unfold zsum. cbn. lia.
  - exists []. split_and!; try done; try lia. unfold zsum. cbn. lia.
Qed.

Lemma flow_inv_drain W f ps ds f' :
  W < 2 ^ 32 -> flow_inv W f ps ds -> drain_step f f' -> exists ps' ds', flow_inv W f' ps' ds'.
Proof.
  intros HW Hinv Hst. pose proof (flow_inv_bounds _ _ _ _ Hinv) as Hb.
  destruct Hinv as (Hd & Hw & Hps & Hds & [Hs1 Hs2] & Hr & Hu & Hc & Hsum & Hhist).
  destruct Hst as [p ws E Hf _|lv cap d s' eff Hl Hcap E|d ws E Hf].
  - rewrite Hs2 in *. rewrite Hd in E.
    destruct (data_head _ ps _ _ Hs1 ltac:(lia) Hf E) as (ps' & -> & ->). exists ps', ds.
    apply Forall_cons in Hps as [Hp Hps]. cbn [concat] in *. rewrite zlen_app in *.
    destruct (onData_receiver p (rx f) Hp Hr) as (Hr' & Hpend & Hu' & Hs' & Ho').
    unfold flow_inv, unacked_ok. cbn [tx rx data_wire win_wire written got].
    rewrite Hpend, Hu', Hs', Ho', zlen_app, <- app_assoc. split_and!; auto; try lia; apply Hu.
  - destruct (read_receiver _ _ _ _ _ _ (Z.lt_le_incl _ _ Hcap) Hr E) as (Hr' & Hpend & Hs' & Ho').
    destruct (read_receiver_account lv cap (rx f) d s' eff Hcap Hl Hr Hu ltac:(lia) E) as (ds' & Hw' & Hpos & Hu' & Hsum').
    exists ps, (ds ++ ds'). unfold flow_inv. cbn [tx rx data_wire win_wire written got].
    rewrite Hw, Hw', Hs', Hs2, zsum_app, <- app_assoc. rewrite Hpend, zlen_app in Hsum.
    split_and!; auto; try lia.
    + unfold window_frames. by rewrite map_app.
    + by apply Forall_app.
    + by rewrite Hhist, Hpend, <- app_assoc.
  - rewrite Hw in E. destruct (window_head _ ds _ _ Hs1 ltac:(lia) Hds Hf E) as (ds' & -> & ->).
    exists ps, ds'. apply Forall_cons in Hds as [Hd0 Hds].
    unfold flow_inv. cbn [tx rx data_wire win_wire written got onWindow set_signal set_credit sid_ send_credit_].
    change (zsum (d :: ds')) with (d + zsum ds') in *. pose proof (zsum_nonneg ds' Hds).
    rewrite i64_small by lia. split_and!; auto; lia.
Qed.
End Conservation.

Section Liveness.
Context `{AbslOps, !AbslSpec} {C : Type -> Type} `{ChannelSpec C}.
Implicit Types f : flow C.

Lemma flow_inv_step W f ps ds f' :
  W < 2 ^ 32 -> flow_inv W f ps ds -> flow_step f f' -> exists ps' ds', flow_inv W f' ps' ds'.
Proof.
  intros HW Hinv [Hs|Hd]; [|by eapply flow_inv_drain].
  destruct (flow_inv_send _ _ _ _ _ HW Hinv Hs) as [ps' ?]. eauto.
Qed.

Lemma flow_inv_steps W f f' :
  W < 2 ^ 32 -> rtc flow_step f f' -> (exists ps ds, flow_inv W f ps ds) -> exists ps ds, flow_inv W f' ps ds.
Proof.
  intros HW. induction 1 as [|f f1 f' Hst _ IH]; [done|].
  intros (ps & ds & Hinv). eauto using flow_inv_step.
Qed.

(** Drain steps come to an end. *)
Definition drain_measure (W : Z) f : Z :=
  (2 * W + 1) * zlen (data_wire f) + 2 * zlen (pending (rx f)) + zlen (win_wire f).

Definition drains (W : Z) f : Prop :=
  exists f', drain_step f f' /\ 0 <= drain_measure W f' < drain_measure W f /\ written f' = written f.

Lemma measure_nonneg W f : 0 <= W -> 0 <= drain_measure W f.
Proof.
  intros. unfold drain_measure. pose proof (zlen_nonneg (data_wire f)).
  pose proof (zlen_nonneg (win_wire f)). pose proof (zlen_nonneg (pending (rx f))). nia.
Qed.

Lemma drains_data W f p ps ds : W < 2 ^ 32 -> flow_inv W f (p :: ps) ds -> pending (rx f) = [] -> drains W f.
Proof.
  intros HW Hinv Hemp. pose proof (flow_inv_bounds _ _ _ _ Hinv) as Hb.
  destruct Hinv as (Hd & _ & Hps & _ & [Hs1 Hs2] & Hr & _).
  apply Forall_cons in Hps as [Hp _]. cbn [data_frames map concat] in *. rewrite zlen_app in *.
  pose proof (zlen_nonneg (concat ps)). rewrite <- Hs2 in Hd.
  eexists; split; [apply fl_data with (p := p); [exact Hd|apply data_fits; lia|by apply pending_nil_room; try apply Hr]|].
  split; [|done]. split; [apply measure_nonneg; lia|]. unfold drain_measure.
  cbn [data_wire rx win_wire]. destruct (onData_receiver p (rx f) Hp Hr) as (_ & -> & _).
  rewrite Hd, zlen_cons, zlen_app. lia.
Qed.

Lemma drains_read W f ps ds :
  W < 2 ^ 32 -> flow_inv W f ps ds -> pending (rx f) <> [] -> drains W f.
Proof.
  intros HW Hinv Hp. pose proof (flow_inv_bounds _ _ _ _ Hinv) as Hb.
  destruct Hinv as (_ & _ & _ & _ & _ & (Hwf & Ht & Ho & Hst) & _).
  destruct (read_progress (mkLinkView true false 1) 1 (rx f) ltac:(lia) Hwf Ht Ho (or_introl Hst))
    as [[? _]|(d & s' & eff & E & Hd0 & Hpend)]; [done|].
  eexists; split; [by eapply fl_read with (cap := 1); [| |exact E]|].
  split; [|done]. split; [apply measure_nonneg; lia|]. unfold drain_measure.
  cbn [data_wire rx win_wire]. rewrite Hpend, !zlen_app.
  pose proof (read_accounting (mkLinkView true false 1) 1 (rx f) d s' eff ltac:(lia) eq_refl Hwf E ltac:(lia)) as Ha.
  cbn zeta in Ha. destruct (_ <=? _) in Ha; destruct Ha as [_ ->]; rewrite ?zlen_cons, ?zlen_nil; lia.
Qed.

Lemma drains_window W f ps d ds : W < 2 ^ 32 -> flow_inv W f ps (d :: ds) -> drains W f.
Proof.
  intros HW Hinv. pose proof (flow_inv_bounds _ _ _ _ Hinv) as Hb.
  destruct Hinv as (_ & Hw & _ & Hds & [Hs1 _] & _).
  cbn [window_frames map] in Hw. apply Forall_cons in Hds as [Hd0 Hds].
  change (zsum (d :: ds)) with (d + zsum ds) in *. pose proof (zsum_nonneg ds Hds).
  eexists; split; [apply fl_window with (d := d); [exact Hw|apply window_fits; lia]|].
  split; [|done]. split; [apply measure_nonneg; lia|]. unfold drain_measure.
  cbn [data_wire rx win_wire]. rewrite Hw, zlen_cons. lia.
Qed.

(** Draining ends with everything delivered and acknowledged up to the
    threshold. *)
Lemma drain_all W f ps ds :
  W < 2 ^ 32 -> flow_inv W f ps ds ->
  exists f', rtc drain_step f f' /\ written f' = written f /\ pending (rx f') = [] /\ flow_inv W f' [] [].
Proof.
  intros HW. remember (Z.to_nat (drain_measure W f)) as m eqn:Em. revert f ps ds Em.
  induction (lt_wf m) as [m _ IH]; intros f ps ds Em Hinv.
  assert (drains W f -> exists f', rtc drain_step f f' /\ written f' = written f /\
            pending (rx f') = [] /\ flow_inv W f' [] []) as Hgo.
  { intros (f1 & Hst & Hm & Hw). destruct (flow_inv_drain _ _ _ _ _ HW Hinv Hst) as (ps1 & ds1 & Hinv1).
    destruct (IH (Z.to_nat (drain_measure W f1)) ltac:(lia) f1 ps1 ds1 eq_refl Hinv1) as (f' & Hr & Hw' & Hrest).
    exists f'. split; [by eapply rtc_l|]. split; [congruence|done]. }
  destruct (decide (pending (rx f) = [])) as [Hp|Hp]; [|by eapply Hgo, drains_read].
  destruct ps as [|p ps]; [|by eapply Hgo, drains_data].
  destruct ds as [|d ds]; [|by eapply Hgo, drains_window].
  exists f. split; [apply rtc_refl|done].
Qed.

Lemma flow_step_window f f' :
  flow_step f f' -> our_initial_window_ (rx f') = our_initial_window_ (rx f).
Proof.
  intros [[]|[]]; cbn [rx]; try done.
  - unfold onData. repeat case_match; done.
  - eapply read_keeps; eauto.
Qed.

Lemma flow_steps_window f f' :
  rtc flow_step f f' -> our_initial_window_ (rx f') = our_initial_window_ (rx f).
Proof. induction 1 as [|x y z Hst _ IH]; [done|]. rewrite IH. by apply flow_step_window. Qed.

Lemma drain_steps f f' : rtc drain_step f f' -> rtc flow_step f f'.
Proof. induction 1; [done|]. eapply rtc_l; [by right|done]. Qed.

(** With a window below the receiver's threshold no WINDOW frame is ever sent. *)
Definition stalled_inv (W : Z) f : Prop :=
  win_wire f = [] /\ send_credit_ (tx f) + zlen (written f) = W /\ W < our_initial_window_ (rx f) / 2.

Lemma stalled_send W f ps ds f' :
  W < 2 ^ 32 -> flow_inv W f ps ds -> send_step f f' -> stalled_inv W f -> stalled_inv W f'.
Proof.
  intros HW Hinv Hst (Hw & Hc & Ho). pose proof (flow_inv_bounds _ _ _ _ Hinv) as Hb.
  destruct Hst as [lv rem s' wire sent rest Hl Hm E Hrem|lv rem s' E].
  - destruct (write_iter_sent_inv _ _ _ _ _ _ E) as [Hrem0 Hc0].
    rewrite write_iter_send in E by lia. injection E as <- <- <-. unfold stalled_inv.
    cbn [win_wire tx rx written send_credit_ add_bytes_out set_credit]. split_and!; [done| |done].
    apply (f_equal zlen) in Hrem. rewrite zlen_app, zlen_drop in Hrem by lia. rewrite zlen_app. lia.
  - unfold stalled_inv. cbn [win_wire tx rx written].
    assert (send_credit_ s' = send_credit_ (tx f)) as ->; [|done].
    unfold write_iter in E. repeat case_match; simplify_eq; done.
Qed.

Lemma stalled_drain W f ps ds f' :
  W < 2 ^ 32 -> flow_inv W f ps ds -> drain_step f f' -> stalled_inv W f -> stalled_inv W f'.
Proof.
  intros HW Hinv Hst (Hw & Hc & Ho). pose proof (flow_inv_bounds _ _ _ _ Hinv) as Hb.
  destruct Hinv as (_ & _ & Hps & Hds & _ & Hr & Hu & _ & Hsum & _).
  pose proof (zsum_nonneg ds Hds). pose proof (zlen_nonneg (concat ps)).
  destruct Hst as [p ws E Hf|lv cap d s' eff Hl Hcap E|d ws E Hf]; unfold stalled_inv;
    cbn [win_wire tx rx written].
  - split_and!; [done..|]. unfold onData. repeat case_match; done.
  - destruct (read_receiver _ _ _ _ _ _ (Z.lt_le_incl _ _ Hcap) Hr E) as (_ & Hpend & _ & ->).
    split_and!; [|done..]. destruct Hr as (Hwf & Ht & Hop & Hst).
    destruct (read_progress lv cap (rx f) Hcap Hwf Ht Hop (or_introl Hst))
      as [(_ & E')|(d' & s'' & eff' & E' & Hd & _)]; rewrite E in E'; [discriminate|]. injection E' as <- <- <-.
    pose proof (read_accounting lv cap (rx f) d s' eff (Z.lt_le_incl _ _ Hcap) Hl Hwf E ltac:(lia)) as Ha.
    rewrite Hpend, zlen_app in Hb, Hsum. pose proof (zlen_nonneg (pending s')). unfold unacked_ok in Hu.
    cbn zeta in Ha. rewrite (u32_small (zlen d)), u32_small, (proj2 (Z.leb_gt _ _)) in Ha by lia.
    destruct Ha as [_ ->]. by rewrite Hw.
  - congruence.
Qed.
End Liveness.

(** ** Properties *)

Section FlowProperties.
Context `{AbslOps, !AbslSpec} {C : Type -> Type} `{ChannelSpec C}.
Implicit Types f : flow C.

(** C7. End-to-end flow control is safe: in every reachable state of a session
    direction opened with window [W], the bytes written are, in order, those
    already read, those pending at the receiver and those in flight; the
    receiver never buffers more than [W] bytes, and credit, unacknowledged
    count and WINDOW increments never leave the range [0, W] (so no 32- or
    64-bit counter wraps). *)
Theorem flow_control_safe sid a b W otx prx ow f :
  0 <= sid < 2 ^ 64 -> 0 <= W < 2 ^ 32 -> 0 <= ow < 2 ^ 32 ->
  rtc flow_step (flow_init (C := C) sid a b W otx prx ow) f ->
  exists ps ds,
    data_wire f = data_frames (sid_ (tx f)) ps /\ win_wire f = window_frames (sid_ (tx f)) ds /\
    written f = got f ++ pending (rx f) ++ concat ps /\
    send_credit_ (tx f) + zlen (concat ps) + zlen (pending (rx f)) + recv_unacked_ (rx f) + zsum ds = W /\
    0 <= send_credit_ (tx f) <= W /\ zlen (concat ps) <= W /\ zlen (pending (rx f)) <= W /\
    0 <= recv_unacked_ (rx f) <= W /\ Forall (fun d => 0 < d <= W) ds.
Proof.
  intros Hs HW Ho Hr.
  destruct (flow_inv_steps W _ f (proj2 HW) Hr) as (ps & ds & Hinv); [eauto using flow_inv_init|].
  pose proof (flow_inv_bounds _ _ _ _ Hinv) as Hb.
  destruct Hinv as (Hd & Hw & _ & Hds & _ & _ & _ & _ & Hsum & Hhist).
  exists ps, ds. split_and!; try done; try lia.
  assert (zsum ds <= W) as Hz by lia. clear -Hds Hz. revert Hz. induction Hds as [|d ds Hd Hds IH]; [done|].
  change (zsum (d :: ds)) with (d + zsum ds). intros Hz. pose proof (zsum_nonneg ds Hds).
  constructor; [lia|]. apply IH. lia.
Qed.

(** C8. End-to-end flow control is live: when the initial window is positive
    and at least the receiver's acknowledgement threshold, then from every
    reachable state the receiver and the links alone can deliver everything
    written so far and hand credit back to the sender; no interleaving leaves
    the two ends waiting for each other. *)
Theorem flow_control_live sid a b W otx prx ow f :
  0 <= sid < 2 ^ 64 -> 1 <= W < 2 ^ 32 -> 0 <= ow < 2 ^ 32 -> ow / 2 <= W ->
  rtc flow_step (flow_init (C := C) sid a b W otx prx ow) f ->
  exists f', rtc drain_step f f' /\ got f' = written f /\ 0 < send_credit_ (tx f').
Proof.
  intros Hs HW Ho Hthr Hr. assert (W < 2 ^ 32) as HW' by lia.
  destruct (flow_inv_steps W _ f HW' Hr) as (ps & ds & Hinv).
  { exists [], []. apply flow_inv_init; lia. }
  destruct (drain_all W f ps ds HW' Hinv) as (f' & Hd & Hw & Hp & Hinv'). exists f'. split; [done|].
  pose proof (flow_steps_window _ _ Hr) as How. pose proof (flow_steps_window _ _ (drain_steps _ _ Hd)) as How'.
  rewrite How in How'. cbn in How'. destruct Hinv' as (_ & _ & _ & _ & _ & _ & Hu & _ & Hsum & Hhist).
  unfold unacked_ok in Hu. rewrite How' in Hu. rewrite Hp in *.
  split; [rewrite <- Hw, Hhist; cbn; by rewrite app_nil_r|].
  cbn [concat zsum foldr] in Hsum. rewrite !zlen_nil in Hsum. unfold zsum in Hsum. cbn in Hsum. lia.
Qed.

(** What a window below the peer's threshold does: the receiver compares
    against half of its own initial window, not the one the sender was given,
    so when the sender's window is smaller than that no WINDOW frame is ever
    sent and the session carries at most [W] bytes in its whole life. *)
Theorem small_window_stalls sid a b W otx prx ow f :
  0 <= sid < 2 ^ 64 -> 0 <= W < 2 ^ 32 -> 0 <= ow < 2 ^ 32 -> W < ow / 2 ->
  rtc flow_step (flow_init (C := C) sid a b W otx prx ow) f ->
  win_wire f = [] /\ zlen (written f) <= W /\ send_credit_ (tx f) = W - zlen (written f).
Proof.
  intros Hs HW Ho Hthr Hr. assert (W < 2 ^ 32) as HW' by lia.
  assert (stalled_inv W f /\ exists ps ds, flow_inv W f ps ds) as [(Hw & Hc & _) (ps & ds & Hinv)].
  { revert Hr. apply (rtc_ind_r (fun f => stalled_inv W f /\ exists ps ds, flow_inv W f ps ds)).
    - split; [|eauto using flow_inv_init]. split; [done|]. split; [|done].
      cbn [flow_init tx rx written Session_new send_credit_]. rewrite i64_small, zlen_nil; lia.
    - intros f1 f2 _ Hst (Hst1 & ps & ds & Hinv). split; [|by eapply flow_inv_step].
      destruct Hst; [by eapply stalled_send|by eapply stalled_drain]. }
  pose proof (flow_inv_bounds _ _ _ _ Hinv). split_and!; [done|lia|lia].
Qed.
End FlowProperties.

(** ** Witnesses *)

Definition demo_addr : Address := fromDomain (lit "host") 80.
Definition demo_flow (W ow : Z) : flow fifo := flow_init 7 demo_addr demo_addr W W W ow.

(** One [write] of "abcd" over a link that is up. *)
Definition demo_send (f : flow fifo) : flow fifo :=
  match write_iter (mkLinkView true false 64) (tx f) (lit "abcd") with
  | WriteSent s' wire rest => mkFlow s' (rx f) (data_wire f ++ [wire]) (win_wire f) (written f ++ lit "abcd") (got f)
  | _ => f
  end.

Lemma flow_control_safe_witness :
  exists ps ds, let f := demo_send (demo_flow 10 8) in
    data_wire f = data_frames (sid_ (tx f)) ps /\ win_wire f = window_frames (sid_ (tx f)) ds /\
    written f = got f ++ pending (rx f) ++ concat ps /\
    send_credit_ (tx f) + zlen (concat ps) + zlen (pending (rx f)) + recv_unacked_ (rx f) + zsum ds = 10 /\
    0 <= send_credit_ (tx f) <= 10 /\ zlen (concat ps) <= 10 /\ zlen (pending (rx f)) <= 10 /\
    0 <= recv_unacked_ (rx f) <= 10 /\ Forall (fun d => 0 < d <= 10) ds.
Proof.
  apply (flow_control_safe 7 demo_addr demo_addr 10 10 10 8 (demo_send (demo_flow 10 8))); [lia..|].
  apply rtc_once. left.
  by apply (fl_send (demo_flow 10 8) (mkLinkView true false 64) (lit "abcd") _ _ (lit "abcd") []).
Defined.

Lemma flow_control_live_witness :
  exists f', rtc drain_step (demo_send (demo_flow 4 8)) f' /\ got f' = lit "abcd" /\ 0 < send_credit_ (tx f').
Proof.
  apply (flow_control_live 7 demo_addr demo_addr 4 4 4 8 (demo_send (demo_flow 4 8))); [lia..|by vm_compute|].
  apply rtc_once. left.
  by apply (fl_send (demo_flow 4 8) (mkLinkView true false 64) (lit "abcd") _ _ (lit "abcd") []).
Defined.

Lemma small_window_stalls_witness :
  win_wire (demo_send (demo_flow 4 16)) = [] /\ zlen (lit "abcd") <= 4 /\
  send_credit_ (tx (demo_send (demo_flow 4 16))) = 4 - zlen (lit "abcd").
Proof.
  apply (small_window_stalls 7 demo_addr demo_addr 4 4 4 16 (demo_send (demo_flow 4 16))); [lia..|by vm_compute|].
  apply rtc_once. left.
  by apply (fl_send (demo_flow 4 16) (mkLinkView true false 64) (lit "abcd") _ _ (lit "abcd") []).
Defined.
