(* ===== verification/Link.v ===== *)
(** * The multiplexed link (src/transport/link.cpp)

    A link owns the socket, the receive buffer, the writer queue and the table
    of sessions.  Sessions are shared objects: the table, the handlers and the
    callers of [openSession] hold pointers to them, so they live in a heap
    ([heap_], a pointer is an index) and [sessions_] maps session ids to
    pointers.  Each coroutine of the link is a function on the link record;
    [nowNs()], the random numbers and the socket are arguments. *)
From stdpp Require Import gmap.
From S2P Require Import Prelude Absl Buffer Resp2 ShineFrame Address Request Channel Socket Session.
From Stdlib Require Import Strings.Byte.

Record LinkOptions := mkLinkOptions {
  password : bytes;
  init_window : Z;          (* u32 *)
  ping_interval : Z;        (* seconds *)
  pong_timeout : Z;
  max_payload : Z;
  max_data_frame : Z;
  is_server : bool;
}.

Record Link (C : Type -> Type) := mkLink {
  opts_ : LinkOptions;
  read_buf_ : ReadBuffer;
  write_chan_ : C bytes;
  sessions_ : gmap Z nat;
  heap_ : list (Session C);
  closed_ : bool;
  sock_open_ : bool;
  handshake_done_ : bool;
  handshake_signal_ : C unit;
  on_new_session_ : bool;               (* a handler is installed *)
  spawned_ : list (nat * Address);      (* handler coroutines started *)
  last_pong_ns_ : Z;                    (* atomic<u64> *)
  pending_ping_nonce_ : Z;
  last_ping_sent_ns_ : Z;
}.
Arguments mkLink {C}.
Arguments opts_ {C}.
Arguments read_buf_ {C}.
Arguments write_chan_ {C}.
Arguments sessions_ {C}.
Arguments heap_ {C}.
Arguments closed_ {C}.
Arguments sock_open_ {C}.
Arguments handshake_done_ {C}.
Arguments handshake_signal_ {C}.
Arguments on_new_session_ {C}.
Arguments spawned_ {C}.
Arguments last_pong_ns_ {C}.
Arguments pending_ping_nonce_ {C}.
Arguments last_ping_sent_ns_ {C}.

Section LinkSetters.
Context {C : Type -> Type}.
Implicit Types L : Link C.

Definition set_read_buf v L := mkLink (opts_ L) v (write_chan_ L) (sessions_ L) (heap_ L) (closed_ L)
  (sock_open_ L) (handshake_done_ L) (handshake_signal_ L) (on_new_session_ L) (spawned_ L)
  (last_pong_ns_ L) (pending_ping_nonce_ L) (last_ping_sent_ns_ L).
Definition set_write_chan v L := mkLink (opts_ L) (read_buf_ L) v (sessions_ L) (heap_ L) (closed_ L)
  (sock_open_ L) (handshake_done_ L) (handshake_signal_ L) (on_new_session_ L) (spawned_ L)
  (last_pong_ns_ L) (pending_ping_nonce_ L) (last_ping_sent_ns_ L).
Definition set_sessions v L := mkLink (opts_ L) (read_buf_ L) (write_chan_ L) v (heap_ L) (closed_ L)
  (sock_open_ L) (handshake_done_ L) (handshake_signal_ L) (on_new_session_ L) (spawned_ L)
  (last_pong_ns_ L) (pending_ping_nonce_ L) (last_ping_sent_ns_ L).
Definition set_heap v L := mkLink (opts_ L) (read_buf_ L) (write_chan_ L) (sessions_ L) v (closed_ L)
  (sock_open_ L) (handshake_done_ L) (handshake_signal_ L) (on_new_session_ L) (spawned_ L)
  (last_pong_ns_ L) (pending_ping_nonce_ L) (last_ping_sent_ns_ L).
Definition set_closed (c o : bool) L := mkLink (opts_ L) (read_buf_ L) (write_chan_ L) (sessions_ L)
  (heap_ L) c o (handshake_done_ L) (handshake_signal_ L) (on_new_session_ L) (spawned_ L)
  (last_pong_ns_ L) (pending_ping_nonce_ L) (last_ping_sent_ns_ L).
Definition set_handshake (done : bool) sig L := mkLink (opts_ L) (read_buf_ L) (write_chan_ L)
  (sessions_ L) (heap_ L) (closed_ L) (sock_open_ L) done sig (on_new_session_ L) (spawned_ L)
  (last_pong_ns_ L) (pending_ping_nonce_ L) (last_ping_sent_ns_ L).
Definition set_handler v L := mkLink (opts_ L) (read_buf_ L) (write_chan_ L) (sessions_ L) (heap_ L)
  (closed_ L) (sock_open_ L) (handshake_done_ L) (handshake_signal_ L) v (spawned_ L)
  (last_pong_ns_ L) (pending_ping_nonce_ L) (last_ping_sent_ns_ L).
Definition add_spawned v L := mkLink (opts_ L) (read_buf_ L) (write_chan_ L) (sessions_ L) (heap_ L)
  (closed_ L) (sock_open_ L) (handshake_done_ L) (handshake_signal_ L) (on_new_session_ L)
  (spawned_ L ++ [v]) (last_pong_ns_ L) (pending_ping_nonce_ L) (last_ping_sent_ns_ L).
Definition set_ping last_pong pending last_sent L := mkLink (opts_ L) (read_buf_ L) (write_chan_ L)
  (sessions_ L) (heap_ L) (closed_ L) (sock_open_ L) (handshake_done_ L) (handshake_signal_ L)
  (on_new_session_ L) (spawned_ L) last_pong pending last_sent.
End LinkSetters.

Section LinkOps.
Context `{AbslOps} {C : Type -> Type} `{ChannelOps C}.
Implicit Types L : Link C.

(** The constructor, and the state part of [start]. *)
Definition Link_new (opts : LinkOptions) : Link C :=
  mkLink opts (ReadBuffer_new kInitialCapacity) (ch_make 1024) ∅ [] false true false (ch_make 1)
    false [] 0 0 0.

Definition start (on_new_session : bool) (now : Z) L : Link C :=
  set_ping now (pending_ping_nonce_ L) (last_ping_sent_ns_ L) (set_handler on_new_session L).

Definition findSession (sid : Z) L : option nat := sessions_ L !! sid.
Definition eraseSession (sid : Z) L : Link C := set_sessions (delete sid (sessions_ L)) L.

(** [sessions_.emplace(sid, s)]: an entry that is there stays. *)
Definition emplace (sid : Z) (p : nat) (m : gmap Z nat) : gmap Z nat :=
  match m !! sid with Some _ => m | None => <[sid := p]> m end.

Definition enqueueFrame (frame_bytes : bytes) L : Link C :=
  if closed_ L then L else set_write_chan (ch_async_send frame_bytes (write_chan_ L)) L.

(** [std::make_shared<Session>]: the pointer is the next index of the heap. *)
Definition new_session (s : Session C) L : nat * Link C :=
  (length (heap_ L), set_heap (heap_ L ++ [s]) L).

(** A method call through a session pointer. *)
Definition on_session (p : nat) (f : Session C -> Session C) L : Link C :=
  set_heap (alter f p (heap_ L)) L.

(** [for (auto& s : all) s->onReset()] *)
Definition reset_all (ps : list nat) L : Link C := fold_left (fun l p => on_session p onReset l) ps L.

Definition failLink L : Link C :=
  if closed_ L then L
  else
    let L1 := set_closed true false L in
    let L2 := set_write_chan (ch_close (write_chan_ L1)) L1 in
    let L3 := set_handshake (handshake_done_ L2) (ch_close (handshake_signal_ L2)) L2 in
    let all := snd <$> map_to_list (sessions_ L3) in
    let L4 := set_sessions ∅ L3 in
    reset_all all L4.

Definition markClosed L : Link C :=
  let L1 := set_closed true false L in set_write_chan (ch_close (write_chan_ L1)) L1.

(** [closeNow] sets the flag and posts the rest to the strand; it returns
    whether it posted. *)
Definition closeNow L : bool * Link C :=
  if closed_ L then (false, L) else (true, set_closed true (sock_open_ L) L).
Definition closeNow_posted L : Link C :=
  let L1 := set_closed (closed_ L) false L in
  let L2 := set_write_chan (ch_close (write_chan_ L1)) L1 in
  set_handshake (handshake_done_ L2) (ch_close (handshake_signal_ L2)) L2.

Definition waitHandshake L : outcome bool * Link C :=
  if handshake_done_ L then (Return true, L)
  else if closed_ L then (Return false, L)
  else match ch_async_receive (handshake_signal_ L) with
       | (RecvPending, _) => (Pending, L)
       | (_, sig) => (Return (handshake_done_ L), set_handshake (handshake_done_ L) sig L)
       end.

(** [do { sid = rng_(); } while (sid == 0)] on the numbers the generator will
    give; [None] when all of them are zero. *)
Fixpoint draw_nonzero (draws : list Z) : option (Z * list Z) :=
  match draws with
  | [] => None
  | v :: rest => if v =? 0 then draw_nonzero rest else Some (v, rest)
  end.

Definition openSession (draws : list Z) (target : Address) (is_udp : bool) L
  : option (res nat * Link C) :=
  if closed_ L then Some (Err (UnavailableError (lit "link closed")), L)
  else
    match draw_nonzero draws with
    | None => None
    | Some (sid, _) =>
        let s := Session_new sid target (init_window (opts_ L)) (init_window (opts_ L))
                   (if is_udp then UDP else TCP) in
        let '(p, L1) := new_session s L in
        let L2 := set_sessions (emplace sid p (sessions_ L1)) L1 in
        let wire := if is_udp then encodeNewUdp [] sid
                    else encodeNew [] sid (toBinary target) (init_window (opts_ L2)) in
        Some (Ok p, enqueueFrame wire L2)
    end.

(** The NEW/NEW_UDP branch of [dispatchFrame]. *)
Definition acceptSession (sid win : Z) (target : Address) (proto : Protocol) L : Link C :=
  let '(p, L1) := new_session (Session_new sid target win (init_window (opts_ L)) proto) L in
  let L2 := set_sessions (emplace sid p (sessions_ L1)) L1 in
  let L3 := enqueueFrame (encodeAck [] sid) L2 in
  add_spawned (p, target) L3.

Definition dispatchFrame (now : Z) (frame : ShineFrame bytes) L : Link C :=
  match frame with
  | DataFrame sid payload =>
      match findSession sid L with
      | None => L
      | Some p => on_session p (onData (Some payload)) L
      end
  | UdpDataFrame sid addr_blob payload =>
      match findSession sid L with
      | None => L
      | Some p =>
          match parseBinary addr_blob with
          | Ok addr => on_session p (onUdpData (Some payload) addr) L
          | _ => L
          end
      end
  | NewFrame sid addr_blob init_window =>
      if negb (on_new_session_ L) then L
      else match parseBinary addr_blob with
           | Ok addr => acceptSession sid init_window addr TCP L
           | _ => enqueueFrame (encodeReset [] sid) L
           end
  | NewUdpFrame sid =>
      if negb (on_new_session_ L) then L else acceptSession sid 0 Address_default UDP L
  | AckFrame _ => L
  | CloseFrame sid _ =>
      match findSession sid L with
      | None => L
      | Some p =>
          let L1 := on_session p onPeerClose L in
          match heap_ L1 !! p with
          | Some s => if bool_decide (state_ s = Closed) then eraseSession sid L1 else L1
          | None => L1
          end
      end
  | ResetFrame sid =>
      match findSession sid L with
      | None => L
      | Some p => eraseSession sid (on_session p onReset L)
      end
  | WindowFrame sid delta =>
      match findSession sid L with
      | None => L
      | Some p => on_session p (onWindow delta) L
      end
  | PingFrame nonce => enqueueFrame (encodePong [] nonce) L
  | PongFrame nonce =>
      if pending_ping_nonce_ L =? nonce then set_ping now 0 (last_ping_sent_ns_ L) L else L
  | HelloFrame _ _ | AuthFrame _ | OkFrame | ErrFrame _ _ => L
  end.

Definition ns_per_s : Z := 1000000000.

(** The body of [heartbeatLoop] after a one-second tick; the result says
    whether the loop goes on. *)
Definition heartbeat_tick (now nonce : Z) L : bool * Link C :=
  if negb (handshake_done_ L) then (true, L)
  else
    let last_pong := last_pong_ns_ L in
    let last_sent := last_ping_sent_ns_ L in
    let ping_ns := mul64 (u64 (ping_interval (opts_ L))) ns_per_s in
    let pong_to_ns := mul64 (u64 (pong_timeout (opts_ L))) ns_per_s in
    let pending := pending_ping_nonce_ L in
    if negb (pending =? 0) && (pong_to_ns <? sub64 now last_sent) then (false, failLink L)
    else if (pending =? 0) && (ping_ns <? sub64 now last_pong) then
      let nonce := if nonce =? 0 then 1 else nonce in
      (true, enqueueFrame (encodePing [] nonce) (set_ping last_pong nonce now L))
    else (true, L).

(** One iteration of [writerLoop]: [Some] of the bytes written to the socket,
    or [None] when the loop returns.  [write_ok] is whether [async_write]
    succeeds.  A frame [async_write] still holds has left the channel and counts as
    written; a socket that takes nothing holds at most this one. *)
Definition writer_iter (write_ok : bool) L : outcome (option bytes) * Link C :=
  if closed_ L then (Return None, L)
  else
    match ch_async_receive (write_chan_ L) with
    | (RecvPending, _) => (Pending, L)
    | (RecvError, c) => (Return None, set_write_chan c L)
    | (RecvMsg msg, c) =>
        let L1 := set_write_chan c L in
        if bool_decide (msg = []) then (Return (Some []), L1)
        else if write_ok then (Return (Some msg), L1)
        else (Return None, failLink L1)
    end.

(** [gracefulShutdown] up to its timer, and after it. *)
Definition gracefulShutdown_announce L : Link C :=
  fold_left (fun l p =>
    match heap_ l !! p with
    | Some s => enqueueFrame (encodeClose [] (sid_ s) (lit "shutdown")) l
    | None => l
    end) (snd <$> map_to_list (sessions_ L)) L.
Definition gracefulShutdown_finish L : Link C := failLink L.

(** ** Reading frames *)

(** What one iteration of [readerLoop] comes to: more bytes are in the buffer, a
    frame went through [dispatchFrame], or the loop is over. *)
Inductive ReaderTurn := ReadMore | Dispatched (f : ShineFrame bytes) | LoopOver.

(** One iteration of [readerLoop].  The frame is dispatched while its bytes are
    still in the buffer, then consumed. *)
Definition reader_iter (now : Z) L (sk : Sock) : res (ReaderTurn * Link C * Sock) :=
  if closed_ L then Ok (LoopOver, L, sk)
  else
    match tryParse (max_payload (opts_ L)) (read_buf_ L) Resp2Monostate with
    | UB => UB
    | Err _ => Ok (LoopOver, failLink L, sk)
    | Ok (sc, rf) =>
        if sc =? 0 then
          let rb := ensure_writable (16 * 1024) (read_buf_ L) in
          let '(d, sk') := sock_read_some (writable_size rb) sk in
          if zlen d =? 0 then Ok (LoopOver, failLink (set_read_buf rb L), sk')
          else rb' ← rb_fill d rb; Ok (ReadMore, set_read_buf rb' L, sk')
        else
          match decodeShineFrame (buf_ (read_buf_ L)) rf with
          | UB => UB
          | Err _ => Ok (LoopOver, failLink (set_read_buf (consume sc (read_buf_ L)) L), sk)
          | Ok frame =>
              let f := resolve (buf_ (read_buf_ L)) frame in
              let L1 := dispatchFrame now f L in
              Ok (Dispatched f, set_read_buf (consume sc (read_buf_ L1)) L1, sk)
          end
    end.

(** The session whose inbox [dispatchFrame] awaits. *)
Definition waits_on (f : ShineFrame bytes) L : option nat :=
  match f with DataFrame sid _ => findSession sid L | _ => None end.

(** [dispatchFrame] of [f], which made [L'] of [L], is suspended in it: in the
    [async_send] of its answer, which does not fit the write channel, or of the
    payload, which does not fit the inbox of its session. *)
Definition dispatch_suspended (f : ShineFrame bytes) L L' : bool :=
  negb (closed_ L') &&
  ((zlen (ch_queue (write_chan_ L)) <? zlen (ch_queue (write_chan_ L'))) &&
   (ch_bound (write_chan_ L') <? zlen (ch_queue (write_chan_ L'))) ||
   match waits_on f L with
   | Some p => match heap_ L' !! p with Some s => inbox_full s | None => false end
   | None => false
   end).

(** [readerLoop] until it returns, with the link closed, or is suspended in a
    dispatch, with the link open; nothing else runs meanwhile (for that see
    LinkRun.v).  [None] when the fuel is spent. *)
Fixpoint readerLoop (fuel : nat) (now : Z) L (sk : Sock) : option (res (Link C * Sock)) :=
  match fuel with
  | O => None
  | S fuel =>
      match reader_iter now L sk with
      | UB => Some UB
      | Err e => Some (Err e)
      | Ok (ReadMore, L', sk') => readerLoop fuel now L' sk'
      | Ok (Dispatched f, L', sk') =>
          if dispatch_suspended f L L' then Some (Ok (L', sk')) else readerLoop fuel now L' sk'
      | Ok (LoopOver, L', sk') => Some (Ok (L', sk'))
      end
  end.

(** The local coroutine [one] of both handshakes: the frame is decoded after
    its bytes were consumed. *)
Fixpoint one (fuel : nat) L (sk : Sock) : option (res (ShineFrame BulkStringView) * Link C * Sock) :=
  match fuel with
  | O => None
  | S fuel =>
      match tryParse (max_payload (opts_ L)) (read_buf_ L) Resp2Monostate with
      | UB => Some (UB, L, sk)
      | Err e => Some (Err e, L, sk)
      | Ok (sc, rf) =>
          if 0 <? sc then
            let rb := consume sc (read_buf_ L) in
            Some (decodeShineFrame (buf_ rb) rf, set_read_buf rb L, sk)
          else
            let rb := ensure_writable 8192 (read_buf_ L) in
            let '(d, sk') := sock_read_some (writable_size rb) sk in
            if zlen d =? 0 then Some (Err (UnavailableError (lit "eof")), set_read_buf rb L, sk')
            else match rb_fill d rb with
                 | Ok rb' => one fuel (set_read_buf rb' L) sk'
                 | _ => Some (UB, set_read_buf rb L, sk')
                 end
      end
  end.

Definition handshake_features : bytes := lit "mux,flow".
Definition hello : bytes := encodeHello [] (lit "1") handshake_features.

(** [handshakeServer], without its timer (see [handshake_timeout]). *)
Definition handshakeServer (fuel : nat) L (sk : Sock) : option (res (Link C * Sock)) :=
  '(f1, L1, sk1) ← one fuel L sk;
  match f1 with
  | UB => Some UB
  | Err _ => Some (Ok (failLink L1, sk1))
  | Ok (HelloFrame _ _) =>
      let L2 := enqueueFrame hello L1 in
      if bool_decide (password (opts_ L2) = []) then Some (Ok (L2, sk1))
      else
        '(f2, L3, sk2) ← one fuel L2 sk1;
        match f2 with
        | UB => Some UB
        | Err _ => Some (Ok (failLink L3, sk2))
        | Ok (AuthFrame pw) =>
            if negb (bool_decide (pw = password (opts_ L3)))
            then Some (Ok (failLink (enqueueFrame (encodeErr [] (lit "AUTH") (lit "bad password")) L3), sk2))
            else Some (Ok (enqueueFrame (encodeOk []) L3, sk2))
        | Ok _ => Some (Ok (failLink L3, sk2))
        end
  | Ok _ => Some (Ok (failLink L1, sk1))
  end.

Definition handshakeClient (fuel : nat) L (sk : Sock) : option (res (Link C * Sock)) :=
  '(f1, L1, sk1) ← one fuel (enqueueFrame hello L) sk;
  match f1 with
  | UB => Some UB
  | Err _ => Some (Ok (failLink L1, sk1))
  | Ok (HelloFrame _ _) =>
      if bool_decide (password (opts_ L1) = []) then Some (Ok (L1, sk1))
      else
        '(f2, L2, sk2) ← one fuel (enqueueFrame (encodeAuth [] (password (opts_ L1))) L1) sk1;
        match f2 with
        | UB => Some UB
        | Err _ => Some (Ok (failLink L2, sk2))
        | Ok OkFrame => Some (Ok (L2, sk2))
        | Ok _ => Some (Ok (failLink L2, sk2))
        end
  | Ok _ => Some (Ok (failLink L1, sk1))
  end.

(** The handshake timer, when it fires before it is cancelled. *)
Definition handshake_timeout L : Link C := failLink L.

(** The first coroutine of [start]: handshake, then the reader. *)
Definition run_link (fuel : nat) (now : Z) L (sk : Sock) : option (res (Link C * Sock)) :=
  r ← (if is_server (opts_ L) then handshakeServer fuel L sk else handshakeClient fuel L sk);
  match r with
  | Ok (L1, sk1) =>
      if closed_ L1 then Some (Ok (L1, sk1))
      else
        let sig := ch_close (ch_try_send tt (handshake_signal_ L1)) in
        readerLoop fuel now (set_handshake true sig L1) sk1
  | Err e => Some (Err e)
  | UB => Some UB
  end.
End LinkOps.

(** ** Steps of a link

    Everything that happens to a link once it runs: a frame is dispatched, a
    session method is called through a pointer some coroutine holds, a session
    is opened, the timers fire, the writer takes a message, the link fails or
    is closed. *)
Section LinkSteps.
Context `{AbslOps} {C : Type -> Type} `{ChannelOps C}.
Implicit Types L : Link C.

Definition link_view L : LinkView := mkLinkView true (closed_ L) (max_data_frame (opts_ L)).

Inductive session_call (lv : LinkView) (s : Session C) : Session C -> LinkEffects -> Prop :=
  | call_read cap d s' eff : 0 <= cap -> read lv cap s = (Return d, (s', eff)) -> session_call lv s s' eff
  | call_write_again rem s' : write_iter lv s rem = WriteAgain s' -> session_call lv s s' no_effects
  | call_write_sent rem s' wire rest : 0 <= lv_max_data_frame lv ->
      write_iter lv s rem = WriteSent s' wire rest -> session_call lv s s' (mkEffects [wire] false)
  | call_shutdown s' eff : shutdownWrite lv s = (s', eff) -> session_call lv s s' eff
  | call_close s' eff : close lv s = (s', eff) -> session_call lv s s' eff
  | call_send_to data target r s' eff : sendTo lv s data target = (r, (s', eff)) -> session_call lv s s' eff
  | call_receive_from r s' : receiveFrom s = (Return r, s') -> session_call lv s s' no_effects.

Definition apply_effects (sid : Z) (eff : LinkEffects) L : Link C :=
  let L1 := fold_left (fun l w => enqueueFrame w l) (enqueued eff) L in
  if erased eff then eraseSession sid L1 else L1.
Definition call_session (p : nat) (s' : Session C) (eff : LinkEffects) L : Link C :=
  apply_effects (sid_ s') eff (set_heap (<[p := s']> (heap_ L)) L).

(** Everything but the reader. *)
Inductive own_step L : Link C -> Prop :=
  | ls_call p s s' eff : heap_ L !! p = Some s -> session_call (link_view L) s s' eff ->
      own_step L (call_session p s' eff L)
  | ls_open draws target udp p L' : openSession draws target udp L = Some (Ok p, L') -> own_step L L'
  | ls_tick now nonce : own_step L (snd (heartbeat_tick now nonce L))
  | ls_start h now : own_step L (start h now L)
  | ls_writer write_ok : own_step L (snd (writer_iter write_ok L))
  | ls_reader rb : own_step L (set_read_buf rb L)
  | ls_wait : own_step L (snd (waitHandshake L))
  | ls_handshake sig : own_step L (set_handshake true sig L)
  | ls_announce : own_step L (gracefulShutdown_announce L)
  | ls_fail : own_step L (failLink L)
  | ls_close_now : own_step L (snd (closeNow L))
  | ls_close_posted : own_step L (closeNow_posted L)
  | ls_mark_closed : own_step L (markClosed L).

Inductive link_step L : Link C -> Prop :=
  | ls_dispatch now f : frame_wf f -> link_step L (dispatchFrame now f L)
  | ls_own L' : own_step L L' -> link_step L L'.

(** The table invariant: every entry leads to a live session object that
    carries the entry's id, and no closed session is registered. *)
Definition table_ok (m : gmap Z nat) (h : list (Session C)) : Prop :=
  forall sid p, m !! sid = Some p -> exists s, h !! p = Some s /\ sid_ s = sid /\ state_ s <> Closed.
Definition heap_ok (h : list (Session C)) : Prop := Forall session_wf h.

Definition link_wf L : Prop :=
  table_ok (sessions_ L) (heap_ L) /\ heap_ok (heap_ L) /\ 0 <= init_window (opts_ L) < 2 ^ 32.
End LinkSteps.

Section LinkInvariant.
Context `{AbslOps} {C : Type -> Type} `{ChannelSpec C}.
Implicit Types (L : Link C) (h : list (Session C)) (m : gmap Z nat) (s : Session C).

(** A change of one session object, with the table it leaves. *)
Definition keeps_session (f : Session C -> Session C) : Prop :=
  forall s, session_wf s -> session_wf (f s) /\ sid_ (f s) = sid_ s.

Lemma table_ok_alter m h p f :
  table_ok m h -> heap_ok h ->
  (forall s, h !! p = Some s -> session_wf (f s) /\ sid_ (f s) = sid_ s) ->
  (forall sid s, m !! sid = Some p -> h !! p = Some s -> state_ (f s) <> Closed) ->
  table_ok m (alter f p h) /\ heap_ok (alter f p h).
Proof.
  intros Ht Hh Hf Hc. split.
  - intros sid q Hq. destruct (Ht sid q Hq) as (s & Hs & Hid & Hst).
    destruct (decide (q = p)) as [->|Hne].
    + exists (f s). rewrite list_lookup_alter_eq, Hs. split; [done|].
      destruct (Hf s Hs) as [_ ->]. eauto.
    + exists s. by rewrite list_lookup_alter_ne.
  - apply Forall_lookup. intros q s Hs. destruct (decide (q = p)) as [->|Hne].
    + rewrite list_lookup_alter_eq in Hs. destruct (h !! p) as [s0|] eqn:E; [|done].
      injection Hs as <-. by apply Hf.
    + rewrite list_lookup_alter_ne in Hs by done. by eapply Forall_lookup_1.
Qed.

Lemma table_ok_delete m h sid : table_ok m h -> table_ok (delete sid m) h.
Proof. intros Ht sid' p Hp. apply lookup_delete_Some in Hp as [_ ?]. eauto. Qed.

Lemma table_ok_emplace m h s :
  table_ok m h -> state_ s <> Closed -> table_ok (emplace (sid_ s) (length h) m) (h ++ [s]).
Proof.
  intros Ht Hs sid p Hp. unfold emplace in Hp.
  assert (forall sid' p', m !! sid' = Some p' ->
    exists s', (h ++ [s]) !! p' = Some s' /\ sid_ s' = sid' /\ state_ s' <> Closed) as Hold.
  { intros sid' p' E. destruct (Ht _ _ E) as (s' & Hs' & ?). exists s'. split; [|done].
    rewrite lookup_app_l; [done|]. by eapply lookup_lt_Some. }
  destruct (m !! sid_ s) eqn:E; [by apply Hold|].
  destruct (decide (sid = sid_ s)) as [->|Hne].
  - rewrite lookup_insert_eq in Hp. injection Hp as <-. exists s. by rewrite list_lookup_middle.
  - rewrite lookup_insert_ne in Hp by done. by apply Hold.
Qed.

Lemma heap_ok_snoc h s : heap_ok h -> session_wf s -> heap_ok (h ++ [s]).
Proof. intros. apply Forall_app. split; [done|]. by apply Forall_singleton. Qed.

Lemma enqueueFrame_fields w L :
  sessions_ (enqueueFrame w L) = sessions_ L /\ heap_ (enqueueFrame w L) = heap_ L /\
  opts_ (enqueueFrame w L) = opts_ L /\ closed_ (enqueueFrame w L) = closed_ L.
Proof. unfold enqueueFrame. by destruct (closed_ L) eqn:E. Qed.

Lemma enqueueFrame_wf w L : link_wf L -> link_wf (enqueueFrame w L).
Proof. unfold link_wf. destruct (enqueueFrame_fields w L) as (-> & -> & -> & _). done. Qed.

Lemma enqueue_all_fields ws : forall L,
  let L' := fold_left (fun l w => enqueueFrame w l) ws L in
  sessions_ L' = sessions_ L /\ heap_ L' = heap_ L /\ opts_ L' = opts_ L.
Proof.
  induction ws as [|w ws IH]; intros L; [done|]. cbn. destruct (IH (enqueueFrame w L)) as (-> & -> & ->).
  by destruct (enqueueFrame_fields w L) as (-> & -> & -> & _).
Qed.

Lemma enqueue_all_wf ws L : link_wf L -> link_wf (fold_left (fun l w => enqueueFrame w l) ws L).
Proof. unfold link_wf. by destruct (enqueue_all_fields ws L) as (-> & -> & ->). Qed.

Lemma on_session_wf p f L :
  link_wf L -> keeps_session f ->
  (forall s, heap_ L !! p = Some s -> state_ s <> Closed -> state_ (f s) <> Closed) ->
  link_wf (on_session p f L).
Proof.
  intros (Ht & Hh & Ho) Hf Hc. destruct (table_ok_alter (sessions_ L) (heap_ L) p f) as [? ?]; auto.
  - intros s Hs. apply Hf. by eapply Forall_lookup_1.
  - intros sid s Hp Hs. apply Hc; [done|]. destruct (Ht _ _ Hp) as (s' & ? & _ & ?). congruence.
  - by split; [|split].
Qed.

(** Closing a session and dropping its entry. *)
Lemma on_session_erase_wf p f sid s L :
  link_wf L -> keeps_session f -> heap_ L !! p = Some s -> sid_ s = sid ->
  link_wf (eraseSession sid (on_session p f L)).
Proof.
  intros (Ht & Hh & Ho) Hf Hs Hid.
  destruct (table_ok_alter (delete sid (sessions_ L)) (heap_ L) p f) as [? ?]; auto using table_ok_delete.
  - intros s' Hs'. apply Hf. by eapply Forall_lookup_1.
  - intros sid' s' Hp _. apply lookup_delete_Some in Hp as [Hne Hp].
    destruct (Ht _ _ Hp) as (s'' & Hs'' & Hid' & _). congruence.
  - by split; [|split].
Qed.

Lemma keeps_onReset : keeps_session onReset.
Proof. intros s Hs. split; [by apply onReset_wf|done]. Qed.
Lemma keeps_onData p : keeps_session (onData p).
Proof. intros s Hs. split; [by apply onData_wf|]. unfold onData. by repeat case_match. Qed.
Lemma keeps_onUdpData p a : keeps_session (onUdpData p a).
Proof. intros s Hs. split; [by apply onUdpData_wf|]. unfold onUdpData. by repeat case_match. Qed.
Lemma keeps_onWindow d : keeps_session (onWindow d).
Proof. intros s Hs. split; [by apply onWindow_wf|done]. Qed.
Lemma keeps_onPeerClose : keeps_session onPeerClose.
Proof. intros s Hs. split; [by apply onPeerClose_wf|]. unfold onPeerClose. by destruct (state_ s). Qed.

Lemma acceptSession_wf sid win a proto L : link_wf L -> link_wf (acceptSession sid win a proto L).
Proof.
  intros (Ht & Hh & Ho). unfold acceptSession. cbn [new_session].
  set (s := Session_new sid a win (init_window (opts_ L)) proto).
  enough (link_wf (set_sessions (emplace sid (length (heap_ L)) (sessions_ L))
                     (set_heap (heap_ L ++ [s]) L))) as Hw by (by apply (enqueueFrame_wf (encodeAck [] sid)) in Hw).
  split; [by apply (table_ok_emplace _ _ s)|split; [by apply heap_ok_snoc, Session_new_wf|done]].
Qed.

Lemma dispatch_close_wf sid p L :
  link_wf L -> sessions_ L !! sid = Some p ->
  link_wf (let L1 := on_session p onPeerClose L in
           match heap_ L1 !! p with
           | Some s => if bool_decide (state_ s = Closed) then eraseSession sid L1 else L1
           | None => L1
           end).
Proof.
  intros Hwf Hp. pose proof Hwf as (Ht & _). destruct (Ht _ _ Hp) as (s & Hs & Hid & Hst).
  cbn [on_session set_heap heap_]. rewrite list_lookup_alter_eq, Hs. cbn [fmap option_fmap option_map].
  case_bool_decide as Hc.
  - apply (on_session_erase_wf _ _ _ s); auto using keeps_onPeerClose.
  - apply on_session_wf; auto using keeps_onPeerClose. intros s' Hs' _. congruence.
Qed.

(** The calls from the reader that keep a session's state. *)
Lemma onData_state p s : state_ (onData p s) = state_ s.
Proof. unfold onData. by repeat case_match. Qed.
Lemma onUdpData_state p a s : state_ (onUdpData p a s) = state_ s.
Proof. by apply onUdpData_path. Qed.

Lemma dispatch_wf now f L : link_wf L -> link_wf (dispatchFrame now f L).
Proof.
  intros Hwf. pose proof Hwf as (Ht & _). unfold dispatchFrame, findSession.
  destruct f as [| | | |sid blob win|sid|sid r|sid|sid delta|nonce|nonce|sid p|sid|sid blob p]; auto.
  - destruct (negb _); [done|]. destruct (parseBinary blob); auto using acceptSession_wf, enqueueFrame_wf.
  - destruct (sessions_ L !! sid) as [q|] eqn:Eq; [by apply dispatch_close_wf|done].
  - destruct (sessions_ L !! sid) as [q|] eqn:Eq; [|done]. destruct (Ht _ _ Eq) as (s & Hs & Hid & _).
    by apply (on_session_erase_wf _ _ _ s); auto using keeps_onReset.
  - destruct (sessions_ L !! sid) as [q|] eqn:Eq; [|done]. apply on_session_wf; auto using keeps_onWindow.
  - by apply enqueueFrame_wf.
  - by destruct (_ =? _).
  - destruct (sessions_ L !! sid) as [q|] eqn:Eq; [|done]. apply on_session_wf; auto using keeps_onData.
    intros s _. by rewrite onData_state.
  - destruct (negb _); auto using acceptSession_wf.
  - destruct (sessions_ L !! sid) as [q|] eqn:Eq; [|done]. destruct (parseBinary blob); auto.
    apply on_session_wf; auto using keeps_onUdpData. intros s _. by rewrite onUdpData_state.
Qed.

(** Calls made by the handlers: the session may only become [Closed] together
    with the request to erase it. *)
Lemma session_call_ok lv s s' eff :
  lv_alive lv = true -> session_call lv s s' eff -> session_wf s ->
  session_wf s' /\ sid_ s' = sid_ s /\ (state_ s' = Closed -> state_ s = Closed \/ erased eff = true).
Proof.
  intros Ha Hc Hwf. destruct Hc as [cap d s' eff ? E|rem s' E|rem s' wire rest ? E|s' eff E|s' eff E
                               |data target r s' eff E|r s' E].
  - split; [by eapply read_wf|]. destruct (read_keeps _ _ _ _ _ _ E) as (-> & _ & ->). auto.
  - split; [by eapply write_iter_wf; [|left]|]. destruct (write_iter_path lv s rem s') as [_ ->]; [by left|].
    split; [|by left]. unfold write_iter in E. repeat case_match; naive_solver.
  - split; [eapply write_iter_wf; [done|right; eauto]|].
    destruct (write_iter_path lv s rem s') as [_ ->]; [by eauto|].
    split; [|by left]. unfold write_iter in E. repeat case_match; naive_solver.
  - split; [change s' with (fst (s', eff)); rewrite <- E; by apply shutdownWrite_wf|].
    unfold shutdownWrite in E. repeat case_match; simplify_eq; cbn; auto. split; [done|congruence].
  - split; [change s' with (fst (s', eff)); rewrite <- E; by apply close_wf|].
    unfold close in E. rewrite Ha in E. repeat case_match; simplify_eq; cbn; auto.
  - split; [by eapply sendTo_wf|]. destruct (sendTo_path _ _ _ _ _ _ _ E) as [_ ->].
    unfold sendTo in E. repeat case_match; naive_solver.
  - split; [by eapply receiveFrom_wf|]. destruct (receiveFrom_path _ _ _ E) as [_ ->].
    unfold receiveFrom in E. repeat case_match; naive_solver.
Qed.

Lemma list_insert_alter {A} (l : list A) i x y : l !! i = Some y -> <[i := x]> l = alter (fun _ => x) i l.
Proof. revert i. induction l as [|a l IH]; intros [|i] E; try done. cbn in *. f_equal. by apply IH. Qed.

Lemma call_session_wf L p s s' eff :
  link_wf L -> heap_ L !! p = Some s -> session_call (link_view L) s s' eff ->
  link_wf (call_session p s' eff L).
Proof.
  intros Hwf Hs Hc. pose proof Hwf as (Ht & Hh & Ho).
  assert (session_wf s) as Hsw by (by eapply Forall_lookup_1).
  destruct (session_call_ok (link_view L) _ _ _ eq_refl Hc Hsw) as (Hs' & Hid & Hcl).
  unfold call_session, apply_effects. rewrite (list_insert_alter _ _ _ s Hs). destruct (erased eff) eqn:Ee.
  - assert (link_wf (eraseSession (sid_ s') (set_heap (alter (fun _ => s') p (heap_ L)) L))) as Hw.
    { destruct (table_ok_alter (delete (sid_ s') (sessions_ L)) (heap_ L) p (fun _ => s')) as [? ?];
        auto using table_ok_delete; [naive_solver| |by split; [|split]].
      intros sid s0 Hp _. apply lookup_delete_Some in Hp as [Hne Hp].
      destruct (Ht _ _ Hp) as (s1 & Hs1 & Hid1 & _). congruence. }
    unfold link_wf in *. cbn [sessions_ heap_ opts_ eraseSession set_sessions] in *.
    destruct (enqueue_all_fields (enqueued eff) (set_heap (alter (fun _ => s') p (heap_ L)) L)) as (-> & -> & ->).
    exact Hw.
  - apply enqueue_all_wf.
    destruct (table_ok_alter (sessions_ L) (heap_ L) p (fun _ => s')) as [? ?]; auto; [naive_solver| |by split; [|split]].
    intros sid s0 Hp Hs0 Hc'. destruct (Ht _ _ Hp) as (s1 & Hs1 & _ & Hn).
    destruct (Hcl Hc'); congruence.
Qed.

(** What [onReset] leaves: a closed session whose waiters are all released. *)
Definition session_dead s : Prop :=
  state_ s = Closed /\ (forall c, inbox_ s = Some c -> ch_closed c = true) /\
  (forall c, udp_inbox_ s = Some c -> ch_closed c = true) /\
  (forall c, credit_signal_ s = Some c -> ch_closed c = true).

Lemma onReset_dead s : session_dead (onReset s).
Proof.
  unfold session_dead; cbn. split_and!; [done|..]; intros c E;
    destruct (inbox_ s), (udp_inbox_ s), (credit_signal_ s); cbn in E; simplify_eq; by rewrite close_closed.
Qed.

Lemma reset_all_fields ps : forall L,
  sessions_ (reset_all ps L) = sessions_ L /\ opts_ (reset_all ps L) = opts_ L /\
  closed_ (reset_all ps L) = closed_ L.
Proof.
  unfold reset_all. induction ps as [|p ps IH]; intros L; [done|]. cbn [fold_left].
  by destruct (IH (on_session p onReset L)) as (-> & -> & ->).
Qed.

Lemma reset_all_heap ps : forall L q s, heap_ L !! q = Some s ->
  exists s', heap_ (reset_all ps L) !! q = Some s' /\
    (q ∉ ps -> s' = s) /\ (q ∈ ps \/ session_dead s -> session_dead s') /\
    (session_wf s -> session_wf s') /\ sid_ s' = sid_ s.
Proof.
  unfold reset_all. induction ps as [|p ps IH]; intros L q s Hs; cbn [fold_left].
  { exists s. split_and!; [done..| |done|done]. intros [?%elem_of_nil|?]; done. }
  set (s1 := if decide (p = q) then onReset s else s).
  assert (heap_ (on_session p onReset L) !! q = Some s1) as Hs1.
  { cbn. rewrite list_lookup_alter. unfold s1. destruct (decide (p = q)) as [->|]; [by rewrite Hs|done]. }
  destruct (IH _ _ _ Hs1) as (s' & Hs' & Hsame & Hdead & Hwf & Hid). exists s'.
  unfold s1 in *. destruct (decide (p = q)) as [->|Hne]; (split; [exact Hs'|]); rewrite not_elem_of_cons, elem_of_cons.
  - split_and!; [naive_solver|auto using onReset_dead|auto using onReset_wf|done].
  - split_and!; [naive_solver| |auto|done]. intros [[?|?]|?]; [congruence|auto..].
Qed.

Lemma reset_all_length ps : forall L, length (heap_ (reset_all ps L)) = length (heap_ L).
Proof.
  unfold reset_all. induction ps as [|p ps IH]; intros L; [done|]. cbn [fold_left]. rewrite IH.
  apply length_alter.
Qed.

Lemma reset_all_heap_ok ps L : heap_ok (heap_ L) -> heap_ok (heap_ (reset_all ps L)).
Proof.
  intros Hh. apply Forall_lookup. intros q s' Hs'.
  assert (is_Some (heap_ L !! q)) as [s Hs].
  { apply lookup_lt_is_Some. rewrite <- (reset_all_length ps). by eapply lookup_lt_Some. }
  destruct (reset_all_heap ps L q s Hs) as (s1 & E & _ & _ & Hw & _).
  rewrite E in Hs'. injection Hs' as <-. apply Hw. by eapply Forall_lookup_1.
Qed.

Lemma failLink_wf L : link_wf L -> link_wf (failLink L).
Proof.
  intros (Ht & Hh & Ho). unfold failLink. destruct (closed_ L) eqn:Ec; [done|].
  match goal with |- link_wf (reset_all ?ps ?l) =>
    destruct (reset_all_fields ps l) as (Es & Eo & _); pose proof (reset_all_heap_ok ps l) as Hok end.
  unfold link_wf. rewrite Es, Eo. split; [|split; [by apply Hok|done]].
  intros sid p Hp. cbn [sessions_ set_sessions] in Hp. by rewrite lookup_empty in Hp.
Qed.

Lemma failLink_closed L : closed_ (failLink L) = true.
Proof.
  unfold failLink. destruct (closed_ L) eqn:E; [done|].
  match goal with |- closed_ (reset_all ?ps ?l) = _ => by destruct (reset_all_fields ps l) as (_ & _ & ->) end.
Qed.

Lemma openSession_wf draws target udp p L L' :
  link_wf L -> openSession draws target udp L = Some (Ok p, L') -> link_wf L'.
Proof.
  intros (Ht & Hh & Ho) E. unfold openSession in E. destruct (closed_ L); [discriminate|].
  destruct (draw_nonzero draws) as [[sid rest]|]; [|discriminate]. cbn [new_session] in E.
  injection E as _ <-. apply enqueueFrame_wf.
  set (s := Session_new sid target _ _ _). 
  split; [by apply (table_ok_emplace _ _ s)|split; [by apply heap_ok_snoc, Session_new_wf|done]].
Qed.

Lemma announce_wf L : link_wf L -> link_wf (gracefulShutdown_announce L).
Proof.
  unfold gracefulShutdown_announce. generalize (snd <$> map_to_list (sessions_ L)). intros ps. revert L.
  induction ps as [|p ps IH]; intros L Hwf; [done|]. cbn. apply IH.
  destruct (heap_ L !! p); auto using enqueueFrame_wf.
Qed.

Lemma tick_wf now nonce L : link_wf L -> link_wf (snd (heartbeat_tick now nonce L)).
Proof.
  intros Hwf. unfold heartbeat_tick. repeat case_match; cbn [snd]; auto using failLink_wf.
  all: by apply enqueueFrame_wf.
Qed.

Lemma link_step_wf L L' : link_step L L' -> link_wf L -> link_wf L'.
Proof.
  intros [now f Hf|L1 []] Hwf; eauto using dispatch_wf, call_session_wf, openSession_wf, tick_wf, announce_wf, failLink_wf.
  - unfold writer_iter. repeat case_match; cbn [snd]; try done. by apply failLink_wf.
  - unfold waitHandshake. by repeat case_match.
  - unfold closeNow. by destruct (closed_ L).
Qed.

Lemma Link_new_wf opts : 0 <= init_window opts < 2 ^ 32 -> link_wf (Link_new (C := C) opts).
Proof. intros Ho. split; [|split; [by apply Forall_nil|done]]. intros sid p Hp. cbn [sessions_ Link_new] in Hp. by rewrite lookup_empty in Hp. Qed.
End LinkInvariant.

(** ** The heartbeat over time *)

Section Heartbeat.
Context `{AbslOps} {C : Type -> Type} `{ChannelSpec C}.
Implicit Types L : Link C.

(** [heartbeatLoop] on a sequence of ticks (time, random number). *)
Fixpoint heartbeatLoop (ticks : list (Z * Z)) L : Link C :=
  match ticks with
  | [] => L
  | (now, nonce) :: ticks =>
      if closed_ L then L
      else let '(go, L') := heartbeat_tick now nonce L in
           if go then heartbeatLoop ticks L' else L'
  end.

(** Ticks whose times do not go backwards and are at most [gap] apart. *)
Fixpoint ticks_ok (gap prev : Z) (ticks : list (Z * Z)) : Prop :=
  match ticks with
  | [] => True
  | (now, _) :: ticks => prev <= now <= prev + gap /\ now < 2 ^ 64 /\ ticks_ok gap now ticks
  end.

Definition last_tick (prev : Z) (ticks : list (Z * Z)) : Z := fold_left (fun _ t => fst t) ticks prev.

Definition ping_ns L : Z := ping_interval (opts_ L) * ns_per_s.
Definition pong_ns L : Z := pong_timeout (opts_ L) * ns_per_s.

(** A link past its handshake with sane timer options. *)
Definition beating L : Prop :=
  closed_ L = false /\ handshake_done_ L = true /\
  0 <= ping_interval (opts_ L) /\ ping_ns L < 2 ^ 64 /\
  0 <= pong_timeout (opts_ L) /\ pong_ns L < 2 ^ 64.

Lemma timer_ns v : 0 <= v -> v * ns_per_s < 2 ^ 64 -> mul64 (u64 v) ns_per_s = v * ns_per_s.
Proof. unfold ns_per_s. intros. rewrite u64_small, mul64_small; lia. Qed.

Lemma ticks_last gap ticks : forall prev, ticks_ok gap prev ticks -> prev <= last_tick prev ticks.
Proof.
  unfold last_tick. induction ticks as [|[now n] ticks IH]; intros prev Ht; cbn in *; [lia|].
  destruct Ht as (? & _ & Ht). specialize (IH _ Ht). lia.
Qed.

(** The tick of a beating link, without wrap-around. *)
Lemma heartbeat_tick_beating now nonce L :
  beating L -> 0 <= last_ping_sent_ns_ L <= now -> 0 <= last_pong_ns_ L <= now -> now < 2 ^ 64 ->
  heartbeat_tick now nonce L =
    if negb (pending_ping_nonce_ L =? 0) && (pong_ns L <? now - last_ping_sent_ns_ L) then (false, failLink L)
    else if (pending_ping_nonce_ L =? 0) && (ping_ns L <? now - last_pong_ns_ L) then
      let nonce := if nonce =? 0 then 1 else nonce in
      (true, enqueueFrame (encodePing [] nonce) (set_ping (last_pong_ns_ L) nonce now L))
    else (true, L).
Proof.
  intros (Hcl & Hh & Hi & Hi' & Ho & Ho') Hs Hp Hn. unfold heartbeat_tick, ping_ns, pong_ns in *.
  rewrite Hh, !timer_ns, !sub64_small by lia. done.
Qed.

(** Waiting for a PONG that does not come. *)
Lemma heartbeat_waiting gap ticks : forall prev L,
  beating L -> pending_ping_nonce_ L <> 0 -> 0 <= last_ping_sent_ns_ L <= prev ->
  0 <= last_pong_ns_ L <= prev -> ticks_ok gap prev ticks ->
  prev <= last_ping_sent_ns_ L + pong_ns L < last_tick prev ticks ->
  closed_ (heartbeatLoop ticks L) = true.
Proof.
  unfold last_tick. induction ticks as [|[now n] ticks IH]; intros prev L Hb Hp Hs Hg Ht Hl; cbn in *; [lia|].
  pose proof Hb as (Hcl & _). destruct Ht as (Hn & Hn' & Ht).
  rewrite Hcl, heartbeat_tick_beating, (proj2 (Z.eqb_neq _ _) Hp) by (done || lia). cbn [negb andb].
  destruct (Z.ltb_spec (pong_ns L) (now - last_ping_sent_ns_ L)); [apply failLink_closed|].
  apply (IH now); try done; lia.
Qed.

(** Silence: first a PING, then the wait. *)
Lemma heartbeat_silent gap ticks : forall prev L,
  beating L -> pending_ping_nonce_ L = 0 -> 0 <= last_ping_sent_ns_ L <= prev -> 0 <= last_pong_ns_ L <= prev ->
  0 <= gap -> ticks_ok gap prev ticks -> prev <= last_pong_ns_ L + ping_ns L ->
  last_pong_ns_ L + ping_ns L + gap + pong_ns L < last_tick prev ticks ->
  closed_ (heartbeatLoop ticks L) = true.
Proof.
  induction ticks as [|[now n] ticks IH]; intros prev L Hb Hp Hs Hg Hgap Ht Hpre Hl;
    pose proof Hb as (Hcl & Hh & Hi & Hi' & Ho & Ho').
  { unfold last_tick in Hl. cbn in Hl. unfold pong_ns, ns_per_s in *. lia. }
  cbn [heartbeatLoop]. destruct Ht as (Hn & Hn' & Ht).
  rewrite Hcl, heartbeat_tick_beating, Hp by (done || lia). cbn [Z.eqb negb andb].
  change (last_tick prev ((now, n) :: ticks)) with (last_tick now ticks) in Hl.
  destruct (Z.ltb_spec (ping_ns L) (now - last_pong_ns_ L)); [|apply (IH now); try done; lia].
  set (nonce := if n =? 0 then 1 else n).
  assert (nonce <> 0) as Hnonce by (unfold nonce; destruct (Z.eqb_spec n 0); lia).
  assert (0 <= pong_ns L) by (unfold pong_ns, ns_per_s; lia).
  set (L1 := set_ping (last_pong_ns_ L) nonce now L).
  assert (enqueueFrame (encodePing [] nonce) L1
          = set_write_chan (ch_async_send (encodePing [] nonce) (write_chan_ L1)) L1) as ->
    by (unfold enqueueFrame; by change (closed_ L1) with (closed_ L); rewrite Hcl).
  apply (heartbeat_waiting gap ticks now); [done|done|cbn; lia|cbn; lia|done|].
  change (pong_ns (set_write_chan _ L1)) with (pong_ns L). cbn [last_ping_sent_ns_ set_write_chan L1 set_ping].
  split; lia.
Qed.
End Heartbeat.

(** ** Properties *)

Section LinkProperties.
Context `{AbslOps} {C : Type -> Type} `{ChannelSpec C}.
Implicit Types L : Link C.

(** The session a frame is addressed to. *)
Definition frame_sid {P} (f : ShineFrame P) : option Z :=
  match f with
  | NewFrame s _ _ | AckFrame s | CloseFrame s _ | ResetFrame s | WindowFrame s _ | DataFrame s _
  | NewUdpFrame s | UdpDataFrame s _ _ => Some s
  | _ => None
  end.

(** C11. The session table is sound in every reachable state of a link: each
    entry points to a live session object carrying that id, no closed session
    stays registered, and every session object, registered or only held by a
    handler, satisfies the session invariant. *)
Theorem link_invariant opts L :
  0 <= init_window opts < 2 ^ 32 -> rtc link_step (Link_new (C := C) opts) L ->
  table_ok (sessions_ L) (heap_ L) /\ heap_ok (heap_ L).
Proof.
  intros Ho Hr. enough (link_wf L) as (? & ? & _) by done.
  revert Hr. apply (rtc_ind_r link_wf); [by apply Link_new_wf|eauto using link_step_wf].
Qed.

Lemma on_session_other p q f L : p <> q -> heap_ (on_session q f L) !! p = heap_ L !! p.
Proof. intros. cbn. by rewrite list_lookup_alter_ne. Qed.

Lemma acceptSession_fields sid win a proto L :
  heap_ (acceptSession sid win a proto L) = heap_ L ++ [Session_new sid a win (init_window (opts_ L)) proto] /\
  sessions_ (acceptSession sid win a proto L) = emplace sid (length (heap_ L)) (sessions_ L) /\
  spawned_ (acceptSession sid win a proto L) = spawned_ L ++ [(length (heap_ L), a)].
Proof. unfold acceptSession, enqueueFrame. cbn. by destruct (closed_ L). Qed.

Lemma emplace_other sid sid' p (m : gmap Z nat) : sid <> sid' -> emplace sid p m !! sid' = m !! sid'.
Proof. intros. unfold emplace. destruct (m !! sid); [done|]. by rewrite lookup_insert_ne. Qed.

Lemma accept_isolated sid win a proto L p s :
  heap_ L !! p = Some s ->
  heap_ (acceptSession sid win a proto L) !! p = Some s /\
  (forall sid', Some sid <> Some sid' -> sessions_ (acceptSession sid win a proto L) !! sid' = sessions_ L !! sid').
Proof.
  intros Hs. destruct (acceptSession_fields sid win a proto L) as (-> & -> & _). split.
  - rewrite lookup_app_l; [done|]. by eapply lookup_lt_Some.
  - intros sid' Hne. apply emplace_other. congruence.
Qed.

(** C38. Isolation: a frame changes at most the session registered under the id
    it carries; every other session object and every other table entry is
    untouched. *)
Theorem dispatch_isolated now f L p s :
  heap_ L !! p = Some s ->
  (forall sid, frame_sid f = Some sid -> sessions_ L !! sid <> Some p) ->
  heap_ (dispatchFrame now f L) !! p = Some s /\
  (forall sid, frame_sid f <> Some sid -> sessions_ (dispatchFrame now f L) !! sid = sessions_ L !! sid).
Proof.
  intros Hs Hne. unfold dispatchFrame, findSession.
  assert (forall sid w q, frame_sid f = Some sid -> sessions_ L !! sid = Some q ->
    heap_ (on_session q w L) !! p = Some s) as Hon.
  { intros sid w q Hf Hq. rewrite on_session_other; [done|]. intros <-. by apply (Hne sid). }
  assert (forall w, heap_ (enqueueFrame w L) !! p = Some s /\
    forall sid, frame_sid f <> Some sid -> sessions_ (enqueueFrame w L) !! sid = sessions_ L !! sid) as Henq
    by (intros w; by destruct (enqueueFrame_fields w L) as (-> & -> & _)).
  destruct f as [| | | |sid blob win|sid|sid r|sid|sid delta|nonce|nonce|sid pl|sid|sid blob pl]; cbn [frame_sid] in *;
    try (split; [exact Hs|done]).
  - destruct (negb _); [done|]. destruct (parseBinary blob); auto using accept_isolated.
  - destruct (sessions_ L !! sid) as [q|] eqn:Eq; [|done]. specialize (Hon sid onPeerClose q eq_refl Eq).
    destruct (heap_ (on_session q onPeerClose L) !! q); [|done]. case_bool_decide; [|done].
    split; [done|]. intros sid' Hn. cbn. apply lookup_delete_ne. congruence.
  - destruct (sessions_ L !! sid) as [q|] eqn:Eq; [|done]. split; [by apply (Hon sid)|].
    intros sid' Hn. cbn. apply lookup_delete_ne. congruence.
  - destruct (sessions_ L !! sid) as [q|] eqn:Eq; [|done]. split; [by apply (Hon sid)|done].
  - apply Henq.
  - by destruct (_ =? _).
  - destruct (sessions_ L !! sid) as [q|] eqn:Eq; [|done]. split; [by apply (Hon sid)|done].
  - destruct (negb _); [done|]. by apply accept_isolated.
  - destruct (sessions_ L !! sid) as [q|] eqn:Eq; [|done]. destruct (parseBinary blob); try done.
    split; [by apply (Hon sid)|done].
Qed.

(** Failing a link releases everyone who depends on it: it happens once,
    empties the session table, and every registered session is left closed with
    all its channels closed, so readers and writers suspended on them wake up;
    sessions that were not registered keep their state. *)
Theorem failLink_releases_sessions L p s :
  closed_ L = false -> heap_ L !! p = Some s ->
  let L' := failLink L in
  closed_ L' = true /\ sessions_ L' = ∅ /\ failLink L' = L' /\
  exists s', heap_ L' !! p = Some s' /\
    ((exists sid, sessions_ L !! sid = Some p) -> session_dead s') /\
    ((forall sid, sessions_ L !! sid <> Some p) -> s' = s).
Proof.
  intros Hcl Hs L'. assert (closed_ L' = true) as Hcl' by apply failLink_closed.
  split; [done|]. unfold L', failLink in *. rewrite Hcl in *. cbn [sessions_ set_handshake set_write_chan set_closed] in *.
  set (ps := snd <$> map_to_list (sessions_ L)) in *.
  match goal with |- context [reset_all ps ?l] => set (l0 := l) in * end.
  destruct (reset_all_fields ps l0) as (Es & _ & _). split; [by rewrite Es|].
  split; [by rewrite Hcl'|]. destruct (reset_all_heap ps l0 p s Hs) as (s' & E & Hsame & Hdead & _).
  exists s'. split; [done|]. split.
  - intros [sid Hp]. apply Hdead. left. apply list_elem_of_fmap. exists (sid, p). by rewrite elem_of_map_to_list.
  - intros Hn. apply Hsame. intros Hin. apply list_elem_of_fmap in Hin as [[sid q] [-> Hin]].
    apply elem_of_map_to_list in Hin. by apply (Hn sid).
Qed.

(** [closeNow] strands the sessions: it marks the link closed first, so the
    [failLink] that follows (from the reader, the writer or the heartbeat)
    returns at once and no session is ever reset; a reader with nothing pending
    stays suspended. *)
Theorem closeNow_strands_sessions L p s lv cap :
  closed_ L = false -> heap_ L !! p = Some s ->
  session_wf s -> protocol_ s = TCP -> inbox_open s -> state_ s = Open -> pending s = [] -> 0 < cap ->
  let L' := failLink (closeNow_posted (snd (closeNow L))) in
  closed_ L' = true /\ sock_open_ L' = false /\ sessions_ L' = sessions_ L /\
  heap_ L' !! p = Some s /\ read lv cap s = (Pending, (s, no_effects)).
Proof.
  intros Hcl Hs Hwf Ht Hop Hst Hp Hcap. unfold closeNow, failLink. rewrite Hcl. cbn. split_and!; try done.
  destruct (read_progress lv cap s Hcap Hwf Ht Hop (or_introl Hst)) as [[_ ?]|(d & s' & eff & _ & Hd & E)]; [done|].
  rewrite Hp in E. symmetry in E. apply app_eq_nil in E as [-> _]. exfalso. unfold zlen in Hd. cbn in Hd. lia.
Qed.

(** A second NEW with an id in use is acknowledged and its handler started,
    but the table keeps the first session: no frame will reach the new one, and
    when its handler closes it, the first session's entry is erased. *)
Theorem duplicate_new_unreachable now sid blob win addr p L :
  on_new_session_ L = true -> sessions_ L !! sid = Some p -> parseBinary blob = Ok addr ->
  let L' := dispatchFrame now (NewFrame sid blob win) L in
  let q := length (heap_ L) in
  spawned_ L' = spawned_ L ++ [(q, addr)] /\ sessions_ L' !! sid = Some p /\
  exists s, heap_ L' !! q = Some s /\ sid_ s = sid /\
    forall s' eff, close (link_view L') s = (s', eff) ->
      sessions_ (call_session q s' eff L') !! sid = None.
Proof.
  intros Hn Hp Hb L' q. unfold L', dispatchFrame. rewrite Hn, Hb. cbn [negb].
  destruct (acceptSession_fields sid win addr TCP L) as (Eh & Es & Esp).
  split; [done|]. split; [rewrite Es; unfold emplace; by rewrite Hp|].
  eexists. rewrite Eh. split; [by apply list_lookup_middle|]. split; [done|].
  intros s' eff E. unfold close in E. cbn in E. injection E as <- <-.
  unfold call_session, apply_effects. cbn. destruct (closed_ _); cbn; apply lookup_delete_eq.
Qed.

(** C39. Dead peers are detected: with ticks at most [gap] apart, a link whose
    peer stops answering is failed no later than the first tick after
    [ping_interval + gap + pong_timeout] from the last PONG (first a PING is
    sent, then its answer is awaited).  A tick does not happen while the PING of
    an earlier one waits for room in the write channel; see Stall.v. *)
Theorem heartbeat_detects_dead_peer gap ticks L :
  beating L -> pending_ping_nonce_ L = 0 -> 0 <= last_ping_sent_ns_ L <= last_pong_ns_ L -> 0 <= gap ->
  ticks_ok gap (last_pong_ns_ L) ticks ->
  last_pong_ns_ L + ping_ns L + gap + pong_ns L < last_tick (last_pong_ns_ L) ticks ->
  closed_ (heartbeatLoop ticks L) = true.
Proof.
  intros Hb Hp Hs Hg Ht Hl. pose proof Hb as (_ & _ & Hi & _).
  apply (heartbeat_silent gap ticks (last_pong_ns_ L)); try done; try lia.
  unfold ping_ns, ns_per_s. lia.
Qed.
End LinkProperties.

(** ** Witnesses: a server link that has accepted one session *)

Definition sample_opts : LinkOptions := mkLinkOptions [] kDefaultInitWindow 15 10 kMaxBulkLen (256 * 1024) true.
Definition sample_blob : bytes := toBinary (fromDomain (lit "h") 80).
Definition sample_link : Link fifo := start true 0 (set_handshake true (ch_make 1) (Link_new sample_opts)).
Definition sample_new : ShineFrame bytes := NewFrame 7 sample_blob 1000.
Definition accepted_link : Link fifo := dispatchFrame 5 sample_new sample_link.
Definition accepted_session : Session fifo :=
  Session_new 7 (fromDomain (lit "h") 80) 1000 kDefaultInitWindow TCP.

Lemma link_invariant_witness :
  let L := dispatchFrame 6 sample_new (start true 0 (Link_new (C := fifo) sample_opts)) in
  table_ok (sessions_ L) (heap_ L) /\ heap_ok (heap_ L).
Proof.
  intros L. apply (link_invariant sample_opts L); [by vm_compute|].
  eapply rtc_l; [apply ls_own, (ls_start _ true 0)|]. apply rtc_once. by apply ls_dispatch.
Defined.

Lemma dispatch_isolated_witness :
  heap_ (dispatchFrame 6 (ResetFrame 8) accepted_link) !! 0%nat = Some accepted_session /\
  (forall sid, frame_sid (P := bytes) (ResetFrame 8) <> Some sid ->
     sessions_ (dispatchFrame 6 (ResetFrame 8) accepted_link) !! sid = sessions_ accepted_link !! sid).
Proof.
  apply (dispatch_isolated 6 (ResetFrame 8) accepted_link 0%nat accepted_session); [by vm_compute|].
  intros sid [= <-]. by vm_compute.
Defined.

Lemma failLink_releases_sessions_witness :
  let L' := failLink accepted_link in
  closed_ L' = true /\ sessions_ L' = ∅ /\ failLink L' = L' /\
  exists s', heap_ L' !! 0%nat = Some s' /\
    ((exists sid, sessions_ accepted_link !! sid = Some 0%nat) -> session_dead s') /\
    ((forall sid, sessions_ accepted_link !! sid <> Some 0%nat) -> s' = accepted_session).
Proof.
  apply (failLink_releases_sessions accepted_link 0%nat accepted_session); by vm_compute.
Defined.

Lemma closeNow_strands_sessions_witness :
  let L' := failLink (closeNow_posted (snd (closeNow accepted_link))) in
  closed_ L' = true /\ sock_open_ L' = false /\ sessions_ L' = sessions_ accepted_link /\
  heap_ L' !! 0%nat = Some accepted_session /\
  read (link_view accepted_link) 16 accepted_session = (Pending, (accepted_session, no_effects)).
Proof.
  apply (closeNow_strands_sessions accepted_link 0%nat accepted_session (link_view accepted_link) 16);
    try by vm_compute.
  - apply Session_new_wf. by vm_compute.
  - by eexists.
Defined.

Lemma duplicate_new_unreachable_witness :
  let L' := dispatchFrame 6 sample_new accepted_link in
  spawned_ L' = spawned_ accepted_link ++ [(1%nat, fromDomain (lit "h") 80)] /\ sessions_ L' !! 7 = Some 0%nat /\
  exists s, heap_ L' !! 1%nat = Some s /\ sid_ s = 7 /\
    forall s' eff, close (link_view L') s = (s', eff) -> sessions_ (call_session 1%nat s' eff L') !! 7 = None.
Proof.
  apply (duplicate_new_unreachable 6 7 sample_blob 1000 (fromDomain (lit "h") 80) 0%nat accepted_link);
    by vm_compute.
Defined.

Definition silent_ticks : list (Z * Z) := map (fun i => (Z.of_nat i * ns_per_s, 42)) (seq 1 30).

Lemma heartbeat_detects_dead_peer_witness :
  closed_ (heartbeatLoop silent_ticks sample_link) = true.
Proof.
  apply (heartbeat_detects_dead_peer ns_per_s silent_ticks sample_link); by vm_compute.
Defined.
