(* ===== verification/LinkReader.v ===== *)
(** * The wire between two links

    The reader loop, the writer loop and the handshakes of link.cpp over a
    socket that may split the byte stream anywhere: what is dispatched is
    exactly what was sent, and what the handshakes decide. *)
From stdpp Require Import gmap.
From S2P Require Import Prelude Absl Buffer Resp2 ShineFrame Address Request Channel Socket Session Link.
From Stdlib Require Import Strings.Byte.

(** A frame a peer with parser limit [m] accepts. *)
Definition frame_accepted (m : Z) (f : ShineFrame bytes) : Prop :=
  frame_wf f /\ value_fits m (frame_value f) /\ value_fits INT64_MAX (frame_value f).

Section Reader.
Context `{AbslOps, !AbslSpec} {C : Type -> Type} `{ChannelSpec C}.
Implicit Types L : Link C.

Definition frames_bytes (fs : list (ShineFrame bytes)) : bytes := concat (map (encodeFrame []) fs).
Definition dispatch_all (now : Z) (fs : list (ShineFrame bytes)) L : Link C :=
  fold_left (fun l f => dispatchFrame now f l) fs L.

(** The dispatcher does not look at the receive buffer, and never closes the
    link. *)
Lemma dispatch_set_read_buf now f rb L :
  dispatchFrame now f (set_read_buf rb L) = set_read_buf rb (dispatchFrame now f L).
Proof.
  unfold dispatchFrame, findSession, acceptSession, new_session, enqueueFrame, on_session, eraseSession.
  cbn [sessions_ heap_ closed_ on_new_session_ pending_ping_nonce_ set_read_buf set_heap].
  destruct f; repeat (cbn; case_match); done.
Qed.

Lemma enqueueFrame_read_buf w L : read_buf_ (enqueueFrame w L) = read_buf_ L.
Proof. unfold enqueueFrame. by destruct (closed_ L). Qed.

Lemma dispatch_fields now f L :
  closed_ (dispatchFrame now f L) = closed_ L /\ opts_ (dispatchFrame now f L) = opts_ L /\
  read_buf_ (dispatchFrame now f L) = read_buf_ L.
Proof.
  unfold dispatchFrame, findSession, acceptSession, new_session, enqueueFrame.
  destruct f; repeat (cbn; case_match); cbn in *; try congruence; done.
Qed.

Lemma failLink_set_read_buf rb L : failLink (set_read_buf rb L) = set_read_buf rb (failLink L).
Proof.
  unfold failLink. cbn [closed_ set_read_buf]. destruct (closed_ L); [done|].
  cbn [sessions_ set_sessions set_handshake set_write_chan set_closed set_read_buf].
  generalize (snd <$> map_to_list (sessions_ L)) as ps. intros ps.
  unfold reset_all.
  match goal with |- fold_left _ _ ?l1 = set_read_buf rb (fold_left _ _ ?l2) =>
    assert (l1 = set_read_buf rb l2) as -> by done; generalize l2 end.
  induction ps as [|p ps IH]; intros l; [done|]. cbn [fold_left].
  by change (on_session p onReset (set_read_buf rb l)) with (set_read_buf rb (on_session p onReset l)).
Qed.

Lemma dispatch_all_set_read_buf now fs rb : forall L,
  dispatch_all now fs (set_read_buf rb L) = set_read_buf rb (dispatch_all now fs L).
Proof.
  unfold dispatch_all. induction fs as [|f fs IH]; intros L; [done|]. cbn [fold_left].
  by rewrite dispatch_set_read_buf, IH.
Qed.

(** What the parser makes of a prefix of the bytes of [f] and what follows. *)
Lemma parse_prefix m rb q f rest e :
  rb_inv rb q -> frame_accepted m f -> q ++ e = encodeFrame [] f ++ rest ->
  (exists rf, tryParse m rb Resp2Monostate = Ok (0, rf) /\ e <> []) \/
  (exists q' rf g, q = encodeFrame [] f ++ q' /\ q' ++ e = rest /\
     tryParse m rb Resp2Monostate = Ok (zlen (encodeFrame [] f), rf) /\
     0 < zlen (encodeFrame [] f) /\
     decodeShineFrame (buf_ rb) rf = Ok g /\ resolve (buf_ rb) g = f).
Proof.
  intros (Hwf & Hv & Hc) (Hf & Hm & Hi) E. rewrite encodeFrame_wire, app_nil_l in E |- * by done.
  pose proof (spec_value_extends m q e) as Hx. rewrite E, spec_value_wire in Hx by done.
  pose proof (tryParse_refines m rb Resp2Monostate Hwf) as Hr. unfold tryParse_agrees in Hr. rewrite Hv in Hr.
  destruct (spec_value m q) as [|s|v r] eqn:Es; cbn in Hx; [|done|].
  - left. exists Resp2Monostate. split; [done|]. intros ->. rewrite app_nil_r in E.
    rewrite E, spec_value_wire in Es by done. done.
  - right. injection Hx as <- Hrest.
    assert (q = wire_value (frame_value f) ++ r) as Hq
      by (apply (app_inv_tail e); by rewrite <- app_assoc, <- Hrest).
    destruct (tryParse_decode m rb Resp2Monostate f r Hwf Hf Hm) as (rf & g & E1 & E2 & E3); [by rewrite Hv|].
    exists r, rf, g. split_and!; try done.
    destruct Hr as (n & rf' & E' & Hn & _). rewrite E1 in E'. injection E' as <- _. lia.
Qed.

(** Nothing buffered: the parser asks for more. *)
Lemma parse_empty m rb : rb_inv rb [] -> tryParse m rb Resp2Monostate = Ok (0, Resp2Monostate).
Proof.
  intros (Hwf & Hv & _). pose proof (tryParse_refines m rb Resp2Monostate Hwf) as Hr.
  unfold tryParse_agrees in Hr. by rewrite Hv in Hr.
Qed.

(** No dispatch of [fs] is suspended. *)
Fixpoint unsuspended (now : Z) (fs : list (ShineFrame bytes)) L : Prop :=
  match fs with
  | [] => True
  | f :: fs =>
      dispatch_suspended f L (dispatchFrame now f L) = false /\ unsuspended now fs (dispatchFrame now f L)
  end.

Lemma unsuspended_set_read_buf now rb fs : forall L,
  unsuspended now fs L -> unsuspended now fs (set_read_buf rb L).
Proof.
  induction fs as [|f fs IH]; intros L; [done|]. cbn [unsuspended]. rewrite dispatch_set_read_buf.
  intros [Hs Hr]. split; [exact Hs|by apply IH].
Qed.

Lemma reader_iter_more now L sk rf :
  closed_ L = false -> rb_inv (read_buf_ L) (rb_view (read_buf_ L)) -> zlen (rb_view (read_buf_ L)) < 2 ^ 56 ->
  tryParse (max_payload (opts_ L)) (read_buf_ L) Resp2Monostate = Ok (0, rf) ->
  (stream sk = [] -> exists rb sk', reader_iter now L sk = Ok (LoopOver, failLink (set_read_buf rb L), sk') /\
                                    stream sk' = []) /\
  (stream sk <> [] -> exists d rb sk', reader_iter now L sk = Ok (ReadMore, set_read_buf rb L, sk') /\
     stream sk = d ++ stream sk' /\ 0 < zlen d /\ rb_inv rb (rb_view (read_buf_ L) ++ d)).
Proof.
  intros Hcl Hrb Hq Hp. unfold reader_iter. rewrite Hcl, Hp. cbn [Z.eqb].
  destruct (rb_inv_ensure _ _ (16 * 1024) Hrb) as [Hrb' Hroom]; [unfold kInitialCapacity; lia|done|].
  set (rb := ensure_writable (16 * 1024) (read_buf_ L)) in *.
  destruct (sock_read_spec (writable_size rb) sk ltac:(lia)) as (d & sk' & -> & Hs & Hd & Hpos). split.
  - intros E. rewrite E in Hs. symmetry in Hs. apply app_eq_nil in Hs as [-> Hs]. cbn. eauto.
  - intros Hne. specialize (Hpos Hne). rewrite (proj2 (Z.eqb_neq _ _)) by lia.
    destruct (rb_inv_fill rb _ d Hrb' Hd) as (rb' & -> & Hrb''). cbn. eexists d, rb', sk'. by split_and!.
Qed.

Lemma reader_loop_frames now fuel : forall L sk fs q,
  closed_ L = false -> rb_inv (read_buf_ L) q -> Forall (frame_accepted (max_payload (opts_ L))) fs ->
  q ++ stream sk = frames_bytes fs -> zlen (q ++ stream sk) < 2 ^ 56 ->
  (length (stream sk) + length fs < fuel)%nat -> unsuspended now fs L ->
  exists rb sk', stream sk' = [] /\
    readerLoop fuel now L sk = Some (Ok (set_read_buf rb (failLink (dispatch_all now fs L)), sk')).
Proof.
  induction fuel as [|fuel IH]; intros L sk fs q Hcl Hrb Hfs Hq Hlen Hfuel Hun; [lia|].
  pose proof Hrb as (_ & Hv & _). pose proof (zlen_nonneg (stream sk)).
  assert (forall rf, tryParse (max_payload (opts_ L)) (read_buf_ L) Resp2Monostate = Ok (0, rf) ->
    (fs = [] \/ stream sk <> []) ->
    exists rb sk', stream sk' = [] /\
      readerLoop (S fuel) now L sk = Some (Ok (set_read_buf rb (failLink (dispatch_all now fs L)), sk'))) as Hmore.
  { intros rf Hp Hor. destruct (reader_iter_more now L sk rf Hcl) as [Heof Hrd];
      [by rewrite Hv|rewrite Hv; rewrite zlen_app in Hlen; lia|done|]. cbn [readerLoop].
    destruct (decide (stream sk = [])) as [Es|Es].
    - destruct Hor as [->|]; [|done]. destruct (Heof Es) as (rb & sk' & -> & Es').
      exists rb, sk'. by rewrite failLink_set_read_buf.
    - destruct (Hrd Es) as (d & rb & sk' & -> & Hs & Hd & Hrb').
      destruct (IH (set_read_buf rb L) sk' fs (q ++ d)) as (rb2 & sk2 & Es2 & E2); try done.
      + by rewrite <- Hv.
      + by rewrite <- app_assoc, <- Hs.
      + by rewrite <- app_assoc, <- Hs.
      + rewrite Hs, length_app in Hfuel. unfold zlen in Hd. lia.
      + by apply unsuspended_set_read_buf.
      + exists rb2, sk2. split; [done|]. rewrite E2, dispatch_all_set_read_buf, failLink_set_read_buf. done. }
  destruct fs as [|f fs].
  - apply app_eq_nil in Hq as [-> Hs]. apply (Hmore Resp2Monostate); [by apply parse_empty|by left].
  - apply Forall_cons in Hfs as [Hf Hfs].
    destruct (parse_prefix _ _ _ f (frames_bytes fs) (stream sk) Hrb Hf Hq)
      as [(rf & Hp & Hne)|(q' & rf & g & Eq & Erest & Hp & Hpos & Hg & Hres)]; [by apply (Hmore rf); [|right]|].
    cbn [readerLoop]. unfold reader_iter. rewrite Hcl, Hp, (proj2 (Z.eqb_neq _ _)), Hg, Hres by lia.
    destruct (dispatch_fields now f L) as (Hcl' & Ho' & Hb'). rewrite Hb'. destruct Hun as [Hs Hun].
    match goal with |- context [dispatch_suspended f L ?x] =>
      change (dispatch_suspended f L x) with (dispatch_suspended f L (dispatchFrame now f L)) end. rewrite Hs.
    destruct (IH (set_read_buf (consume (zlen (encodeFrame [] f)) (read_buf_ L)) (dispatchFrame now f L)) sk fs q')
      as (rb & sk' & Es & E).
    + cbn. congruence.
    + cbn [read_buf_ set_read_buf]. replace q' with (drop (Z.to_nat (zlen (encodeFrame [] f))) q).
      * apply rb_inv_consume; [done|]. rewrite Eq, zlen_app. pose proof (zlen_nonneg q'). lia.
      * rewrite Eq, zlen_to_nat. apply drop_app_length.
    + cbn. by rewrite Ho'.
    + done.
    + rewrite Eq, <- app_assoc, zlen_app in Hlen. lia.
    + cbn in Hfuel. lia.
    + by apply unsuspended_set_read_buf.
    + exists rb, sk'. split; [done|]. rewrite E, dispatch_all_set_read_buf, failLink_set_read_buf. done.
Qed.
End Reader.

(** ** Handshakes *)

Section Handshake.
Context `{AbslOps, !AbslSpec} {C : Type -> Type} `{ChannelSpec C}.
Implicit Types L : Link C.

(** What one read of [one] does when the parser needs more input. *)
Lemma one_more fuel L sk rf q :
  rb_inv (read_buf_ L) q -> zlen q < 2 ^ 56 ->
  tryParse (max_payload (opts_ L)) (read_buf_ L) Resp2Monostate = Ok (0, rf) ->
  (stream sk = [] /\ exists rb sk', one (S fuel) L sk = Some (Err (UnavailableError (lit "eof")), set_read_buf rb L, sk')) \/
  (exists d rb sk', stream sk = d ++ stream sk' /\ 0 < zlen d /\ rb_inv rb (q ++ d) /\
     one (S fuel) L sk = one fuel (set_read_buf rb L) sk').
Proof.
  intros Hrb Hq Hp. cbn [one]. rewrite Hp. cbn [Z.ltb Z.compare].
  destruct (rb_inv_ensure _ _ 8192 Hrb) as [Hrb' Hroom]; [unfold kInitialCapacity; lia|done|].
  set (rb := ensure_writable 8192 (read_buf_ L)) in *.
  destruct (sock_read_spec (writable_size rb) sk ltac:(lia)) as (d & sk' & -> & Hs & Hd & Hpos).
  destruct (Z.eqb_spec (zlen d) 0) as [E|E].
  - left. split; [|eauto]. destruct (stream sk) eqn:Es; [done|]. specialize (Hpos ltac:(done)). lia.
  - right. destruct (rb_inv_fill rb _ d Hrb' Hd) as (rb' & -> & Hrb''). exists d, rb', sk'.
    pose proof (zlen_nonneg d). split_and!; [done|lia|done|done].
Qed.

(** [one] returns the frame the stream starts with, however it is split. *)
Lemma one_frame fuel : forall L sk q f es rest,
  rb_inv (read_buf_ L) q -> frame_accepted (max_payload (opts_ L)) f -> frame_value f = VArray es ->
  q ++ stream sk = encodeFrame [] f ++ rest -> zlen (q ++ stream sk) < 2 ^ 56 ->
  (length (stream sk) < fuel)%nat ->
  exists rb q' sk', one fuel L sk = Some (Ok (frame_map (fun _ => mkBulkView 0 0) f), set_read_buf rb L, sk') /\
    rb_inv rb q' /\ q' ++ stream sk' = rest /\ (length (stream sk') <= length (stream sk))%nat.
Proof.
  induction fuel as [|fuel IH]; intros L sk q f es rest Hrb Hf Hes Hq Hlen Hfuel; [lia|].
  destruct (parse_prefix _ _ _ f rest (stream sk) Hrb Hf Hq)
    as [(rf & Hp & Hne)|(q' & rf & g & Eq & Erest & Hp & Hpos & Hg & Hres)].
  - destruct (one_more fuel L sk rf q Hrb) as [[Es _]|(d & rb & sk' & Hs & Hd & Hrb' & ->)];
      [rewrite zlen_app in Hlen; pose proof (zlen_nonneg (stream sk)); lia|done..|].
    rewrite Hs, app_assoc in Hq, Hlen. rewrite Hs, length_app in Hfuel |- *.
    destruct (IH (set_read_buf rb L) sk' (q ++ d) f es rest) as (rb2 & q2 & sk2 & E & H1' & H2' & H3'); try done.
    { unfold zlen in Hd. lia. }
    exists rb2, q2, sk2. split_and!; [done..|lia].
  - cbn [one]. rewrite Hp, (proj2 (Z.ltb_lt _ _)) by lia.
    assert (rf = Resp2ArrayFrame es) as ->.
    { pose proof Hrb as (Hwf & Hv & _). pose proof (tryParse_refines (max_payload (opts_ L)) _ Resp2Monostate Hwf) as Hr.
      unfold tryParse_agrees in Hr. rewrite Hv, Eq in Hr. destruct Hf as (Hfw & Hm & Hi).
      rewrite encodeFrame_wire, app_nil_l, spec_value_wire in Hr by done.
      destruct Hr as (n & rf' & E' & _ & _ & Hden & _). rewrite Hp in E'. injection E' as _ <-.
      rewrite Hes in Hden. destruct rf; cbn in Hden; congruence. }
    rewrite (decode_array_value _ f es) by (done || apply Hf).
    eexists _, q', sk. split; [done|]. split; [|done].
    replace q' with (drop (Z.to_nat (zlen (encodeFrame [] f))) q).
    * apply rb_inv_consume; [done|]. rewrite Eq, zlen_app. pose proof (zlen_nonneg q'). lia.
    * rewrite Eq, zlen_to_nat. apply drop_app_length.
Qed.

(** Conversely, what [one] returned was on the stream. *)
Lemma one_sound fuel : forall L sk q g L' sk',
  rb_inv (read_buf_ L) q -> zlen (q ++ stream sk) < 2 ^ 56 -> one fuel L sk = Some (Ok g, L', sk') ->
  exists rb q' v w, L' = set_read_buf rb L /\ rb_inv rb q' /\ value_image (max_payload (opts_ L)) v w /\
    q ++ stream sk = w ++ q' ++ stream sk' /\
    (forall es, v = VArray es -> decodeShineFrame [] (Resp2ArrayFrame es) = Ok g) /\
    (forall p, v = VBulk p -> exists s b, g = DataFrame s b).
Proof.
  induction fuel as [|fuel IH]; intros L sk q g L' sk' Hrb Hlen E; [done|].
  pose proof Hrb as (Hwf & Hv & _). pose proof (tryParse_refines (max_payload (opts_ L)) _ Resp2Monostate Hwf) as Hr.
  unfold tryParse_agrees in Hr. rewrite Hv in Hr. pose proof (zlen_nonneg (stream sk)).
  destruct (spec_value _ q) as [|s|v r] eqn:Es.
  - destruct (one_more fuel L sk _ q Hrb ltac:(rewrite zlen_app in Hlen; lia) Hr)
      as [[_ (rb & sk1 & E1)]|(d & rb & sk1 & Hs & Hd & Hrb' & E1)]; rewrite E1 in E; [discriminate|].
    rewrite Hs, app_assoc in Hlen |- *. by apply (IH (set_read_buf rb L)).
  - cbn [one] in E. rewrite Hr in E. discriminate.
  - destruct Hr as (n & rf & Hp & Hn & Hd & Hden & Hval). cbn [one] in E.
    rewrite Hp, (proj2 (Z.ltb_lt _ _)) in E by lia. injection E as Eg <- <-.
    destruct (spec_value_sound _ _ _ _ Es) as (w & Hw & ->).
    eexists _, r, v, w. split; [done|]. split; [rewrite <- Hd; by apply rb_inv_consume; [|lia]|].
    split; [done|]. split; [by rewrite <- app_assoc|].
    destruct rf as [|b|arr]; cbn in Hden; [done|injection Hden as <-..]; split; intros ? [= <-].
    + unfold decodeShineFrame, decodeData in Eg. res_inv Eg. injection Eg as <-. eauto.
    + exact Eg.
Qed.

(** [one] always returns, and never reads outside the buffer. *)
Lemma one_total fuel : forall L sk q,
  rb_inv (read_buf_ L) q -> zlen (q ++ stream sk) < 2 ^ 56 -> (length (stream sk) < fuel)%nat ->
  exists r L' sk', one fuel L sk = Some (r, L', sk') /\ r <> UB /\
    exists rb q', L' = set_read_buf rb L /\ rb_inv rb q' /\
      zlen (q' ++ stream sk') <= zlen (q ++ stream sk) /\ (length (stream sk') <= length (stream sk))%nat.
Proof.
  induction fuel as [|fuel IH]; intros L sk q Hrb Hlen Hfuel; [lia|].
  pose proof Hrb as (Hwf & Hv & Hcap). pose proof (tryParse_refines (max_payload (opts_ L)) _ Resp2Monostate Hwf) as Hr.
  unfold tryParse_agrees in Hr. rewrite Hv in Hr. pose proof (zlen_nonneg (stream sk)).
  assert (L = set_read_buf (read_buf_ L) L) as HL by (by destruct L).
  rewrite !zlen_app in Hlen |- *. destruct (spec_value _ q) as [|s|v r] eqn:Es.
  - destruct (rb_inv_ensure _ _ 8192 Hrb) as [Hrb1 Hroom]; [unfold kInitialCapacity; lia|lia|].
    cbn [one]. rewrite Hr. cbn [Z.ltb Z.compare]. set (rb := ensure_writable 8192 (read_buf_ L)) in *.
    destruct (sock_read_spec (writable_size rb) sk ltac:(lia)) as (d & sk' & -> & Hs & Hd & Hpos).
    rewrite Hs, zlen_app in Hlen. pose proof (zlen_nonneg d). destruct (Z.eqb_spec (zlen d) 0) as [E|E].
    + eexists _, _, _. split; [done|]. split; [done|]. exists rb, q. rewrite Hs, length_app, !zlen_app.
      split_and!; [done..|lia|lia].
    + destruct (rb_inv_fill rb _ d Hrb1 Hd) as (rb' & -> & Hrb').
      destruct (IH (set_read_buf rb' L) sk' (q ++ d)) as (r & L' & sk2 & -> & Hr' & rb2 & q2 & -> & ? & ? & ?).
      * done.
      * rewrite <- app_assoc, !zlen_app. lia.
      * rewrite Hs, length_app in Hfuel. unfold zlen in *. lia.
      * eexists _, _, _. split; [done|]. split; [done|]. exists rb2, q2. rewrite !zlen_app in *. rewrite Hs, length_app, ?zlen_app. split_and!; [done..|lia|lia].
  - cbn [one]. rewrite Hr. eexists _, _, _. split; [done|]. split; [done|]. exists (read_buf_ L), q. rewrite !zlen_app.
    split_and!; [done..|lia|lia].
  - destruct Hr as (n & rf & Hp & Hn & Hd & _ & Hval). cbn [one]. rewrite Hp, (proj2 (Z.ltb_lt _ _)) by lia.
    rewrite <- Hv in Hn. destruct (consume_spec _ n Hwf ltac:(lia)) as (_ & _ & Hsame).
    eexists _, _, _. split; [done|]. split.
    + assert (decode_good (buf_ (consume n (read_buf_ L))) (decodeShineFrame (buf_ (consume n (read_buf_ L))) rf)) as Hg.
      { apply decodeShineFrame_good; [|lia]. destruct rf; [done| |done]. cbn in *. by rewrite Hsame. }
      intros E. by rewrite E in Hg.
    + exists (consume n (read_buf_ L)), r. split; [done|]. rewrite <- Hd.
      split; [apply rb_inv_consume; [done|rewrite <- Hv; lia]|]. rewrite ?zlen_app, zlen_drop by (rewrite <- Hv; lia).
      split; lia.
Qed.
End Handshake.

(** ** The reader on arbitrary input *)

Section Total.
Context `{AbslOps, !AbslSpec} {C : Type -> Type} `{ChannelSpec C}.
Implicit Types L : Link C.

(** One iteration ends the loop with the link failed, or brings it forward. *)
Lemma reader_iter_total now L sk q :
  closed_ L = false -> rb_inv (read_buf_ L) q -> zlen (q ++ stream sk) < 2 ^ 56 ->
  (exists L' sk', reader_iter now L sk = Ok (LoopOver, L', sk') /\ closed_ L' = true) \/
  (exists t L' sk' q', reader_iter now L sk = Ok (t, L', sk') /\ t <> LoopOver /\ closed_ L' = false /\ opts_ L' = opts_ L /\
     rb_inv (read_buf_ L') q' /\ zlen (q' ++ stream sk') < 2 ^ 56 /\
     (2 * length (stream sk') + length q' < 2 * length (stream sk) + length q)%nat).
Proof.
  intros Hcl Hrb Hlen. pose proof Hrb as (Hwf & Hv & Hcap).
  pose proof (tryParse_refines (max_payload (opts_ L)) _ Resp2Monostate Hwf) as Hr.
  unfold tryParse_agrees in Hr. rewrite Hv in Hr. pose proof (zlen_nonneg (stream sk)). rewrite zlen_app in Hlen.
  destruct (spec_value _ q) as [|s|v r] eqn:Es.
  - destruct (reader_iter_more now L sk Resp2Monostate Hcl) as [Heof Hrd]; [by rewrite Hv|rewrite Hv; lia|done|].
    destruct (decide (stream sk = [])) as [E|E].
    + destruct (Heof E) as (rb & sk' & -> & _). left. eexists _, _. split; [done|]. apply failLink_closed.
    + destruct (Hrd E) as (d & rb & sk' & -> & Hs & Hd & Hrb'). right. rewrite Hv in Hrb'.
      eexists _, _, _, (q ++ d). do 5 (split; [done|]).
      rewrite <- app_assoc, <- Hs, zlen_app. split; [lia|]. rewrite Hs, !length_app. unfold zlen in Hd. lia.
  - left. unfold reader_iter. rewrite Hcl, Hr. eexists _, _. split; [done|]. apply failLink_closed.
  - destruct Hr as (n & rf & Hp & Hn & Hd & _ & Hval). unfold reader_iter.
    rewrite Hcl, Hp, (proj2 (Z.eqb_neq _ _)) by lia.
    assert (decode_good (buf_ (read_buf_ L)) (decodeShineFrame (buf_ (read_buf_ L)) rf)) as Hg
      by (apply decodeShineFrame_good; [done|lia]).
    destruct (decodeShineFrame (buf_ (read_buf_ L)) rf) as [g|e|]; [| |done].
    + right. set (f := resolve (buf_ (read_buf_ L)) g). destruct (dispatch_fields now f L) as (Hcl' & Ho' & Hb').
      eexists _, _, _, r. split; [done|]. split; [done|]. split; [cbn; congruence|]. split; [done|]. cbn [read_buf_ set_read_buf]. rewrite Hb', <- Hd.
      split; [apply rb_inv_consume; [done|lia]|]. rewrite zlen_app, zlen_drop, length_drop by lia.
      unfold zlen in *. split; lia.
    + left. eexists _, _. split; [done|]. apply failLink_closed.
Qed.

(** Where the loop stops on its own: over, with the link closed, or suspended. *)
Definition reader_stopped L : Prop :=
  closed_ L = true \/ exists f L0, dispatch_suspended f L0 L = true.

Lemma reader_loop_total now fuel : forall L sk q,
  closed_ L = false -> rb_inv (read_buf_ L) q -> zlen (q ++ stream sk) < 2 ^ 56 ->
  (2 * length (stream sk) + length q < fuel)%nat ->
  exists L' sk', readerLoop fuel now L sk = Some (Ok (L', sk')) /\ reader_stopped L'.
Proof.
  induction fuel as [|fuel IH]; intros L sk q Hcl Hrb Hlen Hfuel; [lia|]. cbn [readerLoop].
  destruct (reader_iter_total now L sk q Hcl Hrb Hlen)
    as [(L' & sk' & -> & ?)|(t & L' & sk' & q' & -> & Ht & Hcl' & _ & Hrb' & Hlen' & Hm)].
  - eexists _, _. split; [done|]. by left.
  - assert (exists L2 sk2, readerLoop fuel now L' sk' = Some (Ok (L2, sk2)) /\ reader_stopped L2) as Hgo
      by (apply (IH L' sk' q'); auto; lia).
    destruct t as [|f|]; [done| |done]. destruct (dispatch_suspended f L L') eqn:Es; [|done].
    eexists _, _. split; [done|]. right. by exists f, L.
Qed.

(** ** The writer *)

(** [writerLoop] on a healthy socket until it suspends or returns; what it
    wrote. *)
Fixpoint writer_drain (fuel : nat) L (out : bytes) : bytes * Link C :=
  match fuel with
  | O => (out, L)
  | S fuel =>
      match writer_iter true L with
      | (Return (Some msg), L') => writer_drain fuel L' (out ++ msg)
      | (_, L') => (out, L')
      end
  end.

Definition enqueue_all (ws : list bytes) L : Link C := fold_left (fun l w => enqueueFrame w l) ws L.

Lemma enqueue_all_queue ws : forall L,
  closed_ L = false -> ch_closed (write_chan_ L) = false ->
  closed_ (enqueue_all ws L) = false /\ ch_closed (write_chan_ (enqueue_all ws L)) = false /\
  ch_queue (write_chan_ (enqueue_all ws L)) = ch_queue (write_chan_ L) ++ ws.
Proof.
  unfold enqueue_all. induction ws as [|w ws IH]; intros L Hcl Hch; cbn [fold_left]; [by rewrite app_nil_r|].
  assert (closed_ (enqueueFrame w L) = false /\ ch_closed (write_chan_ (enqueueFrame w L)) = false /\
          ch_queue (write_chan_ (enqueueFrame w L)) = ch_queue (write_chan_ L) ++ [w]) as (E1 & E2 & E3).
  { unfold enqueueFrame. rewrite Hcl. cbn. rewrite send_closed, send_queue, Hch. by rewrite Hcl. }
  destruct (IH _ E1 E2) as (-> & -> & ->). by rewrite E3, <- app_assoc.
Qed.

Lemma writer_drain_queue fuel : forall L out,
  closed_ L = false -> ch_closed (write_chan_ L) = false -> (length (ch_queue (write_chan_ L)) < fuel)%nat ->
  fst (writer_drain fuel L out) = out ++ concat (ch_queue (write_chan_ L)).
Proof.
  induction fuel as [|fuel IH]; intros L out Hcl Hch Hf; [lia|]. cbn [writer_drain].
  unfold writer_iter. rewrite Hcl. destruct (ch_queue (write_chan_ L)) as [|m q] eqn:Eq.
  - rewrite (recv_open_nil _ _ Hch Eq). cbn. by rewrite app_nil_r.
  - destruct (recv_open_cons _ _ _ _ Hch Eq) as (c' & -> & Hq & Hc' & _). cbn [concat].
    case_bool_decide as Em; (rewrite IH; [|done|done|]); cbn [write_chan_ set_write_chan];
      try (rewrite Hq; cbn in Hf; lia).
    + by rewrite Em, Hq, app_nil_r.
    + by rewrite Hq, <- app_assoc.
Qed.

Lemma Link_new_ready opts :
  closed_ (Link_new (C := C) opts) = false /\ rb_inv (read_buf_ (Link_new (C := C) opts)) [] /\
  ch_closed (write_chan_ (Link_new (C := C) opts)) = false /\
  ch_queue (write_chan_ (Link_new (C := C) opts)) = [].
Proof. split; [done|]. split; [apply rb_inv_new|]. cbn. by rewrite make_closed, make_queue. Qed.
End Total.

(** ** Properties *)

Section LinkReaderProperties.
Context `{AbslOps, !AbslSpec} {C : Type -> Type} `{ChannelSpec C}.
Implicit Types L : Link C.

(** From one end of a link to the other: frames enqueued on a link are
    written to the socket in order, and however the network splits the byte
    stream, the reader of the peer dispatches exactly these frames, in this
    order, each once, unless one of them suspends it; then it sees end of file
    and fails its link. *)
Theorem link_to_link_delivery now fs splits fuel fuel' optsA optsB :
  Forall (frame_accepted (max_payload optsB)) fs -> zlen (frames_bytes fs) < 2 ^ 56 ->
  (length fs < fuel)%nat -> (length (frames_bytes fs) + length fs < fuel')%nat ->
  unsuspended now fs (Link_new (C := C) optsB) ->
  let A := enqueue_all (map (encodeFrame []) fs) (Link_new (C := C) optsA) in
  let B := Link_new (C := C) optsB in
  let wire := fst (writer_drain fuel A []) in
  wire = frames_bytes fs /\
  exists rb sk', stream sk' = [] /\
    readerLoop fuel' now B (mkSock wire splits)
    = Some (Ok (set_read_buf rb (failLink (dispatch_all now fs B)), sk')).
Proof.
  intros Hfs Hlen Hf Hf' Hun A B wire. destruct (Link_new_ready (C := C) optsA) as (Ha1 & _ & Ha3 & Ha4).
  destruct (enqueue_all_queue (map (encodeFrame []) fs) _ Ha1 Ha3) as (E1 & E2 & E3). rewrite Ha4 in E3.
  assert (wire = frames_bytes fs) as Hw.
  { unfold wire, A. rewrite writer_drain_queue; [by rewrite E3|done|done|]. by rewrite E3, app_nil_l, length_map. }
  split; [done|]. rewrite Hw. destruct (Link_new_ready (C := C) optsB) as (Hb1 & Hb2 & _).
  by apply (reader_loop_frames now fuel' B (mkSock (frames_bytes fs) splits) fs []).
Qed.

(** The reader survives any input: on an arbitrary byte stream, split in
    any way, the reader loop, run alone, comes to an end and never leaves its buffer; it
    returns with the link closed or is suspended in the dispatch of a frame. *)
Theorem reader_survives_any_input now opts s splits fuel :
  zlen s < 2 ^ 56 -> (2 * length s < fuel)%nat ->
  exists L' sk', readerLoop fuel now (Link_new (C := C) opts) (mkSock s splits) = Some (Ok (L', sk')) /\
    reader_stopped L'.
Proof.
  intros Hs Hf. destruct (Link_new_ready (C := C) opts) as (H1' & H2' & _).
  apply (reader_loop_total now fuel _ (mkSock s splits) []); [done..|]. cbn. lia.
Qed.

(** An AUTH frame only comes from an AUTH command. *)
Lemma decode_auth arr cmd pw :
  decodeArray arr cmd = Ok (AuthFrame pw) -> cmd = lit "AUTH" /\ zget arr 1 = Some pw.
Proof.
  intros E. unfold decodeArray in E. destruct (decide (cmd = lit "HELLO")); [by res_inv E|].
  destruct (decide (cmd = lit "AUTH")) as [->|].
  - split; [done|]. res_inv E. injection E as ->.
    match goal with E : rd arr 1 = Ok _ |- _ => unfold rd in E; by destruct (zget arr 1); simplify_eq end.
  - by repeat (destruct (decide _) in E; [res_inv E|]).
Qed.

Lemma auth_value (v : Resp2Value) (pw : bytes) :
  (forall es, v = VArray es -> decodeShineFrame [] (Resp2ArrayFrame es) = Ok (AuthFrame pw)) ->
  (forall p, v = VBulk p -> exists s b, AuthFrame pw = DataFrame (P := BulkStringView) s b) ->
  exists more, v = VArray (lit "AUTH" :: pw :: more).
Proof.
  intros Ha Hb. destruct v as [p|es]; [destruct (Hb p eq_refl) as (? & ? & [=])|].
  specialize (Ha es eq_refl). destruct es as [|cmd es]; [done|]. cbn in Ha.
  apply decode_auth in Ha as [-> Hz]. destruct es as [|p es]; [done|]. injection Hz as ->. by exists es.
Qed.

Definition hello_frame : ShineFrame bytes := HelloFrame (lit "1") handshake_features.

Lemma hello_accepted m : 8 <= m -> frame_accepted m hello_frame.
Proof.
  intros Hm. split; [done|]. unfold value_fits, hello_frame, frame_value, INT64_MAX.
  split; (split; [done|]); repeat constructor;
    change (zlen (lit "HELLO")) with 5; change (zlen (lit "1")) with 1; change (zlen handshake_features) with 8; lia.
Qed.

Lemma auth_accepted m pw : 8 <= m -> zlen pw <= m -> zlen pw < 2 ^ 56 -> frame_accepted m (AuthFrame pw).
Proof.
  intros Hm Hp Hp'. split; [done|]. unfold value_fits, frame_value, INT64_MAX.
  split; (split; [done|]); repeat constructor; change (zlen (lit "AUTH")) with 4; lia.
Qed.

Lemma ok_accepted m : 8 <= m -> frame_accepted m OkFrame.
Proof.
  intros Hm. split; [done|]. unfold value_fits, frame_value, INT64_MAX.
  split; (split; [done|]); repeat constructor; change (zlen (lit "OK")) with 2; lia.
Qed.

(** What each side sends in a handshake with password [pw]. *)
Definition client_flight (pw : bytes) : list bytes :=
  if decide (pw = []) then [hello] else [hello; encodeAuth [] pw].
Definition server_flight (pw : bytes) : list bytes :=
  if decide (pw = []) then [hello] else [hello; encodeOk []].

Lemma enqueue_open L w :
  closed_ L = false -> ch_closed (write_chan_ L) = false ->
  closed_ (enqueueFrame w L) = false /\ ch_closed (write_chan_ (enqueueFrame w L)) = false /\
  ch_queue (write_chan_ (enqueueFrame w L)) = ch_queue (write_chan_ L) ++ [w].
Proof. apply (enqueue_all_queue [w]). Qed.

(** A link on which nothing has happened, and what a handshake that sent [out]
    and read up to [q] makes of it. *)
Definition fresh_link L : Prop :=
  closed_ L = false /\ rb_inv (read_buf_ L) [] /\ ch_closed (write_chan_ L) = false /\ ch_queue (write_chan_ L) = [].
Definition shaken L L' (out : list bytes) (q : bytes) : Prop :=
  exists rb c, L' = set_write_chan c (set_read_buf rb L) /\ rb_inv rb q /\ ch_closed c = false /\ ch_queue c = out /\
    ch_bound c = ch_bound (write_chan_ L).

Lemma shaken_fresh L : fresh_link L -> shaken L L [] [].
Proof. intros (_ & Hrb & Hc & Hq). exists (read_buf_ L), (write_chan_ L). by destruct L. Qed.

Lemma shaken_read L L' out q q' rb : shaken L L' out q -> rb_inv rb q' -> shaken L (set_read_buf rb L') out q'.
Proof. intros (rb0 & c & -> & _ & Hc & Hq) Hrb. by exists rb, c. Qed.

Lemma shaken_send L L' out q w :
  closed_ L = false -> shaken L L' out q -> shaken L (enqueueFrame w L') (out ++ [w]) q.
Proof.
  intros Hcl (rb & c & -> & Hrb & Hc & Hq). exists rb, (ch_async_send w c). unfold enqueueFrame. cbn. rewrite Hcl.
  destruct Hq as [Hq Hb]. by rewrite send_closed, send_queue, send_bound, Hc, Hq, Hb.
Qed.

Lemma shaken_fields L L' out q :
  shaken L L' out q -> opts_ L' = opts_ L /\ closed_ L' = closed_ L /\ rb_inv (read_buf_ L') q /\
    ch_closed (write_chan_ L') = false /\ ch_queue (write_chan_ L') = out.
Proof. by intros (rb & c & -> & Hrb & Hc & Hq & _). Qed.

Lemma shaken_bound L L' out q : shaken L L' out q -> ch_bound (write_chan_ L') = ch_bound (write_chan_ L).
Proof. by intros (rb & c & -> & _ & _ & _ & Hb). Qed.

(** Reading the next frame of a handshake. *)
Lemma one_shaken fuel L L1 out q sk f es rest :
  shaken L L1 out q -> frame_accepted (max_payload (opts_ L)) f -> frame_value f = VArray es ->
  q ++ stream sk = encodeFrame [] f ++ rest -> zlen (q ++ stream sk) < 2 ^ 56 -> (length (stream sk) < fuel)%nat ->
  exists L2 q' sk', one fuel L1 sk = Some (Ok (frame_map (fun _ => mkBulkView 0 0) f), L2, sk') /\
    shaken L L2 out q' /\ q' ++ stream sk' = rest /\ (length (stream sk') <= length (stream sk))%nat.
Proof.
  intros Hs Hf Hes Hq Hlen Hfuel. destruct (shaken_fields _ _ _ _ Hs) as (Ho & _ & Hrb & _). rewrite <- Ho in Hf.
  destruct (one_frame fuel L1 sk q f es rest Hrb Hf Hes Hq Hlen Hfuel) as (rb & q' & sk' & E & Hrb' & ? & ?).
  exists (set_read_buf rb L1), q', sk'. split; [done|]. split; [by eapply shaken_read|done].
Qed.

Lemma server_completes L sk rest fuel :
  fresh_link L -> 8 <= max_payload (opts_ L) -> zlen (password (opts_ L)) <= max_payload (opts_ L) ->
  stream sk = concat (client_flight (password (opts_ L))) ++ rest ->
  zlen (stream sk) < 2 ^ 56 -> (length (stream sk) < fuel)%nat ->
  exists L' q' sk', handshakeServer fuel L sk = Some (Ok (L', sk')) /\
    shaken L L' (server_flight (password (opts_ L))) q' /\ q' ++ stream sk' = rest /\
    (length (stream sk') <= length (stream sk))%nat.
Proof.
  intros Hfr Hm Hpw Es Hs Hf. pose proof Hfr as (Hcl & _). set (pw := password (opts_ L)) in *.
  assert (stream sk = encodeFrame [] hello_frame ++ concat (tail (client_flight pw)) ++ rest) as Es'
    by (rewrite Es; unfold client_flight; by destruct (decide _); cbn [concat tail]; rewrite <- !app_assoc).
  unfold handshakeServer.
  destruct (one_shaken fuel L L [] [] sk hello_frame _ _ (shaken_fresh L Hfr) (hello_accepted _ Hm) eq_refl Es' Hs Hf)
    as (L1 & q1 & sk1 & -> & Hs1 & Hrest & Hn). cbn [mbind option_bind frame_map hello_frame].
  apply (shaken_send _ _ _ _ hello Hcl) in Hs1. destruct (shaken_fields _ _ _ _ Hs1) as (Ho2 & _).
  set (L2 := enqueueFrame hello L1) in *. rewrite Ho2. fold pw. unfold client_flight, server_flight in *.
  destruct (decide (pw = [])) as [E|E].
  - rewrite bool_decide_eq_true_2 by done. by exists L2, q1, sk1.
  - rewrite bool_decide_eq_false_2 by done. cbn [tail concat] in Hrest. rewrite app_nil_r in Hrest.
    assert (zlen (q1 ++ stream sk1) < 2 ^ 56) as Hl1.
    { rewrite Hrest. rewrite Es', zlen_app in Hs. cbn [tail concat] in Hs. rewrite app_nil_r in Hs.
      pose proof (zlen_nonneg (encodeFrame [] hello_frame)). lia. }
    assert (zlen pw < 2 ^ 56) as Hpw'.
    { assert (zlen pw <= zlen (encodeAuth [] pw)) as Ha.
      { unfold encodeAuth. rewrite writeArray_wire. apply wire_array_elem. right. left. }
      rewrite Hrest, zlen_app in Hl1. pose proof (zlen_nonneg rest). lia. }
    destruct (one_shaken fuel L L2 _ q1 sk1 (AuthFrame pw) _ rest Hs1 (auth_accepted _ _ Hm Hpw Hpw') eq_refl Hrest Hl1)
      as (L3 & q3 & sk3 & -> & Hs3 & Hrest3 & Hn3); [lia|].
    cbn [mbind option_bind frame_map]. destruct (shaken_fields _ _ _ _ Hs3) as (-> & _). fold pw.
    rewrite bool_decide_eq_true_2 by done. cbn [negb].
    eexists _, q3, sk3. split; [done|]. split; [by apply (shaken_send _ _ _ _ (encodeOk []) Hcl) in Hs3|]. split; [done|lia].
Qed.

Lemma client_completes L sk rest fuel :
  fresh_link L -> 8 <= max_payload (opts_ L) ->
  stream sk = concat (server_flight (password (opts_ L))) ++ rest ->
  zlen (stream sk) < 2 ^ 56 -> (length (stream sk) < fuel)%nat ->
  exists L' q' sk', handshakeClient fuel L sk = Some (Ok (L', sk')) /\
    shaken L L' (client_flight (password (opts_ L))) q' /\ q' ++ stream sk' = rest /\
    (length (stream sk') <= length (stream sk))%nat.
Proof.
  intros Hfr Hm Es Hs Hf. pose proof Hfr as (Hcl & _). set (pw := password (opts_ L)) in *.
  assert (stream sk = encodeFrame [] hello_frame ++ concat (tail (server_flight pw)) ++ rest) as Es'
    by (rewrite Es; unfold server_flight; by destruct (decide _); cbn [concat tail]; rewrite <- !app_assoc).
  unfold handshakeClient. pose proof (shaken_send _ _ _ _ hello Hcl (shaken_fresh L Hfr)) as Hs0.
  destruct (one_shaken fuel L _ _ [] sk hello_frame _ _ Hs0 (hello_accepted _ Hm) eq_refl Es' Hs Hf)
    as (L1 & q1 & sk1 & -> & Hs1 & Hrest & Hn). cbn [mbind option_bind frame_map hello_frame].
  destruct (shaken_fields _ _ _ _ Hs1) as (-> & _). fold pw. unfold client_flight, server_flight in *.
  destruct (decide (pw = [])) as [E|E].
  - rewrite bool_decide_eq_true_2 by done. by exists L1, q1, sk1.
  - rewrite bool_decide_eq_false_2 by done. cbn [tail concat] in Hrest. rewrite app_nil_r in Hrest.
    assert (zlen (q1 ++ stream sk1) < 2 ^ 56) as Hl1.
    { rewrite Hrest. rewrite Es', zlen_app in Hs. cbn [tail concat] in Hs. rewrite app_nil_r in Hs.
      pose proof (zlen_nonneg (encodeFrame [] hello_frame)). lia. }
    apply (shaken_send _ _ _ _ (encodeAuth [] pw) Hcl) in Hs1.
    destruct (one_shaken fuel L _ _ q1 sk1 OkFrame _ rest Hs1 (ok_accepted _ Hm) eq_refl Hrest Hl1)
      as (L3 & q3 & sk3 & -> & Hs3 & Hrest3 & Hn3); [lia|].
    cbn [mbind option_bind frame_map]. exists L3, q3, sk3. split; [done|]. split; [exact Hs3|]. split; [done|lia].
Qed.

Lemma fresh_new opts : fresh_link (Link_new (C := C) opts).
Proof. apply Link_new_ready. Qed.

(** The stream [s] starts with two values of which the second is an AUTH command
    with the password [pw]. *)
Definition authenticates (m : Z) (pw s : bytes) : Prop :=
  exists v1 w1 w2 more rest, s = w1 ++ w2 ++ rest /\ value_image m v1 w1 /\
    value_image m (VArray (lit "AUTH" :: pw :: more)) w2.

(** Reading whatever comes in a handshake. *)
Lemma one_any fuel L L1 out q sk :
  shaken L L1 out q -> zlen (q ++ stream sk) < 2 ^ 56 -> (length (stream sk) < fuel)%nat ->
  exists r L2 q' sk', one fuel L1 sk = Some (r, L2, sk') /\ r <> UB /\ shaken L L2 out q' /\
    zlen (q' ++ stream sk') <= zlen (q ++ stream sk) /\ (length (stream sk') <= length (stream sk))%nat /\
    forall g, r = Ok g -> exists v w, value_image (max_payload (opts_ L)) v w /\ q ++ stream sk = w ++ q' ++ stream sk' /\
      (forall es, v = VArray es -> decodeShineFrame [] (Resp2ArrayFrame es) = Ok g) /\
      (forall p, v = VBulk p -> exists s b, g = DataFrame s b).
Proof.
  intros Hs Hlen Hf. destruct (shaken_fields _ _ _ _ Hs) as (Ho & _ & Hrb & _).
  destruct (one_total fuel L1 sk q Hrb Hlen Hf) as (r & L2 & sk2 & E & Hr & rb & q2 & EL & Hrb2 & Hz & Hn).
  exists r, L2, q2, sk2. do 2 (split; [done|]). split; [rewrite EL; by eapply shaken_read|]. do 2 (split; [done|]).
  intros g ->. destruct (one_sound fuel L1 sk q g L2 sk2 Hrb Hlen E) as (rb' & q' & v & w & EL' & Hrb' & Hv & Hq & Ha & Hb).
  rewrite EL in EL'. apply (f_equal read_buf_) in EL'. cbn in EL'. subst rb'.
  assert (q' = q2) as -> by (destruct Hrb2 as (_ & <- & _), Hrb' as (_ & <- & _); done).
  rewrite Ho in Hv. by exists v, w.
Qed.

(** How a handshake ends, whatever the peer sends: the link failed, or left as it
    was but for its buffer and its write queue. *)
Definition shaken_or_failed L (sk : Sock) (P : Prop) (o : option (res (Link C * Sock))) : Prop :=
  exists L' sk', o = Some (Ok (L', sk')) /\
    ((exists L1 out q, shaken L L1 out q /\ L' = failLink L1) \/
     (exists out q, shaken L L' out q /\ (length out <= 2)%nat /\ zlen (q ++ stream sk') <= zlen (stream sk) /\
        (length (stream sk') <= length (stream sk))%nat /\ P)).

Lemma outcome_failed L sk P L1 out q sk1 :
  shaken L L1 out q -> shaken_or_failed L sk P (Some (Ok (failLink L1, sk1))).
Proof. intros Hs. eexists _, _. split; [done|]. left. by exists L1, out, q. Qed.

Lemma server_outcome L sk fuel :
  fresh_link L -> zlen (stream sk) < 2 ^ 56 -> (length (stream sk) < fuel)%nat ->
  shaken_or_failed L sk (password (opts_ L) <> [] -> authenticates (max_payload (opts_ L)) (password (opts_ L)) (stream sk))
    (handshakeServer fuel L sk).
Proof.
  intros Hfr Hs Hf. pose proof Hfr as (Hcl & _). unfold handshakeServer.
  destruct (one_any fuel L L [] [] sk (shaken_fresh L Hfr) Hs Hf) as (r1 & L1 & q1 & sk1 & -> & Hr1 & Hs1 & Hz1 & Hn1 & Hg1).
  cbn [mbind option_bind]. destruct r1 as [g1|e|]; [|by eapply outcome_failed|done].
  destruct g1; try by eapply outcome_failed. destruct (Hg1 _ eq_refl) as (v1 & w1 & Hv1 & Eq1 & _). clear Hg1.
  apply (shaken_send _ _ _ _ hello Hcl) in Hs1. destruct (shaken_fields _ _ _ _ Hs1) as (Ho2 & _).
  set (L2 := enqueueFrame hello L1) in *. rewrite Ho2. case_bool_decide as Ep.
  { eexists _, _. split; [done|]. right. eexists _, q1. split; [exact Hs1|]. split; [cbn; lia|done]. }
  cbn [app] in Hz1. destruct (one_any fuel L L2 _ q1 sk1 Hs1) as (r2 & L3 & q2 & sk2 & -> & Hr2 & Hs2 & Hz2 & Hn2 & Hg2); [lia..|].
  cbn [mbind option_bind]. destruct r2 as [g2|e|]; [|by eapply outcome_failed|done].
  destruct g2 as [|pw| | | | | | | | | | | |]; try by eapply outcome_failed.
  destruct (Hg2 _ eq_refl) as (v2 & w2 & Hv2 & Eq2 & Ha & Hb). destruct (shaken_fields _ _ _ _ Hs2) as (-> & _).
  case_bool_decide as Epw; cbn [negb]; [|by eapply outcome_failed, shaken_send]. subst pw.
  eexists _, _. split; [done|]. right. eexists _, q2. split; [by apply shaken_send|]. split; [cbn; lia|]. split; [lia|]. split; [lia|].
  intros _. destruct (auth_value v2 _ Ha Hb) as [more ->]. exists v1, w1, w2, more, (q2 ++ stream sk2).
  cbn [app] in Eq1. by rewrite Eq1, Eq2.
Qed.

Lemma client_outcome L sk fuel :
  fresh_link L -> zlen (stream sk) < 2 ^ 56 -> (length (stream sk) < fuel)%nat ->
  shaken_or_failed L sk True (handshakeClient fuel L sk).
Proof.
  intros Hfr Hs Hf. pose proof Hfr as (Hcl & _). unfold handshakeClient.
  pose proof (shaken_send _ _ _ _ hello Hcl (shaken_fresh L Hfr)) as Hs0.
  destruct (one_any fuel L _ _ [] sk Hs0 Hs Hf) as (r1 & L1 & q1 & sk1 & -> & Hr1 & Hs1 & Hz1 & Hn1 & _).
  cbn [mbind option_bind]. destruct r1 as [g1|e|]; [|by eapply outcome_failed|done].
  destruct g1; try by eapply outcome_failed. case_bool_decide as Ep.
  { eexists _, _. split; [done|]. right. eexists _, q1. split; [exact Hs1|]. split; [cbn; lia|done]. }
  cbn [app] in Hz1. apply (shaken_send _ _ _ _ (encodeAuth [] (password (opts_ L1))) Hcl) in Hs1.
  destruct (one_any fuel L _ _ q1 sk1 Hs1) as (r2 & L3 & q2 & sk2 & -> & Hr2 & Hs2 & Hz2 & Hn2 & _); [lia..|].
  cbn [mbind option_bind]. destruct r2 as [g2|e|]; [|by eapply outcome_failed|done].
  destruct g2; try by eapply outcome_failed. eexists _, _. split; [done|]. right. eexists _, q2. split; [exact Hs2|]. split; [cbn; lia|].
  split; [lia|]. split; [lia|done].
Qed.

(** Authentication: a server link with a password, facing an arbitrary
    peer, always comes out of its handshake; and unless it has failed the link,
    the peer's stream contains, as its second value, an AUTH command carrying
    exactly the configured password. *)
Theorem server_handshake_authenticates opts s splits fuel :
  password opts <> [] -> zlen s < 2 ^ 56 -> (length s < fuel)%nat ->
  exists L' sk', handshakeServer fuel (Link_new (C := C) opts) (mkSock s splits) = Some (Ok (L', sk')) /\
    (closed_ L' = true \/
     exists v1 w1 w2 more rest, s = w1 ++ w2 ++ rest /\ value_image (max_payload opts) v1 w1 /\
       value_image (max_payload opts) (VArray (lit "AUTH" :: password opts :: more)) w2).
Proof.
  intros Hpw Hs Hf.
  destruct (server_outcome (Link_new opts) (mkSock s splits) fuel (fresh_new opts) Hs Hf)
    as (L' & sk' & E & [(L1 & out & q & _ & ->)|(out & q & _ & _ & _ & _ & Ha)]); (eexists _, _; split; [exact E|]).
  - left. apply failLink_closed.
  - right. by apply Ha.
Qed.

(** The two handshakes fit together: a client and a server configured with
    the same password (or none) both complete on each other's output, whatever
    the network does to the stream: each side's input is exactly what the other
    side enqueues, and both links stay open. *)
Theorem handshake_interop optsC optsS splitsC splitsS fuel pw :
  password optsC = pw -> password optsS = pw -> zlen pw <= max_payload optsS -> zlen pw < 2 ^ 56 ->
  8 <= max_payload optsC -> 8 <= max_payload optsS ->
  let to_server := concat (client_flight pw) in
  let to_client := concat (server_flight pw) in
  zlen to_server < 2 ^ 56 -> zlen to_client < 2 ^ 56 ->
  (length to_server < fuel)%nat -> (length to_client < fuel)%nat ->
  exists Lc skc Ls sks,
    handshakeClient fuel (Link_new (C := C) optsC) (mkSock to_client splitsC) = Some (Ok (Lc, skc)) /\
    closed_ Lc = false /\ concat (ch_queue (write_chan_ Lc)) = to_server /\
    handshakeServer fuel (Link_new (C := C) optsS) (mkSock to_server splitsS) = Some (Ok (Ls, sks)) /\
    closed_ Ls = false /\ concat (ch_queue (write_chan_ Ls)) = to_client.
Proof.
  intros <- Hpw Hmax Hlen Hc Hs to_server to_client Hls Hlc Hfs Hfc. unfold to_server, to_client in *.
  destruct (client_completes (Link_new optsC) (mkSock (concat (server_flight (password optsC))) splitsC) [] fuel
    (fresh_new optsC) Hc) as (Lc & q & skc & E1 & Hs1 & _); [by rewrite app_nil_r|done..|].
  rewrite <- Hpw in *.
  destruct (server_completes (Link_new optsS) (mkSock (concat (client_flight (password optsS))) splitsS) [] fuel
    (fresh_new optsS) Hs Hmax) as (Ls & q' & sks & E2 & Hs2 & _); [by rewrite app_nil_r|done..|].
  apply shaken_fields in Hs1 as (_ & E3 & _ & _ & E4), Hs2 as (_ & E5 & _ & _ & E6).
  exists Lc, skc, Ls, sks. rewrite E4, E6. change (opts_ (Link_new optsC)) with optsC. change (opts_ (Link_new optsS)) with optsS.
  rewrite <- Hpw. repeat (split; [done|]). done.
Qed.
End LinkReaderProperties.

(** ** Witnesses *)

Definition demo_opts (pw : bytes) (server : bool) : LinkOptions :=
  mkLinkOptions pw kDefaultInitWindow 15 10 kMaxBulkLen (256 * 1024) server.
Definition demo_frames : list (ShineFrame bytes) :=
  [NewFrame 7 (toBinary (fromDomain (lit "h") 80)) 1000; DataFrame 7 (lit "payload"); CloseFrame 7 []].

Lemma demo_frames_accepted : Forall (frame_accepted (max_payload (demo_opts [] true))) demo_frames.
Proof.
  unfold demo_frames. repeat constructor; try done; repeat constructor; by vm_compute.
Qed.

Lemma link_to_link_delivery_witness :
  let A := enqueue_all (map (encodeFrame []) demo_frames) (Link_new (C := fifo) (demo_opts [] false)) in
  let B := Link_new (C := fifo) (demo_opts [] true) in
  let wire := fst (writer_drain 4 A []) in
  wire = frames_bytes demo_frames /\
  exists rb sk', stream sk' = [] /\
    readerLoop 200 5 B (mkSock wire [1; 2; 3])
    = Some (Ok (set_read_buf rb (failLink (dispatch_all 5 demo_frames B)), sk')).
Proof.
  apply (link_to_link_delivery 5 demo_frames [1; 2; 3] 4 200 (demo_opts [] false) (demo_opts [] true));
    [apply demo_frames_accepted|by vm_compute|cbn; lia|vm_compute; lia|].
  cbn [unsuspended demo_frames]. split_and!; by vm_compute.
Defined.

Lemma reader_survives_any_input_witness :
  exists L' sk', readerLoop 100 5 (Link_new (C := fifo) (demo_opts [] true)) (mkSock (lit "*1 garbage") [4])
                 = Some (Ok (L', sk')) /\ reader_stopped L'.
Proof.
  apply (reader_survives_any_input 5 (demo_opts [] true) (lit "*1 garbage") [4] 100); [by vm_compute|vm_compute; lia].
Defined.

Lemma server_handshake_authenticates_witness :
  let s := concat (client_flight (lit "secret")) in
  exists L' sk',
    handshakeServer 100 (Link_new (C := fifo) (demo_opts (lit "secret") true)) (mkSock s [5]) = Some (Ok (L', sk')) /\
    (closed_ L' = true \/
     exists v1 w1 w2 more rest, s = w1 ++ w2 ++ rest /\ value_image kMaxBulkLen v1 w1 /\
       value_image kMaxBulkLen (VArray (lit "AUTH" :: lit "secret" :: more)) w2).
Proof.
  intros s. apply (server_handshake_authenticates (demo_opts (lit "secret") true) s [5] 100);
    [done|by vm_compute|vm_compute; lia].
Defined.

Lemma handshake_interop_witness :
  let to_server := concat (client_flight (lit "secret")) in
  let to_client := concat (server_flight (lit "secret")) in
  exists Lc skc Ls sks,
    handshakeClient 100 (Link_new (C := fifo) (demo_opts (lit "secret") false)) (mkSock to_client [3]) = Some (Ok (Lc, skc)) /\
    closed_ Lc = false /\ concat (ch_queue (write_chan_ Lc)) = to_server /\
    handshakeServer 100 (Link_new (C := fifo) (demo_opts (lit "secret") true)) (mkSock to_server [5]) = Some (Ok (Ls, sks)) /\
    closed_ Ls = false /\ concat (ch_queue (write_chan_ Ls)) = to_client.
Proof.
  apply (handshake_interop (demo_opts (lit "secret") false) (demo_opts (lit "secret") true) [3] [5] 100 (lit "secret"));
    first [done | by vm_compute | vm_compute; lia].
Defined.
