(* ===== verification/Multiplex.v ===== *)
(** * The reader of a link and the sessions it serves

    [readerLoop] awaits [Session::onData], and [onData] awaits the inbox: while
    one inbox is full the reader of the whole link is suspended.  That bounds
    what any peer can make a session hold; and it lets one session that nobody
    reads stop all the others, the PONGs included, until the heartbeat fails the
    link. *)
From stdpp Require Import gmap relations.
From S2P Require Import Prelude Absl Buffer Resp2 ShineFrame Address Request Channel Socket Session Link LinkReader.
From Stdlib Require Import Strings.Byte.

Section Mux.
Context `{AbslOps} {C : Type -> Type} `{ChannelOps C}.
Implicit Types L : Link C.

(** A link, the frames its peer has sent and the reader has not taken yet, and
    the session whose [onData] the reader called last. *)
Record Mux := mkMux { mx_link : Link C; mx_in : list (ShineFrame bytes); mx_wait : option nat }.

Definition reader_waits (M : Mux) : bool :=
  match mx_wait M with
  | Some p => match heap_ (mx_link M) !! p with Some s => inbox_full s | None => false end
  | None => false
  end.

(** The reader takes the next frame. *)
Definition mux_read (now : Z) (M : Mux) : Mux :=
  match mx_in M with
  | f :: rest =>
      if closed_ (mx_link M) || reader_waits M then M
      else mkMux (dispatchFrame now f (mx_link M)) rest (waits_on f (mx_link M))
  | [] => M
  end.

Inductive mux_step (M : Mux) : Mux -> Prop :=
  | mx_peer f : frame_accepted (max_payload (opts_ (mx_link M))) f ->
      mux_step M (mkMux (mx_link M) (mx_in M ++ [f]) (mx_wait M))
  | mx_read now : mux_step M (mux_read now M)
  | mx_own L' : own_step (mx_link M) L' -> mux_step M (mkMux L' (mx_in M) (mx_wait M)).

(** The same as a function, for the events the heartbeat interleaves with:
    a call on a session leaves it and the link as given. *)
Inductive mux_event :=
  | EvTick (now nonce : Z) | EvPeer (f : ShineFrame bytes) | EvRead (now : Z)
  | EvCall (q : nat) (s' : Session C) (eff : LinkEffects).

Definition mux_do (M : Mux) (e : mux_event) : Mux :=
  match e with
  | EvTick now nonce =>
      if closed_ (mx_link M) then M
      else mkMux (snd (heartbeat_tick now nonce (mx_link M))) (mx_in M) (mx_wait M)
  | EvPeer f => mkMux (mx_link M) (mx_in M ++ [f]) (mx_wait M)
  | EvRead now => mux_read now M
  | EvCall q s' eff => mkMux (call_session q s' eff (mx_link M)) (mx_in M) (mx_wait M)
  end.
Definition mux_run (es : list mux_event) (M : Mux) : Mux := fold_left mux_do es M.

Definition ticks_of (es : list mux_event) : list (Z * Z) :=
  omap (fun e => if e is EvTick now nonce then Some (now, nonce) else None) es.
Definition sent_by_peer (es : list mux_event) : list (ShineFrame bytes) :=
  omap (fun e => if e is EvPeer f then Some f else None) es.
End Mux.
Arguments Mux : clear implicits.
Arguments mux_event : clear implicits.

Section MuxFacts.
Context `{AbslOps} {C : Type -> Type} `{ChannelSpec C}.
Implicit Types (L : Link C) (M : Mux C).

(** ** A reader that is suspended *)

(** What the heartbeat looks at. *)
Definition timers L := (opts_ L, closed_ L, handshake_done_ L, last_pong_ns_ L, pending_ping_nonce_ L, last_ping_sent_ns_ L).

Lemma enqueue_timers w L : timers (enqueueFrame w L) = timers L.
Proof. unfold enqueueFrame. by destruct (closed_ L). Qed.
Lemma call_timers q s' eff L : timers (call_session q s' eff L) = timers L.
Proof.
  unfold call_session, apply_effects. set (L0 := set_heap _ L).
  assert (timers (fold_left (fun l w => enqueueFrame w l) (enqueued eff) L0) = timers L) as E.
  { change (timers L) with (timers L0). generalize L0. induction (enqueued eff) as [|w ws IH]; intros l; [done|].
    cbn [fold_left]. by rewrite IH, enqueue_timers. }
  by destruct (erased eff).
Qed.

(** A tick acts on the timers alone, or fails the link. *)
Lemma tick_timers now nonce L1 L2 :
  timers L1 = timers L2 ->
  (fst (heartbeat_tick now nonce L1) = fst (heartbeat_tick now nonce L2)) /\
  (if fst (heartbeat_tick now nonce L1)
   then timers (snd (heartbeat_tick now nonce L1)) = timers (snd (heartbeat_tick now nonce L2))
   else closed_ (snd (heartbeat_tick now nonce L1)) = true /\ closed_ (snd (heartbeat_tick now nonce L2)) = true).
Proof.
  unfold timers. intros [= E1 E2 E3 E4 E5 E6]. unfold heartbeat_tick. rewrite E1, E3, E4, E5, E6.
  destruct (negb (handshake_done_ L2)); [cbn [fst snd]; by rewrite E1, E2, E3, E4, E5, E6|].
  destruct (_ && _); [cbn [fst snd]; by rewrite !failLink_closed|]. destruct (_ && _); [|cbn [fst snd]; by rewrite E1, E2, E3, E4, E5, E6].
  cbn [fst snd]. split; [done|].
  match goal with |- (opts_ (enqueueFrame ?w ?a), _, _, _, _, _) = (opts_ (enqueueFrame _ ?b), _, _, _, _, _) =>
    change (timers (enqueueFrame w a) = timers (enqueueFrame w b)) end.
  rewrite !enqueue_timers. unfold timers. cbn. by rewrite E1, E2, E3.
Qed.

Lemma tick_heap now nonce L p :
  fst (heartbeat_tick now nonce L) = true -> heap_ (snd (heartbeat_tick now nonce L)) !! p = heap_ L !! p.
Proof.
  unfold heartbeat_tick. destruct (negb (handshake_done_ L)); [done|]. destruct (_ && _); [done|].
  destruct (_ && _); [|done]. intros _. cbn [snd]. by destruct (enqueueFrame_fields (encodePing [] (if nonce =? 0 then 1 else nonce))
    (set_ping (last_pong_ns_ L) (if nonce =? 0 then 1 else nonce) now L)) as (_ & -> & _).
Qed.

Lemma call_heap q p s' eff L : q <> p -> heap_ (call_session q s' eff L) !! p = heap_ L !! p.
Proof.
  intros Hne. unfold call_session, apply_effects.
  destruct (enqueue_all_fields (enqueued eff) (set_heap (<[q:=s']> (heap_ L)) L)) as (_ & Eh & _).
  destruct (erased eff); cbn [heap_ eraseSession set_sessions]; rewrite Eh; cbn; by rewrite list_lookup_insert_ne.
Qed.

Lemma heartbeat_closed ticks L : closed_ L = true -> heartbeatLoop ticks L = L.
Proof. intros Hc. destruct ticks as [|[now nonce] ticks]; cbn; by rewrite ?Hc. Qed.

(** Session [p] is full, and the reader is suspended in its [onData]. *)
Definition blocked_on (p : nat) M : Prop :=
  mx_wait M = Some p /\ exists s, heap_ (mx_link M) !! p = Some s /\ inbox_full s = true.
Definition leaves_alone (p : nat) (e : mux_event C) : Prop :=
  match e with EvCall q _ _ => q <> p | _ => True end.

Lemma blocked_waits p M : blocked_on p M -> reader_waits M = true.
Proof. intros (Ew & s & Hs & Hf). unfold reader_waits. by rewrite Ew, Hs. Qed.

Lemma mux_read_stopped now M : closed_ (mx_link M) = true \/ reader_waits M = true -> mux_read now M = M.
Proof. intros Hs. unfold mux_read. destruct (mx_in M); [done|]. destruct Hs as [-> | ->]; by rewrite ?orb_true_r. Qed.

(** Until somebody reads [p], nothing the peer sends is taken, and the link is
    what the heartbeat alone would make of it. *)
Lemma blocked_run p (es : list (mux_event C)) : forall M L,
  Forall (leaves_alone p) es ->
  (closed_ (mx_link M) = true /\ closed_ L = true) \/ (blocked_on p M /\ timers (mx_link M) = timers L) ->
  mx_in (mux_run es M) = mx_in M ++ sent_by_peer es /\
  closed_ (mx_link (mux_run es M)) = closed_ (heartbeatLoop (ticks_of es) L).
Proof.
  induction es as [|e es IH]; intros M L Hes Hsim.
  { split; [by rewrite app_nil_r|]. cbn. destruct Hsim as [[-> ->]|[_ E]]; [done|]. by injection E. }
  apply Forall_cons in Hes as [He Hes]. cbn [mux_run fold_left]. change (fold_left mux_do es ?m) with (mux_run es m).
  destruct e as [now nonce|f|now|q s' eff]; cbn [mux_do].
  - change (ticks_of (EvTick now nonce :: es)) with ((now, nonce) :: ticks_of es). cbn [heartbeatLoop].
    destruct Hsim as [[Hc1 Hc2]|[Hb E]].
    + rewrite Hc1, Hc2. destruct (IH M L Hes) as [-> ->]; [by left|]. by rewrite !heartbeat_closed.
    + assert (closed_ (mx_link M) = closed_ L) as Ec by (by injection E). rewrite Ec. destruct (closed_ L) eqn:Ec2.
      { destruct (IH M L Hes) as [-> ->]; [by left|]. by rewrite !heartbeat_closed. }
      destruct (tick_timers now nonce _ _ E) as [Ef Et]. pose proof (tick_heap now nonce (mx_link M) p) as Hh.
      destruct (heartbeat_tick now nonce L) as [go L'] eqn:EL. cbn [fst snd] in Ef, Et. rewrite Ef in Et, Hh. destruct go.
      * apply (IH (mkMux _ (mx_in M) (mx_wait M)) L'); [done|]. right. split; [|done]. destruct Hb as (Hw & s & Hs & Hf). split; [done|]. exists s. cbn [mx_link].
        by rewrite Hh.
      * destruct Et as [Et1 Et2]. destruct (IH (mkMux (snd (heartbeat_tick now nonce (mx_link M))) (mx_in M) (mx_wait M)) L' Hes)
          as [-> ->]; [by left|]. by rewrite !heartbeat_closed.
  - change (sent_by_peer (EvPeer f :: es)) with ([f] ++ sent_by_peer es). rewrite app_assoc. by apply (IH (mkMux _ _ _)).
  - rewrite mux_read_stopped; [by apply IH|]. destruct Hsim as [[? _]|[Hb _]]; [by left|right; by eapply blocked_waits].
  - apply (IH (mkMux _ _ _)); [done|]. cbn [mx_link]. pose proof (call_timers q s' eff (mx_link M)) as Et.
    destruct Hsim as [[Hc1 Hc2]|[(Hw & s & Hs & Hf) E]].
    + left. split; [|done]. injection Et as _ Ec _. by rewrite Ec.
    + right. split; [|by rewrite Et]. split; [done|]. exists s. cbn [mx_link]. by rewrite call_heap.
Qed.
End MuxFacts.

(** ** What a session can be made to hold *)

Section InboxBound.
Context `{AbslOps} {C : Type -> Type} `{ChannelSpec C}.
Implicit Types (L : Link C) (M : Mux C) (s : Session C).

(** The inbox of [s'] holds no more than that of [s], and stays closed. *)
Definition inbox_le s s' : Prop :=
  forall c', inbox_ s' = Some c' ->
    exists c, inbox_ s = Some c /\ sublist (ch_queue c') (ch_queue c) /\ (ch_closed c = true -> ch_closed c' = true).
Definition inbox_empty s : Prop := forall c, inbox_ s = Some c -> ch_queue c = [].

Lemma inbox_le_same s s' : inbox_ s' = inbox_ s -> inbox_le s s'.
Proof. intros E c' Hc. exists c'. by rewrite <- E. Qed.
Lemma inbox_le_trans s1 s2 s3 : inbox_le s1 s2 -> inbox_le s2 s3 -> inbox_le s1 s3.
Proof.
  intros H12 H23 c3 E3. destruct (H23 c3 E3) as (c2 & E2 & S2 & Q2). destruct (H12 c2 E2) as (c1 & E1 & S1 & Q1).
  exists c1. split; [done|]. split; [by etrans|auto].
Qed.
Lemma inbox_le_close s s' : inbox_ s' = option_map ch_close (inbox_ s) -> inbox_le s s'.
Proof.
  intros E c' Hc. rewrite E in Hc. destruct (inbox_ s) as [c|]; [|done]. injection Hc as <-. exists c. split; [done|].
  destruct (close_queue _ c) as [q Eq]. rewrite Eq, close_closed. split; [apply sublist_inserts_r|]; done.
Qed.

Lemma session_call_inbox lv s s' eff : session_wf s -> session_call lv s s' eff -> inbox_le s s'.
Proof.
  intros Hwf Hc. destruct Hc as [cap d s' eff Hcap E|rem s' E|rem s' wire rest _ E|s' eff E|s' eff E|data target r s' eff E|r s' E].
  - destruct (protocol_ s) eqn:Hp.
    + destruct (read_return _ _ _ _ _ _ Hcap Hwf Hp E) as (c & c' & left & off & v & k & Hi & Hq & Hcl & -> & _).
      intros c2 [= <-]. exists c. split; [done|]. rewrite Hq, Hcl. split; [by apply sublist_inserts_l|done].
    + destruct Hwf as (_ & Ht). rewrite Hp in Ht. destruct Ht as (Hi & _ & El & _).
      unfold read in E. rewrite El, Hi in E. destruct (_ || _); [|done]. injection E as _ <- _. by apply inbox_le_same.
  - apply inbox_le_same. destruct (write_iter_path lv s rem s') as [Hpath _]; [by left|]. by injection Hpath.
  - apply inbox_le_same. destruct (write_iter_path lv s rem s') as [Hpath _]; [by eauto|]. by injection Hpath.
  - apply inbox_le_same. apply shutdownWrite_path in E. by injection E.
  - apply inbox_le_close. apply close_path in E. by injection E.
  - apply inbox_le_same. apply sendTo_path in E as [E _]. by injection E.
  - apply inbox_le_same. apply receiveFrom_path in E as [E _]. by injection E.
Qed.

(** How an entry of the heap came about. *)
Definition heap_le L L' : Prop :=
  forall p s', heap_ L' !! p = Some s' -> (exists s, heap_ L !! p = Some s /\ inbox_le s s') \/ inbox_empty s'.

Lemma heap_le_same L L' : heap_ L' = heap_ L -> heap_le L L'.
Proof. intros E p s' Hs. left. exists s'. rewrite <- E. split; [done|by apply inbox_le_same]. Qed.

Lemma heap_le_alter L p (f : Session C -> Session C) : (forall s, inbox_le s (f s)) -> heap_le L (on_session p f L).
Proof.
  intros Hf q s' Hs. cbn in Hs. left. destruct (decide (p = q)) as [->|Hne].
  - rewrite list_lookup_alter_eq in Hs. destruct (heap_ L !! q) as [s|]; [|done]. injection Hs as <-. by exists s.
  - rewrite list_lookup_alter_ne in Hs by done. exists s'. split; [done|by apply inbox_le_same].
Qed.

Lemma heap_le_append L L' s0 : heap_ L' = heap_ L ++ [s0] -> inbox_empty s0 -> heap_le L L'.
Proof.
  intros E He p s' Hs. rewrite E in Hs. apply lookup_app_Some in Hs as [Hs|[_ Hs]].
  - left. exists s'. split; [done|by apply inbox_le_same].
  - right. apply list_lookup_singleton_Some in Hs as [_ <-]. done.
Qed.

Lemma Session_new_empty sid a pw ow proto : inbox_empty (Session_new (C := C) sid a pw ow proto).
Proof. intros c. unfold Session_new. cbn. destruct (bool_decide _); [|done]. intros [= <-]. apply make_queue. Qed.

Lemma heap_le_trans L1 L2 L3 : heap_le L1 L2 -> heap_le L2 L3 -> heap_le L1 L3.
Proof.
  intros H12 H23 p s3 E3. destruct (H23 p s3 E3) as [(s2 & E2 & Hle)|]; [|by right].
  destruct (H12 p s2 E2) as [(s1 & E1 & Hle1)|He]; [left; exists s1; split; [done|by eapply inbox_le_trans]|right].
  intros c3 Hc3. destruct (Hle c3 Hc3) as (c2 & Hc2 & Hsub & _). rewrite (He c2 Hc2) in Hsub. by apply sublist_nil_r in Hsub.
Qed.

Lemma failLink_le L : heap_le L (failLink L).
Proof.
  unfold failLink. destruct (closed_ L); [by apply heap_le_same|].
  match goal with |- heap_le L (reset_all ?ps ?l) =>
    apply (heap_le_trans _ l); [by apply heap_le_same|]; generalize l; generalize ps end.
  intros ps. unfold reset_all. induction ps as [|p ps IH]; intros l; [by apply heap_le_same|]. cbn [fold_left].
  eapply heap_le_trans; [|apply IH]. apply heap_le_alter. intros s. by apply inbox_le_close.
Qed.

Lemma call_le L p s s' eff : heap_ L !! p = Some s -> inbox_le s s' -> heap_le L (call_session p s' eff L).
Proof.
  intros Hs Hle. assert (heap_ (call_session p s' eff L) = alter (fun _ => s') p (heap_ L)) as E.
  { unfold call_session, apply_effects. rewrite (list_insert_alter _ _ _ s Hs).
    destruct (enqueue_all_fields (enqueued eff) (set_heap (alter (fun _ => s') p (heap_ L)) L)) as (_ & Eh & _).
    by destruct (erased eff). }
  intros q s1. rewrite E. intros Hq. left. destruct (decide (p = q)) as [->|Hne].
  - rewrite list_lookup_alter_eq, Hs in Hq. injection Hq as <-. by exists s.
  - rewrite list_lookup_alter_ne in Hq by done. exists s1. split; [done|by apply inbox_le_same].
Qed.
End InboxBound.

Section InboxInvariant.
Context `{AbslOps} {C : Type -> Type} `{ChannelSpec C}.
Implicit Types (L : Link C) (M : Mux C) (s : Session C).

Lemma announce_same L : heap_ (gracefulShutdown_announce L) = heap_ L /\ opts_ (gracefulShutdown_announce L) = opts_ L.
Proof.
  unfold gracefulShutdown_announce. generalize (snd <$> map_to_list (sessions_ L)). intros ps. revert L.
  induction ps as [|p ps IH]; intros L; cbn [fold_left]; [done|].
  destruct (heap_ L !! p) as [s|]; [|apply IH].
  destruct (IH (enqueueFrame (encodeClose [] (sid_ s) (lit "shutdown")) L)) as [-> ->].
  by destruct (enqueueFrame_fields (encodeClose [] (sid_ s) (lit "shutdown")) L) as (_ & -> & -> & _).
Qed.

Lemma failLink_opts L : opts_ (failLink L) = opts_ L.
Proof.
  unfold failLink. destruct (closed_ L); [done|].
  match goal with |- opts_ (reset_all ?ps ?l) = _ => by destruct (reset_all_fields ps l) as (_ & -> & _) end.
Qed.

Lemma own_step_le L L' : heap_ok (heap_ L) -> own_step L L' -> heap_le L L' /\ opts_ L' = opts_ L.
Proof.
  intros Hok [p s s' eff Hs Hc|draws target udp p L1 E|now nonce|h now|ok|rb| |sig| | | | |];
    try (by split; [apply heap_le_same|]).
  - split; [eapply call_le; [done|]; by eapply session_call_inbox; [eapply Forall_lookup_1|]|].
    unfold call_session, apply_effects.
    destruct (enqueue_all_fields (enqueued eff) (set_heap (<[p:=s']> (heap_ L)) L)) as (_ & _ & Eo). by destruct (erased eff).
  - unfold openSession in E. destruct (closed_ L); [done|]. destruct (draw_nonzero draws) as [[sid rest]|]; [|done].
    injection E as _ <-. split; [eapply heap_le_append; [|apply Session_new_empty]|];
      by rewrite ?(proj1 (proj2 (enqueueFrame_fields _ _))), ?(proj1 (proj2 (proj2 (enqueueFrame_fields _ _)))).
  - unfold heartbeat_tick. destruct (negb _); [by split; [apply heap_le_same|]|].
    destruct (_ && _); [split; [apply failLink_le|apply failLink_opts]|]. destruct (_ && _); cbn [snd]; [|by split; [apply heap_le_same|]].
    split; [apply heap_le_same|]; apply (enqueueFrame_fields _ (set_ping _ _ _ _)).
  - unfold writer_iter. destruct (closed_ L); [by split; [apply heap_le_same|]|].
    destruct (ch_async_receive (write_chan_ L)) as [[msg| |] c]; [|by split; [apply heap_le_same|]..].
    destruct (bool_decide _); [by split; [apply heap_le_same|]|]. destruct ok; cbn [snd]; [by split; [apply heap_le_same|]|].
    split; [|by rewrite failLink_opts]. eapply heap_le_trans; [|apply failLink_le]. by apply heap_le_same.
  - unfold waitHandshake. destruct (handshake_done_ L), (closed_ L); try (by split; [apply heap_le_same|]).
    destruct (ch_async_receive (handshake_signal_ L)) as [[]]; by split; [apply heap_le_same|].
  - destruct (announce_same L). by split; [apply heap_le_same|].
  - split; [apply failLink_le|apply failLink_opts].
  - unfold closeNow. destruct (closed_ L); by split; [apply heap_le_same|].
Qed.

(** A dispatch puts a payload in the inbox the reader then waits for, and no
    other. *)
Lemma dispatch_inbox now f L q s' :
  heap_ (dispatchFrame now f L) !! q = Some s' ->
  (exists s, heap_ L !! q = Some s /\ inbox_le s s') \/ inbox_empty s' \/
  (exists s sid pl, f = DataFrame sid pl /\ waits_on f L = Some q /\ heap_ L !! q = Some s /\ s' = onData (Some pl) s).
Proof.
  assert (forall L', heap_le L L' -> heap_ L' !! q = Some s' ->
    (exists s, heap_ L !! q = Some s /\ inbox_le s s') \/ inbox_empty s' \/
    (exists s sid pl, f = DataFrame sid pl /\ waits_on f L = Some q /\ heap_ L !! q = Some s /\ s' = onData (Some pl) s)) as Hle
    by (intros L' Hle Hq; destruct (Hle q s' Hq); eauto).
  assert (forall w, heap_le L (enqueueFrame w L)) as Henq
    by (intros w; apply heap_le_same; apply enqueueFrame_fields).
  assert (forall sid win a proto, heap_le L (acceptSession sid win a proto L)) as Hacc.
  { intros sid win a proto. destruct (acceptSession_fields sid win a proto L) as (E & _ & _).
    eapply heap_le_append; [exact E|apply Session_new_empty]. }
  destruct f as [| | | |sid blob win|sid|sid r|sid|sid delta|nonce|nonce|sid pl|sid|sid blob pl];
    cbn [dispatchFrame]; unfold findSession; try (by apply (Hle L), heap_le_same); try (by apply Hle).
  - destruct (negb _); [by apply (Hle L), heap_le_same|]. destruct (parseBinary blob); by apply Hle.
  - destruct (sessions_ L !! sid) as [p|]; [|by apply (Hle L), heap_le_same].
    assert (heap_le L (on_session p onPeerClose L)) as Ho
      by (apply heap_le_alter; intros s; apply inbox_le_close; unfold onPeerClose; by destruct (state_ s)).
    destruct (heap_ (on_session p onPeerClose L) !! p); [|by apply Hle]. destruct (bool_decide _); by apply Hle.
  - destruct (sessions_ L !! sid) as [p|]; [|by apply (Hle L), heap_le_same]. apply (Hle (on_session p onReset L)).
    apply heap_le_alter. intros s. by apply inbox_le_close.
  - destruct (sessions_ L !! sid) as [p|]; [|by apply (Hle L), heap_le_same]. apply Hle, heap_le_alter.
    intros s. by apply inbox_le_same.
  - destruct (_ =? _); by apply (Hle _), heap_le_same.
  - destruct (sessions_ L !! sid) as [p|] eqn:Ep; [|by apply (Hle L), heap_le_same]. intros Hq.
    destruct (decide (p = q)) as [->|Hne].
    + right; right. cbn in Hq. rewrite list_lookup_alter_eq in Hq. destruct (heap_ L !! q) as [s|]; [|done]. injection Hq as <-.
      exists s, sid, pl. by unfold waits_on, findSession.
    + rewrite on_session_other in Hq by done. left. exists s'. split; [done|by apply inbox_le_same].
  - destruct (negb _); [by apply (Hle L), heap_le_same|]. by apply Hle.
  - destruct (sessions_ L !! sid) as [p|]; [|by apply (Hle L), heap_le_same].
    destruct (parseBinary blob) as [a| |]; [|by apply (Hle L), heap_le_same..]. apply Hle, heap_le_alter.
    intros s. apply inbox_le_same. destruct (onUdpData_path (Some pl) a s) as [E _]. by injection E.
Qed.
End InboxInvariant.

(** ** Properties *)

Section MuxProperties.
Context `{AbslOps, !AbslSpec} {C : Type -> Type} `{ChannelSpec C}.
Implicit Types (L : Link C) (M : Mux C) (s : Session C).

Definition inbox_bound M (p : nat) (c : C (option bytes)) : Z :=
  if ch_closed c || bool_decide (mx_wait M = Some p) then 1025 else 1024.
Definition mux_inv (m : Z) M : Prop :=
  link_wf (mx_link M) /\ max_payload (opts_ (mx_link M)) = m /\ Forall (frame_accepted m) (mx_in M) /\
  forall p s c, heap_ (mx_link M) !! p = Some s -> inbox_ s = Some c ->
    Forall (fun pay => zlen (payload_bytes pay) <= m) (ch_queue c) /\ zlen (ch_queue c) <= inbox_bound M p c.

Lemma data_payload_fits m sid p : frame_accepted m (DataFrame sid p) -> zlen p <= m.
Proof.
  intros (_ & [Hf _] & _). cbn [frame_value value_fits] in Hf. rewrite zlen_cons, zlen_app in Hf.
  change (zlen (be64 sid)) with 8 in Hf. lia.
Qed.

(** An inbox no longer than another one is within the same bound. *)
Lemma inbox_le_bound m M M' p s s' c' :
  mx_wait M' = mx_wait M -> inbox_le s s' -> inbox_ s' = Some c' ->
  (forall c, inbox_ s = Some c ->
     Forall (fun pay => zlen (payload_bytes pay) <= m) (ch_queue c) /\ zlen (ch_queue c) <= inbox_bound M p c) ->
  Forall (fun pay => zlen (payload_bytes pay) <= m) (ch_queue c') /\ zlen (ch_queue c') <= inbox_bound M' p c'.
Proof.
  intros Ew Hle Hc' Hb. destruct (Hle c' Hc') as (c & Hc & Hsub & Hcl). destruct (Hb c Hc) as [Hm Hz].
  split; [by eapply sublist_Forall|]. apply sublist_length in Hsub. unfold inbox_bound, zlen in *. rewrite Ew.
  destruct (ch_closed c); [rewrite Hcl by done; cbn in *; lia|]. destruct (ch_closed c'), (bool_decide _); cbn in *; lia.
Qed.

Lemma mux_inv_read m now M : mux_inv m M -> mux_inv m (mux_read now M).
Proof.
  intros Hinv. pose proof Hinv as (Hwf & Hm & Hin & Hb). unfold mux_read. destruct (mx_in M) as [|f rest]; [done|].
  destruct (closed_ (mx_link M)); [done|]. cbn [orb]. destruct (reader_waits M) eqn:Ew; [done|].
  apply Forall_cons in Hin as [Hf Hin]. pose proof Hf as (Hwff & _).
  assert (forall p s c, heap_ (mx_link M) !! p = Some s -> inbox_ s = Some c ->
    Forall (fun pay => zlen (payload_bytes pay) <= m) (ch_queue c) /\ (ch_closed c = true \/ zlen (ch_queue c) <= 1024) /\
    zlen (ch_queue c) <= 1025) as Hold.
  { intros p s c Hs Hc. destruct (Hb p s c Hs Hc) as [Hpay Hz]. split; [done|].
    unfold inbox_bound in Hz. destruct (ch_closed c) eqn:Ec; [by cbn in Hz; auto|]. cbn [orb] in Hz.
    case_bool_decide as Hw; [|split; [right|]; lia]. unfold reader_waits in Ew. rewrite Hw, Hs in Ew.
    unfold inbox_full in Ew. rewrite Hc, Ec in Ew. cbn in Ew. apply Z.ltb_ge in Ew. split; [by right|lia]. }
  split; [by apply dispatch_wf|]. split; [cbn [mx_link]; by destruct (dispatch_fields now f (mx_link M)) as (_ & -> & _)|]. split; [done|].
  cbn [mx_link mx_in]. intros p s' c' Hs' Hc'. unfold inbox_bound. cbn [mx_wait].
  destruct (dispatch_inbox _ _ _ _ _ Hs') as [(s & Hs & Hle)|[He|(s & sid & pl & -> & Hw & Hs & ->)]].
  - destruct (Hle c' Hc') as (c & Hc & Hsub & Hcl). destruct (Hold p s c Hs Hc) as (Hpay & Hq & Hz).
    split; [by eapply sublist_Forall|]. apply sublist_length in Hsub. unfold zlen in *.
    destruct Hq as [Hq|Hq]; [rewrite Hcl by done; cbn; lia|]. destruct (_ || _); lia.
  - rewrite (He c' Hc'). split; [done|]. destruct (_ || _); done.
  - rewrite Hw, bool_decide_true by done. rewrite orb_true_r. pose proof (data_payload_fits _ _ _ Hf) as Hpl.
    unfold onData in Hc'. destruct pl as [|b pl].
    + destruct (Hold p s c' Hs Hc') as (? & _ & ?). done.
    + destruct (inbox_ s) as [c|] eqn:Hc; [|congruence]. injection Hc' as <-.
      destruct (Hold p s c Hs Hc) as (Hpay & Hq & Hz). rewrite send_queue.
      destruct (ch_closed c) eqn:Ec; [by rewrite app_nil_r|]. destruct Hq as [|Hq]; [done|].
      split; [by apply Forall_app; split; [|apply Forall_singleton]|]. rewrite zlen_app. unfold zlen in *. cbn [length]. lia.
Qed.

Lemma mux_inv_step m M M' : mux_step M M' -> mux_inv m M -> mux_inv m M'.
Proof.
  intros [f Hf|now|L' Hst] Hinv; [|by apply mux_inv_read|]; pose proof Hinv as (Hwf & Hm & Hin & Hb).
  - split; [done|]. split; [done|]. rewrite Hm in Hf. split; [by apply Forall_app; split; [|apply Forall_singleton]|done].
  - destruct (own_step_le _ _ (proj1 (proj2 Hwf)) Hst) as [Hle Ho].
    split; [eapply link_step_wf; [by apply ls_own|done]|]. cbn [mx_link mx_in]. split; [congruence|]. split; [done|].
    intros p s' c' Hs' Hc'. destruct (Hle p s' Hs') as [(s & Hs & Hi)|He].
    + eapply (inbox_le_bound m M _ p s s'); [done|done|done|]. intros c. by apply Hb.
    + rewrite (He c' Hc'). split; [done|]. unfold inbox_bound. by destruct (_ || _).
Qed.

Lemma payloads_bound m (q : list (option bytes)) :
  Forall (fun pay => zlen (payload_bytes pay) <= m) q -> zlen (mjoin (payload_bytes <$> q)) <= zlen q * m.
Proof.
  induction 1 as [|pay q Hp _ IH]; [done|].
  change (mjoin (payload_bytes <$> pay :: q)) with (payload_bytes pay ++ mjoin (payload_bytes <$> q)).
  rewrite zlen_app. replace (zlen (pay :: q)) with (1 + zlen q) by (unfold zlen; cbn [length]; lia). lia.
Qed.

(** C16. Whatever a peer sends, and whether or not it respects its window, no
    session can be made to hold more than 1025 payloads of at most [max_payload]
    bytes: the reader of the link waits. *)
Theorem inbox_bounded opts M p s :
  0 <= init_window opts < 2 ^ 32 -> 0 <= max_payload opts ->
  rtc mux_step (mkMux (Link_new (C := C) opts) [] None) M -> heap_ (mx_link M) !! p = Some s ->
  (forall c, inbox_ s = Some c -> zlen (ch_queue c) <= 1025) /\ zlen (inbox_bytes s) <= 1025 * max_payload opts.
Proof.
  intros Ho Hm Hr Hs. assert (mux_inv (max_payload opts) M) as (_ & _ & _ & Hb).
  { revert Hr. apply (rtc_ind_r (mux_inv (max_payload opts))); [|intros ? ? _; apply mux_inv_step].
    split; [by apply Link_new_wf|]. by split; [|split]. }
  assert (forall c, inbox_ s = Some c -> zlen (ch_queue c) <= 1025) as Hq.
  { intros c Hc. destruct (Hb p s c Hs Hc) as [_ Hz]. unfold inbox_bound in Hz. destruct (_ || _); lia. }
  split; [done|]. unfold inbox_bytes. destruct (inbox_ s) as [c|] eqn:Hc; [|rewrite zlen_nil; lia].
  destruct (Hb p s c Hs Hc) as [Hpay _]. apply payloads_bound in Hpay. specialize (Hq c eq_refl). nia.
Qed.

(** C15. One session that nobody reads takes the whole link down.  Once its inbox
    is full, and for as long as nobody reads or closes it, the reader dispatches
    nothing of what the peer sends, for any session, PONGs included; so the
    heartbeat fails the link although the peer is alive and answers. *)
Theorem unread_session_fails_link gap p (es : list (mux_event C)) M :
  blocked_on p M -> Forall (leaves_alone p) es ->
  beating (mx_link M) -> pending_ping_nonce_ (mx_link M) = 0 ->
  0 <= last_ping_sent_ns_ (mx_link M) <= last_pong_ns_ (mx_link M) -> 0 <= gap ->
  ticks_ok gap (last_pong_ns_ (mx_link M)) (ticks_of es) ->
  last_pong_ns_ (mx_link M) + ping_ns (mx_link M) + gap + pong_ns (mx_link M) < last_tick (last_pong_ns_ (mx_link M)) (ticks_of es) ->
  mx_in (mux_run es M) = mx_in M ++ sent_by_peer es /\ closed_ (mx_link (mux_run es M)) = true.
Proof.
  intros Hb Hes Hbeat Hp Hs Hg Ht Hl. destruct (blocked_run p es M (mx_link M) Hes) as [-> ->]; [by right|].
  split; [done|]. pose proof Hbeat as (_ & _ & Hi & _).
  apply (heartbeat_silent gap (ticks_of es) (last_pong_ns_ (mx_link M))); try done; try lia.
  unfold ping_ns, ns_per_s. lia.
Qed.
End MuxProperties.

(** ** Witnesses *)

Lemma waits_blocked `{AbslOps} {C : Type -> Type} `{ChannelOps C} p (M : Mux C) :
  mx_wait M = Some p -> reader_waits M = true -> blocked_on p M.
Proof.
  unfold reader_waits. intros Ew Hr. rewrite Ew in Hr. split; [done|].
  destruct (heap_ (mx_link M) !! p) as [s|]; [|done]. by exists s.
Qed.

#[local] Existing Instance reference_absl.

Definition demo_accepted : list (ShineFrame bytes) := [sample_new; DataFrame 7 (lit "abc")].
Definition started_link : Link fifo := start true 0 (Link_new sample_opts).

Lemma demo_accepted_ok : Forall (frame_accepted (max_payload sample_opts)) demo_accepted.
Proof. repeat constructor; vm_compute; done. Qed.

Lemma inbox_bounded_witness :
  let M := mux_read 6 (mux_read 5 (mkMux started_link demo_accepted None)) in
  exists s, heap_ (mx_link M) !! 0%nat = Some s /\ inbox_bytes s = lit "abc" /\ zlen (inbox_bytes s) <= 1025 * kMaxBulkLen.
Proof.
  intros M. exists (onData (Some (lit "abc")) accepted_session). split; [reflexivity|]. split; [by vm_compute|].
  destruct (inbox_bounded sample_opts M 0%nat (onData (Some (lit "abc")) accepted_session)) as [_ Hb]; [by vm_compute|by vm_compute| |reflexivity|exact Hb].
  pose proof demo_accepted_ok as Hok. apply Forall_cons in Hok as [H1 Hok]. apply Forall_cons in Hok as [H2 _].
  eapply rtc_l; [apply mx_own, (ls_start _ true 0)|]. eapply rtc_l; [apply (mx_peer (mkMux started_link [] None) _ H1)|].
  eapply rtc_l; [apply (mx_peer (mkMux started_link [sample_new] None) _ H2)|]. eapply rtc_l; [apply (mx_read _ 5)|]. apply rtc_once, (mx_read _ 6).
Defined.

(** 1025 payloads of one byte fill the inbox; then the peer answers at once. *)
Definition full_mux : Mux fifo :=
  mux_run (concat (repeat [EvPeer (DataFrame 7 (lit "x")); EvRead 5] 1025)) (mkMux accepted_link [] None).
Definition answered_ticks : list (mux_event fifo) :=
  concat (map (fun t => [EvTick (fst t) (snd t); EvPeer (PongFrame 42); EvRead (fst t)]) silent_ticks).

Lemma unread_session_fails_link_witness :
  closed_ (mx_link full_mux) = false /\ closed_ (mx_link (mux_run answered_ticks full_mux)) = true.
Proof.
  split; [by vm_compute|].
  apply (unread_session_fails_link ns_per_s 0%nat answered_ticks full_mux); try by vm_compute.
  - apply waits_blocked; by vm_compute.
  - by repeat constructor.
Defined.
