(* ===== verification/Stall.v ===== *)
(** * The write queue of a link

    [enqueueFrame] awaits the write channel, which holds 1024 messages: while it
    is full a coroutine that sends a frame is suspended, be it the relay of a
    session, the reader with an answer or the heartbeat with its PING.  That
    bounds the queue; and it lets a peer that stops reading keep the heartbeat
    from noticing. *)
From stdpp Require Import gmap relations.
From S2P Require Import Prelude Absl Buffer Resp2 ShineFrame Address Request Channel Socket Session Link LinkReader Multiplex.
From Stdlib Require Import Strings.Byte.

(** The coroutines that send: [readerLoop], [heartbeatLoop] and the others, that
    is those that call a session, the one [Session::close] spawns for its CLOSE,
    and those in [openSession] and [gracefulShutdown]. *)
Inductive Sender := Reader | Heart | Caller (i : nat).
#[export] Instance Sender_eq_dec : EqDecision Sender.
Proof. solve_decision. Defined.

Section Stall.
Context `{AbslOps} {C : Type -> Type} `{ChannelOps C}.
Implicit Types L : Link C.

(** A link and the senders suspended in [enqueueFrame], longest first. *)
Record Stall := mkStall { sl_mux : Mux C; sl_waiting : list Sender }.
Definition sl_link (S : Stall) : Link C := mx_link (sl_mux S).

Definition wq L : list bytes := ch_queue (write_chan_ L).

(** The senders after one of them ran and made [L'] of [L]: it is suspended when
    its frame does not fit the channel. *)
Definition after_send (who : Sender) L L' (ws : list Sender) : list Sender :=
  if closed_ L' then []
  else if (zlen (wq L) <? zlen (wq L')) && (ch_bound (write_chan_ L') <? zlen (wq L')) then ws ++ [who] else ws.

(** ... and after the writer took a message: the first of them resumes. *)
Definition after_write L L' (ws : list Sender) : list Sender :=
  if closed_ L' then [] else if zlen (wq L') <? zlen (wq L) then tail ws else ws.

Definition with_link (S : Stall) L' : Mux C := mkMux L' (mx_in (sl_mux S)) (mx_wait (sl_mux S)).

(** What the coroutines of the link do while the socket takes nothing and nobody
    ends the link; [n] is the number of the others. *)
Inductive work_step (n : nat) (S : Stall) : Stall -> Prop :=
  | wk_read now : Reader ∉ sl_waiting S ->
      let M := mux_read now (sl_mux S) in
      work_step n S (mkStall M (after_send Reader (sl_link S) (mx_link M) (sl_waiting S)))
  | wk_tick now nonce : Heart ∉ sl_waiting S -> closed_ (sl_link S) = false ->
      let L' := snd (heartbeat_tick now nonce (sl_link S)) in
      work_step n S (mkStall (with_link S L') (after_send Heart (sl_link S) L' (sl_waiting S)))
  | wk_open i draws target is_udp r L' : (i < n)%nat -> Caller i ∉ sl_waiting S ->
      openSession draws target is_udp (sl_link S) = Some (r, L') ->
      work_step n S (mkStall (with_link S L') (after_send (Caller i) (sl_link S) L' (sl_waiting S)))
  | wk_announce i p s : (i < n)%nat -> Caller i ∉ sl_waiting S -> heap_ (sl_link S) !! p = Some s ->
      let L' := enqueueFrame (encodeClose [] (sid_ s) (lit "shutdown")) (sl_link S) in
      work_step n S (mkStall (with_link S L') (after_send (Caller i) (sl_link S) L' (sl_waiting S)))
  | wk_call i p s s' eff : (i < n)%nat -> Caller i ∉ sl_waiting S ->
      heap_ (sl_link S) !! p = Some s -> session_call (link_view (sl_link S)) s s' eff ->
      let L' := call_session p s' eff (sl_link S) in
      work_step n S (mkStall (with_link S L') (after_send (Caller i) (sl_link S) L' (sl_waiting S))).

(** ... whatever the peer sends meanwhile. *)
Inductive stuck_step (n : nat) (S : Stall) : Stall -> Prop :=
  | sk_peer f : frame_accepted (max_payload (opts_ (sl_link S))) f ->
      stuck_step n S (mkStall (mkMux (sl_link S) (mx_in (sl_mux S) ++ [f]) (mx_wait (sl_mux S))) (sl_waiting S))
  | sk_work S' : work_step n S S' -> stuck_step n S S'.

(** The rest: the writer, and the ends of the link. *)
Inductive stall_step (n : nat) (S : Stall) : Stall -> Prop :=
  | sl_stuck S' : stuck_step n S S' -> stall_step n S S'
  | sl_write write_ok :
      let L' := snd (writer_iter write_ok (sl_link S)) in
      stall_step n S (mkStall (with_link S L') (after_write (sl_link S) L' (sl_waiting S)))
  | sl_fail : stall_step n S (mkStall (with_link S (failLink (sl_link S))) [])
  | sl_close : stall_step n S (mkStall (with_link S (snd (closeNow (sl_link S)))) (sl_waiting S))
  | sl_posted : closed_ (sl_link S) = true -> stall_step n S (mkStall (with_link S (closeNow_posted (sl_link S))) []).
End Stall.
Arguments Stall : clear implicits.

Section StallFacts.
Context `{AbslOps} {C : Type -> Type} `{ChannelSpec C}.
Implicit Types (L : Link C) (S : Stall C).

(** [L'] is [L] with at most one frame more in the queue. *)
Definition sends L L' : Prop :=
  closed_ L' = closed_ L /\ ch_bound (write_chan_ L') = ch_bound (write_chan_ L) /\
  ch_closed (write_chan_ L') = ch_closed (write_chan_ L) /\
  (wq L' = wq L \/ closed_ L = false /\ exists w, wq L' = wq L ++ [w]).

Lemma sends_same L L' : write_chan_ L' = write_chan_ L -> closed_ L' = closed_ L -> sends L L'.
Proof. intros E Ec. unfold sends, wq. rewrite E. auto. Qed.

Lemma sends_enqueue w L L0 : write_chan_ L0 = write_chan_ L -> closed_ L0 = closed_ L -> sends L (enqueueFrame w L0).
Proof.
  intros E Ec. unfold enqueueFrame. destruct (closed_ L0) eqn:Ec0; [apply sends_same; congruence|].
  unfold sends, wq. cbn. rewrite E, send_bound, send_closed, send_queue. split; [congruence|]. split; [done|]. split; [done|].
  destruct (ch_closed _); [left; apply app_nil_r|right]. split; [congruence|by eexists].
Qed.

Lemma dispatch_sends now f L : sends L (dispatchFrame now f L).
Proof.
  unfold dispatchFrame, acceptSession, findSession. cbn [new_session].
  destruct f; repeat (cbn beta iota zeta; case_match); try (by apply sends_same); by apply sends_enqueue.
Qed.

(** A tick sends at most a PING, or fails the link. *)
Lemma tick_sends now nonce L :
  sends L (snd (heartbeat_tick now nonce L)) \/ snd (heartbeat_tick now nonce L) = failLink L.
Proof.
  unfold heartbeat_tick. destruct (negb (handshake_done_ L)); [left; by apply sends_same|].
  destruct (_ && _); [by right|]. left. destruct (_ && _); [by apply sends_enqueue|by apply sends_same].
Qed.

Lemma open_sends draws target is_udp r L L' : openSession draws target is_udp L = Some (r, L') -> sends L L'.
Proof.
  unfold openSession. destruct (closed_ L) eqn:Hc; [intros [= _ <-]; by apply sends_same|].
  destruct (draw_nonzero draws) as [[sid more]|]; [|done]. cbn [new_session]. intros [= _ <-]. by apply sends_enqueue.
Qed.

Lemma session_call_one lv (s s' : Session C) eff : session_call lv s s' eff -> (length (enqueued eff) <= 1)%nat.
Proof.
  assert (forall n (s1 : Session C), (length (enqueued (snd (read_account lv n s1))) <= 1)%nat) as Hacc
    by (intros n s1; unfold read_account, maybeSendWindow; repeat case_match; cbn; lia).
  destruct 1 as [cap d s' eff _ E|rem s' E|rem s' wire rest _ E|s' eff E|s' eff E|data target r s' eff E|r s' E]; try (cbn; lia).
  - unfold read, read_leftover, read_payload in E.
    repeat (case_match; simplify_eq/=; try lia);
      match goal with H : read_account lv ?n ?s1 = _ |- _ => specialize (Hacc n s1); rewrite H in Hacc; exact Hacc end.
  - unfold shutdownWrite in E. repeat (case_match; simplify_eq/=; try lia).
  - unfold close in E. repeat (case_match; simplify_eq/=; try lia).
  - unfold sendTo in E. repeat (case_match; simplify_eq/=; try lia).
Qed.

Lemma call_sends lv p (s s' : Session C) eff L : session_call lv s s' eff -> sends L (call_session p s' eff L).
Proof.
  intros Hc. apply session_call_one in Hc. unfold call_session, apply_effects.
  assert (forall L1, sends L L1 -> sends L (if erased eff then eraseSession (sid_ s') L1 else L1)) as He
    by (intros L1 Hs; by destruct (erased eff)).
  apply He. destruct (enqueued eff) as [|w [|w2 ws]]; cbn in *; [by apply sends_same|by apply sends_enqueue|lia].
Qed.

(** What ends a link only drops messages. *)
Definition shrinks L L' : Prop :=
  ch_bound (write_chan_ L') = ch_bound (write_chan_ L) /\ zlen (wq L') <= zlen (wq L).

Lemma shrinks_close L L' : write_chan_ L' = ch_close (write_chan_ L) -> shrinks L L'.
Proof.
  intros E. unfold shrinks, wq. rewrite E, close_bound. split; [done|].
  destruct (close_queue _ (write_chan_ L)) as [q Eq]. rewrite Eq, zlen_app. pose proof (zlen_nonneg q). lia.
Qed.
Lemma shrinks_same L L' : write_chan_ L' = write_chan_ L -> shrinks L L'.
Proof. intros E. unfold shrinks, wq. rewrite E. split; [done|lia]. Qed.

Lemma reset_all_chan ps : forall L, write_chan_ (reset_all ps L) = write_chan_ L.
Proof. unfold reset_all. induction ps as [|p ps IH]; intros L; [done|]. cbn [fold_left]. by rewrite IH. Qed.

Lemma fail_shrinks L : shrinks L (failLink L).
Proof.
  unfold failLink. destruct (closed_ L); [by apply shrinks_same|]. apply shrinks_close. by rewrite reset_all_chan.
Qed.

(** A turn of the writer takes one message or none. *)
Lemma write_shrinks ok L :
  let L' := snd (writer_iter ok L) in
  shrinks L L' /\ (closed_ L' = false -> closed_ L = false /\ (wq L' = wq L \/ exists w, wq L = w :: wq L')).
Proof.
  cbv zeta. unfold writer_iter. destruct (closed_ L) eqn:Ec; [split; [by apply shrinks_same|cbn; congruence]|].
  destruct (ch_async_receive (write_chan_ L)) as [r c] eqn:Er. pose proof (recv_queue _ _ _ _ Er) as (Eq & _ & Eb).
  assert (shrinks L (set_write_chan c L)) as Hs.
  { unfold shrinks, wq. cbn. rewrite Eq, Eb, zlen_app. split; [done|]. pose proof (zlen_nonneg (if r is RecvMsg a then [a] else [])). lia. }
  assert (false = false /\ (wq (set_write_chan c L) = wq L \/ exists w, wq L = w :: wq (set_write_chan c L))) as Ht.
  { split; [done|]. unfold wq. cbn. rewrite Eq. destruct r as [a| |]; [right; by exists a|by left..]. }
  destruct r as [msg| |]; cbn [snd]; [|split; [exact Hs|intros _; exact Ht]|split; [by apply shrinks_same|intros _; by split; [|left]]].
  cbv zeta. destruct (bool_decide _); [split; [exact Hs|intros _; exact Ht]|].
  destruct ok; cbn [snd]; [split; [exact Hs|intros _; exact Ht]|].
  split; [|by rewrite failLink_closed]. destruct (fail_shrinks (set_write_chan c L)) as [? ?], Hs. split; [congruence|lia].
Qed.

(** The queue holds what fits the channel and the frames of the suspended
    senders. *)
Definition stall_ok (n : nat) S : Prop :=
  ch_bound (write_chan_ (sl_link S)) = 1024 /\ NoDup (sl_waiting S) /\
  Forall (fun who => who ∈ Reader :: Heart :: (Caller <$> seq 0 n)) (sl_waiting S) /\
  (closed_ (sl_link S) = false -> zlen (wq (sl_link S)) <= 1024 + zlen (sl_waiting S)) /\
  zlen (wq (sl_link S)) <= 1026 + Z.of_nat n.

Lemma waiting_bounded n ws :
  NoDup ws -> Forall (fun who => who ∈ Reader :: Heart :: (Caller <$> seq 0 n)) ws -> zlen ws <= 2 + Z.of_nat n.
Proof.
  intros Hnd Hf. rewrite Forall_forall in Hf. pose proof (NoDup_submseteq _ _ Hnd Hf) as Hs.
  apply submseteq_length in Hs. cbn [length] in Hs. rewrite length_fmap, length_seq in Hs. unfold zlen. lia.
Qed.

Lemma after_send_ok n S who M' :
  stall_ok n S -> sends (sl_link S) (mx_link M') -> who ∉ sl_waiting S -> who ∈ Reader :: Heart :: (Caller <$> seq 0 n) ->
  stall_ok n (mkStall M' (after_send who (sl_link S) (mx_link M') (sl_waiting S))).
Proof.
  intros (Hb & Hnd & Hf & Hq & Hz) (Ec & Eb & _ & Ew) Hn Hin. unfold stall_ok, after_send. unfold sl_link in *.
  cbn [sl_mux sl_waiting]. rewrite Eb, Hb, Ec. destruct (closed_ (mx_link (sl_mux S))) eqn:Hc.
  { split; [done|]. split; [constructor|]. split; [constructor|]. split; [done|]. by destruct Ew as [->|[? _]]. }
  specialize (Hq eq_refl). split; [done|]. pose proof (waiting_bounded n _ Hnd Hf) as Hw.
  assert (NoDup (sl_waiting S ++ [who])) as Hnd'.
  { apply NoDup_app. split; [done|]. split; [|apply NoDup_singleton]. intros x Hx Hx'. apply list_elem_of_singleton in Hx' as ->. done. }
  assert (Forall (fun who => who ∈ Reader :: Heart :: (Caller <$> seq 0 n)) (sl_waiting S ++ [who])) as Hf'
    by (apply Forall_app; split; [done|by apply Forall_singleton]).
  pose proof (waiting_bounded n _ Hnd' Hf') as Hw'. rewrite zlen_app in Hw'. change (zlen [who]) with 1 in Hw'.
  destruct Ew as [->|(_ & w & ->)]; [rewrite Z.ltb_irrefl; cbn [andb]; split; [done|]; split; [done|]; split; [done|lia]|].
  rewrite zlen_app. change (zlen [w]) with 1. rewrite (proj2 (Z.ltb_lt _ _)) by lia. cbn [andb].
  destruct (Z.ltb_spec 1024 (zlen (wq (mx_link (sl_mux S))) + 1)).
  - split; [done|]. split; [done|]. rewrite zlen_app. change (zlen [who]) with 1. split; [intros _|]; lia.
  - pose proof (zlen_nonneg (sl_waiting S)). split; [done|]. split; [done|]. split; [intros _|]; lia.
Qed.

(** A step that ends the link, or drops messages of one that has ended. *)
Lemma ended_ok n S M' : stall_ok n S -> shrinks (sl_link S) (mx_link M') -> closed_ (mx_link M') = true -> stall_ok n (mkStall M' []).
Proof.
  intros (Hb & _ & _ & _ & Hz) [Eb Hs] Hc. unfold stall_ok, sl_link in *. cbn [sl_mux sl_waiting]. rewrite Eb, Hc.
  split; [done|]. split; [constructor|]. split; [constructor|]. split; [done|lia].
Qed.

Lemma after_write_ok n S write_ok :
  let L' := snd (writer_iter write_ok (sl_link S)) in
  stall_ok n S -> stall_ok n (mkStall (with_link S L') (after_write (sl_link S) L' (sl_waiting S))).
Proof.
  intros L' Hok. destruct (write_shrinks write_ok (sl_link S)) as [Hs Ho]. fold L' in Hs, Ho. unfold after_write.
  destruct (closed_ L') eqn:Hc'; [by apply (ended_ok n S)|]. destruct (Ho eq_refl) as [Hc Ew].
  destruct Hok as (Hb & Hnd & Hf & Hq & Hz), Hs as [Eb _]. specialize (Hq Hc). unfold stall_ok. unfold sl_link in *.
  cbn [sl_mux sl_waiting with_link mx_link]. rewrite Eb, Hc'. split; [done|]. destruct Ew as [E|[w E]].
  - rewrite E, Z.ltb_irrefl. split; [done|]. split; [done|]. split; [done|lia].
  - assert (zlen (wq (mx_link (sl_mux S))) = 1 + zlen (wq L')) as El by (rewrite E; unfold zlen; cbn [length]; lia).
    rewrite (proj2 (Z.ltb_lt _ _)) by lia.
    destruct (sl_waiting S) as [|x ws]; cbn [tail]; [change (zlen (@nil Sender)) with 0 in *; split; [done|]; split; [done|]; split; [intros _|]; lia|].
    apply NoDup_cons in Hnd as [_ Hnd]. apply Forall_cons in Hf as [_ Hf]. split; [done|]. split; [done|].
    replace (zlen (x :: ws)) with (1 + zlen ws) in Hq by (unfold zlen; cbn [length]; lia). split; [intros _|]; lia.
Qed.

Lemma read_sends now S : sends (sl_link S) (mx_link (mux_read now (sl_mux S))).
Proof.
  unfold mux_read, sl_link. destruct (mx_in (sl_mux S)) as [|f rest]; [by apply sends_same|].
  destruct (_ || _); [by apply sends_same|]. apply dispatch_sends.
Qed.

Lemma work_step_ok n S S' : work_step n S S' -> stall_ok n S -> stall_ok n S'.
Proof.
  intros Hst Hok. assert (forall i, (i < n)%nat -> Caller i ∈ Reader :: Heart :: (Caller <$> seq 0 n)) as Hi.
  { intros i Hi. do 2 right. apply list_elem_of_fmap_2, elem_of_seq. lia. }
  destruct Hst as [now Hw M|now nonce Hw Hc L'|i draws target udp r L' Hin Hw E|i p s Hin Hw Hs L'|i p s s' eff Hin Hw Hs Hcall L'].
  - apply (after_send_ok n S Reader M); [done|apply read_sends|done|by left].
  - destruct (tick_sends now nonce (sl_link S)) as [Hs|Hs].
    + apply (after_send_ok n S Heart (with_link S L')); [done..|right; left].
    + unfold after_send. replace (closed_ L') with true by (unfold L'; by rewrite Hs, failLink_closed).
      apply (ended_ok n S); [done| |]; cbn [with_link mx_link]; unfold L'; rewrite Hs; [apply fail_shrinks|apply failLink_closed].
  - apply (after_send_ok n S (Caller i) (with_link S L')); [done|by eapply open_sends|done|by apply Hi].
  - apply (after_send_ok n S (Caller i) (with_link S L')); [done|by apply sends_enqueue|done|by apply Hi].
  - apply (after_send_ok n S (Caller i) (with_link S L')); [done|by eapply call_sends|done|by apply Hi].
Qed.

Lemma stall_step_ok n S S' : stall_step n S S' -> stall_ok n S -> stall_ok n S'.
Proof.
  intros [S1 [f Hf|S2 Hst]|ok L'| | |Hc] Hok; [by destruct Hok as (? & ? & ? & ? & ?)|by eapply work_step_ok|by apply after_write_ok|..].
  - apply (ended_ok n S); [done|apply fail_shrinks|apply failLink_closed].
  - destruct Hok as (Hb & Hnd & Hf & Hq & Hz). unfold stall_ok, sl_link, closeNow in *. cbn [sl_mux with_link mx_link sl_waiting].
    destruct (closed_ (mx_link (sl_mux S))) eqn:E; cbn [snd]; [rewrite E|]; by repeat (split; [done|]).
  - apply (ended_ok n S); [done|by apply shrinks_close|done].
Qed.

(** ** A heartbeat that cannot send *)

(** The channel is full, and either no PING is out or the heartbeat is suspended
    in sending it. *)
Definition heart_stuck S : Prop :=
  closed_ (sl_link S) = false /\ ch_closed (write_chan_ (sl_link S)) = false /\ ch_bound (write_chan_ (sl_link S)) = 1024 /\
  1024 <= zlen (wq (sl_link S)) /\ (pending_ping_nonce_ (sl_link S) = 0 \/ Heart ∈ sl_waiting S).

Lemma dispatch_pending now f L :
  pending_ping_nonce_ (dispatchFrame now f L) = pending_ping_nonce_ L \/ pending_ping_nonce_ (dispatchFrame now f L) = 0.
Proof.
  unfold dispatchFrame, acceptSession, enqueueFrame. cbn [new_session].
  destruct f; repeat (cbn beta iota zeta; case_match); by (left + right).
Qed.

Lemma pending_timers L L' : timers L' = timers L -> pending_ping_nonce_ L' = pending_ping_nonce_ L.
Proof. unfold timers. by intros [= _ _ _ _ -> _]. Qed.

Lemma open_timers draws target is_udp r L L' : openSession draws target is_udp L = Some (r, L') -> timers L' = timers L.
Proof.
  unfold openSession. destruct (closed_ L); [by intros [= _ <-]|].
  destruct (draw_nonzero draws) as [[sid more]|]; [|done]. cbn [new_session]. intros [= _ <-]. by rewrite enqueue_timers.
Qed.

Lemma stuck_send who S M' :
  heart_stuck S -> sends (sl_link S) (mx_link M') ->
  (pending_ping_nonce_ (mx_link M') = pending_ping_nonce_ (sl_link S) \/ pending_ping_nonce_ (mx_link M') = 0) ->
  heart_stuck (mkStall M' (after_send who (sl_link S) (mx_link M') (sl_waiting S))).
Proof.
  intros (Hc & Hcc & Hb & Hq & Hp) (Ec & Eb & Ecc & Ew) Hp'. unfold heart_stuck, after_send. unfold sl_link in *.
  cbn [sl_mux sl_waiting]. rewrite Ec, Hc, Ecc, Eb. split; [done|]. split; [done|]. split; [done|]. split.
  - destruct Ew as [->|(_ & w & ->)]; [done|]. rewrite zlen_app. pose proof (zlen_nonneg [w]). lia.
  - destruct Hp' as [->|]; [|by left]. destruct Hp as [|Hin]; [by left|right]. destruct (_ && _); [|done].
    apply elem_of_app. by left.
Qed.

Lemma stuck_tick now nonce S :
  heart_stuck S -> Heart ∉ sl_waiting S ->
  let L' := snd (heartbeat_tick now nonce (sl_link S)) in
  heart_stuck (mkStall (with_link S L') (after_send Heart (sl_link S) L' (sl_waiting S))).
Proof.
  intros (Hc & Hcc & Hb & Hq & Hp) Hn L'. destruct Hp as [Hp|]; [|done]. subst L'. unfold heartbeat_tick.
  rewrite Hp, Z.eqb_refl. cbn [negb andb]. destruct (negb (handshake_done_ (sl_link S)));
    [cbn [snd]; apply stuck_send; [by repeat (split; [done|]); left|by apply sends_same|by left]|].
  set (nonce' := if nonce =? 0 then 1 else nonce). destruct (_ <? _);
    [|cbn [snd]; apply stuck_send; [by repeat (split; [done|]); left|by apply sends_same|by left]].
  cbn [snd]. set (L' := enqueueFrame _ _).
  assert (wq L' = wq (sl_link S) ++ [encodePing [] nonce'] /\ closed_ L' = false /\ ch_closed (write_chan_ L') = false /\
    ch_bound (write_chan_ L') = 1024) as (Ew & Ec & Ecc & Eb).
  { unfold L', enqueueFrame, wq. cbn. rewrite Hc. cbn. by rewrite send_queue, send_closed, send_bound, Hcc, Hb. }
  unfold heart_stuck, after_send. unfold sl_link in *. cbn [sl_mux with_link mx_link sl_waiting].
  rewrite Ec, Ecc, Eb, Ew, zlen_app. change (zlen [encodePing [] nonce']) with 1.
  split; [done|]. split; [done|]. split; [done|]. split; [lia|right].
  rewrite !(proj2 (Z.ltb_lt _ _)) by lia. cbn [andb]. apply elem_of_app. right. left.
Qed.

Lemma stuck_step_heart n S S' : stuck_step n S S' -> heart_stuck S -> heart_stuck S'.
Proof.
  intros [f Hf|S1 Hst] Hs; [done|].
  destruct Hst as [now Hw M|now nonce Hw Hc L'|i draws target udp r L' Hin Hw E|i p s Hin Hw Hp L'|i p s s' eff Hin Hw Hp Hcall L'].
  - apply stuck_send; [done|apply read_sends|]. unfold M, mux_read, sl_link. destruct (mx_in (sl_mux S)) as [|f rest]; [by left|].
    destruct (_ || _); [by left|apply dispatch_pending].
  - by apply stuck_tick.
  - apply (stuck_send (Caller i) S (with_link S L')); [done|by eapply open_sends|]. left. by eapply pending_timers, open_timers.
  - apply (stuck_send (Caller i) S (with_link S L')); [done|by apply sends_enqueue|]. left. apply pending_timers, enqueue_timers.
  - apply (stuck_send (Caller i) S (with_link S L')); [done|by eapply call_sends|]. left. apply pending_timers, call_timers.
Qed.
End StallFacts.

(** ** Properties *)

Section StallProperties.
Context `{AbslOps} {C : Type -> Type} `{ChannelSpec C}.

(** C17. The write queue of a link is bounded: with [n] coroutines that send through
    it beside its reader and its heartbeat, and whatever these, the peer and the
    socket do, it never holds more than 1026 frames and one for each of them. *)
Theorem write_queue_bounded n (L0 : Link C) S :
  wq L0 = [] -> ch_bound (write_chan_ L0) = 1024 -> rtc (stall_step n) (mkStall (mkMux L0 [] None) []) S ->
  zlen (wq (sl_link S)) <= 1026 + Z.of_nat n.
Proof.
  intros Hw Hb Hr. assert (stall_ok n S) as (_ & _ & _ & _ & Hz); [|done].
  revert Hr. apply (rtc_ind_r (stall_ok n)); [|intros ? ? _; apply stall_step_ok].
  unfold stall_ok, sl_link. cbn [sl_mux sl_waiting mx_link]. rewrite Hw. change (zlen (@nil bytes)) with 0.
  change (zlen (@nil Sender)) with 0. split; [done|]. split; [constructor|]. split; [constructor|]. split; [intros _|]; lia.
Qed.

(** C18. A peer that stops reading is not detected.  Once the write channel is full
    while no PING is out, and for as long as the socket takes nothing, whatever
    time passes and whatever the peer sends, the link stays open: the heartbeat
    is suspended in sending its PING and never comes to see that no PONG
    answers it. *)
Theorem stalled_peer_undetected n (S S' : Stall C) :
  closed_ (sl_link S) = false -> ch_closed (write_chan_ (sl_link S)) = false -> ch_bound (write_chan_ (sl_link S)) = 1024 ->
  1024 <= zlen (wq (sl_link S)) -> pending_ping_nonce_ (sl_link S) = 0 -> rtc (stuck_step n) S S' ->
  closed_ (sl_link S') = false /\ (pending_ping_nonce_ (sl_link S') <> 0 -> Heart ∈ sl_waiting S').
Proof.
  intros Hc Hcc Hb Hq Hp Hr. assert (heart_stuck S') as (Hc' & _ & _ & _ & Hh).
  { revert Hr. apply (rtc_ind_r heart_stuck); [|intros ? ? _; apply stuck_step_heart]. by repeat (split; [done|]); left. }
  split; [done|]. intros Hn. by destruct Hh.
Qed.
End StallProperties.

(** ** Witnesses *)

#[local] Existing Instance reference_absl.

Definition idle_link : Stall fifo := mkStall (mkMux sample_link [] None) [].

Lemma write_queue_bounded_witness :
  let L' := default sample_link (snd <$> openSession [7] (fromDomain (lit "h") 80) true sample_link) in
  let S := mkStall (with_link idle_link L') (after_send (Caller 0) sample_link L' []) in
  wq (sl_link S) = [encodeNewUdp [] 7] /\ zlen (wq (sl_link S)) <= 1027.
Proof.
  intros L' S. split; [by vm_compute|]. apply (write_queue_bounded 1 sample_link S); [reflexivity|reflexivity|].
  eapply rtc_once, sl_stuck, sk_work.
  apply (wk_open 1 idle_link 0 [7] (fromDomain (lit "h") 80) true (Ok 0%nat)); [lia|apply not_elem_of_nil|].
  vm_compute. reflexivity.
Defined.

(** 1024 frames wait and the socket takes none of them; at the sixteenth second a
    PING is due.  Had the heartbeat gone on ticking, it would have failed this
    link. *)
Definition full_link : Link fifo := fold_left (fun L w => enqueueFrame w L) (repeat (lit "x") 1024) sample_link.
Definition full_stall : Stall fifo := mkStall (mkMux full_link [] None) [].
Definition pinged : Stall fifo :=
  let L' := snd (heartbeat_tick (16 * ns_per_s) 42 (sl_link full_stall)) in
  mkStall (with_link full_stall L') (after_send Heart (sl_link full_stall) L' (sl_waiting full_stall)).

Lemma stalled_peer_undetected_witness :
  closed_ (heartbeatLoop silent_ticks full_link) = true /\
  rtc (stuck_step 0) full_stall pinged /\ closed_ (sl_link pinged) = false /\ Heart ∈ sl_waiting pinged.
Proof.
  split; [by vm_compute|]. assert (rtc (stuck_step 0) full_stall pinged) as Hr.
  { apply rtc_once, sk_work. unfold pinged. apply wk_tick; [apply not_elem_of_nil|by vm_compute]. }
  split; [exact Hr|].
  destruct (stalled_peer_undetected 0 full_stall pinged) as [Hc Hh];
    [vm_compute; reflexivity|vm_compute; reflexivity|vm_compute; reflexivity|vm_compute; discriminate|vm_compute; reflexivity|exact Hr|].
  split; [exact Hc|]. apply Hh. vm_compute. discriminate.
Defined.
