(* ===== verification/Standoff.v ===== *)
(** * Two links that stall each other

    A link's reader answers PING, and a server's also NEW, through the write
    queue that everybody else sends through ([Stall]).  When both ends of a
    connection have full queues and full sockets, both readers can come to wait
    for room that only the other one's reader could make.  Here the two ends run
    together: such a standoff never dissolves, but the PING of the server that
    is behind it is still out, and its heartbeat ends the link. *)
From stdpp Require Import gmap relations.
From S2P Require Import Prelude Absl Buffer Resp2 ShineFrame Address Request Channel Socket Session Link LinkReader Multiplex Stall.
From Stdlib Require Import Strings.Byte.

(** ** The command of a frame *)

Fixpoint after_lf (w : bytes) : bytes :=
  match w with [] => [] | b :: w => if bool_decide (b = x0a) then w else after_lf w end.
Fixpoint before_cr (w : bytes) : bytes :=
  match w with [] => [] | b :: w => if bool_decide (b = x0d) then [] else b :: before_cr w end.

(** The first element of an array as RESP2 writes it; [[]] for anything else. *)
Definition word (w : bytes) : bytes :=
  match w with
  | b :: w => if bool_decide (b = x2a) then before_cr (after_lf (after_lf w)) else []
  | [] => []
  end.

Definition is_word (c : bytes) (w : bytes) : bool := bool_decide (word w = c).
Definition is_ping : bytes -> bool := is_word (lit "PING").
Definition is_pong : bytes -> bool := is_word (lit "PONG").
Definition plain (w : bytes) : Prop := is_ping w = false /\ is_pong w = false.

(** How many of the frames satisfy [p]. *)
Definition tally (p : bytes -> bool) (ws : list bytes) : nat := length (filter (fun w => p w = true) ws).

Section Words.
Context `{AbslOps, !AbslSpec}.

Lemma after_lf_app l r : x0a ∉ l -> after_lf (l ++ x0a :: r) = r.
Proof.
  induction l as [|b l IH]; intros Hl; cbn [after_lf app]; [done|].
  apply not_elem_of_cons in Hl as [Hb Hl]. rewrite bool_decide_eq_false_2 by congruence. by apply IH.
Qed.
Lemma before_cr_app l r : x0d ∉ l -> before_cr (l ++ x0d :: r) = l.
Proof.
  induction l as [|b l IH]; intros Hl; cbn [before_cr app]; [done|].
  apply not_elem_of_cons in Hl as [Hb Hl]. rewrite bool_decide_eq_false_2 by congruence. f_equal. by apply IH.
Qed.

(** A line of digits. *)
Lemma after_lf_number n w : 0 <= n -> after_lf (StrCatInt n ++ CRLF ++ w) = w.
Proof.
  intros Hn. destruct (strcat_nonneg n Hn) as (_ & Hd & _). change (CRLF ++ w) with ([x0d] ++ x0a :: w).
  rewrite app_assoc. apply after_lf_app. intros [Hin|Hin%list_elem_of_singleton]%elem_of_app; [|done].
  by apply (not_in_forallb is_digit x0a) in Hd.
Qed.

Lemma word_array c parts : x0d ∉ c -> word (Resp2Writer.writeArray [] (c :: parts)) = c.
Proof.
  intros Hc. rewrite writeArray_wire. unfold wire_array. cbn [map concat]. change (lit "*") with [x2a]. cbn [app word].
  rewrite bool_decide_eq_true_2 by done. rewrite after_lf_number by apply zlen_nonneg.
  unfold wire_bulk. change (lit "$") with [x24]. rewrite <- !app_assoc. cbn [app after_lf].
  rewrite bool_decide_eq_false_2 by done. rewrite after_lf_number by apply zlen_nonneg.
  by apply before_cr_app.
Qed.

(** PING and PONG are told from the other frames. *)
Lemma frame_words f :
  is_ping (encodeFrame [] f) = (match f with PingFrame _ => true | _ => false end) /\
  is_pong (encodeFrame [] f) = (match f with PongFrame _ => true | _ => false end).
Proof.
  unfold is_ping, is_pong, is_word.
  destruct f; cbn [encodeFrame];
    try (unfold encodeHello, encodeAuth, encodeOk, encodeErr, encodeNew, encodeAck, encodeClose, encodeReset,
           encodeWindow, encodePing, encodePong, encodeNewUdp, encodeUdpData;
         rewrite word_array by (eapply bool_decide_unpack; vm_compute; exact I); split; reflexivity).
  by split.
Qed.
Lemma frame_plain f : (match f with PingFrame _ | PongFrame _ => False | _ => True end) -> plain (encodeFrame [] f).
Proof. intros Hf. unfold plain. destruct (frame_words f) as [-> ->]. by destruct f. Qed.

Lemma tally_app p ws ws' : tally p (ws ++ ws') = (tally p ws + tally p ws')%nat.
Proof. unfold tally. by rewrite filter_app, length_app. Qed.
Lemma tally_cons p w ws : tally p (w :: ws) = ((if p w then 1 else 0) + tally p ws)%nat.
Proof. unfold tally. rewrite filter_cons. case_decide as E; [by rewrite E|]. by destruct (p w). Qed.
Lemma tally_nil p : tally p [] = 0%nat.
Proof. done. Qed.
Lemma tally_elem p w ws : w ∈ ws -> p w = true -> (0 < tally p ws)%nat.
Proof.
  intros Hin Hp. induction ws as [|x ws IH]; [by apply not_elem_of_nil in Hin|]. rewrite tally_cons.
  apply elem_of_cons in Hin as [<-|Hin]; [rewrite Hp; lia|]. specialize (IH Hin). lia.
Qed.
End Words.

(** ** Two ends of a connection *)

Section Pair.
Context `{AbslOps} {C : Type -> Type} `{ChannelOps C}.
Implicit Types S : Stall C.

(** The link a process dialled and the one the other process accepted.  The
    unread frames of one are the frames the sockets between them hold for it. *)
Record Pair := mkPair { cli : Stall C; srv : Stall C }.

Definition unread S : list (ShineFrame bytes) := mx_in (sl_mux S).
Definition is_open S : bool := negb (closed_ (sl_link S)).

(** [f] has been written to the socket [S] reads from. *)
Definition given (f : ShineFrame bytes) S : Stall C :=
  mkStall (mkMux (sl_link S) (unread S ++ [f]) (mx_wait (sl_mux S))) (sl_waiting S).
(** The writer took a message and wrote it. *)
Definition wrote S : Stall C :=
  let L' := snd (writer_iter true (sl_link S)) in
  mkStall (with_link S L') (after_write (sl_link S) L' (sl_waiting S)).

(** [room] tells whether sockets that hold these frames take another; [n] and [m]
    count the coroutines that send beside reader and heartbeat. *)
Inductive pair_step (room : list (ShineFrame bytes) -> bool) (n m : nat) (P : Pair) : Pair -> Prop :=
  | pr_cli S' : work_step n (cli P) S' -> pair_step room n m P (mkPair S' (srv P))
  | pr_srv S' : work_step m (srv P) S' -> pair_step room n m P (mkPair (cli P) S')
  | pr_cli_writes f : fst (writer_iter true (sl_link (cli P))) = Return (Some (encodeFrame [] f)) ->
      room (unread (srv P)) = true -> pair_step room n m P (mkPair (wrote (cli P)) (given f (srv P)))
  | pr_srv_writes f : fst (writer_iter true (sl_link (srv P))) = Return (Some (encodeFrame [] f)) ->
      room (unread (cli P)) = true -> pair_step room n m P (mkPair (given f (cli P)) (wrote (srv P)))
  | pr_cli_ends S' : stall_step n (cli P) S' -> is_open S' = false -> pair_step room n m P (mkPair S' (srv P))
  | pr_srv_ends S' : stall_step m (srv P) S' -> is_open S' = false -> pair_step room n m P (mkPair (cli P) S').

(** Both ends have shaken hands, and what they sent for it has been read. *)
Definition end_ready (handler : bool) (L : Link C) : Prop :=
  closed_ L = false /\ handshake_done_ L = true /\ on_new_session_ L = handler /\ pending_ping_nonce_ L = 0 /\
  ch_closed (write_chan_ L) = false /\ ch_bound (write_chan_ L) = 1024 /\ wq L = [].
Definition pair_init (Lc Ls : Link C) : Pair := mkPair (mkStall (mkMux Lc [] None) []) (mkStall (mkMux Ls [] None) []).

(** Each reader waits to send an answer, and neither socket takes a frame. *)
Definition standoff (room : list (ShineFrame bytes) -> bool) (P : Pair) : Prop :=
  Reader ∈ sl_waiting (cli P) /\ Reader ∈ sl_waiting (srv P) /\
  room (unread (cli P)) = false /\ room (unread (srv P)) = false.
End Pair.
Arguments Pair : clear implicits.

(** ** What one end does in a turn *)

Section Turns.
Context `{AbslOps, !AbslSpec} {C : Type -> Type} `{ChannelSpec C}.
Implicit Types (L : Link C) (S : Stall C).

Definition base L :=
  (opts_ L, closed_ L, handshake_done_ L, on_new_session_ L, ch_bound (write_chan_ L), ch_closed (write_chan_ L)).

(** [who] takes [got] from the socket and appends [out] to the queue. *)
Definition turn (who : Sender) (got : list (ShineFrame bytes)) (out : list bytes) L L' : Prop :=
  base L' = base L /\ wq L' = wq L ++ out /\ (length out <= 1)%nat /\
  match who with
  | Reader =>
      (length got <= 1)%nat /\ tally is_ping out = 0%nat /\
      (tally is_pong out <= tally is_ping (encodeFrame [] <$> got))%nat /\
      (on_new_session_ L = false -> Forall (fun w => is_pong w = true) out) /\
      (pending_ping_nonce_ L' = pending_ping_nonce_ L \/
       pending_ping_nonce_ L' = 0 /\ (0 < tally is_pong (encodeFrame [] <$> got))%nat)
  | Heart =>
      got = [] /\ (out = [] /\ timers L' = timers L \/
       pending_ping_nonce_ L = 0 /\ pending_ping_nonce_ L' <> 0 /\ Forall (fun w => is_ping w = true /\ is_pong w = false) out)
  | Caller _ => got = [] /\ Forall plain out /\ timers L' = timers L
  end.

Lemma enqueue_out w L :
  base (enqueueFrame w L) = base L /\ exists out, (out = [] \/ out = [w]) /\ wq (enqueueFrame w L) = wq L ++ out.
Proof.
  unfold enqueueFrame. destruct (closed_ L) eqn:Hc; [split; [done|]; exists []; rewrite app_nil_r; auto|].
  unfold base, wq. cbn. rewrite send_bound, send_closed, send_queue. split; [by rewrite Hc|].
  destruct (ch_closed _); eauto.
Qed.

Lemma caller_turn i w L0 L : base L0 = base L -> wq L0 = wq L -> timers L0 = timers L -> plain w ->
  exists out, turn (Caller i) [] out L (enqueueFrame w L0).
Proof.
  intros Eb Ew Et Hp. destruct (enqueue_out w L0) as (E & out & Ho & Eq). exists out. unfold turn.
  rewrite E, Eq, Ew, Eb, enqueue_timers. split; [done|]. split; [done|].
  split; [by destruct Ho as [-> | ->]; cbn; lia|]. split; [done|]. split; [|done].
  destruct Ho as [-> | ->]; [constructor|by apply Forall_singleton].
Qed.

Lemma idle_turn who L : exists out, turn who [] out L L.
Proof.
  exists []. unfold turn. rewrite app_nil_r. do 2 (split; [done|]). split; [cbn; lia|].
  destruct who; [|split; [done|by left]|split; [done|split; [constructor|done]]].
  split; [cbn; lia|]. split; [done|]. split; [rewrite tally_nil; lia|]. split; [constructor|by left].
Qed.

(** A frame the reader does not answer. *)
Lemma quiet_turn f L L' :
  base L' = base L -> wq L' = wq L ->
  (pending_ping_nonce_ L' = pending_ping_nonce_ L \/ pending_ping_nonce_ L' = 0 /\ exists n, f = PongFrame n) ->
  exists out, turn Reader [f] out L L'.
Proof.
  intros Eb Ew Hp. exists []. unfold turn. rewrite app_nil_r. split; [done|]. split; [done|].
  split; [cbn; lia|]. split; [cbn; lia|]. split; [done|]. split; [rewrite tally_nil; lia|]. split; [constructor|].
  destruct Hp as [|[Hp [n ->]]]; [by left|right]. split; [done|]. cbn [fmap list_fmap].
  rewrite tally_cons, (proj2 (frame_words (PongFrame n))). lia.
Qed.

(** One it answers with [g]. *)
Lemma reply_turn f g L L1 L' :
  base L1 = base L -> wq L1 = wq L -> pending_ping_nonce_ L1 = pending_ping_nonce_ L ->
  base L' = base (enqueueFrame (encodeFrame [] g) L1) -> wq L' = wq (enqueueFrame (encodeFrame [] g) L1) ->
  pending_ping_nonce_ L' = pending_ping_nonce_ (enqueueFrame (encodeFrame [] g) L1) ->
  (match g with PongFrame _ => exists n, f = PingFrame n | PingFrame _ => False | _ => on_new_session_ L = true end) ->
  exists out, turn Reader [f] out L L'.
Proof.
  intros Eb1 Ew1 Ep1 Eb Ew Ep Hg. destruct (enqueue_out (encodeFrame [] g) L1) as (E & out & Ho & Eq). exists out.
  unfold turn. rewrite Eb, E, Eb1, Ew, Eq, Ew1, Ep, (pending_timers L1 (enqueueFrame _ L1)) by apply enqueue_timers.
  split; [done|]. split; [done|]. split; [by destruct Ho as [-> | ->]; cbn; lia|]. split; [cbn; lia|].
  destruct (frame_words g) as [Hpi Hpo]. destruct (frame_words f) as [Hf _]. cbn [fmap list_fmap].
  rewrite (tally_cons is_ping), Hf.
  destruct Ho as [-> | ->]; rewrite ?tally_cons, ?tally_nil, ?Hpi, ?Hpo.
  - split; [done|]. split; [lia|]. split; [constructor|]. left. congruence.
  - split; [by destruct g|]. split; [by destruct g; try lia; destruct Hg as [? ->]|]. split; [|left; congruence].
    intros Hn. apply Forall_singleton. rewrite Hpo. by destruct g; try congruence.
Qed.

Lemma accept_turn f sid win a proto L :
  on_new_session_ L = true -> exists out, turn Reader [f] out L (acceptSession sid win a proto L).
Proof.
  intros Hn. unfold acceptSession. cbn [new_session].
  match goal with |- context [enqueueFrame _ ?L2] => by apply (reply_turn f (AckFrame sid) L L2) end.
Qed.

Lemma dispatch_turn now f L : exists out, turn Reader [f] out L (dispatchFrame now f L).
Proof.
  assert (forall p g, exists out, turn Reader [f] out L (on_session p g L)) as Hon
    by (intros p g; apply quiet_turn; [done..|by left]).
  assert (exists out, turn Reader [f] out L L) as Hid by (apply quiet_turn; [done..|by left]).
  destruct f as [| | | |sid blob win|sid|sid r|sid|sid delta|nonce|nonce|sid pl|sid|sid blob pl]; cbn [dispatchFrame];
    try done; unfold findSession.
  - destruct (on_new_session_ L) eqn:Hn; cbn [negb]; [|done].
    destruct (parseBinary blob); [by apply accept_turn|by apply (reply_turn _ (ResetFrame sid) L L)..].
  - destruct (sessions_ L !! sid); [|done]. destruct (heap_ _ !! _); [|apply Hon].
    destruct (bool_decide _); [|apply Hon]. apply quiet_turn; [done..|by left].
  - destruct (sessions_ L !! sid); [|done]. apply quiet_turn; [done..|by left].
  - by destruct (sessions_ L !! sid).
  - apply (reply_turn _ (PongFrame nonce) L L); try done. by exists nonce.
  - destruct (pending_ping_nonce_ L =? nonce); [|done]. apply quiet_turn; [done..|right]. split; [done|by exists nonce].
  - by destruct (sessions_ L !! sid).
  - destruct (on_new_session_ L) eqn:Hn; cbn [negb]; [by apply accept_turn|done].
  - destruct (sessions_ L !! sid); [|done]. by destruct (parseBinary blob).
Qed.

Lemma tick_turn now nonce L :
  closed_ (snd (heartbeat_tick now nonce L)) = false -> exists out, turn Heart [] out L (snd (heartbeat_tick now nonce L)).
Proof.
  unfold heartbeat_tick. destruct (negb (handshake_done_ L)); [intros _; apply idle_turn|].
  destruct (_ && _); [cbn [snd]; by rewrite failLink_closed|].
  destruct (Z.eqb_spec (pending_ping_nonce_ L) 0) as [Hp|]; cbn [andb]; [|intros _; apply idle_turn].
  destruct (_ <? _); [|intros _; apply idle_turn]. cbn [snd]. intros _. set (n := if nonce =? 0 then 1 else nonce).
  match goal with |- context [enqueueFrame _ ?L1] => set (L2 := L1) end.
  destruct (enqueue_out (encodePing [] n) L2) as (E & out & Ho & Eq).
  assert (pending_ping_nonce_ (enqueueFrame (encodePing [] n) L2) = n) as En
    by (change n with (pending_ping_nonce_ L2); apply pending_timers, enqueue_timers).
  exists out. unfold turn. rewrite E, Eq, En. split; [done|]. split; [done|]. split; [by destruct Ho as [-> | ->]; cbn; lia|].
  split; [done|]. right. split; [done|]. split; [unfold n; by destruct (Z.eqb_spec nonce 0)|].
  destruct Ho as [-> | ->]; [constructor|]. apply Forall_singleton. apply (frame_words (PingFrame n)).
Qed.

(** What a session sends. *)
Lemma call_plain lv (s s' : Session C) eff : session_call lv s s' eff -> Forall plain (enqueued eff).
Proof.
  assert (forall f, (match f with PingFrame _ | PongFrame _ => False | _ => True end) -> Forall plain [encodeFrame [] f]) as Hone
    by (intros f Hf; apply Forall_singleton; by apply frame_plain).
  assert (forall n (s1 : Session C), Forall plain (enqueued (snd (read_account lv n s1)))) as Hacc.
  { intros n s1. unfold read_account, maybeSendWindow. repeat case_match; first [by apply Forall_nil|by apply (Hone (WindowFrame _ _))]. }
  destruct 1 as [cap d s' eff _ E|rem s' E|rem s' wire rest _ E|s' eff E|s' eff E|data target r s' eff E|r s' E]; try (by apply Forall_nil).
  - unfold read, read_leftover, read_payload in E.
    repeat (case_match; simplify_eq/=; try (by apply Forall_nil));
      match goal with H : read_account lv ?n ?s1 = _ |- _ => specialize (Hacc n s1); rewrite H in Hacc; exact Hacc end.
  - unfold write_iter in E. repeat (case_match; simplify_eq/=). by apply (Hone (DataFrame _ _)).
  - unfold shutdownWrite in E. repeat (case_match; simplify_eq/=; try (by apply Forall_nil)); by apply (Hone (CloseFrame _ _)).
  - unfold close in E. repeat (case_match; simplify_eq/=; try (by apply Forall_nil)); by apply (Hone (CloseFrame _ _)).
  - unfold sendTo in E. repeat (case_match; simplify_eq/=; try (by apply Forall_nil)); by apply (Hone (UdpDataFrame _ _ _)).
Qed.

Lemma call_turn i p lv s s' eff L :
  session_call lv s s' eff -> exists out, turn (Caller i) [] out L (call_session p s' eff L).
Proof.
  intros Hc. pose proof (session_call_one _ _ _ _ Hc) as Hlen. pose proof (call_plain _ _ _ _ Hc) as Hp.
  unfold call_session, apply_effects. set (L0 := set_heap _ L).
  assert (exists out, turn (Caller i) [] out L (fold_left (fun l w => enqueueFrame w l) (enqueued eff) L0)) as [out Ht].
  { destruct (enqueued eff) as [|w [|w2 ws]]; [destruct (idle_turn (Caller i) L) as [out Ht]; by exists out| |cbn in Hlen; lia].
    apply Forall_cons in Hp as [Hp _]. by apply (caller_turn i w L0 L). }
  exists out. by destruct (erased eff).
Qed.

Lemma open_turn i draws target is_udp r L L' :
  openSession draws target is_udp L = Some (r, L') -> exists out, turn (Caller i) [] out L L'.
Proof.
  unfold openSession. destruct (closed_ L); [intros [= _ <-]; apply idle_turn|].
  destruct (draw_nonzero draws) as [[sid more]|]; [|done]. cbn [new_session]. intros [= _ <-].
  apply caller_turn; [done..|]. destruct is_udp; [apply (frame_plain (NewUdpFrame _))|apply (frame_plain (NewFrame _ _ _))]; done.
Qed.

(** Every step of the coroutines is a turn of one that is not suspended. *)
Lemma work_turn n S S' :
  work_step n S S' -> is_open S' = true ->
  exists who got out, who ∉ sl_waiting S /\ turn who got out (sl_link S) (sl_link S') /\ unread S = got ++ unread S' /\
    sl_waiting S' = after_send who (sl_link S) (sl_link S') (sl_waiting S).
Proof.
  intros Hst Ho. apply negb_true_iff in Ho.
  destruct Hst as [now Hw M|now nonce Hw Hc L'|i draws target udp r L' Hin Hw E|i p s Hin Hw Hs L'|i p s s' eff Hin Hw Hs Hcall L'].
  - exists Reader. unfold M, mux_read, sl_link, unread. cbn [sl_mux sl_waiting]. clear Ho M.
    destruct (mx_in (sl_mux S)) as [|f rest] eqn:Ei; [exists []; destruct (idle_turn Reader (mx_link (sl_mux S))) as [out Ht]; exists out; by rewrite Ei|].
    destruct (_ || _); [exists []; destruct (idle_turn Reader (mx_link (sl_mux S))) as [out Ht]; exists out; by rewrite Ei|].
    exists [f]. destruct (dispatch_turn now f (mx_link (sl_mux S))) as [out Ht]. by exists out.
  - exists Heart, []. destruct (tick_turn now nonce (sl_link S) Ho) as [out Ht]. by exists out.
  - exists (Caller i), []. destruct (open_turn i _ _ _ _ _ _ E) as [out Ht]. by exists out.
  - exists (Caller i), []. destruct (caller_turn i (encodeClose [] (sid_ s) (lit "shutdown")) (sl_link S) (sl_link S)) as [out Ht];
      [done..|by apply (frame_plain (CloseFrame _ _))|]. by exists out.
  - exists (Caller i), []. destruct (call_turn i p _ _ _ _ (sl_link S) Hcall) as [out Ht]. by exists out.
Qed.
End Turns.

(** ** The frames of suspended senders *)

Section Held.
Context `{AbslOps, !AbslSpec} {C : Type -> Type} `{ChannelSpec C}.
Implicit Types (L : Link C) (S : Stall C).

(** What a suspended sender is waiting to send; [handler] is whether the link
    accepts sessions. *)
Definition sent_by (handler : bool) (who : Sender) (w : bytes) : Prop :=
  match who with Reader => handler = false -> is_pong w = true | Heart => is_ping w = true | Caller _ => True end.

(** The messages the channel has no room for are those of the suspended senders. *)
Definition held (ws : list Sender) L : Prop :=
  Forall2 (sent_by (on_new_session_ L)) ws (drop (Z.to_nat (ch_bound (write_chan_ L))) (wq L)).

Lemma turn_sent who got out L L' : turn who got out L L' -> Forall (sent_by (on_new_session_ L) who) out.
Proof.
  intros (_ & _ & _ & Ht). destruct who; cbn [sent_by].
  - destruct Ht as (_ & _ & _ & Hf & _). destruct (on_new_session_ L); [by apply Forall_true|].
    eapply Forall_impl; [by apply Hf|]. intros w Hp _. exact Hp.
  - destruct Ht as (_ & [[-> _]|(_ & _ & Hf)]); [constructor|]. eapply Forall_impl; [exact Hf|]. by intros ? [? _].
  - by apply Forall_true.
Qed.

Lemma turn_base who got out L L' :
  turn who got out L L' -> closed_ L' = closed_ L /\ handshake_done_ L' = handshake_done_ L /\
    on_new_session_ L' = on_new_session_ L /\ ch_bound (write_chan_ L') = ch_bound (write_chan_ L).
Proof. intros (E & _). by injection E as _ -> -> -> -> _. Qed.

Lemma turn_held who got out L L' ws :
  turn who got out L L' -> closed_ L' = false -> 0 <= ch_bound (write_chan_ L) ->
  held ws L -> held (after_send who L L' ws) L'.
Proof.
  intros Ht Hc Hb Hh. pose proof (turn_sent _ _ _ _ _ Ht) as Hs. destruct (turn_base _ _ _ _ _ Ht) as (_ & _ & En & Eb).
  destruct Ht as (_ & Ew & Hlen & _). unfold held, after_send in *. rewrite En, Eb, Ew, Hc.
  destruct out as [|w [|w2 out]]; [|clear Hlen|cbn in Hlen; lia].
  - by rewrite app_nil_r, Z.ltb_irrefl.
  - rewrite zlen_app. change (zlen [w]) with 1. rewrite (proj2 (Z.ltb_lt _ _)) by lia. cbn [andb].
    rewrite drop_app. destruct (Z.ltb_spec (ch_bound (write_chan_ L)) (zlen (wq L) + 1)) as [Hlt|Hge].
    + replace (_ - _)%nat with 0%nat by (unfold zlen in Hlt; lia). apply Forall2_app; [done|].
      constructor; [by apply Forall_cons in Hs as [Hs _]|constructor].
    + rewrite (drop_ge [w]) by (unfold zlen in Hge; cbn [length]; lia). by rewrite app_nil_r.
Qed.

Lemma wrote_link S w :
  fst (writer_iter true (sl_link S)) = Return (Some w) -> w <> [] ->
  let L' := sl_link (wrote S) in
  base L' = base (sl_link S) /\ timers L' = timers (sl_link S) /\ wq (sl_link S) = w :: wq L' /\
  closed_ L' = false /\ sl_waiting (wrote S) = tail (sl_waiting S).
Proof.
  intros E Hw. unfold wrote. set (L := sl_link S) in *. cbn [sl_link sl_mux with_link mx_link sl_waiting].
  assert (base (snd (writer_iter true L)) = base L /\ timers (snd (writer_iter true L)) = timers L /\
    wq L = w :: wq (snd (writer_iter true L)) /\ closed_ (snd (writer_iter true L)) = false) as (Hba & Hti & Hq & Hc).
  { revert E. unfold writer_iter. destruct (closed_ L) eqn:Hc; [done|].
    destruct (ch_async_receive (write_chan_ L)) as [r c] eqn:Er. pose proof (recv_queue _ _ _ _ Er) as (Eq & Ec & Eb).
    destruct r as [msg| |]; cbn [fst]; [|done..]. case_bool_decide; cbn [fst snd]; intros [= <-]; [done|].
    unfold base, timers, wq. cbn. rewrite Eb, Ec, Eq, Hc. done. }
  split; [done|]. split; [done|]. split; [done|]. split; [done|]. unfold after_write. rewrite Hc, Hq.
  rewrite (proj2 (Z.ltb_lt _ _)); [done|]. unfold zlen. cbn [length]. lia.
Qed.

Lemma tail_drop {A} n (l : list A) : tail (drop n l) = drop (S n) l.
Proof. revert l. induction n as [|n IH]; intros [|x l]; cbn; [done|by rewrite drop_0|done|apply IH]. Qed.

Lemma wrote_held S w :
  fst (writer_iter true (sl_link S)) = Return (Some w) -> w <> [] ->
  held (sl_waiting S) (sl_link S) -> held (sl_waiting (wrote S)) (sl_link (wrote S)).
Proof.
  intros E Hw Hh. destruct (wrote_link S w E Hw) as (Eb & _ & Eq & _ & ->). unfold held in *.
  injection Eb as _ _ _ -> -> _. rewrite Eq in Hh.
  assert (drop (Z.to_nat (ch_bound (write_chan_ (sl_link S)))) (wq (sl_link (wrote S))) =
    tail (drop (Z.to_nat (ch_bound (write_chan_ (sl_link S)))) (w :: wq (sl_link (wrote S))))) as ->
    by (by rewrite tail_drop).
  by destruct Hh.
Qed.
End Held.

(** ** Where a PING is *)

Section Token.
Context `{AbslOps, !AbslSpec} {C : Type -> Type} `{ChannelSpec C}.
Implicit Types (L : Link C) (S a b : Stall C) (P : Pair C).

Definition wire (fs : list (ShineFrame bytes)) : list bytes := encodeFrame [] <$> fs.

(** The PINGs of [a] on their way to [b], and the PONGs on their way back. *)
Definition token a b : nat :=
  (tally is_ping (wq (sl_link a)) + tally is_ping (wire (unread b)) +
   tally is_pong (wq (sl_link b)) + tally is_pong (wire (unread a)))%nat.
Definition token_ok a b : Prop := (token a b <= if (pending_ping_nonce_ (sl_link a) =? 0)%Z then 0 else 1)%nat.

Lemma tally_none p ws : Forall (fun w => p w = false) ws -> tally p ws = 0%nat.
Proof. induction 1 as [|w ws Hw Hws IH]; [done|]. by rewrite tally_cons, Hw, IH. Qed.
Lemma tally_le p ws : (tally p ws <= length ws)%nat.
Proof. unfold tally. apply length_filter. Qed.
Lemma plain_none ws : Forall plain ws -> tally is_ping ws = 0%nat /\ tally is_pong ws = 0%nat.
Proof. intros Hp. split; apply tally_none; (eapply Forall_impl; [exact Hp|]); by intros w [? ?]. Qed.
Lemma wire_app fs gs : wire (fs ++ gs) = wire fs ++ wire gs.
Proof. apply fmap_app. Qed.

Lemma token_turn_asker who got out a a' b :
  turn who got out (sl_link a) (sl_link a') -> unread a = got ++ unread a' -> token_ok a b -> token_ok a' b.
Proof.
  intros (_ & Ew & Hlen & Ht) Eu. unfold token_ok, token. rewrite Ew, Eu, wire_app, !tally_app. destruct who.
  - destruct Ht as (_ & -> & _ & _ & [-> |[-> Hp]]); change (encodeFrame [] <$> got) with (wire got) in *;
      [|rewrite Z.eqb_refl]; destruct (pending_ping_nonce_ (sl_link a) =? 0); lia.
  - destruct Ht as (-> & [[-> ->%pending_timers]|(-> & Hn & Hf)]); [rewrite !tally_nil; lia|].
    rewrite Z.eqb_refl, (proj2 (Z.eqb_neq _ _) Hn). pose proof (tally_le is_ping out). cbn [wire fmap list_fmap].
    rewrite tally_nil. lia.
  - destruct Ht as (-> & [-> _]%plain_none & ->%pending_timers). cbn [wire fmap list_fmap]. rewrite tally_nil. lia.
Qed.

Lemma token_turn_answerer who got out a b b' :
  turn who got out (sl_link b) (sl_link b') -> unread b = got ++ unread b' -> token_ok a b -> token_ok a b'.
Proof.
  intros (_ & Ew & Hlen & Ht) Eu. unfold token_ok, token. rewrite Ew, Eu, wire_app, !tally_app. destruct who.
  - destruct Ht as (_ & _ & Hc & _). change (encodeFrame [] <$> got) with (wire got) in *. lia.
  - assert (tally is_pong out = 0%nat) as ->; [|lia]. destruct Ht as (_ & [[-> _]|(_ & _ & Hf)]); [done|].
    apply tally_none. eapply Forall_impl; [exact Hf|]. by intros w [_ ?].
  - destruct Ht as (_ & [_ ->]%plain_none & _). lia.
Qed.

Lemma encodeFrame_nonempty f : encodeFrame [] f <> [].
Proof. destruct f; cbn [encodeFrame]; try (unfold encodeHello, encodeAuth, encodeOk, encodeErr, encodeNew, encodeAck, encodeClose, encodeReset, encodeWindow, encodePing, encodePong, encodeNewUdp, encodeUdpData; by rewrite writeArray_wire). done. Qed.

Lemma token_written a b f :
  fst (writer_iter true (sl_link a)) = Return (Some (encodeFrame [] f)) ->
  (token_ok a b -> token_ok (wrote a) (given f b)) /\ (token_ok b a -> token_ok (given f b) (wrote a)).
Proof.
  intros E. destruct (wrote_link a _ E (encodeFrame_nonempty f)) as (_ & Et & Eq & _).
  unfold token_ok, token. rewrite Eq, (pending_timers _ _ Et). change (sl_link (given f b)) with (sl_link b).
  change (unread (given f b)) with (unread b ++ [f]). change (unread (wrote a)) with (unread a).
  rewrite wire_app, !tally_app, !tally_cons. cbn [wire fmap list_fmap]. rewrite !tally_cons, !tally_nil.
  split; lia.
Qed.
End Token.

(** ** The invariant of the pair *)

Section PairInvariant.
Context `{AbslOps, !AbslSpec} {C : Type -> Type} `{ChannelSpec C}.
Variable room : list (ShineFrame bytes) -> bool.
Variables n m : nat.
Implicit Types (L : Link C) (S a b : Stall C) (P : Pair C).

Definition end_ok (handler : bool) S : Prop :=
  0 <= ch_bound (write_chan_ (sl_link S)) /\ handshake_done_ (sl_link S) = true /\
  on_new_session_ (sl_link S) = handler /\ held (sl_waiting S) (sl_link S).
Definition both_open P : Prop := is_open (cli P) = true /\ is_open (srv P) = true.
Definition pair_ok P : Prop := end_ok false (cli P) /\ end_ok true (srv P) /\ token_ok (srv P) (cli P).

Lemma work_end_ok h S S' who got out :
  is_open S' = true -> turn who got out (sl_link S) (sl_link S') ->
  sl_waiting S' = after_send who (sl_link S) (sl_link S') (sl_waiting S) -> end_ok h S -> end_ok h S'.
Proof.
  intros Ho Ht Ew (Hb & Hh & Hn & Hd). apply negb_true_iff in Ho. destruct (turn_base _ _ _ _ _ Ht) as (_ & Eh & En & Eb).
  unfold end_ok. rewrite Ew, Eb, Eh, En. split; [done|]. split; [done|]. split; [done|]. by eapply turn_held.
Qed.

Lemma work_open k S S' : work_step k S S' -> is_open S' = true -> is_open S = true.
Proof.
  intros Hst Ho. destruct (work_turn k S S' Hst Ho) as (who & got & out & _ & Ht & _).
  destruct (turn_base _ _ _ _ _ Ht) as (E & _). unfold is_open in *. by rewrite <- E.
Qed.

Lemma wrote_end_ok h S f :
  fst (writer_iter true (sl_link S)) = Return (Some (encodeFrame [] f)) -> end_ok h S -> end_ok h (wrote S).
Proof.
  intros E (Hb & Hh & Hn & Hd). pose proof (wrote_held S _ E (encodeFrame_nonempty f) Hd) as Hd'.
  destruct (wrote_link S _ E (encodeFrame_nonempty f)) as (Eb & _). unfold end_ok.
  injection Eb as _ _ -> -> -> _. done.
Qed.

Lemma written_open S f : fst (writer_iter true (sl_link S)) = Return (Some (encodeFrame [] f)) -> is_open S = true.
Proof. unfold writer_iter, is_open. by destruct (closed_ (sl_link S)). Qed.

Lemma pair_step_ok P P' :
  pair_step room n m P P' -> both_open P' -> both_open P /\ (pair_ok P -> pair_ok P').
Proof.
  intros Hst [Hc Hs]. destruct Hst as [S' Hw|S' Hw|f E Hr|f E Hr|S' _ Hcl|S' _ Hcl]; cbn [cli srv] in *; try congruence.
  - split; [split; [by eapply work_open|done]|]. destruct (work_turn n _ _ Hw Hc) as (who & got & out & _ & Ht & Eu & Ew).
    intros (He & He' & Htok). split; [by eapply work_end_ok|]. split; [done|]. by eapply token_turn_answerer.
  - split; [split; [done|by eapply work_open]|]. destruct (work_turn m _ _ Hw Hs) as (who & got & out & _ & Ht & Eu & Ew).
    intros (He & He' & Htok). split; [done|]. split; [by eapply work_end_ok|]. by eapply token_turn_asker.
  - split; [split; [by eapply written_open|done]|]. intros (He & He' & Htok).
    split; [by eapply wrote_end_ok|]. split; [done|]. by apply token_written.
  - split; [split; [done|by eapply written_open]|]. intros (He & He' & Htok).
    split; [done|]. split; [by eapply wrote_end_ok|]. by apply token_written.
Qed.

Lemma pair_run_ok Lc Ls P :
  end_ready false Lc -> end_ready true Ls -> rtc (pair_step room n m) (pair_init Lc Ls) P -> both_open P -> pair_ok P.
Proof.
  intros Hc Hs Hr. revert P Hr. apply (rtc_ind_r (fun P => both_open P -> pair_ok P)).
  - intros _. destruct Hc as (_ & Hh & Hn & Hp & _ & Hb & Hw), Hs as (_ & Hh' & Hn' & Hp' & _ & Hb' & Hw').
    unfold pair_ok, end_ok, held, token_ok, token, sl_link, unread. cbn [pair_init cli srv sl_mux mx_link mx_in sl_waiting].
    rewrite Hw, Hw', Hb, Hb', Hp', !drop_nil. cbn. do 2 (split; [repeat (split; [done|]); constructor|]). lia.
  - intros P P' _ Hst IH Ho. destruct (pair_step_ok P P' Hst Ho) as [Ho' Hok]. by apply Hok, IH.
Qed.

(** A suspended sender's frame is in the queue. *)
Lemma held_frame who ws L : held ws L -> who ∈ ws -> exists w, w ∈ wq L /\ sent_by (on_new_session_ L) who w.
Proof.
  intros Hd [i Hi]%list_elem_of_lookup. destruct (Forall2_lookup_l _ _ _ _ _ Hd Hi) as (w & Hw & Hs).
  exists w. split; [|done]. rewrite lookup_drop in Hw. by eapply list_elem_of_lookup_2.
Qed.

(** The client's reader waits only to send a PONG: the PING of the server is out
    and its heartbeat is not suspended. *)
Lemma waiting_pong P :
  pair_ok P -> Reader ∈ sl_waiting (cli P) ->
  pending_ping_nonce_ (sl_link (srv P)) <> 0 /\ Heart ∉ sl_waiting (srv P).
Proof.
  intros ((_ & _ & Hn & Hd) & (_ & _ & _ & Hd') & Htok) Hr.
  destruct (held_frame _ _ _ Hd Hr) as (w & Hw & Hp). rewrite Hn in Hp. specialize (Hp eq_refl).
  pose proof (tally_elem _ _ _ Hw Hp). unfold token_ok, token in Htok.
  split; [intros E; rewrite E, Z.eqb_refl in Htok; lia|]. intros Hh.
  destruct (held_frame _ _ _ Hd' Hh) as (w' & Hw' & Hp'). pose proof (tally_elem _ _ _ Hw' Hp').
  destruct (_ =? 0); lia.
Qed.

(** A turn of one that is not the reader takes nothing and resumes nobody. *)
Lemma turn_in_standoff k S S' :
  work_step k S S' -> is_open S' = true -> Reader ∈ sl_waiting S ->
  Reader ∈ sl_waiting S' /\ unread S' = unread S /\
  (pending_ping_nonce_ (sl_link S) <> 0 -> timers (sl_link S') = timers (sl_link S)).
Proof.
  intros Hst Ho Hr. destruct (work_turn k S S' Hst Ho) as (who & got & out & Hw & Ht & Eu & Ew).
  apply negb_true_iff in Ho. split.
  { rewrite Ew. unfold after_send. rewrite Ho. destruct (_ && _); [|done]. apply elem_of_app. by left. }
  destruct Ht as (_ & _ & _ & Ht). destruct who; [done|..].
  - destruct Ht as (-> & Ht). split; [done|]. intros Hn. destruct Ht as [[_ ?]|[? _]]; done.
  - by destruct Ht as (-> & _ & ?).
Qed.

Lemma standoff_step P P' :
  pair_step room n m P P' -> both_open P' -> standoff room P -> pending_ping_nonce_ (sl_link (srv P)) <> 0 ->
  standoff room P' /\ unread (cli P') = unread (cli P) /\ unread (srv P') = unread (srv P) /\
  timers (sl_link (srv P')) = timers (sl_link (srv P)).
Proof.
  intros Hst [Hc Hs] (Hrc & Hrs & Hfc & Hfs) Hp. unfold standoff.
  destruct Hst as [S' Hw|S' Hw|f E Hr|f E Hr|S' _ Hcl|S' _ Hcl]; cbn [cli srv] in *; try congruence.
  - destruct (turn_in_standoff n _ _ Hw Hc Hrc) as (? & -> & _). done.
  - destruct (turn_in_standoff m _ _ Hw Hs Hrs) as (? & -> & Ht). by rewrite Ht.
Qed.

Lemma standoff_run P P' :
  rtc (pair_step room n m) P P' -> both_open P' -> standoff room P -> pending_ping_nonce_ (sl_link (srv P)) <> 0 ->
  standoff room P' /\ unread (cli P') = unread (cli P) /\ unread (srv P') = unread (srv P) /\
  timers (sl_link (srv P')) = timers (sl_link (srv P)).
Proof.
  intros Hr Ho Hst Hp. revert P' Hr Ho. apply (rtc_ind_r (fun P' => both_open P' -> _)); [done|].
  intros P1 P2 _ Hs IH Ho. destruct (pair_step_ok P1 P2 Hs Ho) as [Ho1 _].
  destruct (IH Ho1) as (Hst1 & Ec & Es & Et).
  destruct (standoff_step P1 P2 Hs Ho Hst1) as (Hst2 & -> & -> & ->); [by rewrite (pending_timers _ _ Et)|done].
Qed.
End PairInvariant.

(** ** Properties *)

Section StandoffProperties.
Context `{AbslOps, !AbslSpec} {C : Type -> Type} `{ChannelSpec C}.

(** C19. Two links that stall each other: once the readers of a client and of a
    server both wait to send an answer while neither socket takes a frame, no
    frame is read again as long as both are up, whatever the coroutines do; but
    the PING of the server is out, its heartbeat is not suspended, and its first
    tick after the pong timeout fails the link. *)
Theorem standoff_ends room n m (Lc Ls : Link C) P P' :
  end_ready false Lc -> end_ready true Ls ->
  rtc (pair_step room n m) (pair_init Lc Ls) P -> both_open P -> standoff room P ->
  rtc (pair_step room n m) P P' -> both_open P' ->
  let L := sl_link (srv P) in let L' := sl_link (srv P') in
  (standoff room P' /\ unread (cli P') = unread (cli P) /\ unread (srv P') = unread (srv P)) /\
  pending_ping_nonce_ L <> 0 /\ Heart ∉ sl_waiting (srv P') /\
  forall now nonce, mul64 (u64 (pong_timeout (opts_ L))) ns_per_s < sub64 now (last_ping_sent_ns_ L) ->
    closed_ (snd (heartbeat_tick now nonce L')) = true.
Proof.
  intros Hc Hs Hr Ho Hst Hr' Ho' L L'. pose proof (pair_run_ok room n m Lc Ls P Hc Hs Hr Ho) as Hok.
  destruct (waiting_pong P Hok (proj1 Hst)) as [Hp _].
  destruct (standoff_run room n m P P' Hr' Ho' Hst Hp) as (Hst' & Ec & Es & Et).
  assert (pair_ok P') as Hok' by (apply (pair_run_ok room n m Lc Ls); [done..| |done]; by etrans).
  destruct (waiting_pong P' Hok' (proj1 Hst')) as [Hp' Hh]. split; [done|]. split; [done|]. split; [done|].
  intros now nonce Hlt. destruct Hok' as (_ & (_ & Hd & _) & _). fold L' in Hp', Hd, Et. fold L in Et.
  unfold heartbeat_tick. rewrite Hd. unfold timers in Et. injection Et as Eo _ _ _ Ep El.
  rewrite Eo, El, (proj2 (Z.eqb_neq _ _) Hp'), (proj2 (Z.ltb_lt _ _) Hlt). apply failLink_closed.
Qed.
End StandoffProperties.

(** ** Witnesses: two processes, executed *)

#[local] Existing Instance reference_absl.

(** Sockets that hold one unread frame. *)
Definition one_frame (fs : list (ShineFrame bytes)) : bool := bool_decide (fs = []).

Inductive Work :=
  | DoRead (now : Z) | DoTick (now nonce : Z) | DoAnnounce (p : nat)
  | DoOpen (draws : list Z) (target : Address) (is_udp : bool).
Inductive PairMove := ByCli (w : Work) | BySrv (w : Work) | CliWrites (f : ShineFrame bytes) | SrvWrites (f : ShineFrame bytes).

(** What cannot be done leaves everything as it is. *)
Definition do_work (w : Work) (S : Stall fifo) : Stall fifo :=
  let turn_of who L' := mkStall (with_link S L') (after_send who (sl_link S) L' (sl_waiting S)) in
  let free who := bool_decide (who ∉ sl_waiting S) in
  match w with
  | DoRead now =>
      if free Reader then
        let M := mux_read now (sl_mux S) in mkStall M (after_send Reader (sl_link S) (mx_link M) (sl_waiting S))
      else S
  | DoTick now nonce =>
      if free Heart && is_open S then turn_of Heart (snd (heartbeat_tick now nonce (sl_link S))) else S
  | DoAnnounce p =>
      if free (Caller 0) then
        match heap_ (sl_link S) !! p with
        | Some s => turn_of (Caller 0) (enqueueFrame (encodeClose [] (sid_ s) (lit "shutdown")) (sl_link S))
        | None => S
        end
      else S
  | DoOpen draws target is_udp =>
      if free (Caller 0) then
        match openSession draws target is_udp (sl_link S) with Some (_, L') => turn_of (Caller 0) L' | None => S end
      else S
  end.
Definition writes (f : ShineFrame bytes) (S : Stall fifo) : bool :=
  match fst (writer_iter true (sl_link S)) with Return (Some w) => bool_decide (w = encodeFrame [] f) | _ => false end.
Definition pair_do (m : PairMove) (P : Pair fifo) : Pair fifo :=
  match m with
  | ByCli w => mkPair (do_work w (cli P)) (srv P)
  | BySrv w => mkPair (cli P) (do_work w (srv P))
  | CliWrites f => if writes f (cli P) && one_frame (unread (srv P)) then mkPair (wrote (cli P)) (given f (srv P)) else P
  | SrvWrites f => if writes f (srv P) && one_frame (unread (cli P)) then mkPair (given f (cli P)) (wrote (srv P)) else P
  end.
Definition pair_run (ms : list PairMove) (P : Pair fifo) : Pair fifo := fold_left (fun P m => pair_do m P) ms P.

Lemma do_work_step w S : do_work w S = S \/ work_step 1 S (do_work w S).
Proof.
  destruct w as [now|now nonce|p|draws target udp]; cbn [do_work].
  - case_bool_decide; [right; by apply wk_read|by left].
  - case_bool_decide; cbn [andb]; [|by left]. destruct (is_open S) eqn:E; [|by left].
    right. apply wk_tick; [done|]. by apply negb_true_iff.
  - case_bool_decide; [|by left]. destruct (heap_ (sl_link S) !! p) as [s|] eqn:E; [|by left].
    right. apply (wk_announce 1 S 0 p s); [lia|done..].
  - case_bool_decide; [|by left]. destruct (openSession draws target udp (sl_link S)) as [[r L']|] eqn:E; [|by left].
    right. apply (wk_open 1 S 0 draws target udp r); [lia|done..].
Qed.

Lemma writes_spec f S : writes f S = true -> fst (writer_iter true (sl_link S)) = Return (Some (encodeFrame [] f)).
Proof. unfold writes. destruct (fst _) as [[w|]| |]; try done. by intros ->%bool_decide_eq_true. Qed.

Lemma pair_run_rtc ms : forall P, rtc (pair_step one_frame 1 1) P (pair_run ms P).
Proof.
  induction ms as [|m ms IH]; intros P; [done|]. cbn [pair_run fold_left]. etrans; [|apply IH]. clear IH.
  destruct m as [w|w|f|f]; cbn [pair_do].
  - destruct (do_work_step w (cli P)) as [->|Hw]; [by destruct P|by apply rtc_once, pr_cli].
  - destruct (do_work_step w (srv P)) as [->|Hw]; [by destruct P|by apply rtc_once, pr_srv].
  - destruct (writes f (cli P) && _) eqn:E; [|done]. apply andb_true_iff in E as [E1 E2].
    apply rtc_once, pr_cli_writes; [by apply writes_spec|done].
  - destruct (writes f (srv P) && _) eqn:E; [|done]. apply andb_true_iff in E as [E1 E2].
    apply rtc_once, pr_srv_writes; [by apply writes_spec|done].
Qed.

Definition ready_link (server : bool) : Link fifo :=
  start server 0 (set_handshake true (ch_make 1) (Link_new
    (mkLinkOptions [] kDefaultInitWindow 15 10 kMaxBulkLen (256 * 1024) server))).
Definition sec (t : Z) : Z := t * ns_per_s.
Definition shut : ShineFrame bytes := CloseFrame 7 (lit "shutdown").

(** A session is opened, both heartbeats send their PING, both queues fill up,
    and both readers come to answer. *)
Definition jam : list PairMove :=
  [ByCli (DoOpen [7] Address_default true); CliWrites (NewUdpFrame 7); BySrv (DoRead 0); SrvWrites (AckFrame 7); ByCli (DoRead 0);
   BySrv (DoTick (sec 16) 5); SrvWrites (PingFrame 5); ByCli (DoTick (sec 16) 6); CliWrites (PingFrame 6)] ++
  repeat (ByCli (DoAnnounce 0)) 1025 ++ repeat (BySrv (DoAnnounce 0)) 1025 ++
  [ByCli (DoRead (sec 16)); SrvWrites shut; BySrv (DoAnnounce 0); BySrv (DoRead (sec 16)); CliWrites shut].
(** More attempts of everybody change nothing. *)
Definition struggle : list PairMove :=
  [ByCli (DoAnnounce 0); ByCli (DoRead (sec 17)); BySrv (DoTick (sec 17) 8); ByCli (DoTick (sec 17) 9); BySrv (DoRead (sec 17));
   CliWrites shut; SrvWrites shut].

Definition jammed : Pair fifo := pair_run jam (pair_init (ready_link false) (ready_link true)).
Definition both_openb (P : Pair fifo) : bool := is_open (cli P) && is_open (srv P).
Definition standoffb (P : Pair fifo) : bool :=
  bool_decide (Reader ∈ sl_waiting (cli P)) && bool_decide (Reader ∈ sl_waiting (srv P)) &&
  negb (one_frame (unread (cli P))) && negb (one_frame (unread (srv P))).

Lemma both_openb_spec P : both_openb P = true -> both_open P.
Proof. by intros [? ?]%andb_true_iff. Qed.
Lemma standoffb_spec P : standoffb P = true -> standoff one_frame P.
Proof.
  unfold standoffb. intros [[[E1%bool_decide_eq_true E2%bool_decide_eq_true]%andb_true_iff E3%negb_true_iff]%andb_true_iff
    E4%negb_true_iff]%andb_true_iff. done.
Qed.
Lemma ready_link_ready server : end_ready server (ready_link server).
Proof. by repeat split. Qed.

Lemma standoff_ends_witness :
  let P' := pair_run struggle jammed in
  standoff one_frame jammed /\ unread (cli P') = unread (cli jammed) /\ Heart ∉ sl_waiting (srv P') /\
  closed_ (snd (heartbeat_tick (sec 27) 1 (sl_link (srv P')))) = true.
Proof.
  intros P'.
  assert (rtc (pair_step one_frame 1 1) (pair_init (ready_link false) (ready_link true)) jammed) as Hr by apply pair_run_rtc.
  assert (rtc (pair_step one_frame 1 1) jammed P') as Hr' by apply pair_run_rtc.
  assert (both_open P') as Ho' by (apply both_openb_spec; vm_compute; reflexivity). clearbody P'.
  assert (both_open jammed) as Ho by (apply both_openb_spec; vm_compute; reflexivity).
  assert (standoff one_frame jammed) as Hst by (apply standoffb_spec; vm_compute; reflexivity).
  split; [exact Hst|].
  destruct (standoff_ends one_frame 1 1 (ready_link false) (ready_link true) jammed P' (ready_link_ready false)
    (ready_link_ready true) Hr Ho Hst Hr' Ho') as ((_ & Eu & _) & _ & Hh & Ht).
  split; [exact Eu|]. split; [exact Hh|]. apply Ht. vm_compute. reflexivity.
Defined.
