(* ===== verification/Config.v ===== *)
(** * Configuration (src/config/schema.hpp, src/config/yaml_loader.cpp)

    The configuration records, the checks of [Config::validate], the little
    parsers for sizes and durations, and the translation of a route rule.  The
    YAML library is outside the repository: [YamlOps] is what the loader uses of
    it. *)
From stdpp Require Import gmap.
From S2P Require Import Prelude Absl.
From Stdlib Require Import Strings.Byte.

(** ** Records of schema.hpp *)

Record InboundConfig := mkInbound {
  in_tag : bytes; in_protocol : bytes; in_listen : bytes; in_password : bytes;
  in_max_payload : Z; in_ping_interval : Z; in_pong_timeout : Z; in_handshake_timeout : Z;
  in_init_window : Z; in_user : bytes; in_pass : bytes;
}.
Record OutboundConfig := mkOutbound {
  out_tag : bytes; out_protocol : bytes; out_server : bytes; out_password : bytes;
  out_pool_size : Z; out_ping_interval : Z; out_pong_timeout : Z; out_handshake_timeout : Z;
  out_init_window : Z; out_user : bytes; out_pass : bytes;
}.
Record RuleConfig := mkRule {
  rule_inbound_tag : option bytes; rule_domain_exact : list bytes; rule_domain_suffix : list bytes;
  rule_cidrs : list bytes; rule_geoip : list bytes; rule_geosite : list bytes; rule_outbound_tag : bytes;
}.
Record RouteConfig := mkRoute {
  geoip_path : bytes; geosite_path : bytes; rules : list RuleConfig; default_outbound : bytes;
}.
Record LogConfig := mkLog { level : bytes; format : bytes }.
Record MetricsConfig := mkMetrics { metrics_listen : bytes; metrics_path : bytes }.
Record ServerConfig := mkServer { io_threads : Z; graceful_timeout : Z }.
Record Config := mkConfig {
  log : LogConfig; server : ServerConfig; metrics : MetricsConfig;
  inbounds : list InboundConfig; outbounds : list OutboundConfig; route : RouteConfig;
}.

Definition default_inbound : InboundConfig :=
  mkInbound [] [] [] [] (512 * 1024 * 1024) 15 10 5 (256 * 1024) [] [].
Definition default_outbound_cfg : OutboundConfig :=
  mkOutbound [] [] [] [] 1 15 10 5 (256 * 1024) [] [].

(** ** Validation *)

(** The loop over the inbounds; [tags] is the set filled so far. *)
Fixpoint check_inbounds (tags : gset bytes) (ins : list InboundConfig) : res unit :=
  match ins with
  | [] => Ok tt
  | i :: ins =>
      if decide (in_tag i = []) then Err (InvalidArgumentError (lit "inbound tag empty"))
      else if decide (lit "in:" ++ in_tag i ∈ tags)
      then Err (InvalidArgumentError (lit "duplicate inbound tag: " ++ in_tag i))
      else if decide (in_listen i = [])
      then Err (InvalidArgumentError (lit "inbound " ++ in_tag i ++ lit " missing listen"))
      else check_inbounds ({[lit "in:" ++ in_tag i]} ∪ tags) ins
  end.

(** The loop over the outbounds: the tags and whether one is direct. *)
Fixpoint check_outbounds (tags : gset bytes) (direct : bool) (outs : list OutboundConfig)
  : res (gset bytes * bool) :=
  match outs with
  | [] => Ok (tags, direct)
  | o :: outs =>
      if decide (out_tag o = []) then Err (InvalidArgumentError (lit "outbound tag empty"))
      else if decide (out_tag o ∈ tags)
      then Err (InvalidArgumentError (lit "duplicate outbound tag: " ++ out_tag o))
      else check_outbounds ({[out_tag o]} ∪ tags)
             (if decide (out_protocol o = lit "direct") then true else direct) outs
  end.

Fixpoint check_rules (tags : gset bytes) (rs : list RuleConfig) : res unit :=
  match rs with
  | [] => Ok tt
  | r :: rs =>
      if decide (rule_outbound_tag r ∈ tags) then check_rules tags rs
      else Err (InvalidArgumentError (lit "rule outbound not found: " ++ rule_outbound_tag r))
  end.

Definition validate (c : Config) : res unit :=
  _ ← check_inbounds ∅ (inbounds c);
  if decide (inbounds c = []) then Err (InvalidArgumentError (lit "no inbounds configured"))
  else
    '(out_tags, has_direct) ← check_outbounds ∅ false (outbounds c);
    if negb has_direct then Err (InvalidArgumentError (lit "at least one direct outbound is required"))
    else
      let d := default_outbound (route c) in
      if negb (bool_decide (d = [])) && negb (bool_decide (d ∈ out_tags))
      then Err (InvalidArgumentError (lit "default outbound not found: " ++ d))
      else check_rules out_tags (rules (route c)).

(** ** Sizes and durations *)

Fixpoint digits_prefix (s : bytes) : Z :=
  match s with b :: r => if is_digit b then 1 + digits_prefix r else 0 | [] => 0 end.

Definition size_mult (unit : bytes) : option Z :=
  if bool_decide (unit = []) || bool_decide (unit = lit "B") then Some 1
  else if bool_decide (unit = lit "K") || bool_decide (unit = lit "KB") || bool_decide (unit = lit "KiB")
  then Some 1024
  else if bool_decide (unit = lit "M") || bool_decide (unit = lit "MB") || bool_decide (unit = lit "MiB")
  then Some (1024 * 1024)
  else if bool_decide (unit = lit "G") || bool_decide (unit = lit "GB") || bool_decide (unit = lit "GiB")
  then Some (1024 * 1024 * 1024)
  else None.

Section Parsers.
Context `{AbslOps}.

Definition parseSize (s : bytes) : res Z :=
  if decide (s = []) then Err (InvalidArgumentError (lit "empty size"))
  else
    let idx := digits_prefix s in
    if idx =? 0 then Err (InvalidArgumentError (lit "bad size: " ++ s))
    else
      match SimpleAtoi INT64_MIN INT64_MAX (slice s 0 idx) with
      | None => Err (InvalidArgumentError (lit "bad number"))
      | Some val =>
          match size_mult (drop (Z.to_nat idx) s) with
          | None => Err (InvalidArgumentError (lit "unknown size unit: " ++ drop (Z.to_nat idx) s))
          | Some mult => Ok (mul64 (u64 val) mult)
          end
      end.
End Parsers.

(** [double]: [SimpleAtod], and [static_cast<int64_t>(val * k1 * k2 ...)]; [None]
    when the product, truncated, is not an [int64_t]: the cast is undefined. *)
Class DoubleOps := {
  double : Type;
  SimpleAtod : bytes -> option double;
  scaled_to_int : double -> list Z -> option Z;
}.

Fixpoint number_prefix (s : bytes) : Z :=
  match s with
  | b :: r => if is_digit b || bool_decide (b = "."%byte) then 1 + number_prefix r else 0
  | [] => 0
  end.

Definition cast_ms `{DoubleOps} (val : double) (ks : list Z) : res Z :=
  match scaled_to_int val ks with Some ms => Ok ms | None => UB end.

(** [parseDuration], in milliseconds. *)
Definition parseDuration `{DoubleOps} (s : bytes) : res Z :=
  if decide (s = []) then Err (InvalidArgumentError (lit "empty duration"))
  else
    let idx := number_prefix s in
    if idx =? 0 then Err (InvalidArgumentError (lit "bad duration: " ++ s))
    else
      match SimpleAtod (slice s 0 idx) with
      | None => Err (InvalidArgumentError (lit "bad number"))
      | Some val =>
          let unit := drop (Z.to_nat idx) s in
          if decide (unit = lit "ms") then cast_ms val []
          else if decide (unit = lit "s" \/ unit = []) then cast_ms val [1000]
          else if decide (unit = lit "m") then cast_ms val [60; 1000]
          else if decide (unit = lit "h") then cast_ms val [3600; 1000]
          else Err (InvalidArgumentError (lit "unknown unit: " ++ unit))
      end.

(** ** The YAML tree *)

(** What the loader uses of a [YAML::Node].  [n_defined n] is [!!n].  [n_get n
    key] is [n[key]]: [None] when the subscript throws ([BadSubscript] on a
    scalar, [InvalidNode] on a node that is not there), [Some None] when there is
    no such key, as in a null or a sequence.  [n_items] is what iterating gives:
    the elements of a sequence, an invalid node for each entry of a map, nothing
    otherwise.  [n_str] and [n_int] are [as<std::string>()] and [as<int>(def)]
    ([None] where the conversion fails or throws), and [yaml_load] is
    [YAML::Load] ([None] when it throws). *)
Class YamlOps := {
  node : Type;
  n_defined : node -> bool;
  n_get : node -> bytes -> option (option node);
  n_items : node -> list node;
  n_str : node -> option bytes;
  n_int : node -> option Z;
  yaml_load : bytes -> option node;
}.

(** A [YAML::Exception], caught by [loadFromString]. *)
Definition yaml_error {A} : res A := Err (InvalidArgumentError (lit "yaml parse: ")).

Section Loader.
Context `{AbslOps, DoubleOps, YamlOps}.

(** [n[key]], and the same behind the test [!n || !n[key]]. *)
Definition subscript (n : node) (key : bytes) : res (option node) :=
  match n_get n key with Some v => Ok v | None => yaml_error end.
Definition child (n : node) (key : bytes) : res (option node) :=
  if n_defined n then subscript n key else Ok None.

Definition getStr (n : node) (key def : bytes) : res bytes :=
  c ← child n key;
  Ok (match c with Some v => default def (n_str v) | None => def end).
Definition getInt (n : node) (key : bytes) (def : Z) : res Z :=
  c ← child n key;
  Ok (match c with Some v => default def (n_int v) | None => def end).

(** [as<std::string>()] without a default throws. *)
Definition as_str (n : node) : res bytes :=
  match n_str n with Some s => Ok s | None => yaml_error end.

(** [duration_cast<seconds>] truncates towards zero. *)
Definition parseSeconds (n : node) (key : bytes) (def : Z) : res Z :=
  c ← child n key;
  match c with
  | None => Ok def
  | Some v => s ← as_str v; ms ← parseDuration s; Ok (Z.quot ms 1000)
  end.
Definition parseSizeNode (n : node) (key : bytes) (def : Z) : res Z :=
  c ← child n key;
  match c with
  | None => Ok def
  | Some v => s ← as_str v; parseSize s
  end.

Definition parseInbound (n : node) : res InboundConfig :=
  let c := default_inbound in
  tag ← getStr n (lit "tag") [];
  protocol ← getStr n (lit "protocol") [];
  listen ← getStr n (lit "listen") [];
  password ← getStr n (lit "password") [];
  user ← getStr n (lit "user") [];
  pass ← getStr n (lit "pass") [];
  mp ← parseSizeNode n (lit "max_payload") (in_max_payload c);
  iw ← parseSizeNode n (lit "init_window") (in_init_window c);
  pi ← parseSeconds n (lit "ping_interval") (in_ping_interval c);
  pt ← parseSeconds n (lit "pong_timeout") (in_pong_timeout c);
  ht ← parseSeconds n (lit "handshake_timeout") (in_handshake_timeout c);
  Ok (mkInbound tag protocol listen password mp pi pt ht (u32 iw) user pass).

Definition parseOutbound (n : node) : res OutboundConfig :=
  let c := default_outbound_cfg in
  tag ← getStr n (lit "tag") [];
  protocol ← getStr n (lit "protocol") [];
  server ← getStr n (lit "server") [];
  password ← getStr n (lit "password") [];
  user ← getStr n (lit "user") [];
  pass ← getStr n (lit "pass") [];
  pool_size ← getInt n (lit "pool_size") 1;
  iw ← parseSizeNode n (lit "init_window") (out_init_window c);
  pi ← parseSeconds n (lit "ping_interval") (out_ping_interval c);
  pt ← parseSeconds n (lit "pong_timeout") (out_pong_timeout c);
  ht ← parseSeconds n (lit "handshake_timeout") (out_handshake_timeout c);
  Ok (mkOutbound tag protocol server password (u64 pool_size) pi pt ht (u32 iw) user pass).

(** The items of [n[key]], as strings; none when the key is absent. *)
Fixpoint as_strs (ns : list node) : res (list bytes) :=
  match ns with [] => Ok [] | n :: ns => s ← as_str n; ss ← as_strs ns; Ok (s :: ss) end.
Definition str_items (n : node) (key : bytes) : res (list bytes) :=
  c ← subscript n key;
  match c with None => Ok [] | Some v => as_strs (n_items v) end.

(** One item of [n["domain"]] and of [n["ip"]]. *)
Definition add_domain_item (r : RuleConfig) (d : bytes) : RuleConfig :=
  if StartsWith d (lit "geosite:") then
    mkRule (rule_inbound_tag r) (rule_domain_exact r) (rule_domain_suffix r) (rule_cidrs r) (rule_geoip r)
      (rule_geosite r ++ [drop 8 d]) (rule_outbound_tag r)
  else if StartsWith d (lit "domain:") then
    mkRule (rule_inbound_tag r) (rule_domain_exact r) (rule_domain_suffix r ++ [drop 7 d]) (rule_cidrs r)
      (rule_geoip r) (rule_geosite r) (rule_outbound_tag r)
  else
    mkRule (rule_inbound_tag r)
      (rule_domain_exact r ++ [if StartsWith d (lit "full:") then drop 5 d else d])
      (rule_domain_suffix r) (rule_cidrs r) (rule_geoip r) (rule_geosite r) (rule_outbound_tag r).
Definition add_ip_item (r : RuleConfig) (ip : bytes) : RuleConfig :=
  if StartsWith ip (lit "geoip:") then
    mkRule (rule_inbound_tag r) (rule_domain_exact r) (rule_domain_suffix r) (rule_cidrs r)
      (rule_geoip r ++ [drop 6 ip]) (rule_geosite r) (rule_outbound_tag r)
  else
    mkRule (rule_inbound_tag r) (rule_domain_exact r) (rule_domain_suffix r) (rule_cidrs r ++ [ip])
      (rule_geoip r) (rule_geosite r) (rule_outbound_tag r).

Definition parseRule (n : node) : res RuleConfig :=
  c ← subscript n (lit "inbound");
  inb ← (match c with None => Ok None | Some v => s ← as_str v; Ok (Some s) end);
  doms ← str_items n (lit "domain");
  let r1 := fold_left add_domain_item doms (mkRule inb [] [] [] [] [] []) in
  sufs ← str_items n (lit "domain_suffix");
  ips ← str_items n (lit "ip");
  let r2 := fold_left add_ip_item ips r1 in
  cidrs ← str_items n (lit "cidr");
  gips ← str_items n (lit "geoip");
  gsites ← str_items n (lit "geosite");
  outbound ← getStr n (lit "outbound") [];
  Ok (mkRule (rule_inbound_tag r2) (rule_domain_exact r2) (rule_domain_suffix r2 ++ sufs) (rule_cidrs r2 ++ cidrs)
        (rule_geoip r2 ++ gips) (rule_geosite r2 ++ gsites) outbound).

Fixpoint parse_all {A} (f : node -> res A) (ns : list node) : res (list A) :=
  match ns with [] => Ok [] | n :: ns => x ← f n; xs ← parse_all f ns; Ok (x :: xs) end.
Definition parse_list {A} (f : node -> res A) (root : node) (key : bytes) : res (list A) :=
  c ← subscript root key;
  match c with None => Ok [] | Some v => parse_all f (n_items v) end.

Definition loadLog (root : node) : res LogConfig :=
  c ← subscript root (lit "log");
  match c with
  | None => Ok (mkLog (lit "info") (lit "text"))
  | Some l =>
      level ← getStr l (lit "level") (lit "info");
      format ← getStr l (lit "format") (lit "text");
      Ok (mkLog level format)
  end.
Definition loadServer (root : node) : res ServerConfig :=
  c ← subscript root (lit "server");
  match c with
  | None => Ok (mkServer 0 30)
  | Some s =>
      io ← getInt s (lit "io_threads") 0;
      gt ← parseSeconds s (lit "graceful_timeout") 30;
      Ok (mkServer (u64 io) gt)
  end.
Definition loadMetrics (root : node) : res MetricsConfig :=
  c ← subscript root (lit "metrics");
  match c with
  | None => Ok (mkMetrics (lit "127.0.0.1:9100") (lit "/metrics"))
  | Some m =>
      listen ← getStr m (lit "listen") (lit "127.0.0.1:9100");
      path ← getStr m (lit "path") (lit "/metrics");
      Ok (mkMetrics listen path)
  end.
Definition loadRoute (root : node) : res RouteConfig :=
  c ← subscript root (lit "route");
  match c with
  | None => Ok (mkRoute [] [] [] [])
  | Some r =>
      gip ← getStr r (lit "geoip_path") [];
      gsite ← getStr r (lit "geosite_path") [];
      rs ← parse_list parseRule r (lit "rules");
      dflt ← getStr r (lit "default") [];
      Ok (mkRoute gip gsite rs dflt)
  end.

Definition loadFromString (content : bytes) : res Config :=
  match yaml_load content with
  | None => yaml_error
  | Some root =>
      lg ← loadLog root;
      srv ← loadServer root;
      mt ← loadMetrics root;
      ins ← parse_list parseInbound root (lit "inbounds");
      outs ← parse_list parseOutbound root (lit "outbounds");
      rt ← loadRoute root;
      let c := mkConfig lg srv mt ins outs rt in
      _ ← validate c;
      Ok c
  end.
End Loader.

(** ** Where loading is undefined

    Only in the cast of [parseDuration], on a string of the document. *)

Section LoaderDefined.
Context `{AbslOps, DoubleOps, YamlOps}.

(** The nodes of a document. *)
Inductive in_doc (root : node) : node -> Prop :=
  | in_doc_root : in_doc root root
  | in_doc_child n key v : in_doc root n -> n_get n key = Some (Some v) -> in_doc root v
  | in_doc_item n v : in_doc root n -> v ∈ n_items n -> in_doc root v.

(** A duration of the document whose milliseconds do not fit 64 bits. *)
Definition bad_duration (root : node) : Prop :=
  exists n s, in_doc root n /\ n_str n = Some s /\ parseDuration s = UB.

(** [r] is undefined only if [P]. *)
Definition ub_only {A} (P : Prop) (r : res A) : Prop := r = UB -> P.

Lemma ub_only_ok {A} P (a : A) : ub_only P (Ok a).
Proof. done. Qed.
Lemma ub_only_defined {A} P (r : res A) : defined r -> ub_only P r.
Proof. by intros Hd ->. Qed.
Lemma ub_only_bind {A B} P (m : res A) (f : A -> res B) :
  ub_only P m -> (forall a, m = Ok a -> ub_only P (f a)) -> ub_only P (m ≫= f).
Proof. unfold ub_only. intros Hm Hf. destruct m as [a|s|]; cbn; [by apply Hf|done|auto]. Qed.

Lemma subscript_ok n key c : subscript n key = Ok c -> n_get n key = Some c.
Proof. unfold subscript, yaml_error. destruct (n_get n key); [by intros [= ->]|done]. Qed.
Lemma child_ok n key v : child n key = Ok (Some v) -> n_get n key = Some (Some v).
Proof. unfold child. destruct (n_defined n); [apply subscript_ok|done]. Qed.
Lemma as_str_ok n s : as_str n = Ok s -> n_str n = Some s.
Proof. unfold as_str, yaml_error. destruct (n_str n); [by intros [= ->]|done]. Qed.

Lemma as_str_defined n : defined (as_str n).
Proof. unfold as_str, yaml_error. by destruct (n_str n). Qed.
Lemma subscript_defined n key : defined (subscript n key).
Proof. unfold subscript, yaml_error. by destruct (n_get n key). Qed.
Lemma child_defined n key : defined (child n key).
Proof. unfold child. destruct (n_defined n); [apply subscript_defined|done]. Qed.
Lemma getStr_defined n key def : defined (getStr n key def).
Proof. by apply defined_bind; [apply child_defined|]. Qed.
Lemma getInt_defined n key def : defined (getInt n key def).
Proof. by apply defined_bind; [apply child_defined|]. Qed.
Lemma as_strs_defined ns : defined (as_strs ns).
Proof.
  induction ns as [|n ns IH]; [done|]. apply defined_bind; [apply as_str_defined|]. intros s _.
  by apply defined_bind.
Qed.
Lemma str_items_defined n key : defined (str_items n key).
Proof. apply defined_bind; [apply subscript_defined|]. intros [v|] _; [apply as_strs_defined|done]. Qed.
Lemma parseSize_defined s : defined (parseSize s).
Proof. unfold parseSize. by repeat case_match. Qed.
Lemma parseSizeNode_defined n key def : defined (parseSizeNode n key def).
Proof.
  apply defined_bind; [apply child_defined|]. intros [v|] _; [|done].
  apply defined_bind; [apply as_str_defined|]. intros s _. apply parseSize_defined.
Qed.
#[local] Hint Resolve as_str_defined str_items_defined subscript_defined getStr_defined getInt_defined
  parseSizeNode_defined : core.

Lemma parseRule_defined n : defined (parseRule n).
Proof.
  apply defined_bind; [done|]. intros c _. apply defined_bind; [|intros ? _; by repeat (apply defined_bind; [done|intros ? _])].
  destruct c; [|done]. by apply defined_bind.
Qed.
Lemma parse_list_ub {A} P (f : node -> res A) root n key :
  in_doc root n -> (forall v, in_doc root v -> ub_only P (f v)) -> ub_only P (parse_list f n key).
Proof.
  intros Hn Hf. apply ub_only_bind; [by apply ub_only_defined|]. intros [v|] Ev; [|done].
  assert (in_doc root v) as Hv by (eapply in_doc_child; [done|by apply subscript_ok]).
  assert (forall w, w ∈ n_items v -> ub_only P (f w)) as Hw by (intros w ?; apply Hf; by eapply in_doc_item).
  clear Ev. induction (n_items v) as [|w ws IH]; [done|]. apply ub_only_bind; [apply Hw; by left|]. intros x _.
  apply ub_only_bind; [apply IH; intros; apply Hw; by right|done].
Qed.
Lemma parseSeconds_ub root n key def : in_doc root n -> ub_only (bad_duration root) (parseSeconds n key def).
Proof.
  intros Hn. apply ub_only_bind; [apply ub_only_defined, child_defined|]. intros [v|] Ev; [|done].
  apply child_ok in Ev. apply ub_only_bind; [by apply ub_only_defined|]. intros s Es%as_str_ok.
  apply ub_only_bind; [|done]. intros Hub. exists v, s. split; [by eapply in_doc_child|done].
Qed.
#[local] Hint Resolve ub_only_defined parseSeconds_ub ub_only_ok : core.

Lemma parseInbound_ub root n : in_doc root n -> ub_only (bad_duration root) (parseInbound n).
Proof. intros Hn. unfold parseInbound. repeat (apply ub_only_bind; [by auto|intros ? _]). done. Qed.
Lemma parseOutbound_ub root n : in_doc root n -> ub_only (bad_duration root) (parseOutbound n).
Proof. intros Hn. unfold parseOutbound. repeat (apply ub_only_bind; [by auto|intros ? _]). done. Qed.

Lemma check_inbounds_defined tags ins : defined (check_inbounds tags ins).
Proof. revert tags. induction ins as [|i ins IH]; intros tags; [done|]. cbn. by repeat case_decide. Qed.
Lemma check_outbounds_defined tags direct outs : defined (check_outbounds tags direct outs).
Proof. revert tags direct. induction outs as [|o outs IH]; intros tags direct; [done|]. cbn [check_outbounds]. repeat case_decide; try done; apply IH. Qed.
Lemma check_rules_defined tags rs : defined (check_rules tags rs).
Proof. induction rs as [|r rs IH]; [done|]. cbn. by case_decide. Qed.
Lemma validate_defined c : defined (validate c).
Proof.
  unfold validate. apply defined_bind; [apply check_inbounds_defined|intros _ _]. case_decide; [done|].
  apply defined_bind; [apply check_outbounds_defined|]. intros [tags direct] _. destruct direct; [|done]. cbn.
  case_match; [done|apply check_rules_defined].
Qed.

Lemma loadServer_ub root : ub_only (bad_duration root) (loadServer root).
Proof.
  apply ub_only_bind; [by auto|]. intros [s|] Es%subscript_ok; [|done].
  apply ub_only_bind; [by auto|intros ? _]. apply ub_only_bind; [|done].
  apply parseSeconds_ub. eapply in_doc_child; [apply in_doc_root|done].
Qed.
Lemma loadRoute_defined root : defined (loadRoute root).
Proof.
  apply defined_bind; [done|]. intros [r|] _; [|done]. do 2 (apply defined_bind; [done|intros ? _]).
  apply defined_bind; [|intros ? _; by apply defined_bind].
  destruct (parse_list parseRule r (lit "rules")) eqn:E; [done..|]. exfalso.
  by apply (parse_list_ub False parseRule r r (lit "rules")); [apply in_doc_root|intros v _; apply ub_only_defined, parseRule_defined|].
Qed.
Lemma loadFromString_ub content :
  loadFromString content = UB -> exists root, yaml_load content = Some root /\ bad_duration root.
Proof.
  unfold loadFromString. destruct (yaml_load content) as [root|]; [|done]. intros E. exists root. split; [done|].
  revert E. change (ub_only (bad_duration root) (loadLog root ≫= fun lg => srv ← loadServer root; mt ← loadMetrics root;
    ins ← parse_list parseInbound root (lit "inbounds"); outs ← parse_list parseOutbound root (lit "outbounds");
    rt ← loadRoute root; _ ← validate (mkConfig lg srv mt ins outs rt); Ok (mkConfig lg srv mt ins outs rt))).
  apply ub_only_bind; [apply ub_only_defined, defined_bind; [done|intros [l|] _; [|done]; by repeat (apply defined_bind; [done|intros ? _])]|intros lg _].
  apply ub_only_bind; [apply loadServer_ub|intros srv _].
  apply ub_only_bind; [apply ub_only_defined, defined_bind; [done|intros [l|] _; [|done]; by repeat (apply defined_bind; [done|intros ? _])]|intros mt _].
  apply ub_only_bind; [by apply (parse_list_ub _ _ root); [apply in_doc_root|apply parseInbound_ub]|intros ins _].
  apply ub_only_bind; [by apply (parse_list_ub _ _ root); [apply in_doc_root|apply parseOutbound_ub]|intros outs _].
  apply ub_only_bind; [apply ub_only_defined, loadRoute_defined|intros rt _].
  by apply ub_only_bind; [apply ub_only_defined, validate_defined|].
Qed.
End LoaderDefined.

(** ** What [validate] guarantees *)

Definition valid_inbound (i : InboundConfig) : Prop := in_tag i <> [] /\ in_listen i <> [].

(** The documented conditions. *)
Definition valid_config (c : Config) : Prop :=
  inbounds c <> [] /\ Forall valid_inbound (inbounds c) /\ NoDup (in_tag <$> inbounds c) /\
  Forall (fun o => out_tag o <> []) (outbounds c) /\ NoDup (out_tag <$> outbounds c) /\
  (exists o, o ∈ outbounds c /\ out_protocol o = lit "direct") /\
  (default_outbound (route c) = [] \/ default_outbound (route c) ∈ out_tag <$> outbounds c) /\
  Forall (fun r => rule_outbound_tag r ∈ out_tag <$> outbounds c) (rules (route c)).

Lemma check_inbounds_spec ins : forall tags,
  check_inbounds tags ins = Ok tt <->
  (Forall valid_inbound ins /\ NoDup (in_tag <$> ins) /\
   forall i, i ∈ ins -> lit "in:" ++ in_tag i ∉ tags).
Proof.
  induction ins as [|i ins IH]; intros tags; cbn [check_inbounds fmap list_fmap].
  { split; [|done]. intros _. split; [constructor|]. split; [constructor|]. intros i Hi. by apply elem_of_nil in Hi. }
  rewrite Forall_cons, NoDup_cons, list_elem_of_fmap. unfold valid_inbound at 1.
  destruct (decide (in_tag i = [])); [naive_solver|].
  destruct (decide (lit "in:" ++ in_tag i ∈ tags)) as [Hin|Hn].
  { split; [done|]. intros (_ & _ & Hall). by destruct (Hall i); [left|]. }
  destruct (decide (in_listen i = [])); [naive_solver|]. rewrite IH. split.
  - intros (Hf & Hnd & Hall). split; [done|]. split.
    + split; [|done]. intros (j & E & Hj). apply (Hall j Hj). rewrite E. set_solver.
    + intros j [->|Hj]%elem_of_cons; [done|]. specialize (Hall j Hj). set_solver.
  - intros ([_ Hf] & [Hni Hnd] & Hall). split; [done|]. split; [done|]. intros j Hj.
    rewrite elem_of_union, elem_of_singleton. intros [E|Ht].
    + apply app_inv_head in E. apply Hni. by exists j.
    + apply (Hall j); [by right|done].
Qed.

Definition outbounds_ok (tags : gset bytes) (outs : list OutboundConfig) : Prop :=
  Forall (fun o => out_tag o <> []) outs /\ NoDup (out_tag <$> outs) /\ (forall o, o ∈ outs -> out_tag o ∉ tags).

Lemma outbounds_ok_cons tags o outs :
  outbounds_ok tags (o :: outs) <->
  (out_tag o <> [] /\ out_tag o ∉ tags /\ outbounds_ok ({[out_tag o]} ∪ tags) outs).
Proof.
  unfold outbounds_ok. cbn [fmap list_fmap]. rewrite Forall_cons, NoDup_cons, list_elem_of_fmap. split.
  - intros ([Hn Hf] & [Hni Hnd] & Hall). split; [done|]. split; [apply Hall; left|]. split; [done|]. split; [done|].
    intros j Hj. rewrite elem_of_union, elem_of_singleton. intros [E|Ht].
    + apply Hni. by exists j.
    + apply (Hall j); [by right|done].
  - intros (Hn & Hnt & Hf & Hnd & Hall). split; [done|]. split.
    + split; [|done]. intros (j & E & Hj). apply (Hall j Hj). rewrite E. set_solver.
    + intros j [->|Hj]%elem_of_cons; [done|]. specialize (Hall j Hj). set_solver.
Qed.

Lemma check_outbounds_spec outs : forall tags direct,
  outbounds_ok tags outs ->
  exists ts d, check_outbounds tags direct outs = Ok (ts, d) /\
    (forall x, x ∈ ts <-> (x ∈ tags \/ x ∈ out_tag <$> outs)) /\
    (d = true <-> (direct = true \/ exists o, o ∈ outs /\ out_protocol o = lit "direct")).
Proof.
  induction outs as [|o outs IH]; intros tags direct Hok; cbn [check_outbounds fmap list_fmap].
  { exists tags, direct. split; [done|]. setoid_rewrite elem_of_nil. naive_solver. }
  apply outbounds_ok_cons in Hok as (Hn & Hnt & Hok).
  destruct (decide (out_tag o = [])); [done|]. destruct (decide (out_tag o ∈ tags)); [done|].
  destruct (IH ({[out_tag o]} ∪ tags) (if decide (out_protocol o = lit "direct") then true else direct) Hok)
    as (ts & d & -> & Hts & Hd). exists ts, d. split; [done|]. split.
  - intros x. rewrite Hts, elem_of_union, elem_of_singleton, elem_of_cons. tauto.
  - rewrite Hd. setoid_rewrite elem_of_cons. destruct (decide (out_protocol o = lit "direct")); naive_solver.
Qed.

Lemma check_outbounds_ok outs : forall tags direct r,
  check_outbounds tags direct outs = Ok r -> outbounds_ok tags outs.
Proof.
  induction outs as [|o outs IH]; intros tags direct r E; cbn [check_outbounds] in E.
  { split; [constructor|]. split; [constructor|]. intros o Ho. by apply elem_of_nil in Ho. }
  destruct (decide (out_tag o = [])); [done|]. destruct (decide (out_tag o ∈ tags)); [done|].
  apply outbounds_ok_cons. split; [done|]. split; [done|]. by eapply IH.
Qed.

Lemma check_rules_spec tags rs :
  check_rules tags rs = Ok tt <-> Forall (fun r => rule_outbound_tag r ∈ tags) rs.
Proof.
  induction rs as [|r rs IH]; cbn [check_rules]; [done|]. rewrite Forall_cons.
  destruct (decide (rule_outbound_tag r ∈ tags)); [tauto|]. naive_solver.
Qed.

Lemma validate_spec c : validate c = Ok tt <-> valid_config c.
Proof.
  unfold validate, valid_config. split.
  - intros E. destruct (check_inbounds ∅ (inbounds c)) as [[]|e|] eqn:Ei; [|done..]. cbn [mbind res_bind] in E.
    apply check_inbounds_spec in Ei as (Hv & Hnd & _). destruct (decide (inbounds c = [])) as [|Hne]; [done|].
    destruct (check_outbounds ∅ false (outbounds c)) as [[ts d]|e|] eqn:Eo; [|done..]. cbn [mbind res_bind] in E.
    pose proof (check_outbounds_ok _ _ _ _ Eo) as Hok. destruct Hok as (Ho & Hnd' & Hout).
    destruct (check_outbounds_spec (outbounds c) ∅ false ltac:(done)) as (ts' & d' & Eo' & Hts & Hd).
    rewrite Eo in Eo'. injection Eo' as <- <-. destruct d; [|done]. cbn [negb] in E.
    destruct (negb _ && negb _) eqn:Edef; [done|]. apply check_rules_spec in E.
    assert (forall x, x ∈ ts <-> x ∈ out_tag <$> outbounds c) as Hts' by (intros x; rewrite Hts; set_solver).
    split; [done|]. split; [done|]. split; [done|]. split; [done|]. split; [done|]. split; [|split].
    + by destruct (proj1 Hd eq_refl).
    + apply andb_false_iff in Edef. rewrite !negb_false_iff, !bool_decide_eq_true, Hts' in Edef. tauto.
    + eapply Forall_impl; [exact E|]. intros r. by rewrite Hts'.
  - intros (Hne & Hv & Hnd & Ho & Hnd' & Hdir & Hdef & Hr).
    rewrite (proj2 (check_inbounds_spec (inbounds c) ∅)) by (split; [done|split; [done|set_solver]]).
    cbn [mbind res_bind]. destruct (decide (inbounds c = [])); [done|].
    destruct (check_outbounds_spec (outbounds c) ∅ false) as (ts & d & -> & Hts & Hd);
      [split; [done|split; [done|set_solver]]|]. cbn [mbind res_bind].
    assert (d = true) as -> by (apply Hd; by right). cbn [negb].
    assert (forall x, x ∈ ts <-> x ∈ out_tag <$> outbounds c) as Hts' by (intros x; rewrite Hts; set_solver).
    destruct (negb _ && negb _) eqn:Edef.
    + apply andb_true_iff in Edef. rewrite !negb_true_iff, !bool_decide_eq_false, Hts' in Edef. tauto.
    + apply check_rules_spec. eapply Forall_impl; [exact Hr|]. intros r. by rewrite Hts'.
Qed.

(** ** Properties *)

(** [validate] accepts exactly the documented configurations: at least one
    inbound, each with a tag and a listen address, inbound tags unique; outbound
    tags non-empty and unique with a direct one among them; and the default
    outbound (if any) and every rule's outbound exist. *)
Theorem validate_exact c : validate c = Ok tt <-> valid_config c.
Proof. apply validate_spec. Qed.

Section SizeFacts.
Context `{AbslOps, !AbslSpec}.

Lemma digits_prefix_app ds unit :
  forallb is_digit ds = true -> (forall b r, unit = b :: r -> is_digit b = false) ->
  digits_prefix (ds ++ unit) = zlen ds.
Proof.
  intros Hd Hu. induction ds as [|b ds IH]; cbn [app].
  - destruct unit as [|b r]; [done|]. cbn. by rewrite (Hu b r).
  - cbn in Hd. apply andb_true_iff in Hd as [Hb Hd]. cbn [digits_prefix]. rewrite Hb, IH, zlen_cons by done. done.
Qed.

Lemma size_mult_unit unit mult :
  size_mult unit = Some mult ->
  (1 <= mult <= 1024 * 1024 * 1024) /\ forall b r, unit = b :: r -> is_digit b = false.
Proof.
  unfold size_mult. intros E.
  repeat match type of E with
  | context [bool_decide (unit = ?u)] =>
      destruct (decide (unit = u)) as [->|];
        [rewrite bool_decide_eq_true_2 in E by done; cbn in E; injection E as <-;
         split; [lia|by intros b r [= <- _]]
        |rewrite (bool_decide_eq_false_2 (unit = u)) in E by done; cbn in E]
  end. done.
Qed.

(** Sizes mean what they say: a decimal number with a unit (none, B, K/KB/KiB,
    M.., G..) denotes number times unit, in 64-bit arithmetic; a number that
    does not fit a signed 64-bit integer is rejected. *)
Theorem parseSize_exact ds unit mult :
  ds <> [] -> forallb is_digit ds = true -> size_mult unit = Some mult ->
  parseSize (ds ++ unit) =
    if dec_value ds <=? INT64_MAX then Ok ((dec_value ds * mult) mod 2 ^ 64)
    else Err (InvalidArgumentError (lit "bad number")).
Proof.
  intros Hne Hd Hm. destruct (size_mult_unit _ _ Hm) as [_ Hu]. unfold parseSize.
  destruct (decide (ds ++ unit = [])) as [E|_]; [by apply app_eq_nil in E as [? _]|].
  rewrite digits_prefix_app by done. pose proof (zlen_pos ds Hne).
  rewrite (proj2 (Z.eqb_neq _ _)), slice_0_app by (done || lia).
  rewrite atoi_digits by (done || (unfold INT64_MIN; lia)).
  destruct (Z.leb_spec (dec_value ds) INT64_MAX); [|done].
  rewrite zlen_to_nat, drop_app_length, Hm. unfold mul64, u64. by rewrite Zmult_mod_idemp_l.
Qed.

Lemma gigabytes_vanish ds v :
  ds <> [] -> forallb is_digit ds = true -> dec_value ds mod 4 = 0 ->
  parseSize (ds ++ lit "GB") = Ok v -> u32 v = 0.
Proof.
  intros Hne Hd H4 E. unfold parseSize in E.
  destruct (decide (ds ++ lit "GB" = [])); [done|].
  rewrite digits_prefix_app in E by (done || by intros b r [= <- _]). pose proof (zlen_pos ds Hne).
  rewrite (proj2 (Z.eqb_neq _ _)), slice_0_app in E by (done || lia).
  rewrite atoi_digits in E by (done || (unfold INT64_MIN; lia)).
  destruct (Z.leb_spec (dec_value ds) INT64_MAX); [|done].
  rewrite zlen_to_nat, drop_app_length in E. change (size_mult (lit "GB")) with (Some (1024 * 1024 * 1024)) in E.
  injection E as <-. unfold mul64, u64, u32. rewrite Zmult_mod_idemp_l.
  pose proof (Z.div_mod (dec_value ds) 4 ltac:(lia)) as Hdiv. rewrite H4, Z.add_0_r in Hdiv. rewrite Hdiv.
  replace (4 * (dec_value ds / 4) * (1024 * 1024 * 1024)) with (dec_value ds / 4 * 2 ^ 32) by lia.
  change (2 ^ 64) with (2 ^ 32 * 2 ^ 32). rewrite Zmult_mod_distr_r. apply Z_mod_mult.
Qed.
End SizeFacts.

(** One bind of a [res] computation known to succeed. *)
Ltac res_step E :=
  match type of E with
  | (?m ≫= _) = Ok _ =>
      let R := fresh "R" in destruct m eqn:R; [|discriminate E..]; cbn [mbind res_bind] in E
  end.

Section LoaderFacts.
Context `{AbslOps, !AbslSpec, DoubleOps, YamlOps}.

Definition in_window_ok (i : InboundConfig) : Prop := 0 <= in_init_window i < 2 ^ 32.
Definition out_window_ok (o : OutboundConfig) : Prop := 0 <= out_init_window o < 2 ^ 32.

Lemma parse_all_Forall {A} (f : node -> res A) (P : A -> Prop) ns xs :
  (forall n x, f n = Ok x -> P x) -> parse_all f ns = Ok xs -> Forall P xs.
Proof.
  intros Hf. revert xs. induction ns as [|n ns IH]; intros xs E; cbn [parse_all] in E; [injection E as <-; constructor|].
  res_step E. res_step E. injection E as <-. constructor; eauto.
Qed.

Lemma parse_list_Forall {A} (f : node -> res A) (P : A -> Prop) root key xs :
  (forall n x, f n = Ok x -> P x) -> parse_list f root key = Ok xs -> Forall P xs.
Proof.
  intros Hf E. unfold parse_list in E. res_step E. destruct a.
  - by eapply parse_all_Forall.
  - injection E as <-. constructor.
Qed.

Lemma parseInbound_window n i : parseInbound n = Ok i -> in_window_ok i.
Proof. unfold parseInbound. intros E. repeat res_step E. injection E as <-. apply u32_range. Qed.
Lemma parseOutbound_window n o : parseOutbound n = Ok o -> out_window_ok o.
Proof. unfold parseOutbound. intros E. repeat res_step E. injection E as <-. apply u32_range. Qed.

(** C37. Whatever the file says, a configuration that loads satisfies the
    documented conditions, and its windows fit the 32 bits of the WINDOW frame. *)
Theorem loaded_config_valid content c :
  loadFromString content = Ok c ->
  valid_config c /\ Forall in_window_ok (inbounds c) /\ Forall out_window_ok (outbounds c).
Proof.
  unfold loadFromString. intros E. destruct (yaml_load content); [|done].
  do 6 res_step E. destruct (validate _) as [[]| |] eqn:Ev; cbn [mbind res_bind] in E; [|done..].
  injection E as <-. split; [by apply validate_spec|]. cbn [inbounds outbounds]. split.
  - eapply parse_list_Forall; [apply parseInbound_window|done].
  - eapply parse_list_Forall; [apply parseOutbound_window|done].
Qed.

(** The classes of the items of [domain]. *)
Definition is_geosite (d : bytes) : bool := StartsWith d (lit "geosite:").
Definition is_suffix (d : bytes) : bool := negb (is_geosite d) && StartsWith d (lit "domain:").
Definition is_exact (d : bytes) : bool := negb (is_geosite d) && negb (StartsWith d (lit "domain:")).
Definition strip_full (d : bytes) : bytes := if StartsWith d (lit "full:") then drop 5 d else d.
Definition is_geoip (d : bytes) : bool := StartsWith d (lit "geoip:").

Lemma add_domain_items ds : forall r,
  let r' := fold_left add_domain_item ds r in
  rule_geosite r' = rule_geosite r ++ map (drop 8) (List.filter is_geosite ds) /\
  rule_domain_suffix r' = rule_domain_suffix r ++ map (drop 7) (List.filter is_suffix ds) /\
  rule_domain_exact r' = rule_domain_exact r ++ map strip_full (List.filter is_exact ds) /\
  rule_inbound_tag r' = rule_inbound_tag r /\ rule_cidrs r' = rule_cidrs r /\ rule_geoip r' = rule_geoip r.
Proof.
  induction ds as [|d ds IH]; intros r; cbn [fold_left List.filter map]; [by rewrite !app_nil_r|].
  destruct (IH (add_domain_item r d)) as (-> & -> & -> & -> & -> & ->).
  unfold add_domain_item, is_suffix, is_exact. fold (is_geosite d). destruct (is_geosite d); cbn [negb andb];
    [|destruct (StartsWith d (lit "domain:")); cbn [negb]]; cbn; by rewrite <- ?app_assoc.
Qed.

Lemma add_ip_items ds : forall r,
  let r' := fold_left add_ip_item ds r in
  rule_geoip r' = rule_geoip r ++ map (drop 6) (List.filter is_geoip ds) /\
  rule_cidrs r' = rule_cidrs r ++ List.filter (fun d => negb (is_geoip d)) ds /\
  rule_geosite r' = rule_geosite r /\ rule_domain_suffix r' = rule_domain_suffix r /\
  rule_domain_exact r' = rule_domain_exact r /\ rule_inbound_tag r' = rule_inbound_tag r.
Proof.
  induction ds as [|d ds IH]; intros r; cbn [fold_left List.filter map]; [by rewrite !app_nil_r|].
  destruct (IH (add_ip_item r d)) as (-> & -> & -> & -> & -> & ->).
  unfold add_ip_item. fold (is_geoip d). destruct (is_geoip d); cbn; by rewrite <- ?app_assoc.
Qed.

(** Every item of a rule lands in exactly one list: a [domain] item is a
    geosite code, a suffix or an exact name by its prefix (stripped), an [ip]
    item a geoip code or a CIDR, and the dedicated keys are appended after
    them, in the order of the file. *)
Theorem parseRule_classifies n r doms sufs ips cs gips gsites :
  str_items n (lit "domain") = Ok doms -> str_items n (lit "domain_suffix") = Ok sufs ->
  str_items n (lit "ip") = Ok ips -> str_items n (lit "cidr") = Ok cs ->
  str_items n (lit "geoip") = Ok gips -> str_items n (lit "geosite") = Ok gsites ->
  parseRule n = Ok r ->
  rule_domain_exact r = map strip_full (List.filter is_exact doms) /\
  rule_domain_suffix r = map (drop 7) (List.filter is_suffix doms) ++ sufs /\
  rule_geosite r = map (drop 8) (List.filter is_geosite doms) ++ gsites /\
  rule_cidrs r = List.filter (fun d => negb (is_geoip d)) ips ++ cs /\
  rule_geoip r = map (drop 6) (List.filter is_geoip ips) ++ gips.
Proof.
  unfold parseRule. intros -> -> -> -> -> -> E. do 2 res_step E. rename a0 into inb.
  cbn [mbind res_bind] in E. res_step E. injection E as <-.
  destruct (add_domain_items doms (mkRule inb [] [] [] [] [] [])) as (E1 & E2 & E3 & E4 & E5 & E6).
  edestruct add_ip_items as (F1 & F2 & F3 & F4 & F5 & F6).
  cbn [rule_domain_exact rule_domain_suffix rule_geosite rule_cidrs rule_geoip].
  rewrite F1, F2, F3, F4, F5, E1, E2, E3, E5, E6. done.
Qed.

(** An outbound's window given in multiples of 4 GB is silently zero: the
    parsed size is cast to 32 bits, so its sessions start without any credit. *)
Theorem init_window_truncated n v ds o :
  child n (lit "init_window") = Ok (Some v) -> n_str v = Some (ds ++ lit "GB") ->
  ds <> [] -> forallb is_digit ds = true -> dec_value ds mod 4 = 0 ->
  parseOutbound n = Ok o -> out_init_window o = 0.
Proof.
  intros Hn Hs Hne Hd H4 E. unfold parseOutbound, parseSizeNode, as_str in E. rewrite Hn in E.
  do 7 res_step E. cbn [mbind res_bind] in E. rewrite Hs in E. cbn [mbind res_bind] in E. repeat res_step E. injection E as <-. cbn [out_init_window].
  by eapply gigabytes_vanish.
Qed.
End LoaderFacts.

(** ** A reference document tree *)

(** Scalars, null, sequences and maps; [TZombie] is the node yaml-cpp gives for
    an entry of a map that is iterated over. *)
Inductive Tree := TStr (s : bytes) | TNull | TList (l : list Tree) | TMap (m : list (bytes * Tree)) | TZombie.
Fixpoint assoc (m : list (bytes * Tree)) (k : bytes) : option Tree :=
  match m with [] => None | (k', v) :: m => if decide (k' = k) then Some v else assoc m k end.
(** Loads the document [doc], whatever the text. *)
Definition tree_yaml (doc : Tree) : YamlOps := {|
  node := Tree;
  n_defined n := match n with TZombie => false | _ => true end;
  n_get n k := match n with TMap m => Some (assoc m k) | TList _ | TNull => Some None | TStr _ | TZombie => None end;
  n_items n := match n with TList l => l | TMap m => map (fun _ => TZombie) m | _ => [] end;
  n_str n := match n with TStr s => Some s | _ => None end;
  n_int n := match n with TStr s => SimpleAtoi INT32_MIN INT32_MAX s | _ => None end;
  yaml_load _ := Some doc;
|}.
(** Whole numbers only. *)
Definition integer_double : DoubleOps := {|
  double := Z;
  SimpleAtod s := SimpleAtoi INT64_MIN INT64_MAX s;
  scaled_to_int v ks :=
    let ms := fold_left Z.mul ks v in
    if (INT64_MIN <=? ms) && (ms <=? INT64_MAX) then Some ms else None;
|}.

Definition sample_rule : Tree :=
  TMap [(lit "domain", TList [TStr (lit "geosite:cn"); TStr (lit "domain:a.org"); TStr (lit "b.org")]);
        (lit "ip", TList [TStr (lit "geoip:cn"); TStr (lit "10.0.0.0/8")]);
        (lit "outbound", TStr (lit "out"))].
Definition sample_outbound : Tree :=
  TMap [(lit "tag", TStr (lit "out")); (lit "protocol", TStr (lit "direct")); (lit "init_window", TStr (lit "4GB"))].
Definition sample_doc : Tree :=
  TMap [(lit "inbounds", TList [TMap [(lit "tag", TStr (lit "in")); (lit "listen", TStr (lit "127.0.0.1:1080"))]]);
        (lit "outbounds", TList [sample_outbound]);
        (lit "route", TMap [(lit "rules", TList [sample_rule]); (lit "default", TStr (lit "out"))])].

(** ** Witnesses *)

Lemma parseSize_exact_witness : parseSize (lit "256" ++ lit "KB") = Ok 262144.
Proof. apply (parseSize_exact (lit "256") (lit "KB") 1024); by vm_compute. Defined.

Definition load_sample : res Config :=
  loadFromString (H0 := integer_double) (H1 := tree_yaml sample_doc) [].

Lemma loaded_config_valid_witness :
  exists c, load_sample = Ok c /\ valid_config c /\
    Forall in_window_ok (inbounds c) /\ Forall out_window_ok (outbounds c).
Proof.
  destruct load_sample as [c| |] eqn:E; [|by vm_compute in E..]. exists c. split; [done|].
  apply (loaded_config_valid (H1 := integer_double) (H2 := tree_yaml sample_doc) []). exact E.
Defined.

Lemma parseRule_classifies_witness :
  exists r, parseRule (H1 := tree_yaml sample_doc) sample_rule = Ok r /\
    rule_domain_exact r = [lit "b.org"] /\ rule_geosite r = [lit "cn"] /\ rule_cidrs r = [lit "10.0.0.0/8"].
Proof.
  eexists. split; [reflexivity|].
  edestruct (parseRule_classifies (H2 := tree_yaml sample_doc) sample_rule) as (E1 & E2 & E3 & E4 & E5);
    [reflexivity..|]. rewrite E1, E3, E4. split; [|split]; reflexivity.
Defined.

Lemma init_window_truncated_witness :
  exists o, parseOutbound (H0 := integer_double) (H1 := tree_yaml sample_doc) sample_outbound = Ok o /\
    out_init_window o = 0.
Proof.
  eexists. split; [reflexivity|].
  apply (init_window_truncated (H1 := integer_double) (H2 := tree_yaml sample_doc) sample_outbound
           (TStr (lit "4GB")) (lit "4")); reflexivity || done.
Defined.
