(* ===== verification/Geo.v ===== *)
(** * Geo databases (src/route/geo_matcher.cpp)

    [GeoIpMatcher] turns the CIDR blocks of a country into sorted, merged
    address intervals and looks an address up by binary search;
    [GeoSiteMatcher] looks a domain up among exact names, parent domains and
    regular expressions.  The protobuf messages a .dat file decodes to are the
    input; opening and decoding the file, and [std::regex], are outside the
    repository. *)
From stdpp Require Import gmap sorting.
From S2P Require Import Prelude Absl ShineFrame Address.
From Stdlib Require Import Strings.Byte.

(** [::tolower] in the C locale. *)
Definition tolower (b : byte) : byte :=
  if (65 <=? b2z b) && (b2z b <=? 90) then z2b (b2z b + 32) else b.
Definition lower (s : bytes) : bytes := map tolower s.

(** ** GeoIpMatcher *)

Module GeoIp.
(** [RangeV4] and [RangeV6]: closed intervals of addresses. *)
Record Range := mkRange { r_start : Z; r_end : Z }.
Definition range_lt (a b : Range) : bool := r_start a <? r_start b.
Definition range_has (r : Range) (v : Z) : bool := (r_start r <=? v) && (v <=? r_end r).

Record Category := mkCat { v4 : list Range; v6 : list Range }.

(** Messages of the .dat file. *)
Record CIDR := mkCIDR { ip : bytes; prefix : Z }.
Record GeoIP := mkGeoIP { country_code : bytes; cidr : list CIDR }.

(** Big-endian address values: [toU32], [toU128] and the loops of [match]. *)
Definition toU32 (s : bytes) : Z :=
  match s with
  | [p0; p1; p2; p3] =>
      Z.lor (Z.lor (Z.lor (u32 (Z.shiftl (b2z p0) 24)) (u32 (Z.shiftl (b2z p1) 16)))
                   (u32 (Z.shiftl (b2z p2) 8))) (b2z p3)
  | _ => 0
  end.
Definition toU128 (s : bytes) : Z :=
  if zlen s =? 16 then
    Z.lor (Z.shiftl (fold_left shl_or (take 8 s) 0) 64) (fold_left shl_or (drop 8 s) 0)
  else 0.

(** The interval of a block in a [w]-bit address space; a shift by more than
    the width is undefined. *)
Definition cidr_range (w val pfx : Z) : res Range :=
  if w <? pfx then UB
  else
    let mask := if pfx =? 0 then 0 else Z.shiftl (2 ^ w - 1) (w - pfx) mod 2 ^ w in
    let val := Z.land val mask in
    Ok (mkRange val (Z.lor val (Z.lnot mask mod 2 ^ w))).

Definition add_cidr (cat : Category) (c : CIDR) : res Category :=
  if zlen (ip c) =? 4 then
    r ← cidr_range 32 (toU32 (ip c)) (prefix c); Ok (mkCat (v4 cat ++ [r]) (v6 cat))
  else if zlen (ip c) =? 16 then
    r ← cidr_range 128 (toU128 (ip c)) (prefix c); Ok (mkCat (v4 cat) (v6 cat ++ [r]))
  else Ok cat.

Fixpoint add_cidrs (cat : Category) (cs : list CIDR) : res Category :=
  match cs with [] => Ok cat | c :: cs => cat' ← add_cidr cat c; add_cidrs cat' cs end.

Definition empty_cat : Category := mkCat [] [].

(** The loop over the entries: [categories_[lower(code)]]. *)
Fixpoint add_entries (m : gmap bytes Category) (es : list GeoIP) : res (gmap bytes Category) :=
  match es with
  | [] => Ok m
  | e :: es =>
      let code := lower (country_code e) in
      cat ← add_cidrs (default empty_cat (m !! code)) (cidr e);
      add_entries (<[code := cat]> m) es
  end.

(** Merging a sorted vector: [last] is [merged.back()]. *)
Fixpoint merge_from (w : Z) (last : Range) (rest : list Range) : list Range :=
  match rest with
  | [] => [last]
  | r :: rest =>
      if r_start r <=? (r_end last + (if r_end last =? 2 ^ w - 1 then 0 else 1)) mod 2 ^ w
      then merge_from w (mkRange (r_start last) (Z.max (r_end last) (r_end r))) rest
      else last :: merge_from w r rest
  end.
Definition merge_sorted (w : Z) (l : list Range) : list Range :=
  match l with [] => [] | r :: rest => merge_from w r rest end.

Definition start_le (a b : Range) : Prop := r_start a <= r_start b.
#[export] Instance start_le_dec a b : Decision (start_le a b).
Proof. unfold start_le. apply _. Defined.

#[export] Instance start_le_trans : Transitive start_le.
Proof. unfold start_le. intros a b c. lia. Qed.
#[export] Instance start_le_total : Total start_le.
Proof. unfold start_le. intros a b. lia. Qed.

Definition normalize (w : Z) (l : list Range) : list Range := merge_sorted w (merge_sort start_le l).
Definition normalize_cat (c : Category) : Category := mkCat (normalize 32 (v4 c)) (normalize 128 (v6 c)).

(** [load], on the decoded list. *)
Definition load (entries : list GeoIP) : res (gmap bytes Category) :=
  match add_entries ∅ entries with
  | Ok m => Ok (normalize_cat <$> m)
  | Err e => Err e
  | UB => UB
  end.

(** [std::upper_bound]: how many leading ranges do not start after [v]. *)
Fixpoint upper_bound (l : list Range) (v : Z) : nat :=
  match l with
  | [] => 0%nat
  | r :: l => if range_lt (mkRange v v) r then 0%nat else S (upper_bound l v)
  end.

Definition lookup_range (l : list Range) (v : Z) : bool :=
  match upper_bound l v with
  | O => false
  | S k => match l !! k with Some r => range_has r v | None => false end
  end.

Definition match_ip (m : gmap bytes Category) (addr : bytes) (is_v6 : bool) (code : bytes) : bool :=
  match m !! code with
  | None => false
  | Some cat => if is_v6 then lookup_range (v6 cat) (toU128 (take 16 addr))
                else lookup_range (v4 cat) (toU32 (take 4 addr))
  end.
End GeoIp.

(** ** GeoSiteMatcher *)

Inductive DomainType := Plain | Regex | RootDomain | Full.
Record SiteDomain := mkDomain { d_type : DomainType; d_value : bytes }.
Record GeoSite := mkGeoSite { site_code : bytes; site_domains : list SiteDomain }.

(** [std::regex]: compiling may fail. *)
Class RegexOps := {
  regex : Type;
  regex_compile : bytes -> option regex;
  regex_search : bytes -> regex -> bool;
}.

Module GeoSites.
Section Sites.
Context `{RegexOps}.

Record Category := mkCat { exact : gset bytes; suffix : gset bytes; regexes : list regex }.
Definition empty_cat : Category := mkCat ∅ ∅ [].

Definition add_regex (cat : Category) (v : bytes) : Category :=
  match regex_compile v with
  | Some r => mkCat (exact cat) (suffix cat) (regexes cat ++ [r])
  | None => cat
  end.
Definition add_domain (cat : Category) (d : SiteDomain) : Category :=
  match d_type d with
  | Full => mkCat ({[d_value d]} ∪ exact cat) (suffix cat) (regexes cat)
  | RootDomain => mkCat (exact cat) ({[d_value d]} ∪ suffix cat) (regexes cat)
  | Regex | Plain => add_regex cat (d_value d)
  end.

Definition add_site (m : gmap bytes Category) (site : GeoSite) : gmap bytes Category :=
  let code := lower (site_code site) in
  <[code := fold_left add_domain (site_domains site) (default empty_cat (m !! code))]> m.
(** [load], on the decoded list. *)
Definition load (entries : list GeoSite) : gmap bytes Category := fold_left add_site entries ∅.

(** The [while (true)] loop: the domain, then what follows each of its dots. *)
Fixpoint suffix_loop (fuel : nat) (sfx : gset bytes) (d : bytes) : option bool :=
  match fuel with
  | O => None
  | S fuel =>
      if bool_decide (d ∈ sfx) then Some true
      else match sv_find d "."%byte with
           | None => Some false
           | Some dot => suffix_loop fuel sfx (sv_from d (dot + 1))
           end
  end.

Definition match_site (m : gmap bytes Category) (domain code : bytes) : bool :=
  match m !! code with
  | None => false
  | Some cat =>
      bool_decide (domain ∈ exact cat) ||
      default false (suffix_loop (S (length domain)) (suffix cat) domain) ||
      existsb (regex_search domain) (regexes cat)
  end.
End Sites.
End GeoSites.

(** ** Intervals of CIDR blocks *)

Module GeoIpFacts.
Import GeoIp.

(** [v] is in the block [val/pfx]: the first [pfx] of the [w] bits agree. *)
Definition in_block (w val pfx v : Z) : Prop := v / 2 ^ (w - pfx) = val / 2 ^ (w - pfx).

#[export] Instance in_block_dec w val pfx v : Decision (in_block w val pfx v).
Proof. unfold in_block. apply _. Defined.

Lemma mask_value w k : 0 <= k <= w -> Z.shiftl (2 ^ w - 1) k mod 2 ^ w = Z.shiftl (2 ^ (w - k) - 1) k.
Proof.
  intros Hk. rewrite !Z.shiftl_mul_pow2 by lia.
  assert (2 ^ w = 2 ^ (w - k) * 2 ^ k) as Hw by (rewrite <- Z.pow_add_r by lia; f_equal; lia).
  assert (0 < 2 ^ k) by (apply Z.pow_pos_nonneg; lia). assert (0 < 2 ^ (w - k)) by (apply Z.pow_pos_nonneg; lia).
  symmetry. apply (Z.mod_unique_pos _ _ (2 ^ k - 1)); nia.
Qed.

Lemma masked_value w val k :
  0 <= k <= w -> 0 <= val < 2 ^ w -> Z.land val (Z.shiftl (2 ^ (w - k) - 1) k) = (val / 2 ^ k) * 2 ^ k.
Proof.
  intros Hk Hv.
  assert (2 ^ w = 2 ^ (w - k) * 2 ^ k) as Hw by (rewrite <- Z.pow_add_r by lia; f_equal; lia).
  assert (0 < 2 ^ k) by (apply Z.pow_pos_nonneg; lia).
  assert (Z.land val (Z.shiftl (2 ^ (w - k) - 1) k)
          = Z.shiftl (Z.land (Z.shiftr val k) (2 ^ (w - k) - 1)) k) as ->.
  { apply Z.bits_inj'. intros n Hn. rewrite Z.land_spec, !Z.shiftl_spec by done.
    destruct (Z.ltb_spec n k) as [Hlt|Hge].
    - rewrite !(Z.testbit_neg_r _ (n - k)) by lia. apply andb_false_r.
    - rewrite Z.land_spec, Z.shiftr_spec by lia. f_equal. f_equal. lia. }
  rewrite Z.shiftl_mul_pow2, Z.shiftr_div_pow2 by lia. f_equal.
  replace (2 ^ (w - k) - 1) with (Z.ones (w - k)) by (rewrite Z.ones_equiv; lia).
  rewrite Z.land_ones by lia. apply Z.mod_small. split; [apply Z.div_pos; lia|].
  apply Z.div_lt_upper_bound; lia.
Qed.

(** Address bytes as a big-endian number. *)
Lemma be_val_app s t : be_val (s ++ t) = be_val s * 2 ^ (8 * zlen t) + be_val t.
Proof.
  induction t as [|b t IH] using rev_ind; [rewrite app_nil_r; unfold zlen; cbn; lia|].
  rewrite app_assoc, !be_val_snoc, IH, zlen_app. change (zlen [b]) with 1. pose proof (zlen_nonneg t).
  replace (8 * (zlen t + 1)) with (8 * zlen t + 8) by lia. rewrite Z.pow_add_r by lia. lia.
Qed.

Lemma toU32_be s : zlen s = 4 -> toU32 s = be_val s.
Proof.
  destruct s as [|a [|b [|c [|d [|]]]]]; try (unfold zlen; cbn; lia). intros _.
  pose proof (readU32BE_val a b c d) as E. cbn [readU32BE] in E. by injection E.
Qed.

Lemma toU128_be s : zlen s = 16 -> toU128 s = be_val s.
Proof.
  intros Hs. unfold toU128. rewrite Hs. cbn [Z.eqb Pos.eqb].
  assert (zlen (take 8 s) = 8 /\ zlen (drop 8 s) = 8) as [H1 H2]
    by (unfold zlen in *; rewrite length_take, length_drop; lia).
  rewrite !fold_shl_or by lia. pose proof (be_val_range (drop 8 s)) as Hr. rewrite H2 in Hr.
  rewrite Z.shiftl_mul_pow2, lor_low by lia. rewrite <- (take_drop 8 s) at 3. by rewrite be_val_app, H2.
Qed.

(** A block's interval holds exactly the addresses of the block. *)
Lemma cidr_range_spec w val pfx :
  0 < w -> 0 <= pfx <= w -> 0 <= val < 2 ^ w ->
  exists r, cidr_range w val pfx = Ok r /\ 0 <= r_start r <= r_end r /\ r_end r < 2 ^ w /\
    forall v, 0 <= v < 2 ^ w -> range_has r v = true <-> in_block w val pfx v.
Proof.
  intros Hw Hp Hv. unfold cidr_range. rewrite (proj2 (Z.ltb_ge _ _)) by lia.
  set (k := w - pfx). set (mask := if pfx =? 0 then 0 else _).
  assert (0 < 2 ^ k) by (apply Z.pow_pos_nonneg; lia).
  assert (2 ^ w = 2 ^ pfx * 2 ^ k) as Hw2 by (rewrite <- Z.pow_add_r by lia; f_equal; lia).
  assert (mask = Z.shiftl (2 ^ (w - k) - 1) k) as Hmask.
  { unfold mask. destruct (Z.eqb_spec pfx 0) as [->|Hne]; [|apply mask_value; lia].
    unfold k. replace (w - (w - 0)) with 0 by lia. by rewrite Z.shiftl_0_l. }
  assert (mask = 2 ^ w - 2 ^ k) as Hm2
    by (rewrite Hmask, Z.shiftl_mul_pow2 by lia; replace (w - k) with pfx by lia; nia).
  assert (Z.lnot mask mod 2 ^ w = 2 ^ k - 1) as Hnot.
  { unfold Z.lnot. rewrite Hm2. symmetry. apply (Z.mod_unique_pos _ _ (-1)); [|lia].
    assert (0 < 2 ^ pfx) by (apply Z.pow_pos_nonneg; lia). nia. }
  assert (Z.land val mask = (val / 2 ^ k) * 2 ^ k) as Hval by (rewrite Hmask; apply masked_value; lia).
  eexists. split; [done|]. cbn [r_start r_end]. rewrite Hnot, Hval, lor_low by lia.
  assert (0 <= val / 2 ^ k < 2 ^ pfx)
    by (split; [apply Z.div_pos; lia|apply Z.div_lt_upper_bound; lia]).
  split; [nia|]. split; [nia|]. intros v Hv'. unfold range_has, in_block; cbn [r_start r_end]. fold k.
  rewrite andb_true_iff, !Z.leb_le. split.
  - intros. symmetry. apply (Z.div_unique_pos _ _ _ (v - val / 2 ^ k * 2 ^ k)); lia.
  - intros E. pose proof (Z.div_mod v (2 ^ k) ltac:(lia)). pose proof (Z.mod_pos_bound v (2 ^ k)). nia.
Qed.

(** ** Merging and searching *)

Definition ranges_ok (w : Z) (l : list Range) : Prop :=
  Forall (fun r => 0 <= r_start r <= r_end r /\ r_end r < 2 ^ w) l.
(** Sorted by start, and each range ends before the next one starts. *)
Definition disjoint_from (r r' : Range) : Prop := r_end r < r_start r'.
Definition covers (l : list Range) (v : Z) : Prop := exists r, r ∈ l /\ range_has r v = true.

Lemma covers_cons r l v : covers (r :: l) v <-> range_has r v = true \/ covers l v.
Proof. unfold covers. setoid_rewrite elem_of_cons. naive_solver. Qed.

(** The merge keeps the set of addresses, and leaves disjoint ranges in order. *)
Lemma merge_from_spec w : 0 < w -> forall rest last,
  ranges_ok w (last :: rest) -> StronglySorted start_le (last :: rest) ->
  let l := merge_from w last rest in
  ranges_ok w l /\ StronglySorted disjoint_from l /\
  Forall (fun r => r_start last <= r_start r) l /\ forall v, covers l v <-> covers (last :: rest) v.
Proof.
  intros Hw. induction rest as [|r rest IH]; intros last Hok Hs; cbn [merge_from].
  { split; [done|]. split; [by repeat constructor|]. split; [by repeat constructor; lia|done]. }
  apply Forall_cons in Hok as [Hlast Hok]. apply Forall_cons in Hok as [Hr Hok].
  apply StronglySorted_inv in Hs as [Hs Hle]. apply Forall_cons in Hle as [Hlr Hle].
  apply StronglySorted_inv in Hs as [Hs Hrr]. unfold start_le in *.
  assert ((r_end last + (if r_end last =? 2 ^ w - 1 then 0 else 1)) mod 2 ^ w
          = if r_end last =? 2 ^ w - 1 then r_end last else r_end last + 1) as ->
    by (destruct (Z.eqb_spec (r_end last) (2 ^ w - 1)); rewrite Z.mod_small; lia).
  destruct (Z.leb_spec (r_start r) (if r_end last =? 2 ^ w - 1 then r_end last else r_end last + 1)) as [Hj|Hj].
  - destruct (IH (mkRange (r_start last) (Z.max (r_end last) (r_end r)))) as (H1 & H2 & H3 & H4).
    + constructor; [cbn; lia|done].
    + constructor; [done|exact Hle].
    + cbn zeta. split; [done|]. split; [done|]. split; [exact H3|]. intros v. rewrite H4, !covers_cons.
      assert (range_has (mkRange (r_start last) (Z.max (r_end last) (r_end r))) v = true <->
              range_has last v = true \/ range_has r v = true) as ->; [|tauto].
      unfold range_has; cbn [r_start r_end]. rewrite !andb_true_iff, !Z.leb_le.
      destruct (Z.eqb_spec (r_end last) (2 ^ w - 1)); lia.
  - destruct (IH r) as (H1 & H2 & H3 & H4); [by constructor|by constructor|].
    cbn zeta. split; [by constructor|]. split; [|split].
    + constructor; [done|]. eapply Forall_impl; [exact H3|]. unfold disjoint_from. intros r' Hr'.
      destruct (Z.eqb_spec (r_end last) (2 ^ w - 1)); lia.
    + constructor; [lia|]. eapply Forall_impl; [exact H3|]. cbn. lia.
    + intros v. rewrite (covers_cons last), (covers_cons last (r :: rest)), H4. done.
Qed.

(** The binary search finds a covering range of a sorted disjoint vector. *)
Lemma lookup_range_spec w l v :
  ranges_ok w l -> StronglySorted disjoint_from l -> lookup_range l v = true <-> covers l v.
Proof.
  unfold lookup_range. induction l as [|r l IH]; intros Hok Hs.
  { cbn. split; [done|]. intros (r & Hr & _). by apply elem_of_nil in Hr. }
  apply Forall_cons in Hok as [Hr Hok]. apply StronglySorted_inv in Hs as [Hs Hd]. specialize (IH Hok Hs).
  rewrite covers_cons. cbn [upper_bound]. unfold range_lt; cbn [r_start].
  assert (forall r', r' ∈ l -> r_end r < r_start r' /\ r_start r' <= r_end r') as Hl.
  { intros r' Hin. rewrite Forall_forall in Hd, Hok. unfold disjoint_from in Hd.
    specialize (Hd r' Hin). specialize (Hok r' Hin). lia. }
  destruct (Z.ltb_spec v (r_start r)) as [Hlt|Hge].
  - split; [done|]. unfold range_has. rewrite andb_true_iff, !Z.leb_le.
    intros [?|(r' & Hin & Hh)]; [lia|]. apply Hl in Hin. unfold range_has in Hh. rewrite andb_true_iff, !Z.leb_le in Hh. lia.
  - destruct (upper_bound l v) as [|k] eqn:Ek; cbn [lookup list_lookup].
    + split; [by left|]. intros [?|Hc]; [done|]. apply IH in Hc. done.
    + change ((r :: l) !! S k) with (l !! k). rewrite <- IH. split; [by right|].
      intros [Hh|?]; [|done]. exfalso. unfold range_has in Hh. rewrite andb_true_iff, !Z.leb_le in Hh.
      destruct l as [|r1 l1]; [done|]. cbn [upper_bound] in Ek. unfold range_lt in Ek; cbn [r_start] in Ek.
      destruct (Z.ltb_spec v (r_start r1)); [done|]. specialize (Hl r1 ltac:(left)). lia.
Qed.

Lemma normalize_spec w l :
  0 < w -> ranges_ok w l ->
  ranges_ok w (normalize w l) /\ StronglySorted disjoint_from (normalize w l) /\
  forall v, covers (normalize w l) v <-> covers l v.
Proof.
  intros Hw Hok. unfold normalize, merge_sorted.
  pose proof (merge_sort_Permutation start_le l) as Hp.
  pose proof (StronglySorted_merge_sort start_le l) as Hs.
  assert (forall v, covers (merge_sort start_le l) v <-> covers l v) as Hc
    by (intros v; unfold covers; by setoid_rewrite Hp).
  assert (ranges_ok w (merge_sort start_le l)) as Hok' by (unfold ranges_ok; by rewrite Hp).
  destruct (merge_sort start_le l) as [|r rest]; [by split; [|split; [constructor|]]|].
  destruct (merge_from_spec w Hw rest r Hok' Hs) as (H1 & H2 & _ & H4).
  split; [done|]. split; [done|]. intros v. by rewrite H4.
Qed.

(** ** Loading a list and looking an address up *)

(** The two address families at once. *)
Definition width (is_v6 : bool) : Z := if is_v6 then 128 else 32.
Definition ranges_of (is_v6 : bool) (c : Category) : list Range := if is_v6 then v6 c else v4 c.
Definition family_len (is_v6 : bool) : Z := if is_v6 then 16 else 4.

(** A block of a family, and the addresses in it. *)
Definition cidr_has (is_v6 : bool) (c : CIDR) (v : Z) : Prop :=
  zlen (ip c) = family_len is_v6 /\ in_block (width is_v6) (be_val (ip c)) (prefix c) v.
Definition cidr_valid (c : CIDR) : Prop :=
  0 <= prefix c /\ (zlen (ip c) = 4 -> prefix c <= 32) /\ (zlen (ip c) = 16 -> prefix c <= 128).

Definition cat_ok (c : Category) : Prop := forall f, ranges_ok (width f) (ranges_of f c).
Definition cat_is (c : Category) (has : bool -> Z -> Prop) : Prop :=
  cat_ok c /\ forall f v, 0 <= v < 2 ^ width f -> covers (ranges_of f c) v <-> has f v.

Lemma covers_snoc l r v : covers (l ++ [r]) v <-> covers l v \/ range_has r v = true.
Proof.
  unfold covers. setoid_rewrite elem_of_app. setoid_rewrite list_elem_of_singleton. naive_solver.
Qed.

Lemma add_cidr_spec cat c :
  cat_ok cat -> cidr_valid c ->
  exists cat', add_cidr cat c = Ok cat' /\
    cat_is cat' (fun f v => covers (ranges_of f cat) v \/ cidr_has f c v).
Proof.
  intros Hok (Hp0 & Hp4 & Hp16). unfold add_cidr, cidr_has, cat_is.
  destruct (Z.eqb_spec (zlen (ip c)) 4) as [E4|N4]; [|destruct (Z.eqb_spec (zlen (ip c)) 16) as [E16|N16]].
  - pose proof (be_val_range (ip c)) as Hr. rewrite E4 in Hr.
    destruct (cidr_range_spec 32 (be_val (ip c)) (prefix c)) as (r & Er & Hr1 & Hr2 & Hr3); [lia|lia|done|].
    rewrite toU32_be, Er by done. cbn [mbind res_bind]. eexists; split; [done|]. split.
    + intros [|]; [apply (Hok true)|]. apply Forall_app. split; [apply (Hok false)|by apply Forall_singleton].
    + intros [|] v Hv; cbn [ranges_of v4 v6 family_len width]; [intuition lia|].
      rewrite covers_snoc, Hr3 by done. intuition.
  - pose proof (be_val_range (ip c)) as Hr. rewrite E16 in Hr.
    destruct (cidr_range_spec 128 (be_val (ip c)) (prefix c)) as (r & Er & Hr1 & Hr2 & Hr3); [lia|lia|done|].
    rewrite toU128_be, Er by done. cbn [mbind res_bind]. eexists; split; [done|]. split.
    + intros [|]; [|apply (Hok false)]. apply Forall_app. split; [apply (Hok true)|by apply Forall_singleton].
    + intros [|] v Hv; cbn [ranges_of v4 v6 family_len width]; [|intuition lia].
      rewrite covers_snoc, Hr3 by done. intuition.
  - exists cat. split; [done|]. split; [done|]. intros [|] v Hv; cbn [family_len]; intuition lia.
Qed.

Lemma add_cidrs_spec cs : forall cat,
  cat_ok cat -> Forall cidr_valid cs ->
  exists cat', add_cidrs cat cs = Ok cat' /\
    cat_is cat' (fun f v => covers (ranges_of f cat) v \/ exists c, c ∈ cs /\ cidr_has f c v).
Proof.
  induction cs as [|c cs IH]; intros cat Hok Hcs; cbn [add_cidrs].
  { exists cat. split; [done|]. split; [done|]. intros f v _. split; [by left|].
    intros [?|(c & Hc & _)]; [done|]. by apply elem_of_nil in Hc. }
  apply Forall_cons in Hcs as [Hc Hcs]. destruct (add_cidr_spec cat c Hok Hc) as (cat1 & -> & Hok1 & Hc1).
  cbn [mbind res_bind]. destruct (IH cat1 Hok1 Hcs) as (cat' & -> & Hok' & Hc'). exists cat'. split; [done|].
  split; [done|]. intros f v Hv. rewrite Hc', Hc1 by done. setoid_rewrite elem_of_cons. naive_solver.
Qed.

Definition map_is (m : gmap bytes Category) (has : bytes -> bool -> Z -> Prop) : Prop :=
  forall code, cat_is (default empty_cat (m !! code)) (has code).

Definition entries_have (es : list GeoIP) (code : bytes) (f : bool) (v : Z) : Prop :=
  exists e c, e ∈ es /\ c ∈ cidr e /\ lower (country_code e) = code /\ cidr_has f c v.

Lemma add_entries_spec es : forall m has,
  map_is m has -> Forall (fun e => Forall cidr_valid (cidr e)) es ->
  exists m', add_entries m es = Ok m' /\ map_is m' (fun code f v => has code f v \/ entries_have es code f v).
Proof.
  unfold entries_have. induction es as [|e es IH]; intros m has Hm Hes; cbn [add_entries].
  { exists m. split; [done|]. intros code. destruct (Hm code) as [Hok Hc]. split; [done|].
    intros f v Hv. rewrite Hc by done. setoid_rewrite elem_of_nil. naive_solver. }
  apply Forall_cons in Hes as [He Hes].
  destruct (Hm (lower (country_code e))) as [Hok Hc].
  destruct (add_cidrs_spec (cidr e) _ Hok He) as (cat & -> & Hok' & Hc'). cbn [mbind res_bind].
  destruct (IH (<[lower (country_code e) := cat]> m)
              (fun code f v => has code f v \/ (lower (country_code e) = code /\ exists c, c ∈ cidr e /\ cidr_has f c v)))
    as (m' & -> & Hm'); [|done|].
  - intros code. destruct (decide (lower (country_code e) = code)) as [<-|Hne].
    + rewrite lookup_insert_eq. split; [done|]. intros f v Hv. cbn [default]. rewrite Hc', Hc by done. naive_solver.
    + rewrite lookup_insert_ne by done. destruct (Hm code) as [Hok2 Hc2]. split; [done|].
      intros f v Hv. rewrite Hc2 by done. naive_solver.
  - exists m'. split; [done|]. intros code. destruct (Hm' code) as [Hok2 Hc2]. split; [done|].
    intros f v Hv. rewrite Hc2 by done. setoid_rewrite elem_of_cons. naive_solver.
Qed.

Lemma cat_normalize c f :
  cat_ok c -> ranges_ok (width f) (ranges_of f (normalize_cat c)) /\
  StronglySorted disjoint_from (ranges_of f (normalize_cat c)) /\
  forall v, covers (ranges_of f (normalize_cat c)) v <-> covers (ranges_of f c) v.
Proof.
  intros Hok. specialize (Hok f). destruct f; [by apply (normalize_spec 128 (v6 c))|by apply (normalize_spec 32 (v4 c))].
Qed.
End GeoIpFacts.

(** ** Parent domains *)

Lemma sv_find_split s c k :
  sv_find s c = Some k ->
  exists a b, s = a ++ c :: b /\ k = zlen a /\ c ∉ a /\ sv_from s (k + 1) = b.
Proof.
  revert k. induction s as [|x s IH]; intros k E; [done|]. cbn [sv_find] in E.
  destruct (decide (x = c)) as [->|Hne].
  - injection E as <-. exists [], s. split_and!; [done|done|apply not_elem_of_nil|done].
  - destruct (sv_find s c) as [k'|]; [|done]. injection E as <-.
    destruct (IH k' eq_refl) as (a & b & -> & -> & Ha & Hb). exists (x :: a), b. rewrite zlen_cons.
    split_and!; [done|lia|by rewrite not_elem_of_cons|]. rewrite <- Hb at 2. unfold sv_from.
    pose proof (zlen_nonneg a). replace (Z.to_nat (Z.succ (zlen a) + 1)) with (S (Z.to_nat (zlen a + 1))) by lia. done.
Qed.

Lemma sv_find_none s c : sv_find s c = None -> c ∉ s.
Proof.
  induction s as [|x s IH]; cbn; [intros _; apply not_elem_of_nil|].
  destruct (decide (x = c)); [done|]. destruct (sv_find s c); [done|].
  intros _. rewrite not_elem_of_cons. split; [done|by apply IH].
Qed.

(** [s] is [domain] itself or one of its parent domains. *)
Definition parent_or_self (s domain : bytes) : Prop := domain = s \/ exists pre, domain = pre ++ "."%byte :: s.

Lemma parent_step a b s :
  "."%byte ∉ a -> parent_or_self s (a ++ "."%byte :: b) <-> s = a ++ "."%byte :: b \/ parent_or_self s b.
Proof.
  intros Ha. unfold parent_or_self. split.
  - intros [<-|[pre E]]; [by left|right]. revert pre E. induction a as [|x a IH]; intros pre E.
    + destruct pre as [|y pre]; injection E; intros; subst; [by left|]. right. by eexists.
    + rewrite not_elem_of_cons in Ha. destruct Ha as [Hx Ha]. destruct pre as [|y pre]; [injection E; intros; congruence|].
      injection E as _ E. by apply (IH Ha pre).
  - intros [->|[<-|[pre ->]]]; [by left|right; by exists a|right]. exists (a ++ "."%byte :: pre). by rewrite <- app_assoc.
Qed.

Section SiteFacts.
Context `{RegexOps}.

Lemma suffix_loop_spec fuel : forall sfx d,
  (length d < fuel)%nat ->
  exists b, GeoSites.suffix_loop fuel sfx d = Some b /\
    (b = true <-> exists s, s ∈ sfx /\ parent_or_self s d).
Proof.
  induction fuel as [|fuel IH]; intros sfx d Hf; [lia|]. cbn [GeoSites.suffix_loop].
  case_bool_decide as Hin.
  { exists true. split; [done|]. split; [|done]. intros _. exists d. split; [done|by left]. }
  destruct (sv_find d "."%byte) as [k|] eqn:Ek.
  - destruct (sv_find_split _ _ _ Ek) as (a & b & -> & -> & Ha & ->).
    destruct (IH sfx b) as (r & -> & Hr); [rewrite length_app in Hf; cbn in Hf; lia|].
    exists r. split; [done|]. rewrite Hr. setoid_rewrite (parent_step a b _ Ha). naive_solver.
  - apply sv_find_none in Ek. exists false. split; [done|]. split; [done|].
    intros (s & Hs & [->|[pre ->]]); [done|]. destruct Ek. apply elem_of_app. right. left.
Qed.

(** What one entry of the database says about a domain. *)
Definition site_says (d : SiteDomain) (domain : bytes) : Prop :=
  match d_type d with
  | Full => domain = d_value d
  | RootDomain => parent_or_self (d_value d) domain
  | Regex | Plain => exists r, regex_compile (d_value d) = Some r /\ regex_search domain r = true
  end.

Definition cat_says (cat : GeoSites.Category) (domain : bytes) : Prop :=
  domain ∈ GeoSites.exact cat \/ (exists s, s ∈ GeoSites.suffix cat /\ parent_or_self s domain) \/
  (exists r, r ∈ GeoSites.regexes cat /\ regex_search domain r = true).

Lemma add_domain_says cat d domain :
  cat_says (GeoSites.add_domain cat d) domain <-> cat_says cat domain \/ site_says d domain.
Proof.
  unfold cat_says, site_says, GeoSites.add_domain, GeoSites.add_regex.
  destruct (d_type d); cbn [GeoSites.exact GeoSites.suffix GeoSites.regexes].
  1, 2: destruct (regex_compile (d_value d)) as [r|]; cbn [GeoSites.exact GeoSites.suffix GeoSites.regexes];
    [setoid_rewrite elem_of_app; setoid_rewrite list_elem_of_singleton|]; naive_solver.
  all: set_solver.
Qed.

Lemma add_domains_says ds domain : forall cat,
  cat_says (fold_left GeoSites.add_domain ds cat) domain <->
  cat_says cat domain \/ exists d, d ∈ ds /\ site_says d domain.
Proof.
  induction ds as [|d ds IH]; intros cat; cbn [fold_left].
  - setoid_rewrite elem_of_nil. naive_solver.
  - rewrite IH, add_domain_says. setoid_rewrite elem_of_cons. naive_solver.
Qed.

Lemma empty_says domain : ~ cat_says GeoSites.empty_cat domain.
Proof. unfold cat_says; cbn. setoid_rewrite elem_of_nil. set_solver. Qed.
End SiteFacts.

(** ** Properties *)

Section GeoProperties.
Context `{RegexOps}.

Lemma site_load_says sites domain code : forall m,
  cat_says (default GeoSites.empty_cat (fold_left GeoSites.add_site sites m !! code)) domain <->
  (cat_says (default GeoSites.empty_cat (m !! code)) domain \/
   exists site d, site ∈ sites /\ lower (site_code site) = code /\ d ∈ site_domains site /\ site_says d domain).
Proof.
  induction sites as [|site sites IH]; intros m; cbn [fold_left].
  - setoid_rewrite elem_of_nil. naive_solver.
  - rewrite IH. unfold GeoSites.add_site. setoid_rewrite elem_of_cons.
    destruct (decide (lower (site_code site) = code)) as [<-|Hne].
    + rewrite lookup_insert_eq.
      match goal with |- context [default ?a (Some ?b)] => change (default a (Some b)) with b end.
      rewrite add_domains_says. naive_solver.
    + rewrite lookup_insert_ne by done. naive_solver.
Qed.

Lemma match_site_says m domain code :
  GeoSites.match_site m domain code = true <-> exists cat, m !! code = Some cat /\ cat_says cat domain.
Proof.
  unfold GeoSites.match_site. destruct (m !! code) as [cat|]; [|naive_solver].
  destruct (suffix_loop_spec (S (length domain)) (GeoSites.suffix cat) domain) as (b & -> & Hb); [lia|].
  cbn [default]. rewrite !orb_true_iff, bool_decide_eq_true, Hb, existsb_exists. unfold cat_says.
  setoid_rewrite <- list_elem_of_In. naive_solver.
Qed.

Lemma tolower_idem b : tolower (tolower b) = tolower b.
Proof. by destruct b. Qed.
Lemma lower_idem s : lower (lower s) = lower s.
Proof. unfold lower. rewrite map_map. apply map_ext. apply tolower_idem. Qed.

(** Only lower-cased codes become keys. *)
Lemma site_keys sites code : forall m,
  is_Some (fold_left GeoSites.add_site sites m !! code) -> is_Some (m !! code) \/ lower code = code.
Proof.
  induction sites as [|site sites IH]; intros m Hs; [by left|]. destruct (IH _ Hs) as [Hm|?]; [|by right].
  unfold GeoSites.add_site in Hm. destruct (decide (lower (site_code site) = code)) as [<-|Hne].
  - right. apply lower_idem.
  - rewrite lookup_insert_ne in Hm by done. by left.
Qed.

Lemma ip_keys entries code : forall m m',
  GeoIp.add_entries m entries = Ok m' -> is_Some (m' !! code) -> is_Some (m !! code) \/ lower code = code.
Proof.
  induction entries as [|e entries IH]; intros m m' E Hs; cbn [GeoIp.add_entries] in E.
  { injection E as <-. by left. }
  res_inv E. destruct (IH _ _ E Hs) as [Hm|?]; [|by right].
  destruct (decide (lower (GeoIp.country_code e) = code)) as [<-|Hne].
  - right. apply lower_idem.
  - rewrite lookup_insert_ne in Hm by done. by left.
Qed.

(** Geo-site matching means what the database says: for every loaded list,
    a domain matches a category exactly when some entry of that (lower-cased)
    category is its full name, one of its parent domains (or itself), or a
    pattern found in it; the loop over parent domains always terminates. *)
Theorem geosite_match_exact sites domain code :
  GeoSites.match_site (GeoSites.load sites) domain code = true <->
  exists site d, site ∈ sites /\ lower (site_code site) = code /\ d ∈ site_domains site /\ site_says d domain.
Proof.
  rewrite match_site_says. pose proof (site_load_says sites domain code ∅) as Hl.
  change (fold_left GeoSites.add_site sites ∅) with (GeoSites.load sites) in Hl.
  rewrite lookup_empty in Hl. cbn [default] in Hl.
  destruct (GeoSites.load sites !! code) as [cat|]; cbn [default] in Hl.
  - pose proof (empty_says domain). naive_solver.
  - pose proof (empty_says domain). naive_solver.
Qed.

(** C25. Geo-IP lookup is exact: for every list of blocks with prefixes within
    the family's width, loading succeeds, and the sorted, merged intervals
    searched by [upper_bound] contain an address exactly when one of the
    country's blocks does (first [prefix] bits equal), for IPv4 and IPv6. *)
Theorem geoip_match_exact entries :
  Forall (fun e => Forall GeoIpFacts.cidr_valid (GeoIp.cidr e)) entries ->
  exists m, GeoIp.load entries = Ok m /\
    forall addr is_v6 code, GeoIpFacts.family_len is_v6 <= zlen addr ->
      GeoIp.match_ip m addr is_v6 code = true <->
      GeoIpFacts.entries_have entries code is_v6 (be_val (take (Z.to_nat (GeoIpFacts.family_len is_v6)) addr)).
Proof.
  intros Hv. unfold GeoIp.load.
  destruct (GeoIpFacts.add_entries_spec entries ∅ (fun _ _ _ => False)) as (m & -> & Hm); [|done|].
  { intros code. rewrite lookup_empty. split; [intros []; constructor|]. intros [] v _; split; try done;
      intros (r & Hr & _); by apply elem_of_nil in Hr. }
  eexists; split; [done|]. intros addr f code Hl. unfold GeoIp.match_ip. rewrite lookup_fmap.
  set (a := take (Z.to_nat (GeoIpFacts.family_len f)) addr).
  assert (zlen a = GeoIpFacts.family_len f) as Ha
    by (unfold a, zlen in *; rewrite length_take; destruct f; cbn in *; lia).
  assert (0 <= be_val a < 2 ^ GeoIpFacts.width f) as Hr
    by (pose proof (be_val_range a) as Hr; rewrite Ha in Hr; by destruct f).
  destruct (Hm code) as [Hok Hc]. specialize (Hc f (be_val a) Hr).
  destruct (m !! code) as [cat|] eqn:Ec; cbn [fmap option_fmap option_map default] in *.
  - destruct (GeoIpFacts.cat_normalize cat f Hok) as (Hok' & Hs' & Hc').
    pose proof (GeoIpFacts.lookup_range_spec _ _ (be_val a) Hok' Hs') as Hlk. rewrite Hc', Hc in Hlk.
    destruct f; [rewrite GeoIpFacts.toU128_be by exact Ha|rewrite GeoIpFacts.toU32_be by exact Ha]; tauto.
  - split; [done|]. intros Hh. exfalso. destruct (proj2 Hc (or_intror Hh)) as (r & Hin & _).
    destruct f; by apply elem_of_nil in Hin.
Qed.

(** Category codes are lower-cased when a database is loaded but not when a
    rule is matched: a rule whose code has an upper-case letter never matches. *)
Theorem uppercase_code_never_matches sites entries m code domain addr is_v6 :
  lower code <> code -> GeoIp.load entries = Ok m ->
  GeoSites.match_site (GeoSites.load sites) domain code = false /\ GeoIp.match_ip m addr is_v6 code = false.
Proof.
  intros Hc E. split.
  - unfold GeoSites.match_site. destruct (GeoSites.load sites !! code) eqn:Es; [|done].
    destruct (site_keys sites code ∅) as [[? He]|?]; [by eexists|by rewrite lookup_empty in He|done].
  - unfold GeoIp.load in E. destruct (GeoIp.add_entries ∅ entries) as [m'| |] eqn:Ea; [|done..].
    injection E as <-. unfold GeoIp.match_ip. rewrite lookup_fmap.
    destruct (m' !! code) eqn:Es; [|done].
    destruct (ip_keys entries code ∅ m' Ea) as [[? He]|?]; [by eexists|by rewrite lookup_empty in He|done].
Qed.
End GeoProperties.

(** ** Witnesses *)

(** A stand-in for [std::regex]: patterns are plain substrings, and the empty
    pattern is rejected. *)
Fixpoint contains_sub (p s : bytes) : bool :=
  bool_decide (take (length p) s = p) || match s with [] => false | _ :: r => contains_sub p r end.
Definition sub_regex : RegexOps := {|
  regex := bytes;
  regex_compile p := if decide (p = []) then None else Some p;
  regex_search s p := contains_sub p s;
|}.

Definition sample_entries : list GeoIp.GeoIP :=
  [GeoIp.mkGeoIP (lit "CN") [GeoIp.mkCIDR [x0a; x00; x00; x00] 8; GeoIp.mkCIDR [x0a; x80; x00; x00] 9]].

Lemma geoip_match_exact_witness :
  exists m, GeoIp.load sample_entries = Ok m /\
    forall addr is_v6 code, GeoIpFacts.family_len is_v6 <= zlen addr ->
      GeoIp.match_ip m addr is_v6 code = true <->
      GeoIpFacts.entries_have sample_entries code is_v6
        (be_val (take (Z.to_nat (GeoIpFacts.family_len is_v6)) addr)).
Proof.
  apply (geoip_match_exact sample_entries). repeat constructor; by vm_compute.
Defined.

Definition sample_sites : list GeoSite := [mkGeoSite (lit "CN") [mkDomain RootDomain (lit "example.cn")]].

Lemma uppercase_code_never_matches_witness :
  exists m, GeoIp.load sample_entries = Ok m /\
  GeoSites.match_site (H := sub_regex) (GeoSites.load sample_sites) (lit "www.example.cn") (lit "CN") = false /\
  GeoIp.match_ip m [x0a; x01; x02; x03] false (lit "CN") = false.
Proof.
  eexists. split; [reflexivity|].
  apply (uppercase_code_never_matches (H := sub_regex) sample_sites sample_entries _ (lit "CN")); [done|reflexivity].
Defined.
