(* ===== verification/Router.v ===== *)
(** * Routing (src/route/router.cpp)

    Rules are compiled once; a request is matched against them in order and the
    first match names the outbound.  A rule's conditions on the target are a
    disjunction (a name in one of its lists or an address in one of its blocks),
    and its inbound tag is a further requirement.  [main.cpp]'s [dispatch] hands
    the request to the outbound picked. *)
From stdpp Require Import gmap.
From S2P Require Import Prelude Absl ShineFrame Address Request Config Geo.
From Stdlib Require Import Strings.Byte.

(** [boost::asio::ip::make_address]: an address of either family, as bytes. *)
Inductive IpAddr := AddrV4 (b : bytes) | AddrV6 (b : bytes).
Class MakeAddress := make_address : bytes -> option IpAddr.
Class MakeAddressSpec `{MakeAddress} : Prop := {
  make_address_v4 s b : make_address s = Some (AddrV4 b) -> zlen b = 4;
  make_address_v6_len s b : make_address s = Some (AddrV6 b) -> zlen b = 16;
}.

Record IpRange := mkIpRange { net : bytes; prefix_len : Z; range_v6 : bool }.

(** ** Prefix comparison *)

(** [memcmp] of the full bytes, then the remaining bits of one byte. *)
Definition bitsEqual (a b : bytes) (prefix : Z) : res bool :=
  let full := Z.quot prefix 8 in
  let rem := Z.rem prefix 8 in
  pa ← rdn a 0 full; pb ← rdn b 0 full;
  if negb (bool_decide (pa = pb)) then Ok false
  else if rem =? 0 then Ok true
  else
    let mask := u8 (Z.shiftl 255 (8 - rem)) in
    xa ← rd a full; xb ← rd b full;
    Ok (Z.land (Z.lxor (b2z xa) (b2z xb)) mask =? 0).

Definition ip_contains (r : IpRange) (addr : bytes) (v6 : bool) : res bool :=
  if negb (bool_decide (v6 = range_v6 r)) then Ok false else bitsEqual (net r) addr (prefix_len r).

Section Router.
Context `{AbslOps, MakeAddress, RegexOps}.

(** [StatusOr<IpRange> parseCidr]; the prefix is cast to a byte. *)
Definition pad16 (b : bytes) : bytes := b ++ replicate (16 - length b) x00.
Definition mk_range (b : bytes) (v6 : bool) (max prefix : Z) : res IpRange :=
  let pl := if prefix <? 0 then max else u8 prefix in
  if max <? pl
  then Err (InvalidArgumentError (if v6 then lit "ipv6 prefix > 128" else lit "ipv4 prefix > 32"))
  else Ok (mkIpRange (pad16 b) pl v6).
Definition parseCidr (s : bytes) : res IpRange :=
  '(host, prefix) ← (match sv_find s "/"%byte with
    | None => Ok (s, -1)
    | Some slash =>
        match SimpleAtoi INT32_MIN INT32_MAX (sv_from s (slash + 1)) with
        | None => Err (InvalidArgumentError (lit "bad cidr prefix"))
        | Some p => Ok (sv_substr s 0 slash, p)
        end
    end);
  match make_address host with
  | None => Err (InvalidArgumentError (lit "bad ip: " ++ host))
  | Some (AddrV4 b) => mk_range b false 32 prefix
  | Some (AddrV6 b) => mk_range b true 128 prefix
  end.

(** ** Domain suffixes *)

Definition endsWithSuffix (domain suffix : bytes) : res bool :=
  match suffix with
  | [] => Ok false
  | front :: _ =>
      if zlen domain <? zlen suffix then Ok false
      else if negb (EndsWith domain suffix) then Ok false
      else if zlen domain =? zlen suffix then Ok true
      else if bool_decide (front = "."%byte) then Ok true
      else c ← rd domain (zlen domain - zlen suffix - 1); Ok (bool_decide (c = "."%byte))
  end.

(** ** Rules *)

Record CompiledRule := mkCompiled {
  c_inbound_tag : option bytes;
  c_domain_exact : gset bytes;
  c_domain_suffix : list bytes;
  c_cidrs : list IpRange;
  c_geoip : list bytes;
  c_geosite : list bytes;
  c_outbound_tag : bytes;
}.

Record Router := mkRouter {
  rules_ : list CompiledRule;
  default_outbound_ : bytes;
  geosite_matcher_ : option (gmap bytes GeoSites.Category);
  geoip_matcher_ : option (gmap bytes GeoIp.Category);
}.

(** The [for (...) if (...) { any_match = true; break; }] loops. *)
Fixpoint any_ok {A} (f : A -> res bool) (l : list A) : res bool :=
  match l with
  | [] => Ok false
  | x :: l => b ← f x; if (b : bool) then Ok true else any_ok f l
  end.

Definition match_domain (router : Router) (r : CompiledRule) (d : bytes) : res bool :=
  if bool_decide (d ∈ c_domain_exact r) then Ok true
  else
    m ← any_ok (endsWithSuffix d) (c_domain_suffix r);
    if (m : bool) then Ok true
    else match geosite_matcher_ router with
         | None => Ok false
         | Some gs => Ok (existsb (GeoSites.match_site gs d) (c_geosite r))
         end.

Definition match_addr (router : Router) (r : CompiledRule) (any_match : bool) (p : bytes) (v6 : bool) : res bool :=
  m ← any_ok (fun cr => ip_contains cr p v6) (c_cidrs r);
  let any_match := any_match || m in
  if any_match then Ok true
  else match geoip_matcher_ router with
       | None => Ok false
       | Some gi => Ok (existsb (GeoIp.match_ip gi p v6) (c_geoip r))
       end.

Definition nonempty {A} (l : list A) : bool := match l with [] => false | _ => true end.

Definition matches (router : Router) (r : CompiledRule) (q : Request) : res bool :=
  let inbound_bad :=
    match c_inbound_tag r with Some t => negb (bool_decide (t = req_inbound_tag q)) | None => false end in
  if inbound_bad then Ok false
  else
    let t := req_target q in
    let domain_rule := negb (bool_decide (c_domain_exact r = ∅)) || nonempty (c_domain_suffix r)
                       || nonempty (c_geosite r) in
    let ip_rule := nonempty (c_cidrs r) || nonempty (c_geoip r) in
    m1 ← (if domain_rule && isDomain t then match_domain router r (domain_ t) else Ok false);
    m2 ← (if ip_rule && isIP t
          then match_addr router r m1 (bytes_ t) (bool_decide (type_ t = IPv6)) else Ok m1);
    if negb (domain_rule || ip_rule)
    then Ok (match c_inbound_tag r with Some _ => true | None => false end)
    else Ok m2.

Fixpoint pick_rules (router : Router) (rs : list CompiledRule) (q : Request) : res bytes :=
  match rs with
  | [] => Ok (default_outbound_ router)
  | r :: rs => m ← matches router r q; if (m : bool) then Ok (c_outbound_tag r) else pick_rules router rs q
  end.
Definition pick (router : Router) (q : Request) : res bytes := pick_rules router (rules_ router) q.

(** ** Compilation *)

Fixpoint parse_cidrs (cs : list bytes) : res (list IpRange) :=
  match cs with [] => Ok [] | c :: cs => ip ← parseCidr c; ips ← parse_cidrs cs; Ok (ip :: ips) end.

Definition compile_rule (rc : RuleConfig) : res CompiledRule :=
  cidrs ← parse_cidrs (rule_cidrs rc);
  Ok (mkCompiled (rule_inbound_tag rc) (list_to_set (rule_domain_exact rc)) (rule_domain_suffix rc) cidrs
        (rule_geoip rc) (rule_geosite rc) (rule_outbound_tag rc)).

Fixpoint compile_rules (rs : list RuleConfig) : res (list CompiledRule) :=
  match rs with [] => Ok [] | r :: rs => c ← compile_rule r; cs ← compile_rules rs; Ok (c :: cs) end.

(** [Router::compile]; [geosite_db] and [geoip_db] are what the .dat files
    decode to, [None] when a file cannot be read (the matcher stays empty). *)
Definition compile (geosite_db : bytes -> option (list GeoSite)) (geoip_db : bytes -> option (list GeoIp.GeoIP))
    (cfg : RouteConfig) : res Router :=
  let gs := if decide (geosite_path cfg = []) then None
            else Some (GeoSites.load (default [] (geosite_db (geosite_path cfg)))) in
  gi ← (if decide (geoip_path cfg = []) then Ok None
        else m ← GeoIp.load (default [] (geoip_db (geoip_path cfg))); Ok (Some m));
  rs ← compile_rules (rules cfg);
  Ok (mkRouter rs (default_outbound cfg) gs gi).

(** ** main.cpp: [dispatch] *)

Inductive Dispatch := NoRoute | OutboundMissing (tag : bytes) | HandledBy (tag : bytes).
Definition dispatch (obs : gset bytes) (router : Router) (q : Request) : res Dispatch :=
  tag ← pick router q;
  if decide (tag = []) then Ok NoRoute
  else if decide (tag ∈ obs) then Ok (HandledBy tag) else Ok (OutboundMissing tag).
End Router.

(** ** Prefix comparison is comparison of leading bits *)

Section BitFacts.

Lemma be_val_split s full n :
  0 <= full -> full < n -> n <= zlen s ->
  exists x rest, zget s full = Some x /\ zlen rest = n - full - 1 /\
    be_val (take (Z.to_nat n) s) = (be_val (slice s 0 full) * 256 + b2z x) * 2 ^ (8 * (n - full - 1)) + be_val rest.
Proof.
  intros H0 H1 H2. destruct (drop_cons_zget s full ltac:(lia)) as (x & Hx & Hd).
  set (rest := take (Z.to_nat (n - full - 1)) (drop (Z.to_nat (full + 1)) s)).
  exists x, rest. split; [done|].
  assert (zlen rest = n - full - 1) as Hl
    by (unfold rest, zlen in *; rewrite length_take, length_drop; lia).
  split; [done|]. rewrite <- Hl, <- be_val_snoc, <- GeoIpFacts.be_val_app. f_equal.
  unfold slice, rest. change (drop (Z.to_nat 0) s) with s. rewrite <- app_assoc. cbn [app].
  rewrite <- (take_drop (Z.to_nat full) s) at 1. rewrite Hd, take_app, take_take, length_take.
  unfold zlen in *. replace (Z.to_nat n - _ `min` _)%nat with (S (Z.to_nat (n - full - 1))) by lia.
  cbn [take]. do 2 f_equal. lia.
Qed.

(** The mask test on the byte the prefix ends in. *)
Lemma mask_test x y k :
  0 <= x < 256 -> 0 <= y < 256 -> 0 < k < 8 ->
  (Z.land (Z.lxor x y) (u8 (Z.shiftl 255 k)) =? 0) = bool_decide (x / 2 ^ k = y / 2 ^ k).
Proof.
  intros Hx Hy Hk. unfold u8. change 255 with (2 ^ 8 - 1). rewrite GeoIpFacts.mask_value by lia.
  assert (0 <= Z.lxor x y < 2 ^ 8) as Hr.
  { split; [apply Z.lxor_nonneg; lia|]. apply Z.log2_lt_cancel. rewrite Z.log2_pow2 by lia.
    pose proof (Z.log2_lxor x y ltac:(lia) ltac:(lia)).
    pose proof (Z.log2_le_mono x 255 ltac:(lia)). pose proof (Z.log2_le_mono y 255 ltac:(lia)).
    change (Z.log2 255) with 7 in *. lia. }
  rewrite GeoIpFacts.masked_value by lia.
  assert (Z.lxor x y / 2 ^ k = Z.lxor (x / 2 ^ k) (y / 2 ^ k)) as ->
    by (rewrite <- !Z.shiftr_div_pow2 by lia; apply Z.shiftr_lxor).
  assert (0 < 2 ^ k) by (apply Z.pow_pos_nonneg; lia).
  case_bool_decide as E; [rewrite E, Z.lxor_nilpotent; done|].
  apply Z.eqb_neq. intros E0. apply E, Z.lxor_eq. nia.
Qed.

(** Leading bits of two [n]-byte numbers, split at a byte. *)
Lemma div_step p b r k m :
  0 <= r < 2 ^ m -> 0 <= m -> 0 <= k <= 8 ->
  ((p * 256 + b) * 2 ^ m + r) / 2 ^ (m + k) = p * 2 ^ (8 - k) + b / 2 ^ k.
Proof.
  intros Hr Hm Hk. rewrite Z.pow_add_r by lia. assert (0 < 2 ^ m) by (apply Z.pow_pos_nonneg; lia).
  assert (0 < 2 ^ k) by (apply Z.pow_pos_nonneg; lia).
  rewrite <- Z.div_div, Z.div_add_l by lia. rewrite (Z.div_small r) by lia. rewrite Z.add_0_r.
  replace 256 with (2 ^ (8 - k) * 2 ^ k)
    by (rewrite <- Z.pow_add_r by lia; by replace (8 - k + k) with 8 by lia).
  rewrite Z.mul_assoc, Z.div_add_l by lia. done.
Qed.

Lemma low_bits x m : 0 <= x < 256 -> 0 <= m <= 8 -> 0 <= x / 2 ^ (8 - m) < 2 ^ m.
Proof.
  intros Hx Hm. assert (0 < 2 ^ (8 - m)) by (apply Z.pow_pos_nonneg; lia).
  split; [apply Z.div_pos; lia|]. apply Z.div_lt_upper_bound; [lia|].
  rewrite <- Z.pow_add_r by lia. replace (8 - m + m) with 8 by lia. lia.
Qed.
End BitFacts.

(** ** Exactness of the predicates *)

Definition family_bytes (v6 : bool) : Z := GeoIpFacts.family_len v6.
Definition family_value (v6 : bool) (b : bytes) : Z := be_val (take (Z.to_nat (family_bytes v6)) b).

Lemma rdn_prefix {A} (d : list A) n : 0 <= n <= zlen d -> rdn d 0 n = Ok (slice d 0 n).
Proof. intros. unfold rdn. rewrite !(proj2 (Z.leb_le _ _)) by lia. done. Qed.

Lemma bitsEqual_spec (v6 : bool) a b prefix :
  family_bytes v6 <= zlen a -> family_bytes v6 <= zlen b -> 0 <= prefix <= GeoIpFacts.width v6 ->
  exists r, bitsEqual a b prefix = Ok r /\
    (r = true <-> GeoIpFacts.in_block (GeoIpFacts.width v6) (family_value v6 a) prefix (family_value v6 b)).
Proof.
  intros Ha Hb Hp. unfold bitsEqual, GeoIpFacts.in_block, family_value. set (n := family_bytes v6) in *.
  assert (GeoIpFacts.width v6 = 8 * n) as Hw by (by destruct v6). rewrite Hw in *.
  assert (Z.quot prefix 8 = prefix / 8 /\ Z.rem prefix 8 = prefix mod 8) as [-> ->]
    by (split; [apply Z.quot_div_nonneg|apply Z.rem_mod_nonneg]; lia).
  pose proof (Z.div_mod prefix 8 ltac:(lia)) as Hdm. pose proof (Z.mod_pos_bound prefix 8 ltac:(lia)) as Hm.
  set (full := prefix / 8) in *. set (rem := prefix mod 8) in *. clearbody full rem.
  rewrite !rdn_prefix by lia. cbn [mbind res_bind].
  assert (length (slice a 0 full) = length (slice b 0 full)) as Hlen.
  { apply Nat2Z.inj. change (zlen (slice a 0 full) = zlen (slice b 0 full)). rewrite !zlen_slice; lia. }
  pose proof (be_val_inj _ _ Hlen) as Hinj.
  destruct (Z.eq_dec full n) as [E|E].
  - assert (rem = 0) as -> by lia. replace (8 * n - prefix) with 0 by lia. change (2 ^ 0) with 1.
    rewrite !Z.div_1_r. cbn [Z.eqb]. rewrite <- E.
    change (take (Z.to_nat full) a) with (slice a 0 full). change (take (Z.to_nat full) b) with (slice b 0 full).
    case_bool_decide as E1; cbn [negb]; eexists; (split; [done|]); [by rewrite E1|].
    split; [done|]. intros E2. by destruct E1; apply Hinj.
  - destruct (be_val_split a full n) as (xa & ra & Hxa & Hra & ->); [lia..|].
    destruct (be_val_split b full n) as (xb & rb & Hxb & Hrb & ->); [lia..|].
    pose proof (be_val_range ra) as Rra. pose proof (be_val_range rb) as Rrb. rewrite Hra in Rra. rewrite Hrb in Rrb.
    replace (8 * n - prefix) with (8 * (n - full - 1) + (8 - rem)) by lia. rewrite !div_step by lia.
    replace (8 - (8 - rem)) with rem by lia.
    pose proof (low_bits _ rem (b2z_range xa) ltac:(lia)). pose proof (low_bits _ rem (b2z_range xb) ltac:(lia)).
    case_bool_decide as E1; cbn [negb].
    + rewrite E1. destruct (Z.eqb_spec rem 0) as [->|Hrem]; [exists true; split; [done|]; change (2 ^ 0) with 1 in *; lia|].
      rewrite (rd_zget _ _ _ Hxa), (rd_zget _ _ _ Hxb). cbn [mbind res_bind].
      rewrite mask_test by (lia || apply b2z_range). eexists. split; [done|]. rewrite bool_decide_eq_true. lia.
    + exists false. split; [done|]. split; [done|]. intros Eq. destruct E1. apply Hinj. nia.
Qed.

(** An address range within its family's width. *)
Definition range_wf (r : IpRange) : Prop :=
  zlen (net r) = 16 /\ 0 <= prefix_len r <= GeoIpFacts.width (range_v6 r).
Definition addr_wf (a : Address) : Prop := zlen (bytes_ a) = 16.

(** [addr] has the family and the leading bits of the range. *)
Definition in_range (r : IpRange) (addr : bytes) (v6 : bool) : Prop :=
  v6 = range_v6 r /\
  GeoIpFacts.in_block (GeoIpFacts.width v6) (family_value v6 (net r)) (prefix_len r) (family_value v6 addr).

Lemma family_le v6 : family_bytes v6 <= 16.
Proof. by destruct v6. Qed.

Lemma ip_contains_spec r addr v6 :
  range_wf r -> zlen addr = 16 ->
  exists b, ip_contains r addr v6 = Ok b /\ (b = true <-> in_range r addr v6).
Proof.
  intros [Hn Hp] Ha. unfold ip_contains, in_range. pose proof (family_le v6).
  case_bool_decide as E; cbn [negb].
  - subst v6. destruct (bitsEqual_spec (range_v6 r) (net r) addr (prefix_len r)) as (b & -> & Hb); [lia..|].
    exists b. split; [done|]. rewrite Hb. tauto.
  - exists false. naive_solver.
Qed.

(** A domain with a suffix on a label boundary; a suffix written with a leading
    dot brings its own. *)
Definition has_suffix (domain suffix : bytes) : Prop :=
  suffix <> [] /\
  (domain = suffix \/ exists pre, domain = pre ++ suffix /\
     ((exists s, suffix = "."%byte :: s) \/ exists p, pre = p ++ ["."%byte])).

Section RuleFacts.
Context `{AbslOps, !AbslSpec, MakeAddress, RegexOps}.

Lemma endsWithSuffix_spec domain suffix :
  exists b, endsWithSuffix domain suffix = Ok b /\ (b = true <-> has_suffix domain suffix).
Proof.
  unfold endsWithSuffix, has_suffix. destruct suffix as [|front sfx]; [exists false; naive_solver|].
  set (s := front :: sfx). pose proof (zlen_nonneg s) as Hs0.
  assert (zlen s <> 0) as Hs by (unfold s; rewrite zlen_cons; pose proof (zlen_nonneg sfx); lia).
  destruct (Z.ltb_spec (zlen domain) (zlen s)) as [Hlt|Hge].
  { exists false. split; [done|]. split; [done|]. intros (_ & [->|(pre & -> & _)]); [lia|].
    rewrite zlen_app in Hlt. pose proof (zlen_nonneg pre). lia. }
  destruct (EndsWith domain s) eqn:Ee; cbn [negb].
  2: { exists false. split; [done|]. split; [done|].
    assert (forall pre, domain <> pre ++ s) as Hno
      by (intros pre ->; by rewrite (proj2 (ends_with (pre ++ s) s)) in Ee by eauto).
    intros (_ & [->|(pre & -> & _)]); [by destruct (Hno [])|by destruct (Hno pre)]. }
  apply ends_with in Ee as [pre ->]. rewrite zlen_app in *. pose proof (zlen_nonneg pre).
  destruct (Z.eqb_spec (zlen pre + zlen s) (zlen s)) as [E|E].
  { exists true. split; [done|]. split; [|done]. intros _. split; [done|]. left.
    destruct pre; [done|]. rewrite zlen_cons in E. pose proof (zlen_nonneg pre). lia. }
  assert (forall p, p ++ s = pre ++ s -> p = pre) as Hinj by (intros p; apply app_inv_tail).
  case_bool_decide as Ef.
  { exists true. split; [done|]. split; [|done]. intros _. split; [done|]. right. exists pre.
    split; [done|]. left. exists sfx. unfold s. by rewrite Ef. }
  destruct pre as [|c p _] using rev_ind; [change (zlen (@nil Prelude.byte)) with 0 in E; lia|].
  rewrite zlen_app in *. change (zlen [c]) with 1 in *.
  replace (zlen p + 1 + zlen s - zlen s - 1) with (zlen p) by lia.
  assert (zget ((p ++ [c]) ++ s) (zlen p) = Some c) as Hz.
  { rewrite <- app_assoc, zget_app_r by lia. by rewrite Z.sub_diag. }
  rewrite (rd_zget _ _ _ Hz). cbn [mbind res_bind]. eexists. split; [done|]. rewrite bool_decide_eq_true. split.
  - intros ->. split; [done|]. right. exists (p ++ ["."%byte]). split; [done|]. right. by exists p.
  - intros (_ & [Eq|(pre & Eq & [(s' & Es)|(q & ->)])]).
    + apply (f_equal zlen) in Eq. rewrite !zlen_app in Eq. change (zlen [c]) with 1 in Eq. pose proof (zlen_nonneg p). lia.
    + unfold s in Es. by injection Es.
    + symmetry in Eq. apply Hinj, app_inj_tail in Eq. naive_solver.
Qed.

Lemma any_ok_spec {A} (f : A -> res bool) (P : A -> Prop) l :
  (forall x, x ∈ l -> exists b, f x = Ok b /\ (b = true <-> P x)) ->
  exists b, any_ok f l = Ok b /\ (b = true <-> exists x, x ∈ l /\ P x).
Proof.
  induction l as [|x l IH]; intros Hf; cbn [any_ok].
  { exists false. split; [done|]. setoid_rewrite elem_of_nil. naive_solver. }
  destruct (Hf x) as (b & -> & Hb); [left|]. cbn [mbind res_bind]. setoid_rewrite elem_of_cons. destruct b.
  - exists true. naive_solver.
  - destruct IH as (b & -> & Hb'); [intros y Hy; apply Hf; by right|]. exists b. naive_solver.
Qed.

(** ** What a rule means *)

Definition domain_cond (router : Router) (r : CompiledRule) (t : Address) : Prop :=
  type_ t = Domain /\
  (domain_ t ∈ c_domain_exact r \/ (exists s, s ∈ c_domain_suffix r /\ has_suffix (domain_ t) s) \/
   exists gs code, geosite_matcher_ router = Some gs /\ code ∈ c_geosite r /\
     GeoSites.match_site gs (domain_ t) code = true).

Definition is_v6 (t : Address) : bool := bool_decide (type_ t = IPv6).
Definition ip_cond (router : Router) (r : CompiledRule) (t : Address) : Prop :=
  type_ t <> Domain /\
  ((exists cr, cr ∈ c_cidrs r /\ in_range cr (bytes_ t) (is_v6 t)) \/
   exists gi code, geoip_matcher_ router = Some gi /\ code ∈ c_geoip r /\
     GeoIp.match_ip gi (bytes_ t) (is_v6 t) code = true).

Definition unconditional (r : CompiledRule) : Prop :=
  c_domain_exact r = ∅ /\ c_domain_suffix r = [] /\ c_geosite r = [] /\ c_cidrs r = [] /\ c_geoip r = [].

Definition rule_applies (router : Router) (r : CompiledRule) (q : Request) : Prop :=
  (forall t, c_inbound_tag r = Some t -> t = req_inbound_tag q) /\
  (domain_cond router r (req_target q) \/ ip_cond router r (req_target q) \/
   (unconditional r /\ is_Some (c_inbound_tag r))).

Lemma match_domain_spec router r d :
  exists b, match_domain router r d = Ok b /\
    (b = true <-> (d ∈ c_domain_exact r \/ (exists s, s ∈ c_domain_suffix r /\ has_suffix d s) \/
       exists gs code, geosite_matcher_ router = Some gs /\ code ∈ c_geosite r /\ GeoSites.match_site gs d code = true)).
Proof.
  unfold match_domain. case_bool_decide as E; [exists true; naive_solver|].
  destruct (any_ok_spec (endsWithSuffix d) (has_suffix d) (c_domain_suffix r)) as (b & -> & Hb);
    [intros; apply endsWithSuffix_spec|]. cbn [mbind res_bind].
  destruct b; [exists true; naive_solver|]. destruct (geosite_matcher_ router) as [gs|].
  - eexists. split; [done|]. rewrite existsb_exists. setoid_rewrite <- list_elem_of_In. naive_solver.
  - exists false. naive_solver.
Qed.

Lemma match_addr_spec router r m p v6 :
  Forall range_wf (c_cidrs r) -> zlen p = 16 ->
  exists b, match_addr router r m p v6 = Ok b /\
    (b = true <-> (m = true \/ (exists cr, cr ∈ c_cidrs r /\ in_range cr p v6) \/
       exists gi code, geoip_matcher_ router = Some gi /\ code ∈ c_geoip r /\ GeoIp.match_ip gi p v6 code = true)).
Proof.
  intros Hr Hp. unfold match_addr.
  destruct (any_ok_spec (fun cr => ip_contains cr p v6) (fun cr => in_range cr p v6) (c_cidrs r)) as (b & -> & Hb).
  { intros cr Hin. apply ip_contains_spec; [|done]. rewrite Forall_forall in Hr. by apply Hr. }
  cbn [mbind res_bind]. destruct (m || b) eqn:Emb.
  { exists true. apply orb_true_iff in Emb. naive_solver. }
  apply orb_false_iff in Emb as [-> ->]. destruct (geoip_matcher_ router) as [gi|].
  - eexists. split; [done|]. rewrite existsb_exists. setoid_rewrite <- list_elem_of_In. naive_solver.
  - exists false. naive_solver.
Qed.
Lemma nonempty_false {A} (l : list A) : nonempty l = false <-> l = [].
Proof. by destruct l. Qed.

Definition domain_rule (r : CompiledRule) : bool :=
  negb (bool_decide (c_domain_exact r = ∅)) || nonempty (c_domain_suffix r) || nonempty (c_geosite r).
Definition ip_rule (r : CompiledRule) : bool := nonempty (c_cidrs r) || nonempty (c_geoip r).

Lemma domain_rule_false r :
  domain_rule r = false <-> (c_domain_exact r = ∅ /\ c_domain_suffix r = [] /\ c_geosite r = []).
Proof.
  unfold domain_rule. rewrite !orb_false_iff, negb_false_iff, bool_decide_eq_true, !nonempty_false. tauto.
Qed.
Lemma ip_rule_false r : ip_rule r = false <-> (c_cidrs r = [] /\ c_geoip r = []).
Proof. unfold ip_rule. by rewrite orb_false_iff, !nonempty_false. Qed.

Lemma domain_part router r t :
  exists b, (if domain_rule r && isDomain t then match_domain router r (domain_ t) else Ok false) = Ok b /\
    (b = true <-> domain_cond router r t).
Proof.
  unfold domain_cond, isDomain. case_bool_decide as Et; [|rewrite andb_false_r; exists false; naive_solver].
  rewrite andb_true_r. destruct (match_domain_spec router r (domain_ t)) as (b & E & Hb).
  destruct (domain_rule r) eqn:Ed; [exists b; rewrite Hb; naive_solver|].
  apply domain_rule_false in Ed as (E1 & E2 & E3). exists false. split; [done|]. split; [done|].
  intros (_ & Hc). rewrite E1, E2, E3 in Hc. setoid_rewrite elem_of_nil in Hc. set_solver.
Qed.

Lemma ip_part router r t m :
  Forall range_wf (c_cidrs r) -> addr_wf t ->
  exists b, (if ip_rule r && isIP t
             then match_addr router r m (bytes_ t) (bool_decide (type_ t = IPv6)) else Ok m) = Ok b /\
    (b = true <-> (m = true \/ ip_cond router r t)).
Proof.
  intros Hr Ht. unfold ip_cond, isIP, isDomain. fold (is_v6 t).
  case_bool_decide as Et; cbn [negb]; [rewrite andb_false_r; exists m; naive_solver|]. rewrite andb_true_r.
  destruct (match_addr_spec router r m (bytes_ t) (is_v6 t) Hr Ht) as (b & E & Hb).
  destruct (ip_rule r) eqn:Ed; [exists b; rewrite Hb; naive_solver|].
  apply ip_rule_false in Ed as (E1 & E2). exists m. split; [done|]. rewrite E1, E2.
  setoid_rewrite elem_of_nil. naive_solver.
Qed.

Lemma matches_spec router r q :
  Forall range_wf (c_cidrs r) -> addr_wf (req_target q) ->
  exists b, matches router r q = Ok b /\ (b = true <-> rule_applies router r q).
Proof.
  intros Hr Ht. unfold matches, rule_applies. fold (domain_rule r). fold (ip_rule r).
  destruct (domain_part router r (req_target q)) as (m1 & E1 & H1').
  destruct (ip_part router r (req_target q) m1 Hr Ht) as (m2 & E2 & H2').
  assert (domain_rule r || ip_rule r = false <-> unconditional r) as Hun.
  { rewrite orb_false_iff, domain_rule_false, ip_rule_false. unfold unconditional. tauto. }
  assert (unconditional r -> m2 = false) as Hm2.
  { intros (U1 & U2 & U3 & U4 & U5). destruct m2; [|done]. exfalso. destruct (proj1 H2' eq_refl) as [Hm|(_ & Hc)].
    - apply H1' in Hm as (_ & Hc). rewrite U1, U2, U3 in Hc. setoid_rewrite elem_of_nil in Hc. set_solver.
    - rewrite U4, U5 in Hc. setoid_rewrite elem_of_nil in Hc. naive_solver. }
  destruct (c_inbound_tag r) as [tag|]; [destruct (decide (tag = req_inbound_tag q)) as [Etag|Etag];
    [rewrite (bool_decide_eq_true_2 (tag = _)) by done|rewrite (bool_decide_eq_false_2 (tag = _)) by done]; cbn [negb]|].
  2: { exists false. split; [done|]. split; [done|]. intros (Hi & _). by destruct Etag; apply Hi. }
  all: rewrite E1; cbn [mbind res_bind]; rewrite E2; cbn [mbind res_bind];
    destruct (domain_rule r || ip_rule r) eqn:Ed; cbn [negb].
  - exists m2. split; [done|]. rewrite H2', H1'. assert (~ unconditional r) by (intros U; apply Hun in U; congruence).
    naive_solver.
  - exists true. split; [done|]. naive_solver.
  - exists m2. split; [done|]. rewrite H2', H1'. assert (~ unconditional r) by (intros U; apply Hun in U; congruence).
    split; [intros; split; [done|tauto]|intros (_ & [?|[?|[? _]]]); tauto].
  - exists false. split; [done|]. split; [done|]. pose proof (proj1 Hun eq_refl) as U. specialize (Hm2 U).
    intros (_ & [Hc|[Hc|[_ [? [=]]]]]).
    + apply H1' in Hc. rewrite (proj2 H2') in Hm2; [done|by left].
    + rewrite (proj2 H2') in Hm2; [done|by right].
Qed.
End RuleFacts.

(** ** Compiled ranges *)

Section Compile.
Context `{AbslOps, !AbslSpec, MakeAddress, !MakeAddressSpec, RegexOps}.

Lemma zlen_pad16 b : zlen b <= 16 -> zlen (pad16 b) = 16.
Proof. intros Hb. unfold pad16, zlen in *. rewrite length_app, length_replicate. lia. Qed.

Lemma family_value_pad v6 b : zlen b = family_bytes v6 -> family_value v6 (pad16 b) = be_val b.
Proof.
  intros Hb. unfold family_value, pad16. f_equal. rewrite <- Hb, zlen_to_nat. by apply take_app_length.
Qed.

Lemma mk_range_ok b v6 prefix r :
  zlen b = family_bytes v6 -> mk_range b v6 (GeoIpFacts.width v6) prefix = Ok r ->
  range_wf r /\ range_v6 r = v6 /\ net r = pad16 b /\
  prefix_len r = if prefix <? 0 then GeoIpFacts.width v6 else u8 prefix.
Proof.
  intros Hb E. unfold mk_range in E. set (pl := if prefix <? 0 then _ else _) in *.
  assert (0 <= pl) as Hpl.
  { unfold pl. destruct (prefix <? 0); [by destruct v6|]. unfold u8. apply Z.mod_pos_bound. lia. }
  destruct (Z.ltb_spec (GeoIpFacts.width v6) pl); [done|]. injection E as <-. split; [|done]. split; cbn; [|lia].
  apply zlen_pad16. pose proof (family_le v6). lia.
Qed.

(** The address and prefix a CIDR string is read as. *)
Definition cidr_source (s : bytes) (host : bytes) (prefix : Z) : Prop :=
  (sv_find s "/"%byte = None /\ host = s /\ prefix = -1) \/
  (exists slash, sv_find s "/"%byte = Some slash /\ host = sv_substr s 0 slash /\
     SimpleAtoi INT32_MIN INT32_MAX (sv_from s (slash + 1)) = Some prefix).

Lemma parseCidr_ok s r :
  parseCidr s = Ok r ->
  range_wf r /\ exists host prefix b, cidr_source s host prefix /\
    make_address host = Some (if range_v6 r then AddrV6 b else AddrV4 b) /\
    family_value (range_v6 r) (net r) = be_val b /\
    prefix_len r = if prefix <? 0 then GeoIpFacts.width (range_v6 r) else u8 prefix.
Proof.
  intros E. unfold parseCidr in E.
  assert (exists host prefix, cidr_source s host prefix /\
    match make_address host with
    | None => Err (InvalidArgumentError (lit "bad ip: " ++ host))
    | Some (AddrV4 b) => mk_range b false 32 prefix
    | Some (AddrV6 b) => mk_range b true 128 prefix
    end = Ok r) as (host & prefix & Hsrc & E').
  { destruct (sv_find s "/"%byte) as [slash|] eqn:Ef; cbn [mbind res_bind] in E.
    - destruct (SimpleAtoi _ _ _) as [p|] eqn:Ea; cbn [mbind res_bind] in E; [|done].
      exists (sv_substr s 0 slash), p. split; [right; by exists slash|done].
    - exists s, (-1). split; [by left|done]. }
  destruct (make_address host) as [[b|b]|] eqn:Em; [| |done].
  - pose proof (make_address_v4 _ _ Em) as Hb.
    destruct (mk_range_ok b false prefix r Hb E') as (Hwf & Hv & Hn & Hp). split; [done|]. exists host, prefix, b.
    rewrite Hv, Hn, Hp. split; [done|]. split; [done|]. split; [by apply family_value_pad|done].
  - pose proof (make_address_v6_len _ _ Em) as Hb.
    destruct (mk_range_ok b true prefix r Hb E') as (Hwf & Hv & Hn & Hp). split; [done|]. exists host, prefix, b.
    rewrite Hv, Hn, Hp. split; [done|]. split; [done|]. split; [by apply family_value_pad|done].
Qed.

Lemma parse_cidrs_wf cs rs : parse_cidrs cs = Ok rs -> Forall range_wf rs.
Proof.
  revert rs. induction cs as [|c cs IH]; intros rs E; cbn [parse_cidrs] in E; [by injection E as <-|].
  destruct (parseCidr c) as [ip| |] eqn:Ec; [|done..]. cbn [mbind res_bind] in E.
  destruct (parse_cidrs cs) as [ips| |]; [|done..]. cbn [mbind res_bind] in E. injection E as <-.
  constructor; [by apply parseCidr_ok in Ec as [? _]|by apply IH].
Qed.

Definition rules_wf (rs : list CompiledRule) : Prop := Forall (fun r => Forall range_wf (c_cidrs r)) rs.

Lemma compile_rules_ok rs : forall cs,
  compile_rules rs = Ok cs -> rules_wf cs /\ c_outbound_tag <$> cs = rule_outbound_tag <$> rs.
Proof.
  induction rs as [|r rs IH]; intros cs E; cbn [compile_rules] in E; [injection E as <-; by split; [constructor|]|].
  unfold compile_rule in E. destruct (parse_cidrs (rule_cidrs r)) as [cidrs| |] eqn:Ec; [|done..].
  cbn [mbind res_bind] in E. destruct (compile_rules rs) as [cs'| |]; [|done..]. cbn [mbind res_bind] in E.
  injection E as <-. destruct (IH cs' eq_refl) as [Hwf Htags]. split.
  - constructor; [by eapply parse_cidrs_wf|done].
  - cbn. by rewrite Htags.
Qed.

Lemma compile_ok gdb idb cfg router :
  compile gdb idb cfg = Ok router ->
  rules_wf (rules_ router) /\ c_outbound_tag <$> rules_ router = rule_outbound_tag <$> rules cfg /\
  default_outbound_ router = default_outbound cfg.
Proof.
  intros E. unfold compile in E.
  destruct (if decide (geoip_path cfg = []) then _ else _) as [gi| |] in E; [|done..]. cbn [mbind res_bind] in E.
  destruct (compile_rules (rules cfg)) as [rs| |] eqn:Er; [|done..]. cbn [mbind res_bind] in E. injection E as <-.
  destruct (compile_rules_ok _ _ Er) as [? ?]. done.
Qed.

Lemma parseCidr_defined s : defined (parseCidr s).
Proof.
  unfold parseCidr. apply defined_bind; [by repeat case_match|]. intros [host prefix] _.
  unfold mk_range. by repeat case_match.
Qed.

Lemma compile_rules_defined rs : defined (compile_rules rs).
Proof.
  assert (forall cs, defined (parse_cidrs cs)) as Hc.
  { intros cs. induction cs as [|c cs IH]; [done|]. apply defined_bind; [apply parseCidr_defined|]. intros ip _.
    by apply defined_bind. }
  induction rs as [|r rs IH]; [done|]. apply defined_bind; [by apply defined_bind|]. intros c _. by apply defined_bind.
Qed.

(** Only a malformed GeoIP database makes [compile] undefined. *)
Lemma compile_ub gdb idb cfg :
  compile gdb idb cfg = UB -> geoip_path cfg <> [] /\ GeoIp.load (default [] (idb (geoip_path cfg))) = UB.
Proof.
  unfold compile. intros [E|(gi & _ & [E|(rs & _ & E)]%res_bind_ub)]%res_bind_ub; [|by apply compile_rules_defined in E|done].
  case_decide; [done|]. split; [done|]. by apply res_bind_ub in E as [E|(m & _ & E)].
Qed.

(** First match. *)
Definition picks (router : Router) (rs : list CompiledRule) (q : Request) (tag : bytes) : Prop :=
  (exists pre r post, rs = pre ++ r :: post /\ Forall (fun r' => ~ rule_applies router r' q) pre /\
     rule_applies router r q /\ tag = c_outbound_tag r) \/
  (Forall (fun r' => ~ rule_applies router r' q) rs /\ tag = default_outbound_ router).

Lemma pick_rules_spec router q rs :
  rules_wf rs -> addr_wf (req_target q) -> exists tag, pick_rules router rs q = Ok tag /\ picks router rs q tag.
Proof.
  intros Hwf Ht. induction Hwf as [|r rs Hr Hwf IH]; cbn [pick_rules].
  { exists (default_outbound_ router). split; [done|]. right. by split; [constructor|]. }
  destruct (matches_spec router r q Hr Ht) as (b & -> & Hb). cbn [mbind res_bind]. destruct b.
  - exists (c_outbound_tag r). split; [done|]. left. exists [], r, rs. split; [done|]. split; [constructor|].
    split; [by apply Hb|done].
  - assert (~ rule_applies router r q) as Hn by (intros Ha; by apply Hb in Ha).
    destruct IH as (tag & -> & [(pre & r' & post & -> & Hpre & Ha & ->)|[Hall ->]]).
    + eexists. split; [done|]. left. exists (r :: pre), r', post. split; [done|]. split; [by constructor|done].
    + eexists. split; [done|]. right. split; [by constructor|done].
Qed.
End Compile.

(** ** Properties *)

Section RouterProperties.
Context `{AbslOps, !AbslSpec, MakeAddress, !MakeAddressSpec, RegexOps}.

(** C24. Routing is first match: on every request to a well-formed address, a
    compiled router picks the outbound of the first rule that applies (its
    inbound tag, if any, is the request's; and the target's name or address is
    in one of its lists, or the rule has none), and the default when no rule
    applies; it never reads outside an address or a name. *)
Theorem pick_first_match gdb idb cfg router q :
  compile gdb idb cfg = Ok router -> addr_wf (req_target q) ->
  exists tag, pick router q = Ok tag /\ picks router (rules_ router) q tag.
Proof. intros E Ht. destruct (compile_ok _ _ _ _ E) as (Hwf & _). by apply pick_rules_spec. Qed.

(** Routing of a validated configuration is closed: whatever the request,
    [dispatch] never ends at an outbound that does not exist; it finds a
    configured outbound, or there is no match and no default. *)
Theorem validated_routing_closed gdb idb c router q :
  validate c = Ok tt -> compile gdb idb (route c) = Ok router -> addr_wf (req_target q) ->
  exists d, dispatch (list_to_set (out_tag <$> outbounds c)) router q = Ok d /\
    (forall tag, d = HandledBy tag -> tag ∈ out_tag <$> outbounds c) /\
    (forall tag, d <> OutboundMissing tag) /\
    (d = NoRoute -> default_outbound (route c) = []).
Proof.
  intros Hv E Ht. apply validate_spec in Hv as (_ & _ & _ & Hne & _ & _ & Hdef & Hrules).
  destruct (compile_ok _ _ _ _ E) as (Hwf & Htags & Hd).
  destruct (pick_rules_spec router q (rules_ router) Hwf Ht) as (tag & Ep & Hp).
  unfold dispatch, pick. rewrite Ep. cbn [mbind res_bind].
  assert (tag ∈ out_tag <$> outbounds c \/ (tag = [] /\ default_outbound (route c) = [])) as Htag.
  { destruct Hp as [(pre & r & post & Er & _ & _ & ->)|[_ ->]].
    - left. assert (c_outbound_tag r ∈ rule_outbound_tag <$> rules (route c)) as Hin.
      { rewrite <- Htags, Er, fmap_app. apply elem_of_app. right. left. }
      apply list_elem_of_fmap in Hin as (rc & -> & Hin). rewrite Forall_forall in Hrules. by apply Hrules.
    - rewrite Hd. destruct Hdef as [->|?]; [by right|by left]. }
  destruct Htag as [Htag|[-> Hdflt]].
  - assert (tag <> []) as Hnil.
    { apply list_elem_of_fmap in Htag as (o & -> & Ho). rewrite Forall_forall in Hne. by apply Hne. }
    destruct (decide (tag = [])); [done|].
    destruct (decide (tag ∈ (list_to_set (out_tag <$> outbounds c) : gset bytes))) as [|Hn].
    + eexists. split; [done|]. split; [by intros ? [= <-]|done].
    + destruct Hn. by apply elem_of_list_to_set.
  - destruct (decide ([] = [])); [|done]. eexists. split; [done|]. done.
Qed.

(** A CIDR rule matches exactly its block: for a parsed "address/prefix" with
    a prefix between 0 and 255 (or none), an address is in the range when it
    has the same family and its first [prefix] bits (all of them when there is
    no prefix) are those of the address written; this is the relation the
    geo-IP intervals decide. *)
Theorem cidr_contains_exact s r addr v6 :
  parseCidr s = Ok r -> zlen addr = 16 ->
  exists host prefix b, cidr_source s host prefix /\
    make_address host = Some (if range_v6 r then AddrV6 b else AddrV4 b) /\
    (0 <= prefix < 256 -> prefix <= GeoIpFacts.width (range_v6 r)) /\
    exists res, ip_contains r addr v6 = Ok res /\
      (prefix < 256 ->
       res = true <-> v6 = range_v6 r /\
         GeoIpFacts.in_block (GeoIpFacts.width v6) (be_val b)
           (if prefix <? 0 then GeoIpFacts.width v6 else prefix) (family_value v6 addr)).
Proof.
  intros E Ha. destruct (parseCidr_ok s r E) as (Hwf & host & prefix & b & Hsrc & Hm & Hv & Hp).
  exists host, prefix, b. split; [done|]. split; [done|]. split.
  - intros Hpr. destruct Hwf as [_ [_ Hle]]. rewrite Hp, (proj2 (Z.ltb_ge _ _)), u8_small in Hle by lia. done.
  - destruct (ip_contains_spec r addr v6 Hwf Ha) as (res & -> & Hres). exists res. split; [done|]. intros Hlt.
    rewrite Hres. unfold in_range. split; intros [-> Hb]; (split; [done|]).
    + rewrite Hv, Hp in Hb. destruct (Z.ltb_spec prefix 0); [done|]. by rewrite u8_small in Hb by lia.
    + rewrite Hv, Hp. destruct (Z.ltb_spec prefix 0); [done|]. by rewrite u8_small by lia.
Qed.

(** What a prefix above 255 does: it is cast to a byte before the range check,
    so "/256" is accepted as "/0" and the rule matches every address of the
    family. *)
Theorem cidr_prefix_wraps s r addr slash :
  parseCidr s = Ok r -> sv_find s "/"%byte = Some slash ->
  SimpleAtoi INT32_MIN INT32_MAX (sv_from s (slash + 1)) = Some 256 -> zlen addr = 16 ->
  ip_contains r addr (range_v6 r) = Ok true.
Proof.
  intros E Hs Ha Hl. destruct (parseCidr_ok s r E) as (Hwf & host & prefix & b & Hsrc & _ & _ & Hp).
  assert (prefix = 256) as ->.
  { destruct Hsrc as [(Hn & _)|(sl & Hsl & _ & Hat)]; [congruence|]. rewrite Hs in Hsl. injection Hsl as <-. congruence. }
  change (u8 256) with 0 in Hp. cbn [Z.ltb Z.compare] in Hp.
  destruct (ip_contains_spec r addr (range_v6 r) Hwf Hl) as (res & -> & Hres). f_equal. apply Hres.
  split; [done|]. rewrite Hp. unfold GeoIpFacts.in_block. rewrite Z.sub_0_r.
  assert (forall x : bytes, zlen x = 16 -> family_value (range_v6 r) x / 2 ^ GeoIpFacts.width (range_v6 r) = 0) as Hz.
  { intros x Hx. apply Z.div_small. unfold family_value. pose proof (be_val_range (take (Z.to_nat (family_bytes (range_v6 r))) x)) as Hr.
    assert (zlen (take (Z.to_nat (family_bytes (range_v6 r))) x) = family_bytes (range_v6 r)) as Hlen
      by (unfold zlen in *; rewrite length_take; destruct (range_v6 r); cbn in *; lia).
    rewrite Hlen in Hr. by destruct (range_v6 r). }
  destruct Hwf as [Hn _]. by rewrite !Hz.
Qed.
End RouterProperties.

(** ** A reference [make_address]: dotted quads, and the full IPv6 form *)

Definition octet (s : bytes) : option byte := option_map z2b (SimpleAtoi 0 255 s).
Definition dotted_quad (s : bytes) : option bytes :=
  match StrSplit s "."%byte with
  | [a; b; c; d] =>
      a ← octet a; b ← octet b; c ← octet c; d ← octet d; Some [a; b; c; d]
  | _ => None
  end.
Definition reference_make_address : MakeAddress := fun s =>
  match dotted_quad s with
  | Some b => Some (AddrV4 b)
  | None => option_map AddrV6 (make_address_v6 s)
  end.

Lemma dotted_quad_length s b : dotted_quad s = Some b -> zlen b = 4.
Proof.
  unfold dotted_quad. destruct (StrSplit s "."%byte) as [|p1 [|p2 [|p3 [|p4 [|? ?]]]]]; try done.
  destruct (octet p1), (octet p2), (octet p3), (octet p4); try done. by intros [= <-].
Qed.

Lemma reference_make_address_spec : @MakeAddressSpec reference_make_address.
Proof.
  split; intros s b; unfold make_address, reference_make_address.
  - destruct (dotted_quad s) eqn:E; [intros [= <-]; by eapply dotted_quad_length|].
    by destruct (make_address_v6 s).
  - destruct (dotted_quad s) eqn:E; [done|]. destruct (make_address_v6 s) as [b'|] eqn:Em; [|done].
    intros [= <-]. apply (make_v6_length s) in Em. unfold zlen. by rewrite Em.
Qed.

(** ** Witnesses *)

Definition sample_config : Config :=
  mkConfig (mkLog [] []) (mkServer 0 30) (mkMetrics [] [])
    [mkInbound (lit "in") (lit "socks5") (lit "127.0.0.1:1080") [] 0 0 0 0 0 [] []]
    [mkOutbound (lit "block") (lit "block") [] [] 1 0 0 0 0 [] [];
     mkOutbound (lit "out") (lit "direct") [] [] 1 0 0 0 0 [] []]
    (mkRoute [] [] [mkRule None [] [lit "ads.org"] [lit "10.0.0.0/8"] [] [] (lit "block")] (lit "out")).
Definition sample_request : Request := mkRequest (lit "in") (lit "socks5") TCP (fromIPv4 [x0a; x01; x02; x03] 80).

#[local] Existing Instance reference_make_address.
#[local] Existing Instance reference_make_address_spec.
#[local] Existing Instance sub_regex.

Definition no_site_db : bytes -> option (list GeoSite) := fun _ => None.
Definition no_ip_db : bytes -> option (list GeoIp.GeoIP) := fun _ => None.

Lemma pick_first_match_witness :
  exists router, compile no_site_db no_ip_db (route sample_config) = Ok router /\
    exists tag, pick router sample_request = Ok tag /\ picks router (rules_ router) sample_request tag.
Proof.
  destruct (compile no_site_db no_ip_db (route sample_config)) as [router| |] eqn:E; [|by vm_compute in E..].
  exists router. split; [done|].
  apply (pick_first_match no_site_db no_ip_db (route sample_config)); [exact E|by vm_compute].
Defined.

Lemma validated_routing_closed_witness :
  exists router d, compile no_site_db no_ip_db (route sample_config) = Ok router /\
    dispatch (list_to_set (out_tag <$> outbounds sample_config)) router sample_request = Ok d /\
    d <> OutboundMissing (lit "block").
Proof.
  destruct (compile no_site_db no_ip_db (route sample_config)) as [router| |] eqn:E; [|by vm_compute in E..].
  destruct (validated_routing_closed no_site_db no_ip_db sample_config router sample_request)
    as (d & Hd & _ & Hn & _); [by vm_compute|exact E|by vm_compute|].
  exists router, d. split; [done|]. split; [exact Hd|apply Hn].
Defined.

Example dispatch_ex router :
  compile no_site_db no_ip_db (route sample_config) = Ok router ->
  dispatch (list_to_set (out_tag <$> outbounds sample_config)) router sample_request = Ok (HandledBy (lit "block")).
Proof. intros E. vm_compute in E. injection E as <-. by vm_compute. Qed.

Lemma cidr_contains_exact_witness :
  exists r, parseCidr (lit "10.1.0.0/16") = Ok r /\
    exists host prefix b, cidr_source (lit "10.1.0.0/16") host prefix /\
      make_address host = Some (if range_v6 r then AddrV6 b else AddrV4 b).
Proof.
  destruct (parseCidr (lit "10.1.0.0/16")) as [r| |] eqn:E; [|by vm_compute in E..]. exists r. split; [done|].
  destruct (cidr_contains_exact (lit "10.1.0.0/16") r (bytes_ (req_target sample_request)) false)
    as (host & prefix & b & Hs & Hm & _); [exact E|by vm_compute|].
  by exists host, prefix, b.
Defined.

Lemma cidr_prefix_wraps_witness :
  exists r, parseCidr (lit "10.1.0.0/256") = Ok r /\ ip_contains r (replicate 16 xff) false = Ok true.
Proof.
  exists (mkIpRange (pad16 [x0a; x01; x00; x00]) 0 false). split; [reflexivity|].
  apply (cidr_prefix_wraps (lit "10.1.0.0/256") (mkIpRange (pad16 [x0a; x01; x00; x00]) 0 false)
           (replicate 16 xff) 8); reflexivity.
Defined.
