(* ===== verification/Socks5.v ===== *)
(** * SOCKS5 (src/inbound/socks5_inbound.cpp, src/outbound/socks5_outbound.cpp)

    The inbound's conversation with a client up to the request it hands to the
    router, the datagrams of a UDP association, and the outbound's conversation
    with an upstream SOCKS5 server.  Binding the UDP socket is an argument: the
    local endpoint, or [None] when it fails. *)
From S2P Require Import Prelude Absl ShineFrame Address Request Socket Config.
From Stdlib Require Import Strings.Byte.

(** [(static_cast<u16>(hi) << 8) | lo] *)
Definition be16 (hi lo : byte) : Z := Z.lor (u16 (Z.shiftl (b2z hi) 8)) (b2z lo).
Definition wire_port (port : Z) : bytes := [z2b (Z.land (Z.shiftr port 8) 255); z2b (Z.land port 255)].
Definition nth_byte (l : bytes) (i : nat) : byte := nth i l x00.

(** ** Inbound: the TCP conversation *)

(** The loop over the offered methods; 0xFF when none is acceptable. *)
Fixpoint choose_method (require_auth : bool) (methods : bytes) : byte :=
  match methods with
  | [] => xff
  | m :: ms =>
      if negb require_auth && bool_decide (m = x00) then x00
      else if require_auth && bool_decide (m = x02) then x02
      else choose_method require_auth ms
  end.

Definition require_auth (cfg : InboundConfig) : bool :=
  negb (bool_decide (in_user cfg = [])) || negb (bool_decide (in_pass cfg = [])).

(** [if (n && !readExact(..))]: nothing is read for an empty string. *)
Definition readString (n : byte) : Io bytes :=
  if b2z n =? 0 then mret [] else readExact (b2z n).

Definition select_method (cfg : InboundConfig) : Io unit :=
  hdr ← readExact 2;
  if negb (bool_decide (nth_byte hdr 0 = x05)) then drop_client
  else
    let nm := nth_byte hdr 1 in
    if b2z nm =? 0 then drop_client
    else
      methods ← readExact (b2z nm);
      let chosen := choose_method (require_auth cfg) methods in
      _ ← writeAll [x05; chosen];
      if bool_decide (chosen = xff) then drop_client else mret tt.

(** RFC 1929. *)
Definition authenticate (cfg : InboundConfig) : Io unit :=
  v ← readByte;
  if negb (bool_decide (v = x01)) then drop_client
  else
    ulen ← readByte;
    u ← readString ulen;
    plen ← readByte;
    p ← readString plen;
    let status := if bool_decide (u = in_user cfg) && bool_decide (p = in_pass cfg) then x00 else x01 in
    _ ← writeAll [x01; status];
    if negb (bool_decide (status = x00)) then drop_client else mret tt.

Definition rep_refused : bytes := [x05; x07; x00; x01] ++ replicate 6 x00.
Definition rep_bind_failed : bytes := [x05; x01; x00; x01] ++ replicate 6 x00.
Definition rep_connected : bytes := [x05; x00; x00; x01] ++ replicate 6 x00.

(** The [switch (req_hdr[3])]. *)
Definition read_target (atyp : byte) : Io Address :=
  if bool_decide (atyp = x01) then
    buf ← readExact 6; mret (fromIPv4 (take 4 buf) (be16 (nth_byte buf 4) (nth_byte buf 5)))
  else if bool_decide (atyp = x03) then
    dlen ← readByte; d ← readString dlen; pb ← readExact 2;
    mret (fromDomain d (be16 (nth_byte pb 0) (nth_byte pb 1)))
  else if bool_decide (atyp = x04) then
    buf ← readExact 18; mret (fromIPv6 (take 16 buf) (be16 (nth_byte buf 16) (nth_byte buf 17)))
  else drop_client.

(** [(void)co_await writeAll(..); co_return;] *)
Definition refuse (rep : bytes) {A} : Io A := fun p =>
  match writeAll rep p with (_, p') => drop_client p' end.

(** What the conversation ends in: a CONNECT request, whose client stream is
    the rest of the socket, or a UDP association. *)
Inductive Accepted := AcceptConnect (r : Request) | AcceptUdp.

Definition handleClient (cfg : InboundConfig) (udp_bind : option Endpoint) : Io Accepted :=
  _ ← select_method cfg;
  _ ← (if require_auth cfg then authenticate cfg else mret tt);
  req_hdr ← readExact 4;
  let cmd := nth_byte req_hdr 1 in
  if negb (bool_decide (nth_byte req_hdr 0 = x05)) || (negb (bool_decide (cmd = x01)) && negb (bool_decide (cmd = x03)))
  then refuse rep_refused
  else
    target ← read_target (nth_byte req_hdr 3);
    if bool_decide (cmd = x03) then
      match udp_bind with
      | None => refuse rep_bind_failed
      | Some lep =>
          _ ← writeAll ([x05; x00; x00; x01] ++ ep_addr lep ++ wire_port (ep_port lep));
          mret AcceptUdp
      end
    else
      _ ← writeAll rep_connected;
      mret (AcceptConnect (mkRequest (in_tag cfg) (in_protocol cfg) TCP target)).

(** ** Inbound: the UDP association *)

Module Socks5UdpStream.
(** [Socks5UdpStream]: whether the UDP socket is open, and the pinned client;
    port 0 until the first datagram. *)
Record t := mk { us_open : bool; client_ep_ : Endpoint }.
Definition new : t := mk true (mkEndpoint [x00; x00; x00; x00] 0).

(** The part of [receiveFrom] after the sender check; [None] is [continue].
    [d] is the [n] bytes received: a read past them is [UB]. *)
Definition parse_datagram (d : bytes) : res (option (bytes * Address)) :=
  let n := zlen d in
  if n <? 4 then Ok None else
  b0 ← rd d 0; b1 ← rd d 1; b2 ← rd d 2;
  if negb (bool_decide (b0 = x00)) || negb (bool_decide (b1 = x00)) || negb (bool_decide (b2 = x00)) then Ok None
  else
    atyp ← rd d 3;
    if b2z atyp =? 1 then
      if n <? 4 + 4 + 2 then Ok None
      else
        ip ← rdn d 4 4; hi ← rd d 8; lo ← rd d 9;
        Ok (Some (drop 10 d, fromIPv4 ip (be16 hi lo)))
    else if b2z atyp =? 3 then
      if n <? 4 + 1 then Ok None
      else
        dlen ← rd d 4;
        if n <? 5 + b2z dlen + 2 then Ok None
        else
          dom ← rdn d 5 (b2z dlen); hi ← rd d (5 + b2z dlen); lo ← rd d (6 + b2z dlen);
          Ok (Some (drop (Z.to_nat (7 + b2z dlen)) d, fromDomain dom (be16 hi lo)))
    else if b2z atyp =? 4 then
      if n <? 4 + 16 + 2 then Ok None
      else
        ip ← rdn d 4 16; hi ← rd d 20; lo ← rd d 21;
        Ok (Some (drop 22 d, fromIPv6 ip (be16 hi lo)))
    else Ok None.

(** How [receiveFrom] ends: a datagram, a status, suspended on the socket, or
    undefined behaviour. *)
Inductive End_ := Got (payload : bytes) (target : Address) | Failed (st : Status) | Pending | Undefined.

(** [receiveFrom] on what the socket will deliver; it returns what is left. *)
Fixpoint receiveFrom (dgs : list Arrival) (st : t) : End_ * t * list Arrival :=
  if negb (us_open st) then (Failed (UnavailableError (lit "closed")), st, dgs)
  else
    match dgs with
    | [] => (Pending, st, [])
    | inr msg :: rest => (Failed (UnavailableError msg), st, rest)
    | inl (sender, d) :: rest =>
        let unpinned := ep_port (client_ep_ st) =? 0 in
        let st1 := if unpinned then mk (us_open st) sender else st in
        if negb unpinned && negb (bool_decide (sender = client_ep_ st)) then receiveFrom rest st1
        else
          match parse_datagram d with
          | UB => (Undefined, st1, rest)
          | Err e => (Failed e, st1, rest)
          | Ok None => receiveFrom rest st1
          | Ok (Some (payload, target)) => (Got payload target, st1, rest)
          end
    end.

(** [sendTo]: the datagram sent to the client. *)
Definition sendTo (data : bytes) (target : Address) (st : t) : res (Endpoint * bytes) :=
  if negb (us_open st) then Err (UnavailableError (lit "closed"))
  else Ok (client_ep_ st, [x00; x00; x00] ++ toBinary target ++ data).

Definition close (st : t) : t := mk false (client_ep_ st).

End Socks5UdpStream.

(** [InjectedStream]: the first datagram, consumed to choose the route, is
    given back once. *)
Record Injected := mkInjected { inner_ : Socks5UdpStream.t; inj_ : option (bytes * Address) }.
Definition injected_receive (dgs : list Arrival) (st : Injected)
  : Socks5UdpStream.End_ * Injected * list Arrival :=
  match inj_ st with
  | Some (p, t) => (Socks5UdpStream.Got p t, mkInjected (inner_ st) None, dgs)
  | None => let '(r, u, rest) := Socks5UdpStream.receiveFrom dgs (inner_ st) in (r, mkInjected u None, rest)
  end.

(** The rest of [handleClient] for UDP ASSOCIATE: the request (routed by the
    first datagram) and the stream the outbound receives from; [None] when no
    datagram comes. *)
Definition udp_associate (cfg : InboundConfig) (dgs : list Arrival)
  : option (Request * Injected * list Arrival) :=
  match Socks5UdpStream.receiveFrom dgs Socks5UdpStream.new with
  | (Socks5UdpStream.Got p t, st, rest) =>
      Some (mkRequest (in_tag cfg) (in_protocol cfg) UDP t, mkInjected st (Some (p, t)), rest)
  | _ => None
  end.

(** ** Outbound *)

Definition use_auth (cfg : OutboundConfig) : bool := negb (bool_decide (out_user cfg = [])).

Definition greeting (cfg : OutboundConfig) : bytes :=
  take (if use_auth cfg then 4 else 3) [x05; x02; x00; x02].
Definition credentials (cfg : OutboundConfig) : bytes :=
  [x01; z2b (u8 (zlen (out_user cfg)))] ++ out_user cfg ++ [z2b (u8 (zlen (out_pass cfg)))] ++ out_pass cfg.
Definition connect_request (target : Address) : bytes :=
  [x05; x01; x00] ++
  match type_ target with
  | IPv4 => x01 :: take 4 (bytes_ target)
  | IPv6 => x04 :: bytes_ target
  | Domain => x03 :: z2b (u8 (Z.min 255 (zlen (domain_ target)))) :: domain_ target
  end ++ [z2b (Z.shiftr (port_ target) 8); z2b (Z.land (port_ target) 255)].

Definition authenticate_out (cfg : OutboundConfig) : Io unit :=
  _ ← writeAll (credentials cfg);
  ar ← readExact 2;
  if negb (bool_decide (nth_byte ar 1 = x00)) then io_fail (UnauthenticatedError (lit "socks5 auth failed")) else mret tt.

(** The length of the bound address that follows the reply header. *)
Definition reply_extra (atyp : byte) : Io Z :=
  if bool_decide (atyp = x01) then mret 4
  else if bool_decide (atyp = x04) then mret 16
  else if bool_decide (atyp = x03) then dl ← readByte; mret (b2z dl)
  else io_fail (UnavailableError (lit "bad socks5 atyp")).

(** [Socks5Outbound::handle] from the greeting to the start of the copy. *)
Definition socks5_connect (cfg : OutboundConfig) (target : Address) : Io unit :=
  _ ← writeAll (greeting cfg);
  reply ← readExact 2;
  if negb (bool_decide (nth_byte reply 0 = x05)) then io_fail (UnavailableError (lit "bad socks5 ver"))
  else if bool_decide (nth_byte reply 1 = xff) then io_fail (UnavailableError (lit "no acceptable method"))
  else
    _ ← (if bool_decide (nth_byte reply 1 = x02) then authenticate_out cfg else mret tt);
    _ ← writeAll (connect_request target);
    rep ← readExact 4;
    if negb (bool_decide (nth_byte rep 1 = x00)) then io_fail (UnavailableError (lit "socks5 CONNECT rejected"))
    else
      extra ← reply_extra (nth_byte rep 3);
      _ ← readExact (extra + 2);
      mret tt.

(** ** Client messages, as bytes *)

Definition wanted (cfg : InboundConfig) : byte := if require_auth cfg then x02 else x00.
Definition client_hello (methods : bytes) : bytes := x05 :: z2b (zlen methods) :: methods.
Definition short_string (s : bytes) : bytes := z2b (zlen s) :: s.
Definition client_auth (user pass : bytes) : bytes := x01 :: short_string user ++ short_string pass.

(** An address as RFC 1928 writes it, and which addresses have such a form. *)
Definition wire_target (t : Address) : bytes :=
  match type_ t with
  | IPv4 => x01 :: take 4 (bytes_ t)
  | IPv6 => x04 :: bytes_ t
  | Domain => x03 :: short_string (domain_ t)
  end ++ wire_port (port_ t).
Definition wire_ok (t : Address) : Prop := addr_wf t /\ (type_ t = Domain -> zlen (domain_ t) <= 255).
Definition client_request (cmd rsv : byte) (t : Address) : bytes := [x05; cmd; rsv] ++ wire_target t.

Section InboundFacts.
Implicit Types p : Peer.

Lemma choose_method_spec auth ms :
  choose_method auth ms = (if auth then x02 else x00) <-> (if auth then x02 else x00) ∈ ms.
Proof.
  induction ms as [|m ms IH]; cbn [choose_method].
  - rewrite elem_of_nil. by destruct auth.
  - rewrite elem_of_cons. destruct auth; cbn [negb andb].
    + case_bool_decide; [subst; naive_solver|]. rewrite IH. naive_solver.
    + case_bool_decide; [subst; naive_solver|]. rewrite IH. naive_solver.
Qed.

Lemma choose_method_cases auth ms : choose_method auth ms = (if auth then x02 else x00) \/ choose_method auth ms = xff.
Proof.
  induction ms as [|m ms IH]; cbn [choose_method]; [by right|]. destruct auth; cbn [negb andb]; case_bool_decide; auto.
Qed.

Lemma byte_of_len (s : bytes) : zlen s <= 255 -> b2z (z2b (zlen s)) = zlen s.
Proof. pose proof (zlen_nonneg s). intros. apply b2z_z2b_small. lia. Qed.

Lemma len_of_byte b (s : bytes) : zlen s = b2z b -> b = z2b (zlen s) /\ zlen s <= 255.
Proof. intros ->. rewrite z2b_b2z. pose proof (b2z_range b). split; [done|lia]. Qed.

Lemma zlen_2 (l : bytes) : zlen l = 2 -> exists a b, l = [a; b].
Proof.
  destruct l as [|a [|b [|c l]]]; rewrite ?zlen_cons, ?zlen_nil; try lia; [eauto|].
  pose proof (zlen_nonneg l). lia.
Qed.

Lemma zlen_4 (l : bytes) : zlen l = 4 -> exists a b c d, l = [a; b; c; d].
Proof.
  destruct l as [|a [|b [|c [|d [|e l]]]]]; rewrite ?zlen_cons, ?zlen_nil; try lia; [eauto 6|].
  pose proof (zlen_nonneg l). lia.
Qed.

Lemma select_method_iff cfg p p' :
  healthy p ->
  select_method cfg p = (Ok tt, p') <->
  exists methods, 1 <= zlen methods <= 255 /\ wanted cfg ∈ methods /\
    exchange p (client_hello methods) [x05; wanted cfg] p'.
Proof.
  intros Hh. unfold select_method, wanted. rewrite io_bind_iff. split.
  - intros (hdr & p1 & [Hl E1]%readExact_iff & E); [|lia]. apply zlen_2 in Hl as (v & nm & ->).
    change (nth_byte [v; nm] 0) with v in E. change (nth_byte [v; nm] 1) with nm in E.
    case_bool_decide as Hv; [subst v|done]. cbn [negb] in E. destruct (Z.eqb_spec (b2z nm) 0); [done|].
    pose proof (b2z_range nm). apply io_bind_iff in E as (ms & p2 & [Hms E2]%readExact_iff & E); [|lia].
    apply io_bind_iff in E as (u & p3 & E3 & E). apply writeAll_iff in E3;
      [|eapply exchange_healthy; [exact E2|]; by eapply exchange_healthy].
    case_bool_decide as Hff; [done|]. apply io_ret_iff in E as [_ ->%exchange_nil].
    destruct (choose_method_cases (require_auth cfg) ms) as [Hc|Hc]; [|done].
    exists ms. destruct (len_of_byte nm ms Hms) as [Hnm Hle]. split; [lia|]. split; [by apply choose_method_spec|].
    rewrite Hc in E3. unfold client_hello. rewrite <- Hnm.
    pose proof (exchange_trans _ _ _ _ _ _ _ (exchange_trans _ _ _ _ _ _ _ E1 E2) E3) as Ex.
    by rewrite app_nil_r in Ex.
  - intros (ms & Hms & Hin & E). unfold client_hello in E.
    rewrite <- (app_nil_r (x05 :: _)) in E.
    destruct (exchange_split p (x05 :: z2b (zlen ms) :: ms) [] [] [x05; if require_auth cfg then x02 else x00] p' E)
      as (p2 & E12 & E3).
    destruct (exchange_split p [x05; z2b (zlen ms)] [] ms [] p2 E12) as (p1 & E1 & E2).
    exists [x05; z2b (zlen ms)], p1. split; [by apply readExact_iff|]. cbn [nth_byte nth].
    change (nth_byte [x05; z2b (zlen ms)] 0) with x05. change (nth_byte [x05; z2b (zlen ms)] 1) with (z2b (zlen ms)).
    rewrite bool_decide_eq_true_2 by done. cbn [negb]. rewrite byte_of_len by lia.
    rewrite (proj2 (Z.eqb_neq _ _)) by lia. apply io_bind_iff. exists ms, p2.
    split; [by apply readExact_iff; [lia|]|]. apply io_bind_iff. exists tt, p'.
    apply choose_method_spec in Hin as ->. split.
    + apply writeAll_iff; [|done]. eapply exchange_healthy; [exact E12|done].
    + rewrite bool_decide_eq_false_2 by by destruct (require_auth cfg). by apply io_ret_iff; rewrite exchange_nil.
Qed.

Lemma readString_iff n p s p' : readString n p = (Ok s, p') <-> zlen s = b2z n /\ exchange p s [] p'.
Proof.
  unfold readString. pose proof (b2z_range n). destruct (Z.eqb_spec (b2z n) 0) as [E|].
  - rewrite io_ret_iff, E. split; [by intros [<- ?]|]. intros [Hz Ex]. destruct s; [done|].
    rewrite zlen_cons in Hz. pose proof (zlen_nonneg s). lia.
  - apply readExact_iff. lia.
Qed.

(** A string with its length byte. *)
Lemma short_string_iff {A} (f : bytes -> Io A) p a p' :
  (n ← readByte; s ← readString n; f s) p = (Ok a, p') <->
  exists s p1, zlen s <= 255 /\ exchange p (short_string s) [] p1 /\ f s p1 = (Ok a, p').
Proof.
  rewrite io_bind_iff. split.
  - intros (n & p1 & E1%readByte_iff & E). apply io_bind_iff in E as (s & p2 & [Hl E2]%readString_iff & E).
    destruct (len_of_byte n s Hl) as [-> Hle]. exists s, p2. split; [done|]. split; [|done].
    by apply (exchange_trans _ _ _ _ _ _ _ E1 E2).
  - intros (s & p2 & Hle & Ex & E). destruct (exchange_split p [z2b (zlen s)] [] s [] p2 Ex) as (p1 & E1 & E2).
    exists (z2b (zlen s)), p1. split; [by apply readByte_iff|]. apply io_bind_iff. exists s, p2.
    split; [|done]. apply readString_iff. by rewrite byte_of_len.
Qed.

Lemma authenticate_iff cfg p p' :
  healthy p ->
  authenticate cfg p = (Ok tt, p') <->
  zlen (in_user cfg) <= 255 /\ zlen (in_pass cfg) <= 255 /\
  exchange p (client_auth (in_user cfg) (in_pass cfg)) [x01; x00] p'.
Proof.
  intros Hh. unfold authenticate. rewrite io_bind_iff. split.
  - intros (v & p1 & E1%readByte_iff & E). case_bool_decide as Hv; [subst v|done]. cbn [negb] in E.
    apply short_string_iff in E as (u & p2 & Hu & E2 & E). apply short_string_iff in E as (pw & p3 & Hp & E3 & E).
    apply io_bind_iff in E as (x & p4 & E4 & E).
    pose proof (exchange_trans _ _ _ _ _ _ _ (exchange_trans _ _ _ _ _ _ _ E1 E2) E3) as Ex.
    apply writeAll_iff in E4; [|exact (exchange_healthy _ _ _ _ Ex Hh)].
    destruct (bool_decide (u = in_user cfg)) eqn:Hu'; [|done]. destruct (bool_decide (pw = in_pass cfg)) eqn:Hp'; [|done].
    apply bool_decide_eq_true in Hu' as ->. apply bool_decide_eq_true in Hp' as ->.
    apply io_ret_iff in E as [_ ->%exchange_nil]. split; [done|]. split; [done|].
    pose proof (exchange_trans _ _ _ _ _ _ _ Ex E4) as Ex'. rewrite app_nil_r, <- app_assoc in Ex'. exact Ex'.
  - intros (Hu & Hp & Ex). rewrite <- (app_nil_r (client_auth _ _)) in Ex.
    destruct (exchange_split p (client_auth (in_user cfg) (in_pass cfg)) [] [] [x01; x00] p' Ex) as (p3 & E123 & E4).
    destruct (exchange_split p [x01] [] (short_string (in_user cfg) ++ short_string (in_pass cfg)) [] p3 E123) as (p1 & E1 & E23).
    destruct (exchange_split p1 (short_string (in_user cfg)) [] (short_string (in_pass cfg)) [] p3 E23) as (p2 & E2 & E3).
    exists x01, p1. split; [by apply readByte_iff|]. rewrite bool_decide_eq_true_2 by done. cbn [negb].
    apply short_string_iff. exists (in_user cfg), p2. split; [done|]. split; [done|].
    apply short_string_iff. exists (in_pass cfg), p3. split; [done|]. split; [done|].
    rewrite (bool_decide_eq_true_2 (in_user cfg = _)), (bool_decide_eq_true_2 (in_pass cfg = _)) by done.
    cbn [andb]. apply io_bind_iff. exists tt, p'. split.
    + apply writeAll_iff; [exact (exchange_healthy _ _ _ _ E123 Hh)|done].
    + rewrite bool_decide_eq_true_2 by done. by apply io_ret_iff; rewrite exchange_nil.
Qed.

Lemma be16_wire port : 0 <= port < 2 ^ 16 -> exists hi lo, wire_port port = [hi; lo] /\ be16 hi lo = port.
Proof. intros Hp. eexists _, _. split; [done|]. by apply port_bytes. Qed.

Lemma wire_be16 hi lo : wire_port (be16 hi lo) = [hi; lo] /\ 0 <= be16 hi lo < 2 ^ 16.
Proof. destruct (bytes_port hi lo) as (? & E1 & E2). unfold wire_port, be16. by rewrite E1, E2. Qed.

(** An address block of [n] bytes and a port, read at once. *)
Lemma fixed_block (buf : bytes) n :
  zlen buf = Z.of_nat n + 2 -> exists ip hi lo, buf = ip ++ [hi; lo] /\ length ip = n.
Proof.
  intros Hl. exists (take n buf). destruct (drop n buf) as [|hi [|lo [|? ?]]] eqn:Ed;
    apply (f_equal length) in Ed as Hd; rewrite length_drop in Hd; unfold zlen in Hl; cbn in Hd; try lia.
  exists hi, lo. split; [by rewrite <- Ed, take_drop|]. rewrite length_take. lia.
Qed.

Lemma take_block (ip : bytes) hi lo n :
  length ip = n -> take n (ip ++ [hi; lo]) = ip /\ nth_byte (ip ++ [hi; lo]) n = hi /\ nth_byte (ip ++ [hi; lo]) (S n) = lo.
Proof.
  intros <-. unfold nth_byte. rewrite take_app_length. split; [done|].
  rewrite !app_nth2 by lia. by rewrite Nat.sub_diag, Nat.sub_succ_l, Nat.sub_diag by lia.
Qed.

Lemma read_target_sound atyp p t p' :
  read_target atyp p = (Ok t, p') ->
  wire_ok t /\ exists body, wire_target t = atyp :: body /\ exchange p body [] p'.
Proof.
  unfold read_target. case_bool_decide as H1; [|case_bool_decide as H3; [|case_bool_decide as H4; [|done]]]; subst atyp.
  - intros (buf & p1 & [Hl E1]%readExact_iff & E)%io_bind_iff; [|lia].
    apply io_ret_iff in E as [<- ->%exchange_nil]. destruct (fixed_block buf 4 Hl) as (ip & hi & lo & -> & Hip).
    destruct (take_block ip hi lo 4 Hip) as (-> & -> & ->). destruct (wire_be16 hi lo) as [Hw Hr].
    split; [split; [by apply fromIPv4_wf|done]|]. exists (ip ++ [hi; lo]). split; [|done].
    unfold wire_target. cbn [fromIPv4 type_ bytes_ port_]. rewrite Hw.
    destruct ip as [|b0 [|b1 [|b2 [|b3 [|]]]]]; try done.
  - intros (d & p1 & Hd & E1 & E)%short_string_iff.
    apply io_bind_iff in E as (pb & p2 & [Hl E2]%readExact_iff & E); [|lia].
    apply zlen_2 in Hl as (hi & lo & ->). apply io_ret_iff in E as [<- ->%exchange_nil].
    change (nth_byte [hi; lo] 0) with hi. change (nth_byte [hi; lo] 1) with lo. destruct (wire_be16 hi lo) as [Hw Hr].
    split; [split; [by apply fromDomain_wf|done]|]. exists (short_string d ++ [hi; lo]).
    split; [|by apply (exchange_trans _ _ _ _ _ _ _ E1 E2)]. unfold wire_target. cbn [fromDomain type_ domain_ port_].
    by rewrite Hw.
  - intros (buf & p1 & [Hl E1]%readExact_iff & E)%io_bind_iff; [|lia].
    apply io_ret_iff in E as [<- ->%exchange_nil]. destruct (fixed_block buf 16 Hl) as (ip & hi & lo & -> & Hip).
    destruct (take_block ip hi lo 16 Hip) as (-> & -> & ->). destruct (wire_be16 hi lo) as [Hw Hr].
    split; [split; [by apply fromIPv6_wf|done]|]. exists (ip ++ [hi; lo]). split; [|done].
    unfold wire_target. cbn [fromIPv6 type_ bytes_ port_]. by rewrite Hw.
Qed.

Lemma read_target_complete t atyp body p p' :
  wire_ok t -> wire_target t = atyp :: body -> exchange p body [] p' -> read_target atyp p = (Ok t, p').
Proof.
  intros [Hwf Hlen] Ht Ex. pose proof Hwf as (Hport & Hbytes & Hshape).
  destruct (be16_wire (port_ t) Hport) as (hi & lo & Hw & Hp). unfold wire_target in Ht. rewrite Hw in Ht.
  unfold read_target. destruct (type_ t) eqn:Et; injection Ht as <- <-.
  - rewrite bool_decide_eq_true_2 by done. apply io_bind_iff. exists (take 4 (bytes_ t) ++ [hi; lo]), p'.
    assert (length (take 4 (bytes_ t)) = 4%nat) as H4 by (rewrite length_take; lia).
    split; [apply readExact_iff; [lia|]; split; [|done]; unfold zlen; rewrite length_app, H4; done|].
    destruct (take_block _ hi lo 4 H4) as (-> & -> & ->). apply io_ret_iff. rewrite Hp, exchange_nil.
    split; [|done]. symmetry. by apply addr_eta_v4.
  - cbn. apply io_bind_iff. exists (bytes_ t ++ [hi; lo]), p'.
    split; [apply readExact_iff; [lia|]; split; [|done]; unfold zlen; rewrite length_app, Hbytes; done|].
    destruct (take_block _ hi lo 16 Hbytes) as (-> & -> & ->). apply io_ret_iff. rewrite Hp, exchange_nil.
    split; [|done]. destruct t. cbn in *. by subst.
  - cbn [bool_decide]. rewrite bool_decide_eq_false_2, bool_decide_eq_true_2 by done. apply short_string_iff.
    destruct (exchange_split p (short_string (domain_ t)) [] [hi; lo] [] p' Ex) as (p1 & E1 & E2).
    exists (domain_ t), p1. split; [by apply Hlen|]. split; [done|]. apply io_bind_iff. exists [hi; lo], p'.
    split; [by apply readExact_iff|]. change (nth_byte [hi; lo] 0) with hi. change (nth_byte [hi; lo] 1) with lo.
    apply io_ret_iff. rewrite Hp, exchange_nil. split; [|done]. destruct t. cbn in *. by subst.
Qed.

(** *** The whole conversation *)

Definition auth_part (cfg : InboundConfig) : bytes :=
  if require_auth cfg then client_auth (in_user cfg) (in_pass cfg) else [].
Definition creds_ok (cfg : InboundConfig) : Prop :=
  require_auth cfg = true -> zlen (in_user cfg) <= 255 /\ zlen (in_pass cfg) <= 255.
Definition server_flight (cfg : InboundConfig) : bytes :=
  [x05; wanted cfg] ++ if require_auth cfg then [x01; x00] else [].
Definition bound_reply (lep : Endpoint) : bytes :=
  [x05; x00; x00; x01] ++ ep_addr lep ++ wire_port (ep_port lep).

(** What an accepted client gets, by command. *)
Definition accepts (cfg : InboundConfig) (udp_bind : option Endpoint) (cmd : byte) (t : Address)
    (a : Accepted) (reply : bytes) : Prop :=
  (cmd = x01 /\ a = AcceptConnect (mkRequest (in_tag cfg) (in_protocol cfg) TCP t) /\ reply = rep_connected) \/
  (cmd = x03 /\ a = AcceptUdp /\ exists lep, udp_bind = Some lep /\ reply = bound_reply lep).

Lemma auth_step_iff cfg p p' :
  healthy p ->
  (if require_auth cfg then authenticate cfg else mret tt) p = (Ok tt, p') <->
  creds_ok cfg /\ exchange p (auth_part cfg) (if require_auth cfg then [x01; x00] else []) p'.
Proof.
  intros Hh. unfold creds_ok, auth_part. destruct (require_auth cfg).
  - rewrite authenticate_iff by done. naive_solver.
  - rewrite io_ret_iff. naive_solver.
Qed.

Lemma refuse_not_ok {A} rep p (a : A) p' : refuse rep p <> (Ok a, p').
Proof. unfold refuse. by destruct (writeAll rep p). Qed.

Lemma reply_iff cfg udp_bind cmd t p a p' :
  healthy p -> cmd = x01 \/ cmd = x03 ->
  (if bool_decide (cmd = x03) then
     match udp_bind with
     | None => refuse rep_bind_failed
     | Some lep => _ ← writeAll (bound_reply lep); mret AcceptUdp
     end
   else _ ← writeAll rep_connected; mret (AcceptConnect (mkRequest (in_tag cfg) (in_protocol cfg) TCP t))) p
  = (Ok a, p') <-> exists reply, accepts cfg udp_bind cmd t a reply /\ exchange p [] reply p'.
Proof.
  intros Hh Hcmd. unfold accepts. case_bool_decide as Hc.
  - subst cmd. destruct udp_bind as [lep|].
    + rewrite io_bind_iff. split.
      * intros (u & p1 & E1%writeAll_iff & [<- ->%exchange_nil]%io_ret_iff); [|done]. eauto 10.
      * intros (reply & [[[=] _]|(_ & -> & lep' & [= <-] & ->)] & E). exists tt, p'.
        split; [by apply writeAll_iff|]. by apply io_ret_iff; rewrite exchange_nil.
    + split; [by intros ?%refuse_not_ok|]. by intros (reply & [[[=] _]|(_ & _ & lep & [=] & _)] & _).
  - destruct Hcmd as [->|]; [|done]. rewrite io_bind_iff. split.
    + intros (u & p1 & E1%writeAll_iff & [<- ->%exchange_nil]%io_ret_iff); [|done]. eauto 10.
    + intros (reply & [(_ & -> & ->)|[[=] _]] & E). exists tt, p'.
      split; [by apply writeAll_iff|]. by apply io_ret_iff; rewrite exchange_nil.
Qed.

Lemma handleClient_sound cfg udp_bind p a p' :
  healthy p -> handleClient cfg udp_bind p = (Ok a, p') ->
  exists methods cmd rsv t reply, 1 <= zlen methods <= 255 /\ wanted cfg ∈ methods /\ creds_ok cfg /\ wire_ok t /\
    accepts cfg udp_bind cmd t a reply /\
    exchange p (client_hello methods ++ auth_part cfg ++ client_request cmd rsv t) (server_flight cfg ++ reply) p'.
Proof.
  intros Hh E. unfold handleClient in E. apply io_bind_iff in E as ([] & p1 & (ms & Hms & Hin & E1)%select_method_iff & E); [|done].
  pose proof (exchange_healthy _ _ _ _ E1 Hh) as Hh1.
  apply io_bind_iff in E as ([] & p2 & [Hcr E2]%auth_step_iff & E); [|done].
  pose proof (exchange_healthy _ _ _ _ E2 Hh1) as Hh2.
  apply io_bind_iff in E as (hdr & p3 & [Hl E3]%readExact_iff & E); [|lia].
  pose proof (exchange_healthy _ _ _ _ E3 Hh2) as Hh3.
  apply zlen_4 in Hl as (v & cmd & rsv & atyp & ->). change (nth_byte _ 0) with v in E. change (nth_byte _ 1) with cmd in E.
  change (nth_byte _ 3) with atyp in E.
  destruct (negb (bool_decide (v = x05)) || _) eqn:Ebad; [by apply refuse_not_ok in E|].
  apply orb_false_iff in Ebad as [Hv Hcmd]. apply negb_false_iff, bool_decide_eq_true in Hv as ->.
  assert (cmd = x01 \/ cmd = x03) as Hc.
  { apply andb_false_iff in Hcmd. rewrite !negb_false_iff, !bool_decide_eq_true in Hcmd. done. }
  apply io_bind_iff in E as (t & p4 & (Ht & body & Hbody & E4)%read_target_sound & E).
  pose proof (exchange_healthy _ _ _ _ E4 Hh3) as Hh4.
  apply reply_iff in E as (reply & Ha & E5); [|done..].
  exists ms, cmd, rsv, t, reply. split; [done|]. split; [done|]. split; [done|]. split; [done|]. split; [done|].
  pose proof (exchange_trans _ _ _ _ _ _ _ E1 (exchange_trans _ _ _ _ _ _ _ E2
    (exchange_trans _ _ _ _ _ _ _ E3 (exchange_trans _ _ _ _ _ _ _ E4 E5)))) as Ex.
  unfold client_request, server_flight. rewrite Hbody. rewrite app_nil_r in Ex. rewrite <- app_assoc.
  exact Ex.
Qed.

Lemma handleClient_complete cfg udp_bind p a p' methods cmd rsv t reply :
  healthy p -> 1 <= zlen methods <= 255 -> wanted cfg ∈ methods -> creds_ok cfg -> wire_ok t ->
  accepts cfg udp_bind cmd t a reply ->
  exchange p (client_hello methods ++ auth_part cfg ++ client_request cmd rsv t) (server_flight cfg ++ reply) p' ->
  handleClient cfg udp_bind p = (Ok a, p').
Proof.
  intros Hh Hms Hin Hcr Ht Ha Ex. unfold server_flight in Ex. rewrite <- app_assoc in Ex.
  destruct (exchange_split _ _ _ _ _ _ Ex) as (p1 & E1 & Ex1). clear Ex.
  pose proof (exchange_healthy _ _ _ _ E1 Hh) as Hh1.
  destruct (exchange_split _ _ _ _ _ _ Ex1) as (p2 & E2 & Ex2). clear Ex1.
  pose proof (exchange_healthy _ _ _ _ E2 Hh1) as Hh2.
  assert (cmd = x01 \/ cmd = x03) as Hc by (destruct Ha as [(? & _)|(? & _)]; auto).
  unfold handleClient. apply io_bind_iff. exists tt, p1. split; [apply select_method_iff; eauto|].
  apply io_bind_iff. exists tt, p2. split; [by apply auth_step_iff|].
  unfold client_request in Ex2. destruct (wire_target t) as [|atyp body] eqn:Ew.
  { unfold wire_target in Ew. by destruct (type_ t). }
  rewrite <- (app_nil_r ([x05; cmd; rsv] ++ _)) in Ex2.
  destruct (exchange_split p2 ([x05; cmd; rsv] ++ atyp :: body) [] [] reply p' Ex2) as (p4 & E34 & E5).
  destruct (exchange_split p2 [x05; cmd; rsv; atyp] [] body [] p4 E34) as (p3 & E3 & E4).
  apply io_bind_iff. exists [x05; cmd; rsv; atyp], p3. split; [by apply readExact_iff|].
  change (nth_byte _ 0) with x05. change (nth_byte _ 1) with cmd. change (nth_byte _ 3) with atyp.
  rewrite (bool_decide_eq_true_2 (x05 = x05)) by done.
  assert (negb (bool_decide (cmd = x01)) && negb (bool_decide (cmd = x03)) = false) as ->
    by (destruct Hc as [-> | ->]; done). cbn [negb orb].
  apply io_bind_iff. exists t, p4. split; [by eapply read_target_complete|].
  pose proof (exchange_healthy _ _ _ _ E34 Hh2) as Hh4. apply reply_iff; eauto.
Qed.
End InboundFacts.

(** ** Outbound: what it sends and expects *)

Section OutboundFacts.
Implicit Types p : Peer.

Lemma wire_port_u16 port :
  0 <= port < 2 ^ 16 -> [z2b (Z.shiftr port 8); z2b (Z.land port 255)] = wire_port port.
Proof.
  intros Hp. unfold wire_port. f_equal. apply b2z_inj. rewrite byte_of_shift by lia.
  rewrite b2z_z2b, Z.shiftr_div_pow2 by lia. done.
Qed.

Lemma connect_request_wire t : wire_ok t -> connect_request t = client_request x01 x00 t.
Proof.
  intros [(Hp & _) Hl]. unfold connect_request, client_request, wire_target, short_string.
  rewrite wire_port_u16 by done. do 2 f_equal. destruct (type_ t) eqn:Et; try done. specialize (Hl eq_refl).
  pose proof (zlen_nonneg (domain_ t)). rewrite Z.min_r, u8_small by lia. done.
Qed.

Lemma credentials_wire cfg :
  zlen (out_user cfg) <= 255 -> zlen (out_pass cfg) <= 255 ->
  credentials cfg = client_auth (out_user cfg) (out_pass cfg).
Proof.
  intros Hu Hp. pose proof (zlen_nonneg (out_user cfg)). pose proof (zlen_nonneg (out_pass cfg)).
  unfold credentials, client_auth, short_string. by rewrite !u8_small by lia.
Qed.

Lemma greeting_auth cfg : out_user cfg <> [] -> greeting cfg = client_hello [x00; x02].
Proof. intros H. unfold greeting, use_auth. by rewrite bool_decide_eq_false_2. Qed.

Lemma socks5_connect_complete cfg target (auth : bool) p p' :
  healthy p ->
  exchange p ([x05; if auth then x02 else x00] ++ (if auth then [x01; x00] else []) ++ rep_connected)
    (greeting cfg ++ (if auth then credentials cfg else []) ++ connect_request target) p' ->
  socks5_connect cfg target p = (Ok tt, p').
Proof.
  intros Hh Ex. destruct (exchange_split p [] (greeting cfg) _ _ p' Ex) as (p1 & E1 & Ex1).
  pose proof (exchange_healthy _ _ _ _ E1 Hh) as Hh1.
  destruct (exchange_split p1 [x05; if auth then x02 else x00] [] _ _ p' Ex1) as (p2 & E2 & Ex2).
  pose proof (exchange_healthy _ _ _ _ E2 Hh1) as Hh2.
  destruct (exchange_split p2 _ _ _ _ p' Ex2) as (p3 & E3 & Ex3).
  pose proof (exchange_healthy _ _ _ _ E3 Hh2) as Hh3.
  unfold socks5_connect. apply io_bind_iff. exists tt, p1. split; [by apply writeAll_iff|].
  apply io_bind_iff. exists [x05; if auth then x02 else x00], p2. split; [by apply readExact_iff|].
  change (nth_byte [x05; if auth then x02 else x00] 0) with x05.
  change (nth_byte [x05; if auth then x02 else x00] 1) with (if auth then x02 else x00).
  rewrite (bool_decide_eq_true_2 (x05 = x05)), bool_decide_eq_false_2 by (done || by destruct auth). cbn [negb].
  apply io_bind_iff. exists tt, p3. split.
  { destruct auth; [rewrite bool_decide_eq_true_2 by done|rewrite bool_decide_eq_false_2 by done; by apply io_ret_iff].
    destruct (exchange_split p2 [] (credentials cfg) [x01; x00] [] p3) as (q & Eq1 & Eq2); [by rewrite app_nil_r|].
    unfold authenticate_out. apply io_bind_iff. exists tt, q. split; [by apply writeAll_iff|].
    apply io_bind_iff. exists [x01; x00], p3. split; [by apply readExact_iff|].
    change (nth_byte _ 1) with x00. rewrite bool_decide_eq_true_2 by done. by apply io_ret_iff; rewrite exchange_nil. }
  rewrite <- (app_nil_r (connect_request target)) in Ex3.
  destruct (exchange_split p3 [] (connect_request target) rep_connected [] p' Ex3) as (p4 & E4 & Ex4).
  destruct (exchange_split p4 [x05; x00; x00; x01] [] (replicate 6 x00) [] p' Ex4) as (p5 & E5 & E6).
  apply io_bind_iff. exists tt, p4. split; [by apply writeAll_iff|].
  apply io_bind_iff. exists [x05; x00; x00; x01], p5. split; [by apply readExact_iff|].
  change (nth_byte [x05; x00; x00; x01] 1) with x00. change (nth_byte [x05; x00; x00; x01] 3) with x01.
  rewrite (bool_decide_eq_true_2 (x00 = x00)) by done.
  cbn [negb]. apply io_bind_iff. exists 4, p5. split; [by apply io_ret_iff; rewrite exchange_nil|].
  apply io_bind_iff. exists (replicate 6 x00), p'. split; [by apply readExact_iff|].
  by apply io_ret_iff; rewrite exchange_nil.
Qed.
End OutboundFacts.

(** ** The datagrams of an association *)

Section Datagrams.
Import Socks5UdpStream.

Definition deliverable (c : Endpoint) (e : Endpoint * bytes) : option (bytes * Address) :=
  if decide (fst e = c) then match parse_datagram (snd e) with Ok o => o | _ => None end else None.

(** The datagrams of [c] up to the first error of the socket. *)
Fixpoint heard (c : Endpoint) (dgs : list Arrival) : list (bytes * Address) :=
  match dgs with
  | inl e :: dgs => match deliverable c e with Some m => m :: heard c dgs | None => heard c dgs end
  | inr _ :: _ | [] => []
  end.

(** What repeated [receiveFrom]s on the injected stream give. *)
Fixpoint drain (fuel : nat) (dgs : list Arrival) (st : Injected) : list (bytes * Address) :=
  match fuel with
  | O => []
  | S fuel =>
      match injected_receive dgs st with
      | (Got p t, st', rest) => (p, t) :: drain fuel rest st'
      | _ => []
      end
  end.

Lemma rd_app_r {A} (l1 l2 : list A) i : @zlen A l1 <= i -> rd (l1 ++ l2) i = rd l2 (i - zlen l1).
Proof. intros. unfold rd. by rewrite zget_app_r. Qed.

(** A datagram with its three zero bytes and address type, read past them. *)
Lemma datagram_shape (d : bytes) :
  4 <= zlen d -> exists b0 b1 b2 a body, d = [b0; b1; b2; a] ++ body /\ zlen d = 4 + zlen body.
Proof.
  intros Hd. destruct d as [|b0 [|b1 [|b2 [|a body]]]]; rewrite ?zlen_cons, ?zlen_nil in Hd; try lia.
  exists b0, b1, b2, a, body. split; [done|]. rewrite !zlen_cons. lia.
Qed.

Lemma block_read (pre ip : bytes) hi lo pl n :
  zlen ip = n ->
  let d := pre ++ ip ++ [hi; lo] ++ pl in
  rdn d (zlen pre) n = Ok ip /\ rd d (zlen pre + n) = Ok hi /\ rd d (zlen pre + n + 1) = Ok lo /\
  drop (Z.to_nat (zlen pre + n + 2)) d = pl.
Proof.
  intros Hn d. pose proof (zlen_nonneg pre). pose proof (zlen_nonneg ip). pose proof (zlen_nonneg pl).
  assert (zlen d = zlen pre + n + 2 + zlen pl) as Hd by (unfold d; rewrite !zlen_app, !zlen_cons, zlen_nil; lia).
  split; [|split; [|split]].
  - rewrite rdn_Ok by lia. f_equal. unfold d. apply slice_mid; lia.
  - unfold d. rewrite rd_app_r, rd_app_r by lia. replace (zlen pre + n - zlen pre - zlen ip) with 0 by lia. done.
  - unfold d. rewrite rd_app_r, rd_app_r by lia. replace (zlen pre + n + 1 - zlen pre - zlen ip) with 1 by lia. done.
  - unfold d. rewrite !app_assoc. assert (length ((pre ++ ip) ++ [hi; lo]) = Z.to_nat (zlen pre + n + 2)) as <-;
      [|apply drop_app_length]. rewrite !length_app. unfold zlen in *. cbn. lia.
Qed.

Lemma block_split (body : bytes) n :
  0 <= n -> n + 2 <= zlen body -> exists ip hi lo pl, body = ip ++ [hi; lo] ++ pl /\ zlen ip = n.
Proof.
  intros Hn Hb. exists (take (Z.to_nat n) body). destruct (drop_zget2 body n Hn Hb) as (hi & lo & pl & E).
  exists hi, lo, pl. split; [by rewrite <- (take_drop (Z.to_nat n) body) at 1; rewrite E|].
  unfold zlen in *. rewrite length_take. lia.
Qed.

(** The three cases of [parse_datagram], on a datagram of the right shape. *)
Lemma parse_datagram_v4 ip hi lo pl :
  zlen ip = 4 ->
  parse_datagram ([x00; x00; x00; x01] ++ ip ++ [hi; lo] ++ pl) = Ok (Some (pl, fromIPv4 ip (be16 hi lo))).
Proof.
  intros Hip. destruct (block_read [x00; x00; x00; x01] ip hi lo pl 4 Hip) as (E1 & E2 & E3 & E4).
  unfold parse_datagram. set (d := [x00; x00; x00; x01] ++ ip ++ [hi; lo] ++ pl) in *. pose proof (zlen_nonneg pl).
  assert (zlen d = 10 + zlen pl) as -> by (unfold d; rewrite !zlen_app, Hip, !zlen_cons, !zlen_nil; lia).
  rewrite (proj2 (Z.ltb_ge _ _)) by lia.
  change (rd d 0) with (Ok x00). change (rd d 1) with (Ok x00). change (rd d 2) with (Ok x00). change (rd d 3) with (Ok x01).
  change (zlen [x00; x00; x00; x01]) with 4 in *. cbn [mbind res_bind].
  rewrite (bool_decide_eq_true_2 (x00 = x00)) by done. cbn [negb orb]. change (b2z x01 =? 1) with true. cbn iota.
  rewrite (proj2 (Z.ltb_ge _ _)) by lia. rewrite E1. cbn [mbind res_bind]. change (4 + 4) with 8 in *.
  rewrite E2. cbn [mbind res_bind]. change (8 + 1) with 9 in E3. rewrite E3. cbn [mbind res_bind].
  change (Z.to_nat (8 + 2)) with 10%nat in E4. by rewrite E4.
Qed.

Lemma parse_datagram_v6 ip hi lo pl :
  zlen ip = 16 ->
  parse_datagram ([x00; x00; x00; x04] ++ ip ++ [hi; lo] ++ pl) = Ok (Some (pl, fromIPv6 ip (be16 hi lo))).
Proof.
  intros Hip. destruct (block_read [x00; x00; x00; x04] ip hi lo pl 16 Hip) as (E1 & E2 & E3 & E4).
  unfold parse_datagram. set (d := [x00; x00; x00; x04] ++ ip ++ [hi; lo] ++ pl) in *. pose proof (zlen_nonneg pl).
  assert (zlen d = 22 + zlen pl) as -> by (unfold d; rewrite !zlen_app, Hip, !zlen_cons, !zlen_nil; lia).
  rewrite (proj2 (Z.ltb_ge _ _)) by lia.
  change (rd d 0) with (Ok x00). change (rd d 1) with (Ok x00). change (rd d 2) with (Ok x00). change (rd d 3) with (Ok x04).
  change (zlen [x00; x00; x00; x04]) with 4 in *. cbn [mbind res_bind].
  rewrite (bool_decide_eq_true_2 (x00 = x00)) by done. cbn [negb orb].
  change (b2z x04 =? 1) with false. change (b2z x04 =? 3) with false. change (b2z x04 =? 4) with true. cbn iota.
  rewrite (proj2 (Z.ltb_ge _ _)) by lia. rewrite E1. cbn [mbind res_bind]. change (4 + 16) with 20 in *.
  rewrite E2. cbn [mbind res_bind]. change (20 + 1) with 21 in E3. rewrite E3. cbn [mbind res_bind].
  change (Z.to_nat (20 + 2)) with 22%nat in E4. by rewrite E4.
Qed.

Lemma parse_datagram_domain dlen dom hi lo pl :
  zlen dom = b2z dlen ->
  parse_datagram ([x00; x00; x00; x03; dlen] ++ dom ++ [hi; lo] ++ pl) = Ok (Some (pl, fromDomain dom (be16 hi lo))).
Proof.
  intros Hd. pose proof (b2z_range dlen).
  destruct (block_read [x00; x00; x00; x03; dlen] dom hi lo pl _ Hd) as (E1 & E2 & E3 & E4).
  unfold parse_datagram. set (d := [x00; x00; x00; x03; dlen] ++ dom ++ [hi; lo] ++ pl) in *. pose proof (zlen_nonneg pl).
  assert (zlen d = 7 + b2z dlen + zlen pl) as -> by (unfold d; rewrite !zlen_app, Hd, !zlen_cons, !zlen_nil; lia).
  rewrite (proj2 (Z.ltb_ge _ _)) by lia.
  change (rd d 0) with (Ok x00). change (rd d 1) with (Ok x00). change (rd d 2) with (Ok x00). change (rd d 3) with (Ok x03).
  change (rd d 4) with (Ok dlen). change (zlen [x00; x00; x00; x03; dlen]) with 5 in *. cbn [mbind res_bind].
  rewrite (bool_decide_eq_true_2 (x00 = x00)) by done. cbn [negb orb].
  change (b2z x03 =? 1) with false. change (b2z x03 =? 3) with true. cbn iota.
  rewrite (proj2 (Z.ltb_ge _ (4 + 1))) by lia. rewrite (proj2 (Z.ltb_ge _ _)) by lia.
  rewrite E1. cbn [mbind res_bind]. rewrite E2. cbn [mbind res_bind].
  replace (6 + b2z dlen) with (5 + b2z dlen + 1) by lia. rewrite E3. cbn [mbind res_bind].
  replace (7 + b2z dlen) with (5 + b2z dlen + 2) by lia. by rewrite E4.
Qed.

(** Every datagram is either skipped or has one of the three shapes. *)
Lemma parse_datagram_shape d :
  parse_datagram d = Ok None \/
  (exists ip hi lo pl, zlen ip = 4 /\ d = [x00; x00; x00; x01] ++ ip ++ [hi; lo] ++ pl) \/
  (exists dlen dom hi lo pl, zlen dom = b2z dlen /\ d = [x00; x00; x00; x03; dlen] ++ dom ++ [hi; lo] ++ pl) \/
  (exists ip hi lo pl, zlen ip = 16 /\ d = [x00; x00; x00; x04] ++ ip ++ [hi; lo] ++ pl).
Proof.
  destruct (Z.ltb_spec (zlen d) 4) as [Hlt|Hge].
  { left. unfold parse_datagram. by rewrite (proj2 (Z.ltb_lt _ _)) by lia. }
  destruct (datagram_shape d Hge) as (b0 & b1 & b2 & a & body & -> & Hl). unfold parse_datagram.
  rewrite (proj2 (Z.ltb_ge _ 4)) by lia. rewrite Hl. clear Hge Hl.
  change (rd ([b0; b1; b2; a] ++ body) 0) with (Ok b0). change (rd ([b0; b1; b2; a] ++ body) 1) with (Ok b1).
  change (rd ([b0; b1; b2; a] ++ body) 2) with (Ok b2). change (rd ([b0; b1; b2; a] ++ body) 3) with (Ok a).
  cbn [mbind res_bind]. destruct (bool_decide (b0 = x00)) eqn:H0; [|by left].
  destruct (bool_decide (b1 = x00)) eqn:H1; [|by left]. destruct (bool_decide (b2 = x00)) eqn:H2; [|by left].
  apply bool_decide_eq_true in H0, H1, H2. subst b0 b1 b2. cbn [negb orb].
  destruct (Z.eqb_spec (b2z a) 1) as [Ea|Na1].
  { assert (a = x01) as -> by (by apply (inj b2z)). destruct (Z.ltb_spec (4 + zlen body) (4 + 4 + 2)); [by left|].
    right. left. destruct (block_split body 4) as (ip & hi & lo & pl & -> & Hip); [lia..|]. by exists ip, hi, lo, pl. }
  destruct (Z.eqb_spec (b2z a) 3) as [Ea|Na3].
  { assert (a = x03) as -> by (by apply (inj b2z)). destruct (Z.ltb_spec (4 + zlen body) (4 + 1)); [by left|].
    destruct body as [|dlen body]; [rewrite zlen_nil in *; lia|]. rewrite zlen_cons in *. pose proof (b2z_range dlen).
    change (rd ([x00; x00; x00; x03] ++ dlen :: body) 4) with (Ok dlen). cbn [mbind res_bind].
    destruct (Z.ltb_spec (4 + (1 + zlen body)) (5 + b2z dlen + 2)); [by left|]. right. right. left.
    destruct (block_split body (b2z dlen)) as (dom & hi & lo & pl & -> & Hd); [lia..|]. by exists dlen, dom, hi, lo, pl. }
  destruct (Z.eqb_spec (b2z a) 4) as [Ea|Na4]; [|by left].
  assert (a = x04) as -> by (by apply (inj b2z)). destruct (Z.ltb_spec (4 + zlen body) (4 + 16 + 2)); [by left|].
  right. right. right. destruct (block_split body 16) as (ip & hi & lo & pl & -> & Hip); [lia..|]. by exists ip, hi, lo, pl.
Qed.

(** ... and one that is delivered carries a writable target, its payload is the
    rest. *)
Lemma parse_datagram_cases d :
  parse_datagram d = Ok None \/
  exists t pl, wire_ok t /\ d = [x00; x00; x00] ++ wire_target t ++ pl /\ parse_datagram d = Ok (Some (pl, t)).
Proof.
  destruct (parse_datagram_shape d)
    as [E|[(ip & hi & lo & pl & Hip & ->)|[(dlen & dom & hi & lo & pl & Hd & ->)|(ip & hi & lo & pl & Hip & ->)]]];
    [by left|right..]; destruct (wire_be16 hi lo) as [Hw Hr].
  - exists (fromIPv4 ip (be16 hi lo)), pl. split; [|split; [|by apply parse_datagram_v4]].
    + split; [apply fromIPv4_wf; [unfold zlen in Hip; lia|done]|done].
    + unfold wire_target. cbn [type_ fromIPv4 bytes_ port_]. unfold zlen in Hip.
      rewrite Hw, take_app_le, take_take, (take_ge ip) by (rewrite ?length_take; lia). by rewrite <- !app_assoc.
  - exists (fromDomain dom (be16 hi lo)), pl. destruct (len_of_byte dlen dom Hd) as [Hdl Hle].
    split; [split; [by apply fromDomain_wf|done]|]. split; [|by apply parse_datagram_domain].
    unfold wire_target, short_string. cbn [type_ fromDomain domain_ port_]. by rewrite Hw, <- Hdl, <- !app_assoc.
  - exists (fromIPv6 ip (be16 hi lo)), pl. split; [|split; [|by apply parse_datagram_v6]].
    + split; [apply fromIPv6_wf; [unfold zlen in Hip; lia|done]|done].
    + unfold wire_target. cbn [type_ fromIPv6 bytes_ port_]. by rewrite Hw, <- !app_assoc.
Qed.

(** The other way round: a datagram written by RFC 1928 is delivered. *)
Lemma parse_datagram_wire t pl :
  wire_ok t -> parse_datagram ([x00; x00; x00] ++ wire_target t ++ pl) = Ok (Some (pl, t)).
Proof.
  intros [Hwf Hlen]. pose proof Hwf as (Hport & Hbytes & Hshape).
  destruct (be16_wire (port_ t) Hport) as (hi & lo & Hw & Hp). unfold wire_target. rewrite Hw.
  destruct (type_ t) eqn:Et; rewrite <- app_assoc.
  - rewrite (addr_eta_v4 t Hwf Et) at 2. rewrite <- Hp. apply parse_datagram_v4.
    unfold zlen. by rewrite length_take, Hbytes.
  - replace t with (fromIPv6 (bytes_ t) (be16 hi lo)) at 2 by (rewrite Hp; destruct t; cbn in *; by subst).
    apply parse_datagram_v6. unfold zlen. by rewrite Hbytes.
  - transitivity (Ok (Some (pl, fromDomain (domain_ t) (be16 hi lo)))).
    + apply parse_datagram_domain. symmetry. apply byte_of_len. by apply Hlen.
    + rewrite Hp. destruct t. cbn in *. by subst.
Qed.
End Datagrams.

Section Association.
Import Socks5UdpStream.

(** With a pinned client [receiveFrom] gives the next datagram of that client,
    or the error of the socket, or waits. *)
Lemma receive_pinned c dgs : forall st,
  us_open st = true -> client_ep_ st = c -> ep_port c <> 0 ->
  (heard c dgs = [] /\ exists r rest, receiveFrom dgs st = (r, st, rest) /\
     ((r = Pending /\ rest = []) \/ (exists msg, r = Failed (UnavailableError msg)))) \/
  (exists p t rest, receiveFrom dgs st = (Got p t, st, rest) /\
     heard c dgs = (p, t) :: heard c rest /\ (length rest < length dgs)%nat).
Proof.
  induction dgs as [|[[sender d]|msg] dgs IH]; intros st Ho Hc Hp; cbn [receiveFrom]; rewrite Ho; cbn [negb].
  { left. split; [done|]. eexists _, _. split; [done|]. by left. }
  2: { left. split; [done|]. eexists _, _. split; [done|]. right. by exists msg. }
  rewrite Hc, (proj2 (Z.eqb_neq _ _)) by done. cbn [negb andb heard length]. unfold deliverable. cbn [fst snd].
  assert (forall k, (k <= length dgs)%nat -> (k < S (length dgs))%nat) as Hlt by lia.
  destruct (decide (sender = c)) as [->|Hn];
    [rewrite bool_decide_eq_true_2 by done; cbn [negb];
     destruct (parse_datagram_cases d) as [E|(t' & pl & _ & _ & E)]; rewrite E
    |rewrite bool_decide_eq_false_2 by done; cbn [negb]].
  2: { right. exists pl, t', dgs. auto. }
  all: destruct (IH st Ho Hc Hp) as [?|(p & t & rest & Er & En & Hl)]; [by left|];
    right; exists p, t, rest; auto.
Qed.

Lemma drain_pinned c fuel : forall dgs st,
  us_open st = true -> client_ep_ st = c -> ep_port c <> 0 -> (length dgs < fuel)%nat ->
  drain fuel dgs (mkInjected st None) = heard c dgs.
Proof.
  induction fuel as [|fuel IH]; intros dgs st Ho Hc Hp Hf; [lia|]. cbn [drain injected_receive inj_ inner_].
  destruct (receive_pinned c dgs st Ho Hc Hp) as [(-> & r & rest & -> & [[-> _]|[msg ->]])|(p & t & rest & -> & -> & Hl)];
    [done..|].
  f_equal. apply IH; [done..|lia].
Qed.

(** The first datagram pins its sender, even when it is malformed. *)
Lemma receive_first c d dgs :
  ep_port c <> 0 -> receiveFrom (inl (c, d) :: dgs) new = receiveFrom (inl (c, d) :: dgs) (mk true c).
Proof.
  intros Hc. cbn. rewrite (proj2 (Z.eqb_neq _ _)), bool_decide_eq_true_2 by done. done.
Qed.
End Association.

(** ** Properties *)

(** C13. The SOCKS5 conversation is exact: against an arbitrary client the handler
    hands a CONNECT request to the router exactly when the client's bytes are
    an offer of the required method, the configured credentials (when there
    are any), and a CONNECT command; the target is the one in the command, what
    follows is left for the session, and the replies are those of RFC 1928 and
    1929. *)
Theorem socks5_connect_exact cfg udp_bind input spl r p' :
  handleClient cfg udp_bind (peer_of input spl) = (Ok (AcceptConnect r), p') <->
  exists methods rsv t rest, 1 <= zlen methods <= 255 /\ wanted cfg ∈ methods /\ creds_ok cfg /\ wire_ok t /\
    input = client_hello methods ++ auth_part cfg ++ client_request x01 rsv t ++ rest /\
    r = mkRequest (in_tag cfg) (in_protocol cfg) TCP t /\
    p' = mkPeer (mkSock rest spl) [] (server_flight cfg ++ rep_connected).
Proof.
  split.
  - intros (ms & cmd & rsv & t & reply & Hms & Hin & Hcr & Ht & [(-> & [= ->] & ->)|(_ & [=] & _)] & Ex)%handleClient_sound;
      [|done]. apply exchange_new in Ex as (rest & -> & ->). exists ms, rsv, t, rest.
    by rewrite <- !app_assoc.
  - intros (ms & rsv & t & rest & Hms & Hin & Hcr & Ht & -> & -> & ->).
    apply (handleClient_complete cfg udp_bind _ _ _ ms x01 rsv t rep_connected); [done..|by left|].
    apply exchange_new. exists rest. by rewrite <- !app_assoc.
Qed.

(** The two SOCKS5 ends fit together: an outbound with a user name completes
    against an inbound that asks for the same credentials or for none; each
    side's input is exactly what the other sends, and the inbound asks for the
    outbound's target. *)
Theorem socks5_interop cfgI cfgO udp_bind target splI splO :
  out_user cfgO <> [] -> wire_ok target ->
  require_auth cfgI = false \/
    (in_user cfgI = out_user cfgO /\ in_pass cfgI = out_pass cfgO /\
     zlen (out_user cfgO) <= 255 /\ zlen (out_pass cfgO) <= 255) ->
  let to_server := greeting cfgO ++ (if require_auth cfgI then credentials cfgO else []) ++ connect_request target in
  let to_client := server_flight cfgI ++ rep_connected in
  handleClient cfgI udp_bind (peer_of to_server splI)
    = (Ok (AcceptConnect (mkRequest (in_tag cfgI) (in_protocol cfgI) TCP target)), mkPeer (mkSock [] splI) [] to_client) /\
  socks5_connect cfgO target (peer_of to_client splO) = (Ok tt, mkPeer (mkSock [] splO) [] to_server).
Proof.
  intros Hu Ht Hauth to_server to_client. split.
  - apply (handleClient_complete cfgI udp_bind _ _ _ [x00; x02] x01 x00 target rep_connected); [done|done| | |done|by left|].
    + unfold wanted. destruct (require_auth cfgI); set_solver.
    + intros Hr. destruct Hauth as [|(-> & -> & ?)]; [congruence|done].
    + apply exchange_new. exists []. split; [|done]. rewrite app_nil_r. unfold to_server, auth_part.
      rewrite greeting_auth, connect_request_wire by done. destruct (require_auth cfgI) eqn:Hr; [|done].
      destruct Hauth as [|(-> & -> & ? & ?)]; [done|]. by rewrite credentials_wire.
  - apply (socks5_connect_complete cfgO target (require_auth cfgI)); [done|]. apply exchange_new. exists [].
    split; [|done]. rewrite app_nil_r. unfold to_client, server_flight, wanted. by rewrite <- app_assoc.
Qed.

(** What the greeting without credentials does: it announces two methods but
    carries one, so an inbound of this program waits for a byte the outbound
    does not send: having exchanged nothing but the greeting, both wait. *)
Theorem socks5_noauth_greeting_stalls cfgI cfgO udp_bind target splI splO :
  out_user cfgO = [] ->
  let greet := p_out (snd (socks5_connect cfgO target (peer_of [] splO))) in
  let answer := p_out (snd (handleClient cfgI udp_bind (peer_of greet splI))) in
  greet = [x05; x02; x00] /\ answer = [].
Proof.
  intros Hu. cbn zeta. assert (p_out (snd (socks5_connect cfgO target (peer_of [] splO))) = [x05; x02; x00]) as E.
  { unfold socks5_connect, greeting, use_auth. by rewrite Hu. }
  rewrite E. by split.
Qed.

(** What the outbound sends for a name of more than 255 bytes: the length
    says 255 but the whole name follows, so the server connects to the name's
    first 255 bytes on a port read from the next two, and takes the rest of the
    name and the real port for data. *)
Theorem socks5_long_name_misread cfgI cfgO udp_bind name hi lo more port spl :
  out_user cfgO <> [] -> require_auth cfgI = false -> zlen name = 255 ->
  let sent := greeting cfgO ++ connect_request (fromDomain (name ++ hi :: lo :: more) port) in
  exists p', handleClient cfgI udp_bind (peer_of sent spl)
    = (Ok (AcceptConnect (mkRequest (in_tag cfgI) (in_protocol cfgI) TCP (fromDomain name (be16 hi lo)))), p') /\
    p_in p' = more ++ [z2b (Z.shiftr port 8); z2b (Z.land port 255)].
Proof.
  intros Hu Ha Hn sent. set (rest := more ++ [z2b (Z.shiftr port 8); z2b (Z.land port 255)]).
  destruct (wire_be16 hi lo) as [Hw Hr].
  assert (connect_request (fromDomain (name ++ hi :: lo :: more) port)
          = client_request x01 x00 (fromDomain name (be16 hi lo)) ++ rest) as Ec.
  { unfold connect_request, client_request, wire_target, short_string, rest.
    cbn [fromDomain type_ domain_ port_]. rewrite Hw, Hn, !zlen_app, !zlen_cons, Hn. pose proof (zlen_nonneg more).
    rewrite Z.min_l by lia. change (u8 255) with 255. cbn [app]. rewrite <- !app_assoc. cbn [app]. done. }
  exists (mkPeer (mkSock rest spl) [] (server_flight cfgI ++ rep_connected)). split; [|done].
  apply (handleClient_complete cfgI udp_bind _ _ _ [x00; x02] x01 x00 (fromDomain name (be16 hi lo)) rep_connected);
    [done|done| | | |by left|].
  - unfold wanted. rewrite Ha. by left.
  - intros Ht. congruence.
  - split; [by apply fromDomain_wf|]. intros _. cbn. lia.
  - apply exchange_new. exists rest. split; [|done]. unfold sent, auth_part. rewrite greeting_auth, Ec, Ha by done.
    by rewrite app_nil_l, <- app_assoc.
Qed.

(** UDP associations deliver exactly the client's datagrams: the sender of the
    first datagram is the only one heard; the first well-formed datagram picks
    the route and is not lost; and the outbound receives, in order and each
    once, precisely that client's well-formed datagrams, up to the first error
    of the socket. *)
Theorem udp_association_exact cfg c d (dgs : list Arrival) fuel :
  ep_port c <> 0 -> (length dgs + 2 <= fuel)%nat ->
  let delivered := heard c (inl (c, d) :: dgs) in
  match udp_associate cfg (inl (c, d) :: dgs) with
  | None => delivered = []
  | Some (req, st, rest) =>
      drain fuel rest st = delivered /\ exists p, head delivered = Some (p, req_target req)
  end.
Proof.
  intros Hc Hf delivered. unfold udp_associate. rewrite receive_first by done.
  destruct (receive_pinned c (inl (c, d) :: dgs) (Socks5UdpStream.mk true c) eq_refl eq_refl Hc)
    as [(E & r & rest & -> & [[-> _]|[msg ->]])|(p & t & rest & -> & E & Hl)]; [done..|].
  unfold delivered. rewrite E. split; [|by exists p].
  destruct fuel as [|fuel]; [lia|]. cbn [drain injected_receive inj_ inner_]. f_equal.
  apply drain_pinned; [done..|]. cbn in Hl. lia.
Qed.

(** Well-formed is RFC 1928: a datagram is delivered with a payload and a
    target exactly when it is three zero bytes, the target's wire form and the
    payload; everything else is skipped, and no read leaves the datagram. *)
Theorem parse_datagram_exact d :
  (exists o, Socks5UdpStream.parse_datagram d = Ok o) /\
  forall pl t, Socks5UdpStream.parse_datagram d = Ok (Some (pl, t)) <->
    wire_ok t /\ d = [x00; x00; x00] ++ wire_target t ++ pl.
Proof.
  split; [destruct (parse_datagram_cases d) as [?|(t & pl & _ & _ & ?)]; eauto|].
  intros pl t. split; [|intros [? ->]; by apply parse_datagram_wire].
  intros E. destruct (parse_datagram_cases d) as [E'|(t' & pl' & Ht & Hd & E')]; rewrite E' in E; [done|].
  by injection E as <- <-.
Qed.

(** What the reply datagrams carry: their header is the binary address of the
    shine protocol, not of SOCKS5; read as SOCKS5, a datagram from an IPv4 host
    names another host (and loses a byte of port into the payload), and one
    from an IPv6 host is malformed. *)
Theorem udp_reply_misencoded data st a b c d port hi lo ip6 :
  Socks5UdpStream.us_open st = true -> wire_port port = [hi; lo] -> zlen ip6 = 16 ->
  (exists dg, Socks5UdpStream.sendTo data (fromIPv4 [a; b; c; d] port) st = Ok (Socks5UdpStream.client_ep_ st, dg) /\
     Socks5UdpStream.parse_datagram dg = Ok (Some (lo :: data, fromIPv4 [x04; a; b; c] (be16 d hi)))) /\
  (exists dg, Socks5UdpStream.sendTo data (fromIPv6 ip6 port) st = Ok (Socks5UdpStream.client_ep_ st, dg) /\
     Socks5UdpStream.parse_datagram dg = Ok None).
Proof.
  intros Ho Hp H6. unfold Socks5UdpStream.sendTo. rewrite Ho. cbn [negb]. unfold wire_port in Hp.
  split; eexists; (split; [done|]); unfold toBinary; cbn [type_ fromIPv4 fromIPv6 port_ bytes_ bin_src bin_len]; rewrite Hp.
  - exact (parse_datagram_v4 [x04; a; b; c] d hi (lo :: data) eq_refl).
  - match goal with |- Socks5UdpStream.parse_datagram ?x = _ => set (dg := x) end.
    unfold Socks5UdpStream.parse_datagram. pose proof (zlen_nonneg data).
    assert (4 <= zlen dg) by (unfold dg; rewrite !zlen_app, !zlen_cons, ?zlen_nil; pose proof (zlen_nonneg (slice ip6 0 16)); lia).
    rewrite (proj2 (Z.ltb_ge _ _)) by done. done.
Qed.

(** ** Witnesses *)

Definition sample_in : InboundConfig :=
  mkInbound (lit "in") (lit "socks5") (lit "127.0.0.1:1080") [] 0 0 0 0 0 (lit "user") (lit "secret").
Definition sample_out (user : bytes) : OutboundConfig :=
  mkOutbound (lit "up") (lit "socks5") (lit "10.0.0.1:1080") [] 1 0 0 0 0 user (lit "secret").
Definition sample_target : Address := fromDomain (lit "example.org") 443.
Definition sample_udp : Endpoint := mkEndpoint [x7f; x00; x00; x01] 5000.
Definition sample_datagram : bytes := [x00; x00; x00] ++ wire_target sample_target ++ lit "hi".

Example handleClient_ex :
  fst (handleClient sample_in None
         (peer_of (client_hello [x00; x02] ++ client_auth (lit "user") (lit "wrong")) [])) = Err (UnavailableError []).
Proof. reflexivity. Qed.

Lemma socks5_interop_witness :
  fst (handleClient sample_in None
         (peer_of (greeting (sample_out (lit "user")) ++ credentials (sample_out (lit "user")) ++ connect_request sample_target) [2]))
  = Ok (AcceptConnect (mkRequest (lit "in") (lit "socks5") TCP sample_target)).
Proof.
  destruct (socks5_interop sample_in (sample_out (lit "user")) None sample_target [2] [3]) as [E _];
    [done|by vm_compute|right; by vm_compute|].
  exact (f_equal fst E).
Defined.

Lemma socks5_noauth_greeting_stalls_witness :
  p_out (snd (socks5_connect (sample_out []) sample_target (peer_of [] []))) = [x05; x02; x00].
Proof. apply (socks5_noauth_greeting_stalls sample_in (sample_out []) None sample_target [] []). reflexivity. Defined.

Definition open_in : InboundConfig :=
  mkInbound (lit "in") (lit "socks5") (lit "127.0.0.1:1080") [] 0 0 0 0 0 [] [].
Definition long_name : bytes := replicate 255 "a"%byte ++ [x00; x50; x2e; x63].

Lemma socks5_long_name_misread_witness :
  exists p', handleClient open_in None
      (peer_of (greeting (sample_out (lit "user")) ++ connect_request (fromDomain long_name 443)) [])
    = (Ok (AcceptConnect (mkRequest (lit "in") (lit "socks5") TCP (fromDomain (replicate 255 "a"%byte) 80))), p').
Proof.
  destruct (socks5_long_name_misread open_in (sample_out (lit "user")) None (replicate 255 "a"%byte) x00 x50 [x2e; x63] 443 [])
    as (p' & E & _); [done|done|done|]. by exists p'.
Defined.

Lemma udp_association_exact_witness :
  match udp_associate sample_in [inl (sample_udp, sample_datagram); inl (mkEndpoint [] 9, sample_datagram); inr (lit "down")] with
  | None => False
  | Some (req, st, rest) => drain 5 rest st = [(lit "hi", sample_target)]
  end.
Proof.
  pose proof (udp_association_exact sample_in sample_udp sample_datagram [inl (mkEndpoint [] 9, sample_datagram); inr (lit "down")] 5) as H.
  cbv zeta in H. destruct (udp_associate _ _) as [[[req st] rest]|] eqn:E; [|by vm_compute in E].
  destruct H as [H _]; [done|cbn; lia|]. rewrite H. by vm_compute.
Defined.

Lemma udp_reply_misencoded_witness :
  exists dg, Socks5UdpStream.sendTo (lit "pong") (fromIPv4 [x01; x02; x03; x04] 53) (Socks5UdpStream.mk true sample_udp)
             = Ok (sample_udp, dg) /\
    Socks5UdpStream.parse_datagram dg = Ok (Some (x35 :: lit "pong", fromIPv4 [x04; x01; x02; x03] 1024)).
Proof.
  apply (udp_reply_misencoded (lit "pong") (Socks5UdpStream.mk true sample_udp) x01 x02 x03 x04 53 x00 x35
           (replicate 16 x00)); reflexivity.
Defined.
