(* ===== verification/HttpConnect.v ===== *)
(** * HTTP CONNECT (src/inbound/http_connect_inbound.cpp, src/outbound/http_connect_outbound.cpp)

    The inbound reads a request header, takes the target from its first line and
    answers; the outbound sends such a header and reads the status line.  Both
    read with [async_read_until]; what the [streambuf] holds beyond the first
    line goes away with it. *)
From S2P Require Import Prelude Absl Address Request Socket Config.
From Stdlib Require Import Strings.Byte.

(** [absl::Base64Escape]. *)
Class Base64 := Base64Escape : bytes -> bytes.

Definition crlf : bytes := [x0d; x0a].
Definition header_end : bytes := [x0d; x0a; x0d; x0a].
Definition sp : byte := x20.

(** [std::getline(is, line)]. *)
Definition getline (buf : bytes) : bytes :=
  match sv_find buf x0a with Some i => slice buf 0 i | None => buf end.
(** [if (!s.empty() && s.back() == '\r') s.pop_back()] *)
Definition pop_cr (s : bytes) : bytes :=
  match rev s with b :: r => if decide (b = x0d) then rev r else s | [] => s end.

Section Http.
Context `{AbslOps, BoostIp, ReadUntil, Base64}.

(** [async_read_until(sock, sb, "\r\n\r\n")]: the contents of [sb]. *)
Definition read_header : Io bytes := fun p =>
  match async_read_until header_end (p_sock p) with
  | None => (Err (UnavailableError eof_message), mkPeer (mkSock [] (splits (p_sock p))) (p_writes p) (p_out p))
  | Some (buf, sk) => (Ok buf, mkPeer sk (p_writes p) (p_out p))
  end.

(** ** Inbound *)

Definition rep_405 : bytes := lit "HTTP/1.1 405 Method Not Allowed" ++ header_end.
Definition rep_400 : bytes := lit "HTTP/1.1 400 Bad Request" ++ header_end.
Definition rep_200 : bytes := lit "HTTP/1.1 200 Connection Established" ++ header_end.

(** The answer is written, whatever becomes of the write, and the client
    dropped. *)
Definition reject (rep : bytes) {A} : Io A := fun p =>
  match writeAll rep p with (_, p') => drop_client p' end.

Definition answer (cfg : InboundConfig) (request_line : bytes) : Io Request :=
  match StrSplit request_line sp with
  | method :: host :: _ =>
      if decide (method = lit "CONNECT") then
        match parseHostPort host with
        | UB => io_ub
        | Err _ => reject rep_400
        | Ok target =>
            _ ← writeAll rep_200;
            mret (mkRequest (in_tag cfg) (in_protocol cfg) TCP target)
        end
      else reject rep_405
  | _ => reject rep_405
  end.

Definition handleClient (cfg : InboundConfig) : Io Request :=
  sb ← read_header; answer cfg (pop_cr (getline sb)).

(** ** Outbound *)

Definition connect_header (cfg : OutboundConfig) (target : Address) : bytes :=
  let host_port := toString target in
  let reqline := lit "CONNECT " ++ host_port ++ lit " HTTP/1.1" ++ crlf ++ lit "Host: " ++ host_port ++ crlf in
  let auth :=
    if bool_decide (out_user cfg = []) then []
    else lit "Proxy-Authorization: Basic " ++ Base64Escape (out_user cfg ++ lit ":" ++ out_pass cfg) ++ crlf in
  reqline ++ auth ++ crlf.

(** [HttpConnectOutbound::handle] from the request to the start of the copy. *)
Definition http_connect (cfg : OutboundConfig) (target : Address) : Io unit :=
  _ ← writeAll (connect_header cfg target);
  sb ← read_header;
  let status := getline sb in
  if occursb (lit " 200 ") status then mret tt
  else io_fail (UnavailableError (lit "http connect failed: " ++ status)).
End Http.

(** ** The first line *)

Section Lines.

Lemma getline_app l r : x0a ∉ l -> getline (l ++ x0a :: r) = l.
Proof. intros Hl. unfold getline. rewrite sv_find_app by done. by apply slice_0_app. Qed.

(** A part of a stream that has a newline has the stream's first line. *)
Lemma getline_prefix buf rest : x0a ∈ buf -> getline (buf ++ rest) = getline buf.
Proof.
  intros Hin. assert (exists l r, buf = l ++ x0a :: r /\ x0a ∉ l) as (l & r & -> & Hl).
  { clear rest. induction buf as [|b buf IH]; [by apply elem_of_nil in Hin|].
    destruct (decide (b = x0a)) as [->|Hb]; [exists [], buf; split; [done|by apply not_elem_of_nil]|].
    apply elem_of_cons in Hin as [|Hin]; [by subst|]. destruct (IH Hin) as (l & r & -> & Hl).
    exists (b :: l), r. split; [done|]. apply not_elem_of_cons. auto. }
  rewrite <- app_assoc. cbn [app]. by rewrite !getline_app.
Qed.

Lemma occurs_header_newline buf : occurs header_end buf -> x0a ∈ buf.
Proof. intros (a & b & ->). apply elem_of_app. right. apply elem_of_app. left. right. left. Qed.

Lemma pop_cr_app s : pop_cr (s ++ [x0d]) = s.
Proof. unfold pop_cr. rewrite rev_app_distr. cbn [rev app]. rewrite decide_True by done. apply rev_involutive. Qed.
End Lines.

Section HttpFacts.
Context `{AbslOps, !AbslSpec, BoostIp, !BoostIpSpec, ReadUntil, !ReadUntilSpec, Base64}.
Implicit Types p : Peer.

Lemma read_header_iff p buf p' :
  read_header p = (Ok buf, p') <->
  async_read_until header_end (p_sock p) = Some (buf, p_sock p') /\ p_writes p' = p_writes p /\ p_out p' = p_out p.
Proof.
  unfold read_header. destruct (async_read_until _ _) as [[b sk]|].
  - destruct p'. cbn. split; [by intros [= <- <- <- <-]|]. by intros ([= <- <-] & -> & ->).
  - split; [done|]. by intros ([=] & _).
Qed.

(** The tokens of a line whose first two pieces are given. *)
Definition line_of (method host more : bytes) : bytes := method ++ sp :: host ++ more.
Definition tail_ok (more : bytes) : Prop := more = [] \/ exists r, more = sp :: r.

Lemma split_line_iff line method host :
  (exists more, StrSplit line sp = method :: host :: more) <->
  sp ∉ method /\ sp ∉ host /\ exists more, tail_ok more /\ line = line_of method host more.
Proof.
  split.
  - intros [ps Es]. pose proof (split_pieces line sp) as Hp. pose proof (split_join line sp) as Hj. rewrite Es in Hp, Hj.
    apply Forall_cons in Hp as [Hm Hp]. apply Forall_cons in Hp as [Hh _]. split; [done|]. split; [done|].
    destruct ps as [|q ps].
    + exists []. split; [by left|]. rewrite <- Hj. cbn [join]. unfold line_of. by rewrite app_nil_r.
    + exists (sp :: join sp (q :: ps)). split; [right; by eexists|]. by rewrite <- Hj.
  - intros (Hm & Hh & more & Hmore & ->). destruct Hmore as [->|[r ->]].
    + exists []. apply (split_unique _ sp [method; host]); [done|by repeat constructor|].
      unfold line_of. by rewrite app_nil_r.
    + exists (StrSplit r sp). apply (split_unique _ sp (method :: host :: StrSplit r sp)); [done| |].
      * constructor; [done|]. constructor; [done|]. apply split_pieces.
      * pose proof (split_nonempty r sp). destruct (StrSplit r sp) as [|q qs] eqn:E; [done|].
        pose proof (split_join r sp) as Hj. rewrite E in Hj. unfold line_of. rewrite <- Hj. done.
Qed.

Lemma reject_not_ok {A} rep p (a : A) p' : reject rep p <> (Ok a, p').
Proof. unfold reject. by destruct (writeAll rep p). Qed.

Lemma reject_out {A} rep p :
  healthy p -> exists p', reject rep p = (Err (UnavailableError []) : res A, p') /\ exchange p [] rep p'.
Proof.
  intros Hh. destruct (exchange_make p [] rep (p_in p) eq_refl) as (p' & Ex & _). exists p'. split; [|done].
  unfold reject. by rewrite (proj2 (writeAll_iff rep p tt p' Hh) Ex).
Qed.

Definition not_newline (b : byte) : bool := negb (b2z b =? 10).
Definition is_letter (b : byte) : bool := 65 <=? b2z b.

(** The line asks for a tunnel to [host]. *)
Definition connect_line (line host : bytes) : Prop :=
  sp ∉ host /\ exists more, tail_ok more /\ line = line_of (lit "CONNECT") host more.

Lemma connect_line_split line host : connect_line line host <-> exists more, StrSplit line sp = lit "CONNECT" :: host :: more.
Proof.
  rewrite split_line_iff. unfold connect_line. split; [|by intros (_ & ? & ?)].
  intros (Hh & Hm). split; [|by split]. by apply (not_in_forallb is_letter).
Qed.

(** What is accepted, on the request line. *)
Definition asks_for (line : bytes) (t : Address) : Prop :=
  exists host, connect_line line host /\ parseHostPort host = Ok t.

(** The answer, on every line. *)
Lemma answer_cases cfg line p :
  healthy p ->
  match answer cfg line p with
  | (Ok r, p') =>
      (exists t, asks_for line t /\ r = mkRequest (in_tag cfg) (in_protocol cfg) TCP t) /\ exchange p [] rep_200 p'
  | (Err _, p') =>
      (forall host, ~ connect_line line host) /\ exchange p [] rep_405 p' \/
      (exists host st, connect_line line host /\ parseHostPort host = Err st) /\ exchange p [] rep_400 p'
  | (UB, _) => exists host, connect_line line host /\ parseHostPort host = UB
  end.
Proof.
  intros Hh. pose proof (fun h => connect_line_split line h) as Hc. unfold answer.
  destruct (@reject_out Request rep_405 p Hh) as (p405 & R405 & X405).
  destruct (@reject_out Request rep_400 p Hh) as (p400 & R400 & X400).
  destruct (exchange_make p [] rep_200 (p_in p) eq_refl) as (p200 & X200 & _).
  destruct (StrSplit line sp) as [|m [|h ps]] eqn:Es.
  1, 2: rewrite R405; left; split; [|done]; intros h (? & ?)%Hc; done.
  case_decide as Em; [subst m|].
  2: { rewrite R405. left. split; [|done]. intros h' (? & [= E _ _])%Hc. done. }
  destruct (parseHostPort h) as [t|st|] eqn:Ep.
  - rewrite (io_bind_ok _ _ _ _ _ (proj2 (writeAll_iff rep_200 p tt p200 Hh) X200)). cbn.
    split; [|done]. exists t. split; [|done]. exists h. split; [apply Hc; eauto|done].
  - rewrite R400. right. split; [|done]. exists h, st. split; [apply Hc; eauto|done].
  - cbn. exists h. split; [apply Hc; eauto|done].
Qed.

Lemma read_header_input input spl buf p' :
  read_header (peer_of input spl) = (Ok buf, p') ->
  input = buf ++ p_in p' /\ getline buf = getline input /\ healthy p' /\ p_out p' = [] /\ occurs header_end input.
Proof.
  intros (E & Hw & Ho)%read_header_iff. apply read_until_some in E as [E Hocc]. cbn [stream p_sock peer_of] in E.
  unfold p_in. split; [done|]. split; [|split; [done|split; [done|]]].
  - rewrite E. symmetry. apply getline_prefix. by apply occurs_header_newline.
  - destruct Hocc as (a & b & ->). exists a, (b ++ stream (p_sock p')). rewrite E, <- !app_assoc. done.
Qed.

Lemma read_header_complete input spl :
  occurs header_end input -> exists buf p', read_header (peer_of input spl) = (Ok buf, p').
Proof.
  intros Ho. destruct (read_until_complete header_end (mkSock input spl) Ho) as [[buf sk] E].
  exists buf, (mkPeer sk [] []). apply read_header_iff. done.
Qed.

(** C14. The HTTP CONNECT inbound, on every input: a header that never ends is
    dropped without an answer; a first line that is not a CONNECT is answered 405,
    one whose host does not parse 400, and only a line that asks for a tunnel
    to an address is answered 200 and handed on with exactly that address; nothing
    outside the input is ever read. *)
Theorem http_connect_exact cfg input spl :
  let line := pop_cr (getline input) in
  match handleClient cfg (peer_of input spl) with
  | (Ok r, p') =>
      occurs header_end input /\ p_out p' = rep_200 /\
      exists t, asks_for line t /\ r = mkRequest (in_tag cfg) (in_protocol cfg) TCP t
  | (Err _, p') =>
      ~ occurs header_end input /\ p_out p' = [] \/
      occurs header_end input /\
        ((forall host, ~ connect_line line host) /\ p_out p' = rep_405 \/
         (exists host st, connect_line line host /\ parseHostPort host = Err st) /\ p_out p' = rep_400)
  | (UB, _) => False
  end.
Proof.
  intros line. unfold handleClient. destruct (decide (occursb header_end input = true)) as [Ho|Ho];
    rewrite occursb_spec in Ho.
  - destruct (read_header_complete input spl Ho) as (buf & p1 & Er).
    pose proof (read_header_input _ _ _ _ Er) as (_ & Hg & Hh & Hout & _).
    rewrite (io_bind_ok _ _ _ _ _ Er), Hg. fold line. pose proof (answer_cases cfg line p1 Hh) as Ha.
    destruct (answer cfg line p1) as [[r|st|] p'].
    + destruct Ha as (Ht & (_ & Ex & _)). rewrite Ex, Hout. done.
    + right. split; [done|].
      destruct Ha as [(Hn & (_ & Ex & _))|(Hn & (_ & Ex & _))]; rewrite Ex, Hout; [by left|by right].
    + destruct Ha as (host & _ & E). pose proof (parseHostPort_result host) as Hr. by rewrite E in Hr.
  - destruct (read_header (peer_of input spl)) as [[buf|st|] p1] eqn:Er.
    + by apply read_header_input in Er as (_ & _ & _ & _ & ?).
    + rewrite (io_bind_err _ _ _ _ _ Er). left. split; [done|]. revert Er. unfold read_header.
      destruct (async_read_until _ _) as [[??]|]; intros [= _ <-]; done.
    + revert Er. unfold read_header. by destruct (async_read_until _ _) as [[??]|].
Qed.

(** The characters a name may have without breaking the request line. *)
Definition line_char (b : byte) : bool := negb (b2z b =? 10) && negb (b2z b =? 32).

Lemma line_char_host b : host_char b = true -> line_char b = true.
Proof.
  unfold host_char, line_char, is_digit, v6_char. intros Hb.
  destruct (Z.eqb_spec (b2z b) 10) as [E|]; [by rewrite E in Hb|].
  by destruct (Z.eqb_spec (b2z b) 32) as [E|]; [rewrite E in Hb|].
Qed.

Lemma toString_line target :
  addr_wf target -> forallb line_char (domain_ target) = true -> x0a ∉ toString target /\ sp ∉ toString target.
Proof.
  intros (Hp & Hb & _) Hd.
  assert (forallb line_char (toString target) = true) as Hall
    by (apply toString_chars; [done|lia|apply line_char_host|done]).
  split; (eapply not_in_forallb; [|exact Hall]; done).
Qed.

(** The request line of the outbound. *)
Lemma connect_header_line cfg target :
  x0a ∉ toString target ->
  occurs header_end (connect_header cfg target) /\
  pop_cr (getline (connect_header cfg target)) = line_of (lit "CONNECT") (toString target) (lit " HTTP/1.1").
Proof.
  intros Hn. set (line := line_of (lit "CONNECT") (toString target) (lit " HTTP/1.1")). split.
  - assert (forall x, occurs header_end ((x ++ crlf) ++ crlf)) as Hx.
    { intros x. exists x, []. rewrite <- app_assoc, app_nil_r. done. }
    unfold connect_header. generalize (lit "CONNECT ") (lit " HTTP/1.1") (lit "Host: ") (lit "Proxy-Authorization: Basic ").
    intros c v hst pa. cbv zeta. case_bool_decide.
    + rewrite app_nil_l, !app_assoc. apply Hx.
    + generalize (Base64Escape (out_user cfg ++ lit ":" ++ out_pass cfg)) as b64. intros b64.
      rewrite !app_assoc. exact (Hx _).
  - assert (exists r, connect_header cfg target = (line ++ [x0d]) ++ x0a :: r) as [r ->].
    { eexists. unfold connect_header, line, line_of, crlf. rewrite <- !app_assoc.
      change (lit "CONNECT ") with (lit "CONNECT" ++ [sp]). rewrite <- !app_assoc. cbn [app]. rewrite <- !app_assoc. cbn [app]. reflexivity. }
    rewrite getline_app; [apply pop_cr_app|]. unfold line, line_of. rewrite !not_elem_of_app, not_elem_of_cons, not_elem_of_app.
    split; [|by apply not_elem_of_cons; split; [|apply not_elem_of_nil]].
    split; [by apply (not_in_forallb not_newline)|]. split; [done|]. split; [done|]. by apply (not_in_forallb not_newline).
Qed.

(** The two HTTP CONNECT ends fit together: the inbound takes the target the
    outbound was given out of its header, whatever credentials that carries, and
    the outbound takes the inbound's answer for a success. *)
Theorem http_interop cfgI cfgO target splI splO :
  addr_wf target -> addr_printable target -> 1 <= port_ target -> zlen (v6_to_string (bytes_ target)) < 2 ^ 62 ->
  forallb line_char (domain_ target) = true ->
  (exists p', handleClient cfgI (peer_of (connect_header cfgO target) splI)
      = (Ok (mkRequest (in_tag cfgI) (in_protocol cfgI) TCP target), p') /\ p_out p' = rep_200) /\
  (exists p', http_connect cfgO target (peer_of rep_200 splO) = (Ok tt, p') /\ p_out p' = connect_header cfgO target).
Proof.
  intros Hwf Hpr Hp Hz Hd. destruct (toString_line target Hwf Hd) as [Hnl Hsp].
  destruct (connect_header_line cfgO target Hnl) as [Ho Hl]. split.
  - unfold handleClient. destruct (read_header_complete _ splI Ho) as (buf & p1 & Er).
    pose proof (read_header_input _ _ _ _ Er) as (_ & Hg & Hh & Hout & _).
    rewrite (io_bind_ok _ _ _ _ _ Er), Hg, Hl. unfold answer.
    destruct (proj1 (connect_line_split (line_of (lit "CONNECT") (toString target) (lit " HTTP/1.1")) (toString target)))
      as [more ->].
    { split; [done|]. eexists. split; [|done]. right. by exists (lit "HTTP/1.1"). }
    rewrite decide_True, parseHostPort_toString by done.
    destruct (exchange_make p1 [] rep_200 (p_in p1) eq_refl) as (p' & Ex & _). exists p'.
    rewrite (io_bind_ok _ _ _ _ _ (proj2 (writeAll_iff rep_200 p1 tt p' Hh) Ex)). split; [done|].
    destruct Ex as (_ & -> & _). by rewrite Hout.
  - unfold http_connect. set (hd := connect_header cfgO target).
    assert (occurs header_end rep_200) as Hr by (by exists (lit "HTTP/1.1 200 Connection Established"), []).
    destruct (read_until_complete header_end (mkSock rep_200 splO) Hr) as [[buf sk] Eru].
    pose proof (read_until_some _ _ _ _ Eru) as [Es Hocc]. exists (mkPeer sk [] hd). split; [|done].
    assert (writeAll hd (peer_of rep_200 splO) = (Ok tt, mkPeer (mkSock rep_200 splO) [] hd)) as Ew by done.
    rewrite (io_bind_ok _ _ _ _ _ Ew).
    assert (read_header (mkPeer (mkSock rep_200 splO) [] hd) = (Ok buf, mkPeer sk [] hd)) as Er
      by (apply read_header_iff; done).
    rewrite (io_bind_ok _ _ _ _ _ Er).
    assert (getline buf = getline rep_200) as ->.
    { cbn [stream] in Es. rewrite Es. symmetry. apply getline_prefix. by apply occurs_header_newline. }
    done.
Qed.
End HttpFacts.

(** ** Bytes behind a header *)

(** What the first read takes when it is not cut short. *)
Lemma reference_read_all input :
  zlen input <= 512 -> occurs header_end input -> reference_read_until header_end (mkSock input []) = Some (input, mkSock [] []).
Proof.
  intros Hl Ho. unfold reference_read_until. cbn [stream]. destruct input as [|b input].
  { destruct Ho as (x & y & E). by destruct x. }
  cbn [length ru_loop]. destruct (occursb header_end []) eqn:E0; [done|].
  unfold sock_read_some. cbn [stream splits]. rewrite Z.min_r by lia.
  rewrite zlen_to_nat, take_ge, drop_ge, bool_decide_eq_false_2, app_nil_l by done.
  apply occursb_spec in Ho. destruct (length input); cbn [ru_loop]; by rewrite Ho.
Qed.

(** What is lost: whatever a client sends right behind its header, and a
    server right behind its answer, is read with it and not handed on when it
    arrives in one piece. *)
Theorem http_early_data_lost `{AbslOps, !AbslSpec, BoostIp, Base64} cfgI cfgO target hd ans early :
  let reader := reference_read_until in
  occurs header_end hd -> occurs header_end ans -> zlen hd <= 256 -> zlen ans <= 256 -> zlen early <= 256 ->
  (forall r p', handleClient cfgI (peer_of (hd ++ early) []) = (Ok r, p') -> p_in p' = []) /\
  (forall p', http_connect cfgO target (peer_of (ans ++ early) []) = (Ok tt, p') -> p_in p' = []).
Proof.
  intros reader Hhd Hans L1 L2 L3.
  assert (forall x, occurs header_end x -> occurs header_end (x ++ early)) as Hocc.
  { intros x (u & v & ->). exists u, (v ++ early). by rewrite <- !app_assoc. }
  assert (forall x w, occurs header_end x -> zlen x <= 256 ->
    read_header (mkPeer (mkSock (x ++ early) []) [] w) = (Ok (x ++ early), mkPeer (mkSock [] []) [] w)) as Hr.
  { intros x w Hx Lx. apply read_header_iff. split; [|done].
    apply reference_read_all; [rewrite zlen_app; lia|auto]. }
  split.
  - intros r p'. unfold handleClient, peer_of. rewrite (io_bind_ok _ _ _ _ _ (Hr hd [] Hhd L1)).
    pose proof (answer_cases cfgI (pop_cr (getline (hd ++ early))) (mkPeer (mkSock [] []) [] []) eq_refl) as Ha.
    intros E. rewrite E in Ha. destruct Ha as (_ & (Ei & _)). by rewrite app_nil_l in Ei.
  - intros p'. unfold http_connect, peer_of. set (h := connect_header cfgO target).
    assert (writeAll h (mkPeer (mkSock (ans ++ early) []) [] []) = (Ok tt, mkPeer (mkSock (ans ++ early) []) [] h)) as Ew by done.
    rewrite (io_bind_ok _ _ _ _ _ Ew), (io_bind_ok _ _ _ _ _ (Hr ans h Hans L2)).
    destruct (occursb _ _); [|done]. by intros [= <-].
Qed.

(** ** Witnesses *)

#[local] Existing Instance reference_absl.
#[local] Existing Instance full_form_boost.
#[local] Existing Instance reference_read_until.
#[local] Existing Instance reference_read_until_spec.
#[local] Instance sample_base64 : Base64 := fun s => s.

Definition sample_http : InboundConfig :=
  mkInbound (lit "web") (lit "http-connect") (lit "127.0.0.1:8080") [] 0 0 0 0 0 [] [].
Definition sample_up : OutboundConfig :=
  mkOutbound (lit "up") (lit "http-connect") (lit "10.0.0.1:8080") [] 1 0 0 0 0 (lit "user") (lit "secret").
Definition sample_host : Address := fromDomain (lit "example.org") 443.

Example handleClient_get_ex :
  p_out (snd (handleClient sample_http (peer_of (lit "GET / HTTP/1.1" ++ header_end) [1; 1; 3]))) = rep_405.
Proof. by vm_compute. Qed.

Lemma http_connect_exact_witness :
  p_out (snd (handleClient sample_http (peer_of (lit "CONNECT nowhere HTTP/1.1" ++ header_end) [4]))) = rep_400.
Proof.
  pose proof (http_connect_exact sample_http (lit "CONNECT nowhere HTTP/1.1" ++ header_end) [4]) as E.
  cbv zeta in E. destruct (handleClient _ _) as [[r|st|] p'] eqn:Eh.
  - by vm_compute in Eh.
  - destruct E as [[_ E]|(_ & [[E _]|[_ E]])]; [| |done].
    + exfalso. assert (p_out p' = rep_400) as E' by (apply (f_equal (fun x => p_out (snd x))) in Eh; by vm_compute in Eh).
      by rewrite E in E'.
    + exfalso. apply (E (lit "nowhere")). apply connect_line_split. eexists. by vm_compute.
  - by vm_compute in Eh.
Defined.

Lemma http_interop_witness :
  fst (handleClient sample_http (peer_of (connect_header sample_up sample_host) [7; 9]))
  = Ok (mkRequest (lit "web") (lit "http-connect") TCP sample_host).
Proof.
  destruct (http_interop sample_http sample_up sample_host [7; 9] []) as [(p' & E & _) _]; [by vm_compute..|].
  exact (f_equal fst E).
Defined.

Lemma http_early_data_lost_witness :
  exists r p', handleClient sample_http (peer_of (connect_header sample_up sample_host ++ lit "hello") []) = (Ok r, p') /\
    p_in p' = [].
Proof.
  destruct (handleClient sample_http (peer_of (connect_header sample_up sample_host ++ lit "hello") [])) as [[r|st|] p'] eqn:E.
  - exists r, p'. split; [done|].
    refine (proj1 (http_early_data_lost sample_http sample_up sample_host (connect_header sample_up sample_host) rep_200
      (lit "hello") _ _ _ _ _) r p' E); try by vm_compute.
    + by apply occursb_spec.
    + by apply occursb_spec.
  - by vm_compute in E.
  - by vm_compute in E.
Defined.
