(* ===== verification/Pipe.v ===== *)
(** * Relaying (src/transport/pipe.cpp, src/transport/tcp_stream.cpp, session_stream.hpp)

    [ISessionStream] is the interface of the two ends a proxied connection
    joins; [SessionStream] is that interface as a class, with the laws the relay
    relies on.  [bidiCopy] runs two [halfCopy] coroutines, which interleave at
    their suspension points with each other and with everything else that can
    happen to the ends: a step relation.  [TcpSocketStream] and the logical
    session of a link are the two implementations. *)
From S2P Require Import Prelude Absl Buffer Resp2 ShineFrame Address Request Channel Socket Session.
From Stdlib Require Import Strings.Byte.

(** ** The interface *)

(** One move of a pending [write]: it returns, or hands a first part of its
    data over and has the rest to go. *)
Inductive WriteMove (S : Type) :=
  | WriteDone (r : res unit) (s : S)
  | WriteMoved (sent rest : bytes) (s : S).
Arguments WriteDone {S} r s.
Arguments WriteMoved {S} sent rest s.

(** [None] is a suspended call: nothing happens to it until an event of the
    stream. *)
Class SessionStream (S : Type) := {
  ss_read : Z -> S -> option (res bytes * S);       (* read(buf); no bytes is EOF *)
  ss_write_begin : S -> option Status;              (* write(data) refused at the call *)
  ss_write_move : bytes -> S -> option (WriteMove S);
  ss_shutdownWrite : S -> S;
  ss_close : S -> S;
  ss_event : S -> S -> Prop;                        (* what others do to the stream *)
}.

Class SessionStreamSpec (S : Type) `{SessionStream S} : Prop := {
  ss_read_bounded n s d s' : 0 <= n -> ss_read n s = Some (Ok d, s') -> zlen d <= n;
  ss_write_moves d s sent rest s' : ss_write_move d s = Some (WriteMoved sent rest s') -> d = sent ++ rest;
  ss_write_all d s s' : ss_write_move d s = Some (WriteDone (Ok tt) s') -> d = [];
}.

(** ** [halfCopy] *)

Definition copy_buf : Z := 32 * 1024.

(** Where the coroutine is suspended, with the part of its buffer in use. *)
Inductive HalfPc :=
  | HRead
  | HWrite (data : bytes)     (* about to call write *)
  | HSend (rest : bytes)      (* inside write *)
  | HShut                     (* past the loop *)
  | HDone
  | HUB.
#[export] Instance HalfPc_eq_dec : EqDecision HalfPc.
Proof. solve_decision. Defined.

(** What a step of it did: the bytes it took from [src], those it handed to
    [dst], those it will not hand over. *)
Record HalfEvent := mkHalfEvent { he_got : bytes; he_put : bytes; he_lost : bytes }.
Definition he_none : HalfEvent := mkHalfEvent [] [] [].

Section Copy.
Context {A B : Type} `{SessionStream A} `{SessionStream B}.

Definition half_step (pc : HalfPc) (src : A) (dst : B) : option (HalfPc * HalfEvent * A * B) :=
  match pc with
  | HRead =>
      match ss_read copy_buf src with
      | None => None
      | Some (Ok d, src') =>
          if zlen d =? 0 then Some (HShut, he_none, src', dst)
          else Some (HWrite d, mkHalfEvent d [] [], src', dst)
      | Some (Err _, src') => Some (HShut, he_none, src', dst)
      | Some (UB, src') => Some (HUB, he_none, src', dst)
      end
  | HWrite d =>
      match ss_write_begin dst with
      | Some _ => Some (HShut, mkHalfEvent [] [] d, src, dst)
      | None => Some (HSend d, he_none, src, dst)
      end
  | HSend d =>
      match ss_write_move d dst with
      | None => None
      | Some (WriteDone (Ok _) dst') => Some (HRead, he_none, src, dst')
      | Some (WriteDone (Err _) dst') => Some (HShut, mkHalfEvent [] [] d, src, dst')
      | Some (WriteDone UB dst') => Some (HUB, mkHalfEvent [] [] d, src, dst')
      | Some (WriteMoved sent rest dst') => Some (HSend rest, mkHalfEvent [] sent [], src, dst')
      end
  | HShut => Some (HDone, he_none, src, ss_shutdownWrite dst)
  | HDone | HUB => None
  end.
End Copy.

(** What one direction has done so far. *)
Record Flow := mkFlow { fl_got : bytes; fl_put : bytes; fl_lost : bytes }.
Definition flow_add (f : Flow) (e : HalfEvent) : Flow :=
  mkFlow (fl_got f ++ he_got e) (fl_put f ++ he_put e) (fl_lost f ++ he_lost e).

(** ** [bidiCopy] *)

Section Bidi.
Context {A B : Type} `{SessionStream A} `{SessionStream B}.

Record Bidi := mkBidi {
  b_a : A; b_b : B;
  ab : HalfPc; ba : HalfPc;           (* halfCopy(a, b), halfCopy(b, a) *)
  fab : Flow; fba : Flow;
  finished : bool;                    (* bidiCopy has returned *)
}.

Definition bidi_init (a : A) (b : B) : Bidi :=
  mkBidi a b HRead HRead (mkFlow [] [] []) (mkFlow [] [] []) false.

Inductive Turn := TurnAB | TurnBA | TurnFinish.
#[export] Instance Turn_eq_dec : EqDecision Turn.
Proof. solve_decision. Defined.

Definition bidi_turn (t : Turn) (s : Bidi) : option Bidi :=
  match t with
  | TurnAB =>
      match half_step (ab s) (b_a s) (b_b s) with
      | None => None
      | Some (pc, e, a', b') => Some (mkBidi a' b' pc (ba s) (flow_add (fab s) e) (fba s) (finished s))
      end
  | TurnBA =>
      match half_step (ba s) (b_b s) (b_a s) with
      | None => None
      | Some (pc, e, b', a') => Some (mkBidi a' b' (ab s) pc (fab s) (flow_add (fba s) e) (finished s))
      end
  | TurnFinish =>
      match ab s, ba s, finished s with
      | HDone, HDone, false => Some (mkBidi (ss_close (b_a s)) (ss_close (b_b s)) HDone HDone (fab s) (fba s) true)
      | _, _, _ => None
      end
  end.

Inductive bidi_step (s : Bidi) : Bidi -> Prop :=
  | bidi_move t s' : bidi_turn t s = Some s' -> bidi_step s s'
  | bidi_event_a a' : ss_event (b_a s) a' ->
      bidi_step s (mkBidi a' (b_b s) (ab s) (ba s) (fab s) (fba s) (finished s))
  | bidi_event_b b' : ss_event (b_b s) b' ->
      bidi_step s (mkBidi (b_a s) b' (ab s) (ba s) (fab s) (fba s) (finished s)).

(** A schedule: the turns in order, those that cannot be taken skipped. *)
Fixpoint bidi_run (ts : list Turn) (s : Bidi) : Bidi :=
  match ts with
  | [] => s
  | t :: ts => bidi_run ts (match bidi_turn t s with Some s' => s' | None => s end)
  end.
End Bidi.
Arguments Bidi : clear implicits.

(** The bytes a half holds between a read and the end of its write. *)
Definition in_flight (pc : HalfPc) : bytes :=
  match pc with HWrite d | HSend d => d | _ => [] end.
Definition pc_ended (pc : HalfPc) : bool := match pc with HShut | HDone | HUB => true | _ => false end.

(** Nothing lost, added or reordered but the tail a failed write leaves. *)
Definition flow_ok (pc : HalfPc) (f : Flow) : Prop :=
  fl_got f = fl_put f ++ in_flight pc ++ fl_lost f /\ (fl_lost f <> [] -> pc_ended pc = true) /\
  zlen (in_flight pc) <= copy_buf.

Section HalfFacts.
Context {A B : Type} `{SessionStream A, !SessionStreamSpec A, SessionStream B, !SessionStreamSpec B}.

Lemma no_loss (l : bytes) : (l <> [] -> false = true) -> l = [].
Proof. destruct l; [done|]. intros Hl. by specialize (Hl ltac:(done)). Qed.

Lemma half_step_ok pc f (src : A) (dst : B) pc' e src' dst' :
  half_step pc src dst = Some (pc', e, src', dst') -> flow_ok pc f -> flow_ok pc' (flow_add f e).
Proof.
  unfold flow_ok. destruct f as [g p l]. cbn [flow_add fl_got fl_put fl_lost].
  destruct pc as [|d|d| | |]; cbn [half_step in_flight pc_ended].
  - destruct (ss_read copy_buf src) as [[[d|st|] s1]|] eqn:Er; [| | |done].
    + destruct (Z.eqb_spec (zlen d) 0); intros [= <- <- <- <-]; cbn [he_got he_put he_lost he_none in_flight pc_ended];
        rewrite ?app_nil_r; intros (-> & Hl & _).
      * cbn [app]. split; [done|]. by rewrite zlen_nil.
      * apply no_loss in Hl as ->.
        rewrite !app_nil_r. split; [done|]. split; [done|]. by apply ss_read_bounded in Er.
    + intros [= <- <- <- <-]. cbn. rewrite !app_nil_r. by intros (-> & _ & ?).
    + intros [= <- <- <- <-]. cbn. rewrite !app_nil_r. by intros (-> & _ & ?).
  - intros E (-> & Hl & Hb). apply no_loss in Hl as ->.
    destruct (ss_write_begin dst); injection E as <- <- <- <-; cbn; rewrite !app_nil_r; done.
  - destruct (ss_write_move d dst) as [[r s1|sent rest s1]|] eqn:Ew; [| |done].
    + intros E (-> & Hl & Hb). apply no_loss in Hl as ->.
      destruct r as [[]|st|]; injection E as <- <- <- <-; cbn; rewrite !app_nil_r; try done.
      apply ss_write_all in Ew as ->. by rewrite app_nil_r.
    + apply ss_write_moves in Ew as ->. intros [= <- <- <- <-] (-> & Hl & Hb).
      apply no_loss in Hl as ->.
      cbn. rewrite !app_nil_r, <- app_assoc. split; [done|]. split; [done|].
      rewrite zlen_app in Hb. pose proof (zlen_nonneg sent). lia.
  - intros [= <- <- <- <-]. cbn. by rewrite !app_nil_r.
  - done.
  - done.
Qed.
End HalfFacts.

(** ** What an end has done

    [R s got put]: the end [s] has given up [got] and taken [put]. *)
Class EndInvariant {S : Type} `{SessionStream S} (R : S -> bytes -> bytes -> Prop) : Prop := {
  inv_read s r s' g p : R s g p -> ss_read copy_buf s = Some (r, s') -> R s' (g ++ (if r is Ok d then d else [])) p;
  inv_done s d r s' g p : R s g p -> ss_write_move d s = Some (WriteDone r s') -> R s' g p;
  inv_moved s d sent rest s' g p :
    R s g p -> ss_write_move d s = Some (WriteMoved sent rest s') -> R s' g (p ++ sent);
  inv_shutdown s g p : R s g p -> R (ss_shutdownWrite s) g p;
  inv_close s g p : R s g p -> R (ss_close s) g p;
}.
Class EventInvariant {S : Type} `{SessionStream S} (R : S -> bytes -> bytes -> Prop) : Prop :=
  inv_event s s' g p : R s g p -> ss_event s s' -> R s' g p.

Section HalfEnds.
Context {A B : Type} `{SessionStream A, SessionStream B}.
Context (RA : A -> bytes -> bytes -> Prop) (RB : B -> bytes -> bytes -> Prop) `{!EndInvariant RA, !EndInvariant RB}.

Lemma half_ends pc (src : A) (dst : B) pc' e src' dst' g p g' p' :
  half_step pc src dst = Some (pc', e, src', dst') -> RA src g p -> RB dst g' p' ->
  RA src' (g ++ he_got e) p /\ RB dst' g' (p' ++ he_put e).
Proof.
  destruct pc as [|d|d| | |]; cbn [half_step].
  - destruct (ss_read copy_buf src) as [[r s1]|] eqn:Er; [|done]. intros E Ha Hb.
    pose proof (inv_read _ _ _ _ _ Ha Er) as Ha'. destruct r as [d|st|].
    + destruct (Z.eqb_spec (zlen d) 0) as [Hz|]; injection E as <- <- <- <-; cbn; rewrite ?app_nil_r; [|done].
      assert (d = []) as -> by (apply length_zero_iff_nil; unfold zlen in Hz; lia). by rewrite app_nil_r in Ha'.
    + injection E as <- <- <- <-. cbn. by rewrite !app_nil_r in *.
    + injection E as <- <- <- <-. cbn. by rewrite !app_nil_r in *.
  - intros E. destruct (ss_write_begin dst); injection E as <- <- <- <-; cbn; by rewrite !app_nil_r.
  - destruct (ss_write_move d dst) as [[r s1|sent rest s1]|] eqn:Ew; [| |done]; intros E Ha Hb.
    + pose proof (inv_done _ _ _ _ _ _ Hb Ew). destruct r; injection E as <- <- <- <-; cbn; by rewrite !app_nil_r.
    + injection E as <- <- <- <-. cbn. rewrite app_nil_r. split; [done|]. by eapply inv_moved.
  - intros [= <- <- <- <-] Ha Hb. cbn. rewrite !app_nil_r. split; [done|]. by apply inv_shutdown.
  - done.
  - done.
Qed.
End HalfEnds.

Section BidiEnds.
Context {A B : Type} `{SessionStream A, SessionStream B}.
Context (RA : A -> bytes -> bytes -> Prop) (RB : B -> bytes -> bytes -> Prop) `{!EndInvariant RA, !EndInvariant RB}.

Definition ends_ok (s : Bidi A B) : Prop :=
  RA (b_a s) (fl_got (fab s)) (fl_put (fba s)) /\ RB (b_b s) (fl_got (fba s)) (fl_put (fab s)).

Lemma ends_ok_turn t s s' : bidi_turn t s = Some s' -> ends_ok s -> ends_ok s'.
Proof.
  unfold ends_ok. intros E [Ha Hb]. destruct t; cbn [bidi_turn] in E.
  - destruct (half_step (ab s) (b_a s) (b_b s)) as [[[[pc e] a'] b']|] eqn:Es; [|done]. injection E as <-. cbn.
    by destruct (half_ends RA RB _ _ _ _ _ _ _ _ _ _ _ Es Ha Hb).
  - destruct (half_step (ba s) (b_b s) (b_a s)) as [[[[pc e] b'] a']|] eqn:Es; [|done]. injection E as <-. cbn.
    by destruct (half_ends RB RA _ _ _ _ _ _ _ _ _ _ _ Es Hb Ha).
  - destruct (ab s), (ba s), (finished s); try done. injection E as <-. cbn. split; by apply inv_close.
Qed.

Lemma ends_ok_run `{!EventInvariant RA, !EventInvariant RB} a b s : rtc bidi_step (bidi_init a b) s -> RA a [] [] -> RB b [] [] -> ends_ok s.
Proof.
  intros Hr Ha Hb. revert Hr. apply (rtc_ind_r ends_ok); [done|].
  intros s1 s2 _ Hst Hok. destruct Hst as [t s2 E|a' E|b' E]; [by eapply ends_ok_turn|..];
    destruct Hok; split; cbn; try done; by eapply inv_event.
Qed.
End BidiEnds.

Section BidiFlow.
Context {A B : Type} `{SessionStream A, !SessionStreamSpec A, SessionStream B, !SessionStreamSpec B}.

Definition bidi_ok (s : Bidi A B) : Prop :=
  flow_ok (ab s) (fab s) /\ flow_ok (ba s) (fba s) /\ (finished s = true -> ab s = HDone /\ ba s = HDone).

Lemma bidi_ok_turn t (s s' : Bidi A B) : bidi_turn t s = Some s' -> bidi_ok s -> bidi_ok s'.
Proof.
  unfold bidi_ok. intros E (Hab & Hba & Hf). destruct t; cbn [bidi_turn] in E.
  - destruct (half_step (ab s) (b_a s) (b_b s)) as [[[[pc e] a'] b']|] eqn:Es; [|done]. injection E as <-. cbn [ab ba fab fba finished].
    split; [by apply (half_step_ok _ _ _ _ _ _ _ _ Es)|]. split; [done|]. intros Hfin. destruct (Hf Hfin) as [E1 _]. by rewrite E1 in Es.
  - destruct (half_step (ba s) (b_b s) (b_a s)) as [[[[pc e] b'] a']|] eqn:Es; [|done]. injection E as <-. cbn [ab ba fab fba finished].
    split; [done|]. split; [by apply (half_step_ok _ _ _ _ _ _ _ _ Es)|]. intros Hfin. destruct (Hf Hfin) as [_ E1]. by rewrite E1 in Es.
  - destruct (ab s), (ba s), (finished s); try done. by injection E as <-.
Qed.

Lemma bidi_ok_run a b s : rtc bidi_step (bidi_init a b) s -> bidi_ok s.
Proof.
  apply (rtc_ind_r bidi_ok).
  - by repeat split.
  - intros s1 s2 _ Hst Hok. destruct Hst as [t s2 E|a' E|b' E]; [by eapply bidi_ok_turn|by destruct Hok as (? & ? & ?)..].
Qed.
End BidiFlow.

(** ** Ends whose suspensions are known

    [left s] bounds the bytes the end can still be read; [idle s] and
    [blocked s] are the only states a read and a write stay suspended in. *)
Class ReadyStream {S : Type} `{SessionStream S} (P : S -> Prop) (left : S -> nat) (idle blocked : S -> Prop) : Prop := {
  ready_read s : P s ->
    match ss_read copy_buf s with
    | None => idle s
    | Some (r, s') => P s' /\ r <> UB /\ (left s' + (if r is Ok d then length d else 0) <= left s)%nat
    end;
  ready_write d s : P s ->
    match ss_write_move d s with
    | None => blocked s
    | Some (WriteDone r s') => P s' /\ (left s' <= left s)%nat /\ r <> UB
    | Some (WriteMoved _ rest s') => P s' /\ (left s' <= left s)%nat /\ (length rest < length d)%nat
    end;
  ready_shutdown s : P s -> P (ss_shutdownWrite s) /\ (left (ss_shutdownWrite s) <= left s)%nat;
  ready_close s : P s -> P (ss_close s) /\ (left (ss_close s) <= left s)%nat;
}.
Definition never {S : Type} (s : S) : Prop := False.

(** The work a half has left. *)
Definition half_measure (pc : HalfPc) (n : nat) : nat :=
  8 * n + match pc with HRead => 3 | HWrite d => length d + 5 | HSend d => length d + 4 | HShut => 1 | HDone | HUB => 0 end.

Section HalfReady.
Context {A B : Type} `{SessionStream A, SessionStream B}.
Context (PA : A -> Prop) (lA : A -> nat) (iA kA : A -> Prop) `{!ReadyStream PA lA iA kA}.
Context (PB : B -> Prop) (lB : B -> nat) (iB kB : B -> Prop) `{!ReadyStream PB lB iB kB}.

Lemma half_ready pc (src : A) (dst : B) pc' e src' dst' :
  half_step pc src dst = Some (pc', e, src', dst') -> PA src -> PB dst ->
  PA src' /\ PB dst' /\ (half_measure pc' (lA src') < half_measure pc (lA src))%nat /\ (lB dst' <= lB dst)%nat /\ pc' <> HUB.
Proof.
  unfold half_measure. intros E Ha Hb. destruct pc as [|d|d| | |]; cbn [half_step] in E.
  - pose proof (ready_read src Ha) as Hr. destruct (ss_read copy_buf src) as [[r s1]|]; [|done].
    destruct Hr as (H1 & Hub & Hl). destruct r as [d|st|]; [|injection E as <- <- <- <-; split_and!; done || lia|done].
    destruct (Z.eqb_spec (zlen d) 0) as [Hz|Hz]; injection E as <- <- <- <-; unfold zlen in Hz; split_and!; done || lia.
  - destruct (ss_write_begin dst); injection E as <- <- <- <-; split_and!; done || lia.
  - pose proof (ready_write d dst Hb) as Hw. destruct (ss_write_move d dst) as [[r s1|sent rest s1]|]; [|..|done].
    + destruct Hw as (? & ? & ?). destruct r; [..|done]; injection E as <- <- <- <-; split_and!; done || lia.
    + destruct Hw as (? & ? & ?). injection E as <- <- <- <-. split_and!; done || lia.
  - injection E as <- <- <- <-. destruct (ready_shutdown dst Hb). split_and!; done || lia.
  - done.
  - done.
Qed.

(** A half that cannot move is done, or waits where its ends may wait. *)
Definition half_rests (idle : A -> Prop) (blocked : B -> Prop) (pc : HalfPc) (src : A) (dst : B) : Prop :=
  pc = HDone \/ (pc = HRead /\ idle src) \/ ((exists d, pc = HSend d) /\ blocked dst).

Lemma half_ready_stuck pc (src : A) (dst : B) :
  PA src -> PB dst -> half_step pc src dst = None -> pc <> HUB -> half_rests iA kB pc src dst.
Proof.
  unfold half_rests. intros Ha Hb. destruct pc as [|d|d| | |]; cbn [half_step]; [| | |done|by left|done].
  - pose proof (ready_read src Ha). destruct (ss_read copy_buf src) as [[r s1]|]; [|by right; left].
    destruct r as [d|st|]; [by destruct (_ =? 0)|done..].
  - by destruct (ss_write_begin dst).
  - pose proof (ready_write d dst Hb) as Hw. destruct (ss_write_move d dst) as [[r s1|sent rest s1]|]; [by destruct r|done|].
    intros _ _. right. right. by split; [exists d|].
Qed.

Lemma half_rests_never pc src dst : half_rests never never pc src dst -> pc = HDone.
Proof. by intros [?|[[_ []]|[_ []]]]. Qed.
End HalfReady.

Section RelayReady.
Context {A B : Type} `{SessionStream A, SessionStream B}.
Context (PA : A -> Prop) (lA : A -> nat) (iA kA : A -> Prop) `{!ReadyStream PA lA iA kA}.
Context (PB : B -> Prop) (lB : B -> nat) (iB kB : B -> Prop) `{!ReadyStream PB lB iB kB}.
Implicit Types s : Bidi A B.

Definition relay_ready s : Prop := PA (b_a s) /\ PB (b_b s) /\ ab s <> HUB /\ ba s <> HUB.
Definition relay_measure s : nat :=
  half_measure (ab s) (lA (b_a s)) + half_measure (ba s) (lB (b_b s)) + (if finished s then 0 else 1).
Definition turn_step s s' : Prop := exists t, bidi_turn t s = Some s'.

Lemma relay_turn_ready s s' :
  turn_step s s' -> relay_ready s -> relay_ready s' /\ (relay_measure s' < relay_measure s)%nat.
Proof.
  unfold relay_ready, relay_measure. intros [t E] (Ha & Hb & Ua & Ub). destruct t; cbn [bidi_turn] in E.
  - destruct (half_step (ab s) (b_a s) (b_b s)) as [[[[pc e] a'] b']|] eqn:Es; [|done]. injection E as <-.
    destruct (half_ready PA lA iA kA PB lB iB kB _ _ _ _ _ _ _ Es Ha Hb) as (? & ? & Hm & Hl & ?).
    cbn [ab ba b_a b_b finished]. split; [done|]. unfold half_measure at 2 4. unfold half_measure in Hm. unfold half_measure. lia.
  - destruct (half_step (ba s) (b_b s) (b_a s)) as [[[[pc e] b'] a']|] eqn:Es; [|done]. injection E as <-.
    destruct (half_ready PB lB iB kB PA lA iA kA _ _ _ _ _ _ _ Es Hb Ha) as (? & ? & Hm & Hl & ?).
    cbn [ab ba b_a b_b finished]. split; [done|]. unfold half_measure in *. lia.
  - destruct (ab s), (ba s), (finished s); try done. injection E as <-. cbn [ab ba b_a b_b finished].
    destruct (ready_close (b_a s) Ha), (ready_close (b_b s) Hb). split; [done|]. unfold half_measure. lia.
Qed.

Lemma relay_turns_bounded n s s' :
  nsteps turn_step n s s' -> relay_ready s -> relay_ready s' /\ (n + relay_measure s' <= relay_measure s)%nat.
Proof.
  induction 1 as [|n s s1 s2 Hst _ IH]; intros Hr; [by split|].
  destruct (relay_turn_ready _ _ Hst Hr) as [Hr1 ?]. destruct (IH Hr1). split; [done|lia].
Qed.

(** Where it can stop: it has returned when both halves are done. *)
Lemma relay_ready_progress s :
  relay_ready s -> (forall s', ~ turn_step s s') ->
  half_rests iA kB (ab s) (b_a s) (b_b s) /\ half_rests iB kA (ba s) (b_b s) (b_a s) /\
  (ab s = HDone -> ba s = HDone -> finished s = true).
Proof.
  intros (Ha & Hb & Ua & Ub) Hstuck.
  assert (forall t, bidi_turn t s = None) as Hn.
  { intros t. destruct (bidi_turn t s) as [s'|] eqn:E; [|done]. destruct (Hstuck s'). by exists t. }
  split; [|split].
  - apply (half_ready_stuck PA lA iA kA PB lB iB kB); [done..| |done]. pose proof (Hn TurnAB) as N. cbn in N.
    by destruct (half_step (ab s) _ _) as [[[[??]?]?]|].
  - apply (half_ready_stuck PB lB iB kB PA lA iA kA); [done..| |done]. pose proof (Hn TurnBA) as N. cbn in N.
    by destruct (half_step (ba s) _ _) as [[[[??]?]?]|].
  - intros E1 E2. pose proof (Hn TurnFinish) as N. cbn in N. rewrite E1, E2 in N. by destruct (finished s).
Qed.
End RelayReady.

(** ** TCP sockets *)

(** How the peer's stream ends: with an orderly close, with an error, or not
    at all: the peer stays connected and sends nothing more. *)
Inductive PeerEnd := PeerCloses | PeerFails (msg : bytes) | PeerStays.

(** How a [write_some] completes: it takes a number of bytes, it fails, or it
    never completes, because the peer reads nothing more. *)
Inductive PutResult := Takes (n : Z) | PutFails (msg : bytes) | Blocks.

(** The socket with what its peer will have sent, how that ends, and how its
    [write_some]s complete (all bytes are taken when the list is exhausted). *)
Record TcpSocketStream := mkTcp {
  t_sock : Sock; t_end : PeerEnd; t_writes : list PutResult;
  t_out : bytes; t_shut : bool; t_closed : bool;
}.

Definition bad_descriptor : Status := UnavailableError (lit "Bad file descriptor").
Definition broken_pipe : Status := UnavailableError (lit "Broken pipe").

Module Tcp.
(** [None]: [async_read_some] stays suspended. *)
Definition read (n : Z) (s : TcpSocketStream) : option (res bytes * TcpSocketStream) :=
  if t_closed s then Some (Err bad_descriptor, s)
  else if zlen (stream (t_sock s)) =? 0 then
    match t_end s with
    | PeerCloses => Some (Ok [], s)
    | PeerFails msg => Some (Err (UnavailableError msg), s)
    | PeerStays => None
    end
  else
    let '(d, sk) := sock_read_some n (t_sock s) in
    Some (Ok d, mkTcp sk (t_end s) (t_writes s) (t_out s) (t_shut s) (t_closed s)).

(** [asio::async_write], one [write_some] at a time; [None]: the pending one
    stays suspended. *)
Definition write_move (d : bytes) (s : TcpSocketStream) : option (WriteMove TcpSocketStream) :=
  let put (n : Z) ws :=
    Some (WriteMoved (slice d 0 n) (drop (Z.to_nat n) d)
            (mkTcp (t_sock s) (t_end s) ws (t_out s ++ slice d 0 n) (t_shut s) (t_closed s))) in
  if zlen d =? 0 then Some (WriteDone (Ok tt) s)
  else if t_closed s then Some (WriteDone (Err bad_descriptor) s)
  else if t_shut s then Some (WriteDone (Err broken_pipe) s)
  else match t_writes s with
       | Blocks :: _ => None
       | PutFails msg :: ws =>
           Some (WriteDone (Err (UnavailableError msg))
                   (mkTcp (t_sock s) (t_end s) ws (t_out s) (t_shut s) (t_closed s)))
       | Takes k :: ws => put (Z.min (zlen d) (Z.max 1 k)) ws
       | [] => put (zlen d) []
       end.

Definition shutdownWrite (s : TcpSocketStream) : TcpSocketStream :=
  mkTcp (t_sock s) (t_end s) (t_writes s) (t_out s) true (t_closed s).
Definition close (s : TcpSocketStream) : TcpSocketStream :=
  mkTcp (t_sock s) (t_end s) (t_writes s) (t_out s) (t_shut s) true.
End Tcp.

#[export] Instance Tcp_stream : SessionStream TcpSocketStream := {|
  ss_read := Tcp.read;
  ss_write_begin _ := None;
  ss_write_move := Tcp.write_move;
  ss_shutdownWrite := Tcp.shutdownWrite;
  ss_close := Tcp.close;
  ss_event _ _ := False;
|}.

Section TcpFacts.
Implicit Types s : TcpSocketStream.

(** The socket's own waits. *)
Definition tcp_idle s : Prop := t_closed s = false /\ stream (t_sock s) = [] /\ t_end s = PeerStays.
Definition tcp_blocked s : Prop := t_closed s = false /\ t_shut s = false /\ head (t_writes s) = Some Blocks.

(** A read, by cases. *)
Lemma tcp_read_none n s : Tcp.read n s = None -> tcp_idle s.
Proof.
  unfold Tcp.read, tcp_idle. destruct (t_closed s); [done|]. destruct (Z.eqb_spec (zlen (stream (t_sock s))) 0) as [Hz|].
  - destruct (t_end s); [done..|]. intros _. split; [done|]. split; [|done].
    apply length_zero_iff_nil. unfold zlen in Hz. lia.
  - by destruct (sock_read_some _ _).
Qed.

Lemma tcp_read_cases s r s' :
  Tcp.read copy_buf s = Some (r, s') ->
  (s' = s /\ exists st, r = Err st) \/
  (s' = s /\ r = Ok [] /\ stream (t_sock s) = [] /\ t_end s = PeerCloses /\ t_closed s = false) \/
  (exists d sk, r = Ok d /\ 0 < zlen d <= copy_buf /\ stream (t_sock s) = d ++ stream sk /\
    s' = mkTcp sk (t_end s) (t_writes s) (t_out s) (t_shut s) (t_closed s)).
Proof.
  unfold Tcp.read. destruct (t_closed s); [intros [= <- <-]; left; eauto|].
  destruct (Z.eqb_spec (zlen (stream (t_sock s))) 0) as [Hz|Hz].
  - assert (stream (t_sock s) = []) as Es by (apply length_zero_iff_nil; unfold zlen in Hz; lia).
    destruct (t_end s); [..|done]; intros [= <- <-]; [right; left; auto|left; eauto].
  - destruct (sock_read_spec copy_buf (t_sock s)) as (d & sk & -> & Es & Hl & Hp); [done|].
    intros [= <- <-]. right. right. exists d, sk. split; [done|]. split; [|done]. split; [|done].
    apply Hp. intros E. by rewrite E in Hz.
Qed.

(** A move of a write, by cases. *)
Lemma tcp_write_none d s : Tcp.write_move d s = None -> tcp_blocked s.
Proof.
  unfold Tcp.write_move, tcp_blocked. destruct (_ =? 0); [done|]. destruct (t_closed s); [done|].
  destruct (t_shut s); [done|]. by destruct (t_writes s) as [|[]].
Qed.

Definition takes (w : PutResult) : Prop := exists k, w = Takes k.

Lemma tcp_write_cases d s m :
  Tcp.write_move d s = Some m ->
  (d = [] /\ m = WriteDone (Ok tt) s) \/
  (exists st ws, m = WriteDone (Err st) (mkTcp (t_sock s) (t_end s) ws (t_out s) (t_shut s) (t_closed s)) /\
     (forall P, Forall P (t_writes s) -> Forall P ws) /\
     (Forall takes (t_writes s) -> t_closed s = true \/ t_shut s = true)) \/
  (exists sent rest ws, d = sent ++ rest /\ sent <> [] /\ t_closed s = false /\ t_shut s = false /\
     (forall P, Forall P (t_writes s) -> Forall P ws) /\
     m = WriteMoved sent rest (mkTcp (t_sock s) (t_end s) ws (t_out s ++ sent) (t_shut s) (t_closed s))).
Proof.
  unfold Tcp.write_move. destruct (Z.eqb_spec (zlen d) 0) as [Hz|Hz].
  { intros [= <-]. left. split; [|done]. apply length_zero_iff_nil. unfold zlen in Hz. lia. }
  destruct (t_closed s) eqn:Ec; [intros [= <-]; right; left; exists bad_descriptor, (t_writes s); split; [by destruct s; cbn in *; subst|auto]|].
  destruct (t_shut s) eqn:Eh; [intros [= <-]; right; left; exists broken_pipe, (t_writes s); split; [by destruct s; cbn in *; subst|auto]|].
  pose proof (zlen_nonneg d).
  assert (forall n, 0 < n <= zlen d -> d = slice d 0 n ++ drop (Z.to_nat n) d /\ slice d 0 n <> []) as Hput.
  { intros n Hn. change (slice d 0 n) with (take (Z.to_nat n) d). split; [by rewrite take_drop|]. intros E. apply (f_equal zlen) in E.
    unfold zlen in *. rewrite length_take in E. cbn in E. lia. }
  destruct (t_writes s) as [|[k|msg|] ws] eqn:Ew; [..|done]; intros [= <-].
  - right. right. destruct (Hput (zlen d)) as [? ?]; [lia|]. eexists _, _, []. eauto 10.
  - right. right. destruct (Hput (Z.min (zlen d) (Z.max 1 k))) as [? ?]; [lia|]. eexists _, _, ws.
    repeat split; eauto. intros P. by intros [_ ?]%Forall_cons.
  - right. left. exists (UnavailableError msg), ws. split; [done|].
    split; [intros P; by intros [_ ?]%Forall_cons|]. intros [[k [=]] _]%Forall_cons.
Qed.

#[export] Instance Tcp_stream_spec : SessionStreamSpec TcpSocketStream.
Proof.
  split.
  - intros n s d s' Hn. cbn. unfold Tcp.read. destruct (t_closed s); [done|].
    destruct (_ =? 0); [destruct (t_end s); [by intros [= <- <-]|done..]|].
    destruct (Z.eq_dec n 0) as [->|].
    + unfold sock_read_some. destruct (splits (t_sock s)) as [|k ks]; intros [= <- <-]; rewrite ?Z.min_l by lia;
        cbn; unfold zlen; rewrite length_take; lia.
    + destruct (sock_read_spec n (t_sock s)) as (x & sk & -> & _ & Hl & _); [lia|]. by intros [= <- <-].
  - intros d s sent rest s' E. destruct (tcp_write_cases d s _ E) as [(_ & ?)|[(? & ? & ? & _ & _)|(sent' & rest' & ws & -> & _ & _ & _ & _ & Em)]];
      try done. by injection Em as <- <- _.
  - intros d s s' E. destruct (tcp_write_cases d s _ E) as [(-> & _)|[(? & ? & ? & _ & _)|(? & ? & ? & _ & _ & _ & _ & _ & ?)]]; done.
Qed.

(** What a socket has given and taken. *)
Definition tcp_history (s0 s : TcpSocketStream) (got put : bytes) : Prop :=
  stream (t_sock s0) = got ++ stream (t_sock s) /\ t_out s = t_out s0 ++ put.

#[export] Instance tcp_history_inv s0 : EndInvariant (tcp_history s0).
Proof.
  unfold tcp_history. split; cbn [ss_read ss_write_move ss_shutdownWrite ss_close Tcp_stream].
  - intros s r s' g p [E1 E2] E. destruct (tcp_read_cases s r s' E) as [(-> & st & ->)|[(-> & -> & _)|(d & sk & -> & _ & Es & ->)]];
      rewrite ?app_nil_r; cbn; [done..|]. by rewrite E1, Es, app_assoc.
  - intros s d r s' g p [E1 E2] E.
    destruct (tcp_write_cases d s _ E) as [(_ & Em)|[(st & ws & Em & _ & _)|(? & ? & ? & _ & _ & _ & _ & _ & ?)]]; [..|done];
      by injection Em as _ ->.
  - intros s d sent rest s' g p [E1 E2] E.
    destruct (tcp_write_cases d s _ E) as [(_ & ?)|[(? & ? & ? & _ & _)|(sent' & rest' & ws & _ & _ & _ & _ & _ & Em)]]; [done..|].
    injection Em as <- <- ->. cbn. split; [done|]. by rewrite E2, app_assoc.
  - by intros s g p.
  - by intros s g p.
Qed.
#[export] Instance tcp_history_event s0 : EventInvariant (tcp_history s0).
Proof. by intros s s' g p. Qed.
End TcpFacts.

(** ** Logical sessions *)

(** A session with what it sees of its link and all that has happened to it. *)
Record SessionEnd (C : Type -> Type) := mkEnd {
  se_session : Session C; se_link : LinkView; se_events : list event;
}.
Arguments mkEnd {C}.
Arguments se_session {C}.
Arguments se_link {C}.
Arguments se_events {C}.

Section SessionStreams.
Context `{AbslOps} {C : Type -> Type} `{ChannelOps C}.
Implicit Types s : SessionEnd C.

Definition se_add (s1 : Session C) (ev : event) s : SessionEnd C :=
  mkEnd s1 (se_link s) (se_events s ++ [ev]).

(** What the link's reader, which runs on its own, can do to a session. *)
Inductive reader_call (s : Session C) : event -> Session C -> Prop :=
  | rc_data p : reader_call s (mkEvent (payload_bytes p) [] []) (onData p s)
  | rc_udp_data p a : reader_call s ev_none (onUdpData p a s)
  | rc_window delta : 0 <= delta < 2 ^ 32 -> reader_call s ev_none (onWindow delta s)
  | rc_close : reader_call s ev_none (onPeerClose s)
  | rc_reset : reader_call s ev_none (onReset s).

Inductive session_event s : SessionEnd C -> Prop :=
  | sv_reader ev (s1 : Session C) : reader_call (se_session s) ev s1 -> session_event s (se_add s1 ev s)
  | sv_link lv : lv_max_data_frame lv = lv_max_data_frame (se_link s) ->
      session_event s (mkEnd (se_session s) lv (se_events s)).

#[export] Instance Session_stream : SessionStream (SessionEnd C) := {|
  ss_read n s :=
    match read (se_link s) n (se_session s) with
    | (Return d, (s1, eff)) => Some (Ok d, se_add s1 (mkEvent [] d (enqueued eff)) s)
    | (Pending, _) => None
    | (NullDeref, _) => Some (UB, s)
    end;
  ss_write_begin s := write_guard (se_link s) (se_session s);
  ss_write_move d s :=
    match write_iter (se_link s) (se_session s) d with
    | WriteReturn None => Some (WriteDone (Ok tt) s)
    | WriteReturn (Some st) => Some (WriteDone (Err st) s)
    | WriteAgain s1 => Some (WriteMoved [] d (se_add s1 ev_none s))
    | WriteSent s1 wire rest =>
        Some (WriteMoved (take (length d - length rest) d) rest (se_add s1 (mkEvent [] [] [wire]) s))
    | WriteWait => None
    | WriteUB => Some (WriteDone UB s)
    end;
  ss_shutdownWrite s :=
    let '(s1, eff) := shutdownWrite (se_link s) (se_session s) in se_add s1 (mkEvent [] [] (enqueued eff)) s;
  ss_close s :=
    let '(s1, eff) := close (se_link s) (se_session s) in se_add s1 (mkEvent [] [] (enqueued eff)) s;
  ss_event := session_event;
|}.

(** The frames of a session, decoded, and the stream data among them. *)
Definition session_frame (sid : Z) (f : ShineFrame bytes) : Prop :=
  frame_fits f /\ match f with DataFrame s _ | WindowFrame s _ | CloseFrame s _ | AckFrame s => s = sid | _ => False end.
Definition frame_data (f : ShineFrame bytes) : bytes := if f is DataFrame _ p then p else [].
Definition frames_data (fs : list (ShineFrame bytes)) : bytes := mjoin (frame_data <$> fs).

(** The wires [ws] encode DATA and control frames of [sid], and the DATA
    payloads are consecutive parts of [d]. *)
Definition carries (sid : Z) (ws : list bytes) (d : bytes) : Prop :=
  exists fs, ws = encodeFrame [] <$> fs /\ Forall (session_frame sid) fs /\ frames_data fs = d.

Definition frames_of (evs : list event) : list bytes := mjoin (ev_frames <$> evs).
End SessionStreams.

Section SessionEndFacts.
Context `{AbslOps} {C : Type -> Type} `{ChannelSpec C}.
Implicit Types x y : SessionEnd C.
Implicit Types s : Session C.

Lemma frames_of_snoc evs ev : frames_of (evs ++ [ev]) = frames_of evs ++ ev_frames ev.
Proof. unfold frames_of. rewrite fmap_app, join_app. cbn. by rewrite app_nil_r. Qed.

Lemma frames_data_app fs gs : frames_data (fs ++ gs) = frames_data fs ++ frames_data gs.
Proof. unfold frames_data. by rewrite fmap_app, join_app. Qed.

Lemma carries_nil sid : carries sid [] [].
Proof. by exists []. Qed.

Lemma carries_app sid ws d ws' d' : carries sid ws d -> carries sid ws' d' -> carries sid (ws ++ ws') (d ++ d').
Proof.
  intros (fs & -> & Hf & <-) (gs & -> & Hg & <-). exists (fs ++ gs).
  split; [by rewrite fmap_app|]. split; [by apply Forall_app|]. apply frames_data_app.
Qed.

Lemma carries_one sid f : session_frame sid f -> carries sid [encodeFrame [] f] (frame_data f).
Proof. intros Hf. exists [f]. split; [done|]. split; [by apply Forall_singleton|]. unfold frames_data. cbn. by rewrite app_nil_r. Qed.

Lemma carries_data sid p : 0 <= sid < 2 ^ 64 -> zlen p < 2 ^ 32 -> carries sid [encodeData [] sid p] p.
Proof. intros. apply (carries_one sid (DataFrame sid p)). split; [by apply data_fits|done]. Qed.
Lemma carries_window sid delta : 0 <= sid < 2 ^ 64 -> 0 <= delta < 2 ^ 32 -> carries sid [encodeWindow [] sid delta] [].
Proof. intros. apply (carries_one sid (WindowFrame sid delta)). split; [by apply window_fits|done]. Qed.
Lemma carries_close sid : 0 <= sid < 2 ^ 64 -> carries sid [encodeClose [] sid []] [].
Proof. intros. apply (carries_one sid (CloseFrame sid [])). split; [by apply close_fits|done]. Qed.

(** The frames a call other than [write] enqueues carry no data. *)
Lemma read_account_frames lv n s s' eff :
  0 <= sid_ s < 2 ^ 64 -> read_account lv n s = (s', eff) -> sid_ s' = sid_ s /\ carries (sid_ s) (enqueued eff) [].
Proof.
  unfold read_account, maybeSendWindow. intros Hs E.
  repeat case_match; injection E as <- <-; split; try done; try apply carries_nil.
  apply carries_window; [done|]. apply u32_range.
Qed.

Lemma read_frames lv cap s d s' eff :
  0 <= sid_ s < 2 ^ 64 ->
  read lv cap s = (Return d, (s', eff)) -> sid_ s' = sid_ s /\ carries (sid_ s) (enqueued eff) [].
Proof.
  unfold read, read_leftover, read_payload. intros Hs E.
  repeat case_match; simplify_eq/=; try (split; [done|apply carries_nil]);
  match goal with H : read_account _ _ _ = _ |- _ => apply read_account_frames in H as [? ?]; [|exact Hs] end;
  cbn in *; split; congruence || done.
Qed.

Lemma shutdownWrite_frames lv s s' eff :
  0 <= sid_ s < 2 ^ 64 -> shutdownWrite lv s = (s', eff) -> sid_ s' = sid_ s /\ carries (sid_ s) (enqueued eff) [].
Proof.
  unfold shutdownWrite. intros Hs E. repeat case_match; injection E as <- <-; cbn;
    auto using carries_nil, carries_close.
Qed.

Lemma close_frames lv s s' eff :
  0 <= sid_ s < 2 ^ 64 -> close lv s = (s', eff) -> sid_ s' = sid_ s /\ carries (sid_ s) (enqueued eff) [].
Proof. unfold close. intros Hs E. repeat case_match; simplify_eq/=; auto using carries_nil, carries_close. Qed.

Lemma reader_call_frames s ev s' :
  reader_call s ev s' -> sid_ s' = sid_ s /\ ev_out ev = [] /\ ev_frames ev = [] /\ session_step s ev s'.
Proof.
  intros [p|p a|delta Hd| |]; cbn; (split; [|by repeat split; constructor]).
  - unfold onData. by repeat case_match.
  - unfold onUdpData. by repeat case_match.
  - done.
  - by unfold onPeerClose; destruct (state_ s).
  - done.
Qed.

(** A chunk that was sent is the front of what was left. *)
Lemma take_front (d : bytes) k : take (length d - length (drop k d)) d = take k d /\ d = take k d ++ drop k d.
Proof.
  split; [|by rewrite take_drop]. rewrite length_drop. destruct (decide (k <= length d)%nat).
  - f_equal. lia.
  - rewrite !take_ge; [done|lia..].
Qed.

Lemma write_iter_sent lv s d s' wire rest :
  write_iter lv s d = WriteSent s' wire rest ->
  sid_ s' = sid_ s /\ exists k, rest = drop k d /\ wire = encodeData [] (sid_ s) (take k d) /\
    (0 <= lv_max_data_frame lv -> zlen (take k d) <= lv_max_data_frame lv).
Proof.
  unfold write_iter. intros E. repeat case_match; try done. injection E as <- <- <-. cbn. split; [done|].
  eexists. split; [done|]. unfold slice. change (Z.to_nat 0) with 0%nat. rewrite drop_0. split; [done|].
  intros Hm. unfold zlen in *. rewrite length_take. lia.
Qed.

Lemma write_iter_again lv s d s' : write_iter lv s d = WriteAgain s' -> sid_ s' = sid_ s.
Proof. unfold write_iter. intros E. repeat case_match; try done; by injection E as <-. Qed.

Lemma write_iter_done lv s d : write_iter lv s d = WriteReturn None -> d = [].
Proof.
  unfold write_iter. intros E. destruct (Z.eqb_spec (zlen d) 0) as [Hz|].
  - apply length_zero_iff_nil. unfold zlen in Hz. lia.
  - repeat case_match; done.
Qed.

Lemma read_bounded lv cap s d r : 0 <= cap -> read lv cap s = (Return d, r) -> zlen d <= cap.
Proof.
  assert (forall l off n, 0 <= cap -> n <= cap -> zlen (slice l off n : bytes) <= cap) as Hs.
  { intros l off n ? ?. unfold zlen, slice. rewrite length_take. lia. }
  unfold read, read_leftover, read_payload. intros Hc E.
  repeat case_match; simplify_eq/=; rewrite ?zlen_nil; try done; apply Hs; lia.
Qed.

#[export] Instance Session_stream_spec : SessionStreamSpec (SessionEnd C).
Proof.
  split; cbn [ss_read ss_write_move Session_stream].
  - intros n x d x' Hn E. destruct (read (se_link x) n (se_session x)) as [[d'| |] [s1 eff]] eqn:Er; try done.
    injection E as <- _. by eapply read_bounded.
  - intros d x sent rest x' E.
    destruct (write_iter (se_link x) (se_session x) d) as [[st|]|s1|s1 wire rest'| |] eqn:Ew; try done;
      injection E as <- <- _; [done|].
    apply write_iter_sent in Ew as (_ & k & -> & _). destruct (take_front d k) as [-> ?]. done.
  - intros d x x' E.
    destruct (write_iter (se_link x) (se_session x) d) as [[st|]|s1|s1 wire rest'| |] eqn:Ew; try done.
    by eapply write_iter_done.
Qed.

(** The calls of the relay, among the steps of the session. *)
Inductive call_step (lv : LinkView) s : event -> Session C -> Prop :=
  | cs_read d s1 eff : read lv copy_buf s = (Return d, (s1, eff)) -> call_step lv s (mkEvent [] d (enqueued eff)) s1
  | cs_again d s1 : write_iter lv s d = WriteAgain s1 -> call_step lv s ev_none s1
  | cs_sent d s1 wire rest : write_iter lv s d = WriteSent s1 wire rest -> call_step lv s (mkEvent [] [] [wire]) s1
  | cs_shutdown s1 eff : shutdownWrite lv s = (s1, eff) -> call_step lv s (mkEvent [] [] (enqueued eff)) s1
  | cs_close s1 eff : close lv s = (s1, eff) -> call_step lv s (mkEvent [] [] (enqueued eff)) s1.

Lemma call_session_step lv s ev s' : 0 <= lv_max_data_frame lv -> call_step lv s ev s' -> session_step s ev s' /\ ev_in ev = [].
Proof.
  intros Hm []; (split; [|done]); [by eapply (st_read _ lv copy_buf)|by eapply st_write_again|by eapply st_write_sent
    |by eapply st_shutdown|by eapply st_close].
Qed.

(** An invariant of a session's end need only be kept by those; the frames of a
    call carry what it handed over. *)
Definition end_ranges x : Prop :=
  0 <= lv_max_data_frame (se_link x) < 2 ^ 32 /\ 0 <= sid_ (se_session x) < 2 ^ 64.

Lemma session_end_inv (R : SessionEnd C -> bytes -> bytes -> Prop) :
  (forall x g p, R x g p -> end_ranges x) ->
  (forall x g p s1 ev more, R x g p -> call_step (se_link x) (se_session x) ev s1 ->
     sid_ s1 = sid_ (se_session x) -> carries (sid_ (se_session x)) (ev_frames ev) more ->
     R (se_add s1 ev x) (g ++ ev_out ev) (p ++ more)) ->
  EndInvariant R.
Proof.
  intros Hran Hadd.
  assert (forall x g p s1 ev, R x g p -> call_step (se_link x) (se_session x) ev s1 ->
     sid_ s1 = sid_ (se_session x) /\ carries (sid_ (se_session x)) (ev_frames ev) [] ->
     R (se_add s1 ev x) (g ++ ev_out ev) p) as Hctl
    by (intros x g p ? ? ? ? [? ?]; rewrite <- (app_nil_r p); by apply Hadd).
  split; cbn [ss_read ss_write_move ss_shutdownWrite ss_close Session_stream];
    intros x; [intros r x' g p|intros d r x' g p|intros d sent rest x' g p|intros g p..]; intros Hh;
    destruct (Hran _ _ _ Hh) as [Hm Hs].
  - intros E. destruct (read (se_link x) copy_buf (se_session x)) as [[d| |] [s1 eff]] eqn:Er; try done.
    + injection E as <- <-. apply (Hctl x g p s1 (mkEvent [] d (enqueued eff)));
        [done|by eapply cs_read|by apply (read_frames _ _ _ _ _ _ Hs Er)].
    + injection E as <- <-. by rewrite app_nil_r.
  - intros E. destruct (write_iter (se_link x) (se_session x) d) as [[st|]|s1|s1 wire rest'| |] eqn:Ew; try done;
      by injection E as _ <-.
  - intros E. destruct (write_iter (se_link x) (se_session x) d) as [[st|]|s1|s1 wire rest'| |] eqn:Ew; try done;
      injection E as <- <- <-; rewrite <- (app_nil_r g).
    + rewrite (app_nil_r p). apply (Hctl x g p s1 ev_none); [done|by eapply cs_again|].
      split; [by eapply write_iter_again|apply carries_nil].
    + pose proof Ew as Ew'. apply write_iter_sent in Ew' as (Hsid & k & -> & -> & Hk).
      destruct (take_front d k) as [-> _]. specialize (Hk ltac:(lia)).
      apply (Hadd x g p s1 (mkEvent [] [] _)); [done|by eapply cs_sent|done|]. cbn. apply carries_data; [done|lia].
  - destruct (shutdownWrite (se_link x) (se_session x)) as [s1 eff] eqn:Es. rewrite <- (app_nil_r g).
    apply (Hctl x g p s1 (mkEvent [] [] (enqueued eff))); [done|by eapply cs_shutdown|by eapply shutdownWrite_frames].
  - destruct (close (se_link x) (se_session x)) as [s1 eff] eqn:Es. rewrite <- (app_nil_r g).
    apply (Hctl x g p s1 (mkEvent [] [] (enqueued eff))); [done|by eapply cs_close|by eapply close_frames].
Qed.

(** What a session has given and taken: it has run, its reads have returned
    [got], and the frames it enqueued carry [put]. *)
Definition session_history (s0 : Session C) x (got put : bytes) : Prop :=
  session_run s0 (se_events x) (se_session x) /\ returned (se_events x) = got /\
  carries (sid_ s0) (frames_of (se_events x)) put /\ sid_ (se_session x) = sid_ s0 /\ end_ranges x.

Lemma history_add s0 x got put s1 ev more :
  session_history s0 x got put -> session_step (se_session x) ev s1 ->
  sid_ s1 = sid_ (se_session x) -> carries (sid_ (se_session x)) (ev_frames ev) more ->
  session_history s0 (se_add s1 ev x) (got ++ ev_out ev) (put ++ more).
Proof.
  intros (Hr & <- & Hc & Hs & Hm) Hst Hsid Hf. unfold session_history, end_ranges, se_add in *.
  cbn [se_session se_link se_events]. rewrite returned_snoc, frames_of_snoc, Hsid.
  split; [by econstructor|]. split; [done|]. split; [|done]. rewrite Hs in Hf. by apply carries_app.
Qed.

#[export] Instance session_history_inv s0 : EndInvariant (session_history s0).
Proof.
  apply session_end_inv; [by intros x g p (_ & _ & _ & _ & ?)|]. intros x g p s1 ev more Hh Hc.
  pose proof Hh as (_ & _ & _ & _ & Hm & _). apply call_session_step in Hc as [? _]; [|lia]. by apply history_add.
Qed.

#[export] Instance session_history_event s0 : EventInvariant (session_history s0).
Proof.
  intros x x' g p Hh. cbn [ss_event Session_stream]. intros [ev s1 Hc|lv Hlv].
  - apply reader_call_frames in Hc as (Hsid & Ho & Hf & Hst).
    rewrite <- (app_nil_r p). replace g with (g ++ ev_out ev) by (by rewrite Ho, app_nil_r).
    apply history_add; [done..|]. rewrite Hf. apply carries_nil.
  - destruct Hh as (? & ? & ? & ? & Hr). unfold session_history, end_ranges in *. cbn. by rewrite Hlv.
Qed.
End SessionEndFacts.

(** ** Termination between two sockets *)

Section TcpRelay.
Implicit Types a b src dst : TcpSocketStream.
Implicit Types s : Bidi TcpSocketStream TcpSocketStream.

Definition tcp_any src : Prop := True.
Definition tcp_left src : nat := length (stream (t_sock src)).

#[export] Instance Tcp_ready : ReadyStream tcp_any tcp_left tcp_idle tcp_blocked.
Proof.
  unfold tcp_left. split; cbn [ss_read ss_write_move ss_shutdownWrite ss_close Tcp_stream]; try by split.
  - intros t _. destruct (Tcp.read copy_buf t) as [[r s1]|] eqn:Er; [|by eapply tcp_read_none]. split; [done|].
    destruct (tcp_read_cases _ _ _ Er) as [(-> & st & ->)|[(-> & -> & _)|(d & sk & -> & Hd & Es & ->)]];
      (split; [done|]); cbn [t_sock length]; rewrite ?Es, ?length_app; lia.
  - intros d t _. destruct (Tcp.write_move d t) as [m|] eqn:Ew; [|by eapply tcp_write_none].
    destruct (tcp_write_cases d t _ Ew) as [(-> & ->)|[(st & ws & -> & _)|(sent & rest & ws & -> & Hne & _ & _ & _ & ->)]];
      [done..|]. split; [done|]. split; [done|]. rewrite length_app. destruct sent; [done|]. cbn. lia.
Qed.

(** A socket whose peer ends its stream one way or the other and goes on
    reading: it never waits for ever. *)
Definition lively src : Prop := t_end src <> PeerStays /\ Forall (fun w => w <> Blocks) (t_writes src).

#[export] Instance Tcp_lively : ReadyStream lively tcp_left never never.
Proof.
  unfold tcp_left, lively. split; cbn [ss_read ss_write_move ss_shutdownWrite ss_close Tcp_stream]; try by split.
  - intros t Hv. pose proof (ready_read (P := tcp_any) t I) as Hr. cbn [ss_read Tcp_stream] in Hr.
    destruct (Tcp.read copy_buf t) as [[r s1]|] eqn:Er; [|by destruct Hr as (_ & _ & ?), Hv].
    split; [|apply Hr].
    by destruct (tcp_read_cases _ _ _ Er) as [(-> & _)|[(-> & _)|(d & sk & _ & _ & _ & ->)]].
  - intros d t [He Hw]. pose proof (ready_write (P := tcp_any) d t I) as Hr. cbn [ss_write_move Tcp_stream] in Hr.
    destruct (Tcp.write_move d t) as [m|] eqn:Ew.
    + destruct (tcp_write_cases d t _ Ew) as [(-> & ->)|[(st & ws & -> & Hp & _)|(sent & rest & ws & -> & Hne & _ & _ & Hp & ->)]];
        (split; [|apply Hr]); cbn [t_end t_writes]; auto.
    + destruct Hr as (_ & _ & Hh). destruct (t_writes t) as [|w ws]; [done|]. cbn in Hh. injection Hh as ->.
      apply Forall_cons in Hw as [Hb _]. by destruct Hb.
Qed.

(** What a step leaves alone. *)
Definition half_frame src dst src' dst' : Prop :=
  stream (t_sock dst') = stream (t_sock dst) /\ t_end src' = t_end src /\ t_end dst' = t_end dst /\
  t_writes src' = t_writes src /\ t_out src' = t_out src /\ t_shut src' = t_shut src /\
  t_closed src' = t_closed src /\ t_closed dst' = t_closed dst.

Lemma tcp_half_step pc src dst pc' e src' dst' :
  half_step pc src dst = Some (pc', e, src', dst') -> half_frame src dst src' dst'.
Proof.
  unfold half_frame. destruct pc as [|d|d| | |]; cbn [half_step ss_read ss_write_begin ss_write_move Tcp_stream].
  - destruct (Tcp.read copy_buf src) as [[r s1]|] eqn:Er; [|done].
    destruct (tcp_read_cases _ _ _ Er) as [(-> & st & ->)|[(-> & -> & _)|(d & sk & -> & Hd & Es & ->)]];
      [by intros [= <- <- <- <-]..|].
    rewrite (proj2 (Z.eqb_neq _ _)) by lia. by intros [= <- <- <- <-].
  - by intros [= <- <- <- <-].
  - destruct (Tcp.write_move d dst) as [m|] eqn:Ew; [|done].
    destruct (tcp_write_cases d dst _ Ew) as [(-> & ->)|[(st & ws & -> & _)|(sent & rest & ws & -> & Hne & _ & _ & _ & ->)]];
      by intros [= <- <- <- <-].
  - by intros [= <- <- <- <-].
  - done.
  - done.
Qed.

(** Nothing but the relay moves it. *)
Lemma tcp_step_turn s s' : bidi_step s s' -> turn_step s s'.
Proof. intros [t ? E|? []|? []]. by exists t. Qed.
Lemma turn_step_bidi s s' : turn_step s s' -> bidi_step s s'.
Proof. intros [t E]. by econstructor. Qed.

Lemma tcp_relay_ready P Q iA kA iB kB `{!ReadyStream P tcp_left iA kA, !ReadyStream Q tcp_left iB kB} a b s :
  P a -> Q b -> rtc bidi_step (bidi_init a b) s -> relay_ready P Q s.
Proof.
  intros Ha Hb. apply (rtc_ind_r (relay_ready _ _)); [done|]. intros s1 s2 _ Hst%tcp_step_turn Hr.
  by apply (relay_turn_ready P tcp_left iA kA Q tcp_left iB kB _ _ Hst Hr).
Qed.

(** A socket that neither fails nor is shut or closed yet. *)
Definition clean src : Prop := t_end src = PeerCloses /\ Forall takes (t_writes src).

Lemma clean_lively src : clean src -> lively src.
Proof.
  intros [E Hw]. split; [by rewrite E|]. eapply Forall_impl; [exact Hw|]. by intros w [k ->].
Qed.
Definition fresh src : Prop := t_shut src = false /\ t_closed src = false.

(** One direction of an undisturbed relay. *)
Definition clean_half src dst (pc : HalfPc) (f : Flow) : Prop :=
  clean src /\ clean dst /\ t_shut dst = bool_decide (pc = HDone) /\
  (pc_ended pc = true -> stream (t_sock src) = []) /\ fl_lost f = [].

Lemma clean_half_step pc f src dst pc' e src' dst' :
  half_step pc src dst = Some (pc', e, src', dst') -> t_closed src = false -> t_closed dst = false ->
  clean_half src dst pc f -> clean_half src' dst' pc' (flow_add f e).
Proof.
  unfold clean_half. intros E C1 C2 (Hs & Hd & Hsh & He & Hl). cbn [flow_add fl_lost]. rewrite Hl. cbn [app].
  revert E. destruct pc as [|d|d| | |]; cbn [half_step ss_read ss_write_begin ss_write_move Tcp_stream].
  - destruct (Tcp.read copy_buf src) as [[r s1]|] eqn:Er; [|done].
    destruct (tcp_read_cases _ _ _ Er) as [(-> & st & ->)|[(-> & -> & Es & _)|(d & sk & -> & Hd' & Es & ->)]].
    + intros _. revert Er. unfold Tcp.read. rewrite C1. destruct (_ =? 0); [|by destruct (sock_read_some _ _)].
      destruct Hs as [-> _]. done.
    + intros [= <- <- <- <-]. done.
    + rewrite (proj2 (Z.eqb_neq _ _)) by lia. intros [= <- <- <- <-]. done.
  - intros [= <- <- <- <-]. done.
  - destruct (Tcp.write_move d dst) as [m|] eqn:Ew; [|done].
    destruct (tcp_write_cases d dst _ Ew) as [(-> & ->)|[(st & ws & -> & _ & Hw)|(sent & rest & ws & -> & Hne & _ & _ & Hws & ->)]];
      intros [= <- <- <- <-]; cbn; [done| |].
    + destruct Hd as [_ Hd]. apply Hw in Hd as [E|E]; [congruence|by rewrite Hsh in E].
    + split; [done|]. split; [|done]. destruct Hd as [? Hd]. split; [done|]. by apply Hws.
  - intros [= <- <- <- <-]. cbn. split; [done|]. split; [done|]. split; [done|]. split; [|done]. intros _. by apply He.
  - done.
  - done.
Qed.

Lemma clean_half_frame src dst src' dst' pc f :
  half_frame src dst src' dst' -> clean src' -> clean dst' -> clean_half dst src pc f -> clean_half dst' src' pc f.
Proof.
  intros (Hd & _ & _ & _ & _ & Hsh & _) C1 C2 (_ & _ & E & He & Hl). unfold clean_half. rewrite Hd, Hsh. done.
Qed.

Definition bidi_clean s : Prop :=
  clean_half (b_a s) (b_b s) (ab s) (fab s) /\ clean_half (b_b s) (b_a s) (ba s) (fba s) /\
  t_closed (b_a s) = finished s /\ t_closed (b_b s) = finished s /\
  (finished s = true -> ab s = HDone /\ ba s = HDone).

Lemma bidi_clean_turn t s s' : bidi_turn t s = Some s' -> bidi_clean s -> bidi_clean s'.
Proof.
  unfold bidi_clean. intros E (H1 & H2 & Ca & Cb & Hf). destruct t; cbn [bidi_turn] in E.
  - destruct (half_step (ab s) (b_a s) (b_b s)) as [[[[pc e] a'] b']|] eqn:Es; [|done]. injection E as <-.
    cbn [ab ba fab fba b_a b_b finished].
    destruct (finished s); [destruct (Hf eq_refl) as [E1 _]; by rewrite E1 in Es|].
    pose proof (clean_half_step _ _ _ _ _ _ _ _ Es Ca Cb H1) as H1'. pose proof (tcp_half_step _ _ _ _ _ _ _ Es) as Hfr.
    split; [done|]. split; [eapply clean_half_frame; [done|apply H1'..|done]|].
    destruct Hfr as (_ & _ & _ & _ & _ & _ & -> & ->). done.
  - destruct (half_step (ba s) (b_b s) (b_a s)) as [[[[pc e] b'] a']|] eqn:Es; [|done]. injection E as <-.
    cbn [ab ba fab fba b_a b_b finished].
    destruct (finished s); [destruct (Hf eq_refl) as [_ E1]; by rewrite E1 in Es|].
    pose proof (clean_half_step _ _ _ _ _ _ _ _ Es Cb Ca H2) as H2'. pose proof (tcp_half_step _ _ _ _ _ _ _ Es) as Hfr.
    split; [eapply clean_half_frame; [done|apply H2'..|done]|]. split; [done|].
    destruct Hfr as (_ & _ & _ & _ & _ & _ & -> & ->). done.
  - destruct (ab s) eqn:E1, (ba s) eqn:E2, (finished s); try done. injection E as <-.
    destruct H1 as (? & ? & ? & ? & ?), H2 as (_ & _ & ? & ? & ?). unfold clean_half.
    cbn [ab ba fab fba b_a b_b finished ss_close Tcp_stream]. split_and!; done.
Qed.

Lemma bidi_clean_run a b s :
  clean a -> clean b -> fresh a -> fresh b -> rtc bidi_step (bidi_init a b) s -> bidi_clean s.
Proof.
  intros Ca Cb [Sa Fa] [Sb Fb]. apply (rtc_ind_r bidi_clean).
  - unfold bidi_clean, clean_half. cbn. rewrite Sa, Sb, Fa, Fb. naive_solver.
  - intros s1 s2 _ [t E]%tcp_step_turn. by apply (bidi_clean_turn t).
Qed.

Lemma lively_stuck a b s :
  lively a -> lively b -> rtc bidi_step (bidi_init a b) s -> (forall s', ~ turn_step s s') -> finished s = true.
Proof.
  intros Va Vb Hr Hst.
  destruct (relay_ready_progress lively tcp_left never never lively tcp_left never never s
              (tcp_relay_ready lively lively never never never never a b s Va Vb Hr) Hst) as (H1 & H2 & Hf).
  apply half_rests_never in H1, H2. by apply Hf.
Qed.

(** What an undisturbed relay has done when it returns. *)
Lemma clean_finished a b s :
  clean a -> clean b -> fresh a -> fresh b -> rtc bidi_step (bidi_init a b) s -> finished s = true ->
  t_out (b_b s) = t_out b ++ stream (t_sock a) /\ t_out (b_a s) = t_out a ++ stream (t_sock b) /\
  t_shut (b_a s) = true /\ t_shut (b_b s) = true /\ t_closed (b_a s) = true /\ t_closed (b_b s) = true.
Proof.
  intros Ca Cb Fa Fb Hr Hf. destruct (bidi_clean_run a b s Ca Cb Fa Fb Hr) as (H1 & H2 & Cla & Clb & Hpc).
  destruct (Hpc Hf) as [E1 E2]. rewrite Hf in Cla, Clb.
  destruct (ends_ok_run (tcp_history a) (tcp_history b) a b s Hr) as [(Ia & Oa) (Ib & Ob)];
    [by unfold tcp_history; rewrite app_nil_r..|].
  destruct (bidi_ok_run a b s Hr) as ((Hab & _) & (Hba & _) & _).
  destruct H1 as (_ & _ & Sb & Da & La), H2 as (_ & _ & Sa & Db & Lb).
  rewrite E1 in *. rewrite E2 in *. cbn in Hab, Hba. rewrite La, app_nil_r in Hab. rewrite Lb, app_nil_r in Hba.
  rewrite (Da eq_refl), app_nil_r in Ia. rewrite (Db eq_refl), app_nil_r in Ib.
  rewrite Ia, Ib, Oa, Ob, Hab, Hba. done.
Qed.
End TcpRelay.

(** ** Properties *)

Section PipeProperties.

(** The relay is lossless, whatever its ends are and however the two
    directions, the ends and the rest of the world interleave: in each direction
    the bytes handed over are exactly the first of the bytes read, in order; those
    not handed over yet are in the 32 KiB buffer of that direction, and any others
    are the tail left by a write that failed, after which that direction has
    stopped; and the ends are closed only when both directions are done. *)
Theorem relay_lossless `{SessionStream A, !SessionStreamSpec A, SessionStream B, !SessionStreamSpec B} (a : A) (b : B) s :
  rtc bidi_step (bidi_init a b) s ->
  fl_got (fab s) = fl_put (fab s) ++ in_flight (ab s) ++ fl_lost (fab s) /\
  fl_got (fba s) = fl_put (fba s) ++ in_flight (ba s) ++ fl_lost (fba s) /\
  zlen (in_flight (ab s)) <= copy_buf /\ zlen (in_flight (ba s)) <= copy_buf /\
  (fl_lost (fab s) <> [] -> pc_ended (ab s) = true) /\ (fl_lost (fba s) <> [] -> pc_ended (ba s) = true) /\
  (finished s = true -> ab s = HDone /\ ba s = HDone).
Proof. intros Hr. destruct (bidi_ok_run a b s Hr) as ((? & ? & ?) & (? & ? & ?) & ?). done. Qed.

(** A logical session relayed to a socket, end to end and under every
    interleaving with the link's reader: the socket has been sent a prefix of the
    payload bytes the link delivered, and while the inbox is open every other
    byte is accounted for (in the relay's buffer, left by a failed write, or
    pending in the session); in the other direction, the frames the session
    enqueued carry exactly the first bytes the socket's peer sent, in order. *)
Theorem session_relay_faithful `{AbslOps} {C : Type -> Type} `{ChannelSpec C}
    sid target pw ow lv (b : TcpSocketStream) (s : Bidi (SessionEnd C) TcpSocketStream) :
  0 <= sid < 2 ^ 64 -> 0 <= ow < 2 ^ 32 -> 0 <= lv_max_data_frame lv < 2 ^ 32 -> t_out b = [] ->
  rtc bidi_step (bidi_init (mkEnd (Session_new (C := C) sid target pw ow TCP) lv []) b) s ->
  (exists lost, received (se_events (b_a s))
     = t_out (b_b s) ++ in_flight (ab s) ++ fl_lost (fab s) ++ pending (se_session (b_a s)) ++ lost /\
     (inbox_open (se_session (b_a s)) -> lost = [])) /\
  (exists sent, carries sid (frames_of (se_events (b_a s))) sent /\
     stream (t_sock b) = sent ++ in_flight (ba s) ++ fl_lost (fba s) ++ stream (t_sock (b_b s))).
Proof.
  intros Hsid Ho Hm Hout Hr. set (s0 := Session_new sid target pw ow TCP) in Hr.
  destruct (ends_ok_run (session_history s0) (tcp_history b) _ _ _ Hr) as [(Hrun & Hret & Hcar & _) (Hin & Hputs)].
  { unfold session_history. cbn. split; [constructor|]. split; [done|]. split; [apply carries_nil|done]. }
  { unfold tcp_history. by rewrite app_nil_r. }
  destruct (bidi_ok_run _ _ _ Hr) as ((Hab & _) & (Hba & _) & _). split.
  - destruct (run_stream _ _ _ Hrun (Session_new_wf _ _ _ _ _ Ho)) as (lost & E & Hl). exists lost.
    split; [|by intros; apply Hl]. rewrite Hputs, Hout. cbn [app]. unfold s0 in E. rewrite pending_new in E. cbn [app] in E.
    rewrite E, Hret, Hab, <- !app_assoc. done.
  - exists (fl_put (fba s)). split; [done|]. by rewrite Hin, Hba, <- !app_assoc.
Qed.

(** C23. A relay between two sockets ends, under every schedule: the number of
    steps is bounded by the bytes the peers send, and where it stops each
    direction is over, or waits for a socket whose peer stays connected and sends
    nothing, or reads nothing, any more.  When both peers end their streams and go
    on reading it has returned; and when neither socket fails either, both sockets
    are closed and each peer has been sent exactly what the other one sent,
    followed by the end of the stream. *)
Theorem tcp_relay_terminates (a b : TcpSocketStream) :
  (forall n s, nsteps bidi_step n (bidi_init a b) s ->
     (n <= 8 * (length (stream (t_sock a)) + length (stream (t_sock b))) + 7)%nat) /\
  (forall s, rtc bidi_step (bidi_init a b) s -> (forall s', ~ bidi_step s s') ->
     (half_rests tcp_idle tcp_blocked (ab s) (b_a s) (b_b s) /\
      half_rests tcp_idle tcp_blocked (ba s) (b_b s) (b_a s) /\
      (ab s = HDone -> ba s = HDone -> finished s = true)) /\
     (lively a -> lively b -> finished s = true) /\
     (clean a -> clean b -> fresh a -> fresh b ->
        finished s = true /\
        t_out (b_b s) = t_out b ++ stream (t_sock a) /\ t_out (b_a s) = t_out a ++ stream (t_sock b) /\
        t_shut (b_a s) = true /\ t_shut (b_b s) = true /\ t_closed (b_a s) = true /\ t_closed (b_b s) = true)).
Proof.
  split.
  - intros n s Hn. apply (nsteps_congruence id turn_step) in Hn; [|intros ? ?; apply tcp_step_turn].
    apply (relay_turns_bounded tcp_any tcp_left tcp_idle tcp_blocked tcp_any tcp_left tcp_idle tcp_blocked) in Hn as [_ Hb]; [|done].
    unfold relay_measure, half_measure, tcp_left in Hb. cbn [bidi_init id ab ba b_a b_b finished] in Hb. lia.
  - intros s Hr Hstuck.
    assert (forall s', ~ turn_step s s') as Hst by (intros s' Hs'; by apply (Hstuck s'), turn_step_bidi).
    split; [by apply (relay_ready_progress tcp_any tcp_left tcp_idle tcp_blocked tcp_any tcp_left tcp_idle tcp_blocked),
              Hst; apply (tcp_relay_ready tcp_any tcp_any tcp_idle tcp_blocked tcp_idle tcp_blocked a b)|].
    split; [intros Va Vb; by apply (lively_stuck a b)|].
    intros Ca Cb Fa Fb. pose proof (lively_stuck a b s (clean_lively a Ca) (clean_lively b Cb) Hr Hst) as Hf.
    split; [done|]. by apply (clean_finished a b).
Qed.

(** When it does not end: end of file on one side alone does not end the
    relay.  Once that direction is done, and as long as the other side has
    nothing to read, nothing in the relay can move and it has not returned. *)
Theorem relay_waits_for_both `{SessionStream A, !SessionStreamSpec A, SessionStream B, !SessionStreamSpec B} (a : A) (b : B) s :
  rtc bidi_step (bidi_init a b) s -> ab s = HDone -> ba s = HRead -> ss_read copy_buf (b_b s) = None ->
  finished s = false /\ forall t, bidi_turn t s = None.
Proof.
  intros Hr E1 E2 Ei. destruct (bidi_ok_run a b s Hr) as (_ & _ & Hf). split.
  - destruct (finished s); [|done]. destruct (Hf eq_refl) as [_ E]. by rewrite E in E2.
  - intros t. destruct t; cbn [bidi_turn]; rewrite ?E1, ?E2; cbn [half_step]; [done| |done]. by rewrite Ei.
Qed.
End PipeProperties.

(** ** Witnesses *)

Lemma bidi_run_rtc `{SessionStream A, SessionStream B} ts (s : Bidi A B) : rtc bidi_step s (bidi_run ts s).
Proof.
  revert s. induction ts as [|t ts IH]; intros s; cbn [bidi_run]; [done|].
  destruct (bidi_turn t s) as [s'|] eqn:E; [|done]. eapply rtc_l; [by econstructor|]. apply IH.
Qed.

Definition sample_tcp (input : bytes) (sp : list Z) (ws : list PutResult) : TcpSocketStream :=
  mkTcp (mkSock input sp) PeerCloses ws [] false false.
Definition tcp_a : TcpSocketStream := sample_tcp (lit "hello world") [3; 4] [Takes 1; Takes 100].
Definition tcp_b : TcpSocketStream := sample_tcp (lit "pong") [2] [Takes 2; Takes 1].
Fixpoint alternate (n : nat) : list Turn := match n with O => [] | S n => TurnAB :: TurnBA :: TurnFinish :: alternate n end.

Lemma relay_lossless_witness :
  let s := bidi_run [TurnAB; TurnAB; TurnAB; TurnBA] (bidi_init tcp_a tcp_b) in
  fl_got (fab s) = lit "hel" /\ fl_put (fab s) = lit "he" /\ fl_got (fab s) = fl_put (fab s) ++ lit "l".
Proof.
  intros s. split; [by vm_compute|]. split; [by vm_compute|].
  destruct (relay_lossless tcp_a tcp_b s) as (E & _); [apply bidi_run_rtc|]. rewrite E. by vm_compute.
Defined.

#[local] Existing Instance reference_absl.
Definition sample_session : SessionEnd fifo :=
  mkEnd (Session_new 7 (fromDomain (lit "h") 80) 1000 1000 TCP) (mkLinkView true false 4) [].

Lemma session_relay_faithful_witness :
  let s1 := se_add (onData (Some (lit "abc")) (se_session sample_session)) (mkEvent (lit "abc") [] []) sample_session in
  let s := bidi_run (alternate 5) (mkBidi s1 tcp_b HRead HRead (mkFlow [] [] []) (mkFlow [] [] []) false) in
  t_out (b_b s) = lit "abc" /\ exists sent, carries 7 (frames_of (se_events (b_a s))) sent.
Proof.
  intros s1 s. split; [by vm_compute|].
  destruct (session_relay_faithful 7 (fromDomain (lit "h") 80) 1000 1000 (mkLinkView true false 4) tcp_b s) as (_ & sent & Hc & _);
    [lia|lia|cbn; lia|done| |by exists sent].
  eapply rtc_l; [|apply bidi_run_rtc]. apply (bidi_event_a (bidi_init sample_session tcp_b) s1).
  apply sv_reader. apply (rc_data _ (Some (lit "abc"))).
Defined.

Lemma tcp_relay_terminates_witness :
  let s := bidi_run (alternate 20) (bidi_init tcp_a tcp_b) in
  finished s = true /\ t_out (b_b s) = lit "hello world" /\ t_out (b_a s) = lit "pong".
Proof.
  assert (forall t, bidi_turn t (bidi_run (alternate 20) (bidi_init tcp_a tcp_b)) = None) as Hstuck
    by (intros t; destruct t; by vm_compute).
  intros s. destruct (tcp_relay_terminates tcp_a tcp_b) as [_ H].
  destruct (H s) as (_ & _ & Hc); [apply bidi_run_rtc| |].
  - intros s' [t E]%tcp_step_turn. unfold s in E. by rewrite Hstuck in E.
  - assert (clean tcp_a) as Ca by (split; [done|]; constructor; [by eexists|]; constructor; [by eexists|]; constructor).
    assert (clean tcp_b) as Cb by (split; [done|]; constructor; [by eexists|]; constructor; [by eexists|]; constructor).
    destruct (Hc Ca Cb) as (Hf & E1 & E2 & _); [by split..|]. clearbody s. split; [exact Hf|]. split; [exact E1|exact E2].
Defined.

Lemma relay_waits_for_both_witness :
  let s := bidi_run [TurnAB; TurnAB] (bidi_init (sample_tcp [] [] []) sample_session) in
  finished s = false /\ forall t, bidi_turn t s = None.
Proof. intros s. apply (relay_waits_for_both (sample_tcp [] [] []) sample_session); [apply bidi_run_rtc|by vm_compute..]. Defined.
