(* ===== verification/Tunnel.v ===== *)
(** * The tunnel: a proxied connection from end to end

    What a user of the program gets: a client's socket relayed by the near
    process (outbound/shine_outbound.cpp, [bidiCopy] between the client's stream
    and a session of a link) to the far process (inbound/shine_inbound.cpp and
    outbound/direct_outbound.cpp, [bidiCopy] between the accepted session and the
    target's socket).  The state composes the two relays of Pipe.v with the
    frames travelling each way; the steps are the turns of the relays, the calls
    each link's reader makes for the frame at the head of its wire, and the ways
    a link can fail. *)
From stdpp Require Import gmap relations.
From S2P Require Import Prelude Absl Buffer Resp2 ShineFrame Address Request Channel Socket Session Link Pipe.
From Stdlib Require Import Strings.Byte.

Section Delivery.
Context `{AbslOps} {C : Type -> Type} `{ChannelOps C}.
Implicit Types s : Session C.

(** The call [Link::dispatchFrame] makes on the session a frame is for. *)
Definition deliver (f : ShineFrame bytes) s : option (Session C) :=
  match f with
  | DataFrame _ payload => Some (onData (Some payload) s)
  | UdpDataFrame _ addr_blob payload =>
      match parseBinary addr_blob with Ok addr => Some (onUdpData (Some payload) addr s) | _ => None end
  | CloseFrame _ _ => Some (onPeerClose s)
  | ResetFrame _ => Some (onReset s)
  | WindowFrame _ delta => Some (onWindow delta s)
  | _ => None
  end.
End Delivery.

Section Tunnel.
Context `{AbslOps} {C : Type -> Type} `{ChannelOps C}.
Implicit Types x y : SessionEnd C.

Record Tunnel := mkTunnel {
  near : Bidi TcpSocketStream (SessionEnd C);    (* client socket, session of the dialling link *)
  far : Bidi (SessionEnd C) TcpSocketStream;     (* session of the accepting link, target socket *)
  up : list bytes;                               (* frames enqueued by near, not yet read by far *)
  down : list bytes;
}.

Definition on_a {A B} (g : A -> A) (s : Bidi A B) : Bidi A B :=
  mkBidi (g (b_a s)) (b_b s) (ab s) (ba s) (fab s) (fba s) (finished s).
Definition on_b {A B} (g : B -> B) (s : Bidi A B) : Bidi A B :=
  mkBidi (b_a s) (g (b_b s)) (ab s) (ba s) (fab s) (fba s) (finished s).

(** [enqueueFrame] of what a turn of the relay that took [x] to [y] sent: a
    closed link takes no frame. *)
Definition link_up x : bool := negb (lv_closed (se_link x)).
Definition sent_since x y : list bytes := drop (length (frames_of (se_events x))) (frames_of (se_events y)).
Definition enqueue x (fs wire : list bytes) : list bytes := if link_up x then wire ++ fs else wire.

(** The reader goes on while the link is up and no [onData] suspends it. *)
Definition reading x : bool := link_up x && negb (inbox_full (se_session x)).

(** The reader dispatches a frame: a session that is [Closed] is no longer in
    [sessions_], and its frames are dropped. *)
Definition recv_frame (f : ShineFrame bytes) x : SessionEnd C :=
  if bool_decide (state_ (se_session x) = Closed) then x
  else match deliver f (se_session x) with
       | Some s1 => se_add s1 (mkEvent (frame_data f) [] []) x
       | None => x
       end.

(** [closeNow] and [failLink], as a session sees them. *)
Definition link_closeNow x : SessionEnd C :=
  mkEnd (se_session x) (mkLinkView (lv_alive (se_link x)) true (lv_max_data_frame (se_link x))) (se_events x).
Definition link_fail x : SessionEnd C :=
  let x1 := link_closeNow x in se_add (onReset (se_session x1)) ev_none x1.

(** [gracefulShutdown] announces the end of each session in the table. *)
Definition announced x : list bytes :=
  if bool_decide (state_ (se_session x) = Closed) then [] else [encodeClose [] (sid_ (se_session x)) (lit "shutdown")].

Inductive tunnel_step (T : Tunnel) : Tunnel -> Prop :=
  | tn_near t n : bidi_turn t (near T) = Some n ->
      tunnel_step T
        (mkTunnel n (far T) (enqueue (b_b (near T)) (sent_since (b_b (near T)) (b_b n)) (up T)) (down T))
  | tn_far t n : bidi_turn t (far T) = Some n ->
      tunnel_step T
        (mkTunnel (near T) n (up T) (enqueue (b_a (far T)) (sent_since (b_a (far T)) (b_a n)) (down T)))
  | tn_up f rest : up T = encodeFrame [] f :: rest -> frame_fits f -> reading (b_a (far T)) = true ->
      tunnel_step T (mkTunnel (near T) (on_a (recv_frame f) (far T)) rest (down T))
  | tn_down f rest : down T = encodeFrame [] f :: rest -> frame_fits f -> reading (b_b (near T)) = true ->
      tunnel_step T (mkTunnel (on_b (recv_frame f) (near T)) (far T) (up T) rest)
  | tn_near_closed g : link_up (b_b (near T)) = true -> g = link_closeNow \/ g = link_fail ->
      tunnel_step T (mkTunnel (on_b g (near T)) (far T) (up T) (down T))
  | tn_far_closed g : link_up (b_a (far T)) = true -> g = link_closeNow \/ g = link_fail ->
      tunnel_step T (mkTunnel (near T) (on_a g (far T)) (up T) (down T))
  | tn_cut_up k : link_up (b_b (near T)) = false ->
      tunnel_step T (mkTunnel (near T) (far T) (take k (up T)) (down T))
  | tn_cut_down k : link_up (b_a (far T)) = false ->
      tunnel_step T (mkTunnel (near T) (far T) (up T) (take k (down T)))
  | tn_near_announce :
      tunnel_step T
        (mkTunnel (near T) (far T) (enqueue (b_b (near T)) (announced (b_b (near T))) (up T)) (down T))
  | tn_far_announce :
      tunnel_step T
        (mkTunnel (near T) (far T) (up T) (enqueue (b_a (far T)) (announced (b_a (far T))) (down T))).

(** [openSession] at the near link and [acceptSession] at the far one, the NEW
    frame read and the ACK on its way: [wn] and [wf] are the windows the two
    links are configured with. *)
Definition tunnel_init (sid : Z) (target : Address) (wn wf : Z) (mn mf : Z) (client remote : TcpSocketStream) : Tunnel :=
  mkTunnel
    (bidi_init client (mkEnd (Session_new sid target wn wn TCP) (mkLinkView true false mn) []))
    (bidi_init (mkEnd (Session_new sid target wn wf TCP) (mkLinkView true false mf) []) remote)
    [] [encodeAck [] sid].
End Tunnel.
Arguments Tunnel : clear implicits.

(** ** Invariant *)

Section WireFacts.
Context `{AbslOps, !AbslSpec} {C : Type -> Type} `{ChannelSpec C}.
Implicit Types x y : SessionEnd C.

Lemma encode_frames_inj sid fs gs :
  Forall (session_frame sid) fs -> Forall (session_frame sid) gs ->
  encodeFrame [] <$> fs = encodeFrame [] <$> gs -> fs = gs.
Proof.
  intros Hf. revert gs. induction Hf as [|f fs [Hff _] Hf IH]; intros [|g gs] Hg E; try done.
  apply Forall_cons in Hg as [[Hgf _] Hg]. injection E as E1 E2. f_equal; [by apply encodeFrame_inj|auto].
Qed.

(** What was appended to a wire is what the data grew by. *)
Lemma carries_more sid ws d ws' d' :
  carries sid ws d -> carries sid (ws ++ ws') d' -> exists e, carries sid ws' e /\ d' = d ++ e.
Proof.
  intros (fs & -> & Hf & <-) (gs & E & Hg & <-).
  symmetry in E. apply fmap_app_inv in E as (g1 & g2 & E1 & E2 & ->).
  apply Forall_app in Hg as [Hg1 Hg2]. apply (encode_frames_inj sid) in E1 as <-; [|done..].
  exists (frames_data g2). split; [by exists g2|]. apply frames_data_app.
Qed.

Lemma carries_head sid f ws d :
  frame_fits f -> carries sid (encodeFrame [] f :: ws) d ->
  session_frame sid f /\ exists d', carries sid ws d' /\ d = frame_data f ++ d'.
Proof.
  intros Hf (fs & E & Hfs & <-). destruct fs as [|g fs]; [done|]. injection E as E ->.
  apply Forall_cons in Hfs as [Hg Hfs]. apply encodeFrame_inj in E as ->; [|done|apply Hg].
  split; [done|]. exists (frames_data fs). split; [by exists fs|done].
Qed.

Lemma carries_take sid ws d k : carries sid ws d -> exists d' e, carries sid (take k ws) d' /\ d = d' ++ e.
Proof.
  intros (fs & -> & Hf & <-). exists (frames_data (take k fs)), (frames_data (drop k fs)).
  split; [|by rewrite <- frames_data_app, take_drop].
  exists (take k fs). rewrite fmap_take. split; [done|]. split; [by apply Forall_take|done].
Qed.

(** One direction between the sessions: of the [put] the sender enqueued, the
    receiver was handed the first part; the rest came after the receiver was
    closed, is on the wire, or was lost with the link of the sender. *)
Definition wire_ok (sid : Z) (wire : list bytes) (put : bytes) (sender : SessionEnd C) (receiver : SessionEnd C) : Prop :=
  exists late d cut, carries sid wire d /\ put = received (se_events receiver) ++ late ++ d ++ cut /\
    (late <> [] -> state_ (se_session receiver) = Closed) /\ (cut <> [] -> link_up sender = false).

(** [y] is [x] after turns of its relay. *)
Definition turned x (y : SessionEnd C) (_ _ : bytes) : Prop :=
  exists evs, se_events y = se_events x ++ evs /\ received evs = [] /\ se_link y = se_link x /\
    state_le (state_ (se_session x)) (state_ (se_session y)) = true /\ end_ranges y.

#[export] Instance turned_inv x : EndInvariant (turned x).
Proof.
  apply session_end_inv; [by intros y g p (? & _ & _ & _ & _ & ?)|].
  intros y g p s1 ev more (evs & E & Hr & Hl & Hs & Hran) Hst Hsid _. exists (evs ++ [ev]).
  apply call_session_step in Hst as [Hst Hev]; [|by apply Hran].
  unfold end_ranges, se_add in *. cbn [se_events se_link se_session].
  rewrite E, <- app_assoc, received_snoc, Hr, Hev, Hsid. split; [done|]. split; [done|]. split; [done|].
  split; [|done]. eapply state_le_trans; [exact Hs|]. by eapply step_state.
Qed.

Lemma turned_sent x y g p : turned x y g p -> frames_of (se_events y) = frames_of (se_events x) ++ sent_since x y.
Proof.
  intros (evs & E & _). unfold sent_since. rewrite E. unfold frames_of.
  rewrite fmap_app, join_app, drop_app_length. done.
Qed.
End WireFacts.

Section TunnelInvariant.
Context `{AbslOps, !AbslSpec} {C : Type -> Type} `{ChannelSpec C}.
Implicit Types x y : SessionEnd C.

Lemma wire_ok_sent sid wire put x new e y r r' :
  wire_ok sid wire put x r -> link_up y = link_up x -> carries sid new e ->
  se_events r' = se_events r -> se_session r' = se_session r ->
  wire_ok sid (enqueue x new wire) (put ++ e) y r'.
Proof.
  intros (late & d & cut & Hc & -> & Hl & Hk) Hup Hn Er Es. unfold wire_ok, enqueue. rewrite Er, Es, Hup.
  destruct (link_up x) eqn:Hx.
  - assert (cut = []) as -> by (destruct cut; [done|]; by discriminate Hk).
    exists late, (d ++ e), []. split; [by apply carries_app|]. split; [|done]. by rewrite !app_nil_r, <- !app_assoc.
  - exists late, d, (cut ++ e). split; [done|]. split; [|done]. by rewrite <- !app_assoc.
Qed.

Lemma wire_ok_turned sid wire put x r r' g p : wire_ok sid wire put x r -> turned r r' g p -> wire_ok sid wire put x r'.
Proof.
  intros (late & d & cut & Hc & -> & Hl & Hk) (evs & E & Hr & _ & Hs & _). exists late, d, cut. split; [done|].
  split; [|split; [|done]].
  - unfold received in *. by rewrite E, fmap_app, join_app, Hr, app_nil_r.
  - intros Hne. specialize (Hl Hne). rewrite Hl in Hs. by destruct (state_ (se_session r')).
Qed.

Lemma wire_ok_recv sid wire put x r f rest :
  frame_fits f -> wire = encodeFrame [] f :: rest -> wire_ok sid wire put x r -> wire_ok sid rest put x (recv_frame f r).
Proof.
  intros Hf -> (late & d & cut & Hc & -> & Hl & Hk). apply carries_head in Hc as (_ & d' & Hc & ->); [|done].
  unfold recv_frame. case_bool_decide as Hst.
  - exists (late ++ frame_data f), d', cut. split; [done|]. split; [|done]. by rewrite <- !app_assoc.
  - assert (late = []) as -> by (destruct late; [done|]; by destruct Hst; apply Hl).
    exists [], d', cut. split; [done|]. split; [|done]. destruct (deliver f (se_session r)) eqn:Ed.
    + unfold se_add. cbn [se_events]. by rewrite received_snoc, <- !app_assoc.
    + by destruct f.
Qed.

Lemma wire_ok_take sid wire put x r k :
  link_up x = false -> wire_ok sid wire put x r -> wire_ok sid (take k wire) put x r.
Proof.
  intros Hx (late & d & cut & Hc & -> & Hl & Hk). destruct (carries_take _ _ _ k Hc) as (d' & e & Hc' & ->).
  exists late, d', (e ++ cut). split; [done|]. split; [|done]. by rewrite <- !app_assoc.
Qed.

(** A link that fails takes nothing from either direction. *)
Lemma wire_ok_down sid wire put x r (g : SessionEnd C -> SessionEnd C) :
  g = link_closeNow \/ g = link_fail -> wire_ok sid wire put x r ->
  wire_ok sid wire put (g x) r /\ wire_ok sid wire put x (g r).
Proof.
  intros Hg (late & d & cut & Hc & -> & Hl & Hk). split; exists late, d, cut; (split; [done|]).
  - split; [done|]. split; [done|]. intros _. by destruct Hg as [->| ->].
  - destruct Hg as [->| ->]; [done|]. split; [|done]. unfold link_fail, se_add. cbn [se_events link_closeNow].
    by rewrite received_snoc, app_nil_r.
Qed.

#[export] Instance any_inv {S : Type} `{SessionStream S} : EndInvariant (fun (_ : S) _ _ => True).
Proof. by split. Qed.
#[export] Instance any_event {S : Type} `{SessionStream S} : EventInvariant (fun (_ : S) _ _ => True).
Proof. done. Qed.

Lemma end_turned s0 x y g p g' p' :
  session_history s0 x g p -> session_history s0 y g' p' -> turned x y [] [] ->
  link_up y = link_up x /\ exists e, p' = p ++ e /\ carries (sid_ s0) (sent_since x y) e.
Proof.
  intros (_ & _ & Hcx & _) (_ & _ & Hcy & _) Ht. rewrite (turned_sent _ _ _ _ Ht) in Hcy.
  destruct Ht as (_ & _ & _ & El & _). split; [unfold link_up; by rewrite El|].
  destruct (carries_more _ _ _ _ _ Hcx Hcy) as (e & ? & ?). by exists e.
Qed.

Lemma turned_refl s0 x g p : session_history s0 x g p -> turned x x [] [].
Proof.
  intros (_ & _ & _ & _ & Hm). exists []. rewrite app_nil_r.
  do 3 (split; [done|]). split; [apply state_le_refl|exact Hm].
Qed.

(** The invariant: both relays are accounted for, and so are both wires. *)
Definition tunnel_inv (sn sf : Session C) (c0 t0 : TcpSocketStream) (T : Tunnel C) : Prop :=
  (ends_ok (tcp_history c0) (session_history sn) (near T) /\ bidi_ok (near T)) /\
  (ends_ok (session_history sf) (tcp_history t0) (far T) /\ bidi_ok (far T)) /\
  wire_ok (sid_ sn) (up T) (fl_put (fab (near T))) (b_b (near T)) (b_a (far T)) /\
  wire_ok (sid_ sf) (down T) (fl_put (fba (far T))) (b_a (far T)) (b_b (near T)).

Lemma near_turn_ok sn sf c0 t0 T t n :
  bidi_turn t (near T) = Some n -> tunnel_inv sn sf c0 t0 T ->
  tunnel_inv sn sf c0 t0
    (mkTunnel n (far T) (enqueue (b_b (near T)) (sent_since (b_b (near T)) (b_b n)) (up T)) (down T)).
Proof.
  intros Et ((Hn & Hbn) & Hf & Hu & Hd). pose proof Hn as [_ Hsn].
  destruct (ends_ok_turn (tcp_history c0) (session_history sn) _ _ _ Et Hn) as [Ha' Hs'].
  destruct (ends_ok_turn (fun _ _ _ => True) (turned (b_b (near T))) _ _ _ Et) as [_ Ht];
    [split; [done|by eapply turned_refl]|].
  destruct (end_turned _ _ _ _ _ _ _ Hsn Hs' Ht) as (Hup & e & Ep & Hc).
  split; [|split; [done|split]]; cbn [near far up down].
  - split; [done|]. by eapply bidi_ok_turn.
  - rewrite Ep. by eapply wire_ok_sent.
  - eapply wire_ok_turned; [exact Hd|exact Ht].
Qed.

Lemma far_turn_ok sn sf c0 t0 T t n :
  bidi_turn t (far T) = Some n -> tunnel_inv sn sf c0 t0 T ->
  tunnel_inv sn sf c0 t0
    (mkTunnel (near T) n (up T) (enqueue (b_a (far T)) (sent_since (b_a (far T)) (b_a n)) (down T))).
Proof.
  intros Et (Hn & (Hf & Hbf) & Hu & Hd). pose proof Hf as [Hsf _].
  destruct (ends_ok_turn (session_history sf) (tcp_history t0) _ _ _ Et Hf) as [Hs' Hb'].
  destruct (ends_ok_turn (turned (b_a (far T))) (fun _ _ _ => True) _ _ _ Et) as [Ht _];
    [split; [by eapply turned_refl|done]|].
  destruct (end_turned _ _ _ _ _ _ _ Hsf Hs' Ht) as (Hup & e & Ep & Hc).
  split; [done|split; [|split]]; cbn [near far up down].
  - split; [done|]. by eapply bidi_ok_turn.
  - eapply wire_ok_turned; [exact Hu|exact Ht].
  - rewrite Ep. by eapply wire_ok_sent.
Qed.
Lemma recv_event f x : frame_fits f -> recv_frame f x = x \/ session_event x (recv_frame f x).
Proof.
  intros [Hf _]. unfold recv_frame. case_bool_decide; [by left|].
  destruct f; try done; cbn [deliver frame_data]; try (by left); try destruct (parseBinary _); try (by left);
    right; apply sv_reader.
  - apply rc_close.
  - apply rc_reset.
  - by apply rc_window, Hf.
  - apply (rc_data _ (Some payload)).
  - apply (rc_udp_data _ (Some payload)).
Qed.

(** The events of the tunnel are events of the session's end. *)
Lemma down_inv (R : SessionEnd C -> bytes -> bytes -> Prop) `{!EventInvariant R} x g p (f : SessionEnd C -> SessionEnd C) :
  f = link_closeNow \/ f = link_fail -> R x g p -> R (f x) g p.
Proof.
  intros Hf Hh. assert (R (link_closeNow x) g p) as Hc by (eapply inv_event; [exact Hh|by apply sv_link]).
  destruct Hf as [->| ->]; [done|]. eapply inv_event; [exact Hc|]. by apply sv_reader, rc_reset.
Qed.

Lemma recv_inv (R : SessionEnd C -> bytes -> bytes -> Prop) `{!EventInvariant R} x g p f : frame_fits f -> R x g p -> R (recv_frame f x) g p.
Proof. intros Hf Hh. destruct (recv_event f x Hf) as [->|He]; [done|]. by eapply inv_event. Qed.

(** An invariant of the ends is one of the tunnel. *)
Lemma tunnel_ends_step (Rc Rt : TcpSocketStream -> bytes -> bytes -> Prop) (Rn Rf : SessionEnd C -> bytes -> bytes -> Prop)
    `{!EndInvariant Rc, !EndInvariant Rt, !EndInvariant Rn, !EndInvariant Rf, !EventInvariant Rn, !EventInvariant Rf} T T' :
  tunnel_step T T' -> ends_ok Rc Rn (near T) /\ ends_ok Rf Rt (far T) -> ends_ok Rc Rn (near T') /\ ends_ok Rf Rt (far T').
Proof.
  intros Hst [Hn Hf]. destruct Hst as [t n E|t n E|f rest E Hfit Hl|f rest E Hfit Hl|g Hl Hg|g Hl Hg|k Hl|k Hl| |];
    try done; (split; [|done]) || (split; [done|]); try (by eapply ends_ok_turn);
    destruct Hn as [Hna Hnb], Hf as [Hfa Hfb]; (split; [|done]) || (split; [done|]); by apply recv_inv || by apply down_inv.
Qed.

(** The sender is only looked at for whether its link is up. *)
Lemma wire_ok_sender sid wire put x y r : link_up y = link_up x -> wire_ok sid wire put x r -> wire_ok sid wire put y r.
Proof. intros E (late & d & cut & Hc & Ep & Hl & Hk). exists late, d, cut. by rewrite E. Qed.
Lemma recv_frame_up f x : link_up (recv_frame f x) = link_up x.
Proof. unfold recv_frame. repeat case_match; done. Qed.

Lemma wire_ok_announced s0 x g p wire put r :
  session_history s0 x g p -> wire_ok (sid_ s0) wire put x r -> wire_ok (sid_ s0) (enqueue x (announced x) wire) put x r.
Proof.
  intros (_ & _ & _ & Hs & _ & Hr) Hw. rewrite <- (app_nil_r put). eapply wire_ok_sent; try done.
  unfold announced. case_bool_decide; [apply carries_nil|]. rewrite Hs in *.
  apply (carries_one (sid_ s0) (CloseFrame (sid_ s0) (lit "shutdown"))). split; [by apply close_fits|done].
Qed.

Lemma tunnel_inv_step sn sf c0 t0 T T' : tunnel_step T T' -> tunnel_inv sn sf c0 t0 T -> tunnel_inv sn sf c0 t0 T'.
Proof.
  intros Hst Hinv. destruct Hst as [t n E|t n E|f rest E Hf Hl|f rest E Hf Hl|g Hl Hg|g Hl Hg|k Hl|k Hl| |];
    [by apply (near_turn_ok _ _ _ _ _ t)|by apply (far_turn_ok _ _ _ _ _ t)|..];
    destruct Hinv as (((Hnc & Hns) & Hbn) & ((Hfs & Hft) & Hbf) & Hu & Hd);
    (split; [split; [split|]|split; [split; [split|]|split]]); cbn [near far up down on_a on_b b_a b_b ab ba fab fba finished];
    try done; eauto using wire_ok_recv, wire_ok_take, wire_ok_announced; try (by apply (recv_inv (session_history _))); try (by apply (down_inv (session_history _))).
  all: try (eapply wire_ok_sender; [apply recv_frame_up|done]); by eapply wire_ok_down.
Qed.
End TunnelInvariant.

(** ** A receiver that was closed by its peer *)

Section Deaf.
Context `{AbslOps, !AbslSpec} {C : Type -> Type} `{ChannelSpec C}.
Implicit Types s : Session C.

(** No partly read payload, and the peer's half is closed. *)
Definition deaf s : Prop := leftover_ s = None /\ (state_ s = HalfClosedRemote \/ state_ s = Closed).

Lemma deaf_read lv cap s : deaf s -> read lv cap s = (Return [], (s, no_effects)).
Proof. intros [El [E|E]]; unfold read; by rewrite El, E. Qed.

Lemma deaf_step s ev s' : session_step s ev s' -> deaf s -> deaf s' /\ ev_out ev = [].
Proof.
  intros Hst Hd. pose proof (step_state _ _ _ Hst) as Hle.
  assert (forall s1, leftover_ s1 = leftover_ s -> state_le (state_ s) (state_ s1) = true -> deaf s1) as Hk.
  { destruct Hd as [El Hs]. intros s1 E1 Hl. split; [congruence|]. destruct Hs as [E|E]; rewrite E in Hl;
      destruct (state_ s1); try discriminate Hl; auto. }
  assert (forall s1, receive_path s1 = receive_path s -> leftover_ s1 = leftover_ s) as Hp by (by intros s1 [= _ E _]).
  destruct Hst; cbn [ev_out ev_none]; try (split; [apply Hk; [|exact Hle]|done]).
  - rewrite (deaf_read lv cap s Hd) in *. by simplify_eq.
  - apply Hp. eapply write_iter_path; eauto.
  - apply Hp. eapply write_iter_path; eauto.
  - by eapply Hp, shutdownWrite_path.
  - match goal with H : close _ _ = _ |- _ => apply close_path in H; by injection H end.
  - apply Hp. eapply sendTo_path; eauto.
  - apply Hp. eapply receiveFrom_path; eauto.
  - unfold onData. by repeat case_match.
  - apply Hp, onUdpData_path.
  - done.
  - unfold onPeerClose. by destruct (state_ s).
  - done.
Qed.

Lemma close_deaf sid reason (x : SessionEnd C) :
  state_le Open (state_ (se_session x)) = true -> leftover_ (se_session x) = None ->
  deaf (se_session (recv_frame (CloseFrame sid reason) x)).
Proof.
  intros Ho El. unfold recv_frame. case_bool_decide as Hs; [by split; [|right]|].
  cbn [deliver se_add se_session]. unfold onPeerClose, deaf. destruct (state_ (se_session x)) eqn:E; try discriminate Ho; cbn; auto.
Qed.

Definition deaf_end (g0 : bytes) (x : SessionEnd C) (got _ : bytes) : Prop :=
  deaf (se_session x) /\ got = g0 /\ end_ranges x.

Lemma deaf_end_add g0 x got p s1 ev p' :
  deaf_end g0 x got p -> session_step (se_session x) ev s1 -> sid_ s1 = sid_ (se_session x) ->
  deaf_end g0 (se_add s1 ev x) (got ++ ev_out ev) p'.
Proof.
  intros (Hd & -> & Hr) Hst Hsid. destruct (deaf_step _ _ _ Hst Hd) as [? ->]. unfold deaf_end, end_ranges in *. cbn.
  by rewrite app_nil_r, Hsid.
Qed.

#[export] Instance deaf_end_inv g0 : EndInvariant (deaf_end g0).
Proof.
  apply session_end_inv; [by intros x g p (_ & _ & ?)|]. intros x g p s1 ev more Hd Hc Hs _.
  apply call_session_step in Hc as [Hst _]; [|by apply Hd]. by eapply deaf_end_add.
Qed.

#[export] Instance deaf_end_event g0 : EventInvariant (deaf_end g0).
Proof.
  intros x x' g p Hd. cbn [ss_event Session_stream]. intros [ev s1 Hc|lv Hlv].
  - apply reader_call_frames in Hc as (Hsid & Ho & Hf & Hst). rewrite <- (app_nil_r g), <- Ho. by eapply deaf_end_add.
  - destruct Hd as (? & ? & Hr). unfold deaf_end, end_ranges in *. cbn. by rewrite Hlv.
Qed.
End Deaf.

(** ** Properties *)

Section TunnelProperties.
Context `{AbslOps, !AbslSpec} {C : Type -> Type} `{ChannelSpec C}.

(** Where every byte of one direction is: [input] is what one user of the
    tunnel sends in its whole life, [output] what the other has been sent.  In
    order: the receiving relay's buffer and what a failed write left; the
    receiving session; what that session refused because it was closed; the wire;
    what was lost with the sender's link; the sending relay; the socket. *)
Definition accounted (sid : Z) (input output : bytes) (rx : HalfPc) (frx : Flow) (receiver : SessionEnd C)
    (wire : list bytes) (sender : SessionEnd C) (tx : HalfPc) (ftx : Flow) (left : bytes) : Prop :=
  exists lost late d cut, carries sid wire d /\
    input = output ++ (in_flight rx ++ fl_lost frx) ++ (pending (se_session receiver) ++ lost) ++ late ++ d ++ cut ++
            (in_flight tx ++ fl_lost ftx) ++ left /\
    (inbox_open (se_session receiver) -> lost = []) /\
    (late <> [] -> state_ (se_session receiver) = Closed) /\ (cut <> [] -> link_up sender = false) /\
    (fl_lost frx <> [] -> pc_ended rx = true) /\ (fl_lost ftx <> [] -> pc_ended tx = true) /\
    zlen (in_flight rx) <= copy_buf /\ zlen (in_flight tx) <= copy_buf.

Lemma direction_accounted sid target pw ow input left output rx frx receiver wire sender tx ftx g :
  0 <= ow < 2 ^ 32 -> input = fl_got ftx ++ left -> flow_ok tx ftx -> wire_ok sid wire (fl_put ftx) sender receiver ->
  session_history (Session_new sid target pw ow TCP) receiver (fl_got frx) g -> flow_ok rx frx -> output = fl_put frx ->
  accounted sid input output rx frx receiver wire sender tx ftx left.
Proof.
  intros Ho Hin (Htx & Ltx & Btx) (late & d & cut & Hc & Hput & Hl & Hk) (Hrun & Hret & _) (Hrx & Lrx & Brx) ->.
  destruct (run_stream _ _ _ Hrun (Session_new_wf _ _ _ _ _ Ho)) as (lost & E & Hop).
  rewrite pending_new in E. cbn [app] in E.
  exists lost, late, d, cut. split; [done|]. split; [|split_and!; try done; intros; by apply Hop].
  rewrite Hin, Htx, Hput, E, Hret, Hrx, <- !app_assoc. done.
Qed.

Lemma tunnel_init_inv sid target wn wf mn mf client remote :
  0 <= sid < 2 ^ 64 -> 0 <= mn < 2 ^ 32 -> 0 <= mf < 2 ^ 32 ->
  tunnel_inv (Session_new sid target wn wn TCP) (Session_new sid target wn wf TCP) client remote
    (tunnel_init (C := C) sid target wn wf mn mf client remote).
Proof.
  intros Hs Hmn Hmf.
  assert (forall s0 m, sid_ s0 = sid -> 0 <= m < 2 ^ 32 -> session_history s0 (mkEnd s0 (mkLinkView true false m) []) [] []) as Hh.
  { intros s0 m E Hm. split; [constructor|]. split; [done|]. split; [apply carries_nil|]. split; [done|]. unfold end_ranges. cbn. by rewrite E. }
  assert (forall t, tcp_history t t [] []) as Ht by (intros t; split; [done|by rewrite app_nil_r]).
  split; [|split; [|split]]; cbn [near far up down tunnel_init b_a b_b bidi_init fab fba fl_put sid_ Session_new].
  - split; [|by apply (bidi_ok_run client _ _ (rtc_refl _ _))]. split; [apply Ht|by apply Hh].
  - split; [|by apply (bidi_ok_run _ remote _ (rtc_refl _ _))]. split; [by apply Hh|apply Ht].
  - exists [], [], []. split; [apply carries_nil|done].
  - exists [], [], []. split; [|done]. apply (carries_one sid (AckFrame sid)). split; [|done]. by apply ack_fits.
Qed.

Lemma tunnel_inv_run sid target wn wf mn mf client remote T :
  0 <= sid < 2 ^ 64 -> 0 <= mn < 2 ^ 32 -> 0 <= mf < 2 ^ 32 ->
  rtc tunnel_step (tunnel_init (C := C) sid target wn wf mn mf client remote) T ->
  tunnel_inv (Session_new sid target wn wn TCP) (Session_new sid target wn wf TCP) client remote T.
Proof.
  intros Hs Hmn Hmf. apply (rtc_ind_r (tunnel_inv _ _ client remote)); [by apply tunnel_init_inv|].
  intros ? ? _. apply tunnel_inv_step.
Qed.

Lemma tunnel_accounted sid target wn wf mn mf client remote (T : Tunnel C) :
  0 <= sid < 2 ^ 64 -> 0 <= wn < 2 ^ 32 -> 0 <= wf < 2 ^ 32 -> 0 <= mn < 2 ^ 32 -> 0 <= mf < 2 ^ 32 ->
  t_out client = [] -> t_out remote = [] ->
  rtc tunnel_step (tunnel_init sid target wn wf mn mf client remote) T ->
  accounted sid (stream (t_sock client)) (t_out (b_b (far T))) (ab (far T)) (fab (far T)) (b_a (far T))
    (up T) (b_b (near T)) (ab (near T)) (fab (near T)) (stream (t_sock (b_a (near T)))) /\
  accounted sid (stream (t_sock remote)) (t_out (b_a (near T))) (ba (near T)) (fba (near T)) (b_b (near T))
    (down T) (b_a (far T)) (ba (far T)) (fba (far T)) (stream (t_sock (b_b (far T)))).
Proof.
  intros Hsid Hwn Hwf Hmn Hmf Hc0 Ht0 Hr.
  destruct (tunnel_inv_run _ _ _ _ _ _ _ _ _ Hsid Hmn Hmf Hr)
    as (((Hc & Hsn) & (Hnab & Hnba & _)) & ((Hsf & Ht) & (Hfab & Hfba & _)) & Hu & Hd).
  destruct Hc as [Hci Hco], Ht as [Hti Hto]. rewrite Hc0 in Hco. rewrite Ht0 in Hto.
  split; [eapply (direction_accounted sid target wn wf)|eapply (direction_accounted sid target wn wn)]; eauto.
Qed.

Lemma accept_taken sid win a proto (L : Link C) p q s :
  heap_ L !! p = Some s -> sessions_ L !! sid = Some q ->
  heap_ (acceptSession sid win a proto L) !! p = Some s /\ sessions_ (acceptSession sid win a proto L) !! sid = Some q.
Proof.
  intros Hs Hq. destruct (acceptSession_fields sid win a proto L) as (-> & -> & _).
  unfold emplace. rewrite Hq. split; [|done]. rewrite lookup_app_l; [done|]. by eapply lookup_lt_Some.
Qed.

(** C21. The reader's step of the tunnel is what [dispatchFrame] does on a whole
    link: the frame makes one call on the session registered under its id, which
    leaves the table exactly when the call closed it; a frame for an id that is
    not in the table changes no session. *)
Theorem dispatch_delivers now f (L : Link C) sid :
  frame_sid f = Some sid ->
  (forall p s, sessions_ L !! sid = Some p -> heap_ L !! p = Some s -> state_ s <> Closed ->
     let s' := default s (deliver f s) in
     heap_ (dispatchFrame now f L) !! p = Some s' /\
     sessions_ (dispatchFrame now f L) !! sid = if bool_decide (state_ s' = Closed) then None else Some p) /\
  (sessions_ L !! sid = None -> (forall w a, f <> NewFrame sid a w) -> f <> NewUdpFrame sid ->
     heap_ (dispatchFrame now f L) = heap_ L /\ sessions_ (dispatchFrame now f L) = sessions_ L).
Proof.
  intros Hf. split.
  - intros p s Hp Hs Hst s'. subst s'. assert (forall g, heap_ (on_session p g L) !! p = Some (g s)) as Hon
      by (intros g; cbn; by rewrite list_lookup_alter_eq, Hs).
    assert (forall g : Session C -> Session C, state_ (g s) = state_ s -> (if bool_decide (state_ (g s) = Closed) then None else Some p) = Some p) as Hk
      by (intros g ->; by rewrite bool_decide_false).
    pose proof (Hk (fun s => s) eq_refl) as Hks. cbn beta in Hks.
    destruct f as [| | | |i blob win|i|i r|i|i delta|nonce|nonce|i pl|i|i blob pl]; try done; injection Hf as ->;
      cbn [dispatchFrame deliver default]; unfold findSession; rewrite ?Hp; cbn [from_option id]; rewrite ?Hks.
    + destruct (negb _); [done|]. destruct (parseBinary blob); [by apply accept_taken|..];
        by destruct (enqueueFrame_fields (encodeReset [] sid) L) as (-> & -> & _).
    + done.
    + rewrite Hon. destruct (bool_decide (state_ (onPeerClose s) = Closed)); [|by rewrite Hon].
      cbn [eraseSession set_sessions heap_ sessions_]. by rewrite Hon, lookup_delete_eq.
    + cbn [eraseSession set_sessions heap_ sessions_]. by rewrite Hon, lookup_delete_eq.
    + rewrite Hon. by rewrite (Hk (onWindow delta)).
    + rewrite Hon, (Hk (onData (Some pl))); [done|]. unfold onData. by repeat case_match.
    + destruct (negb _); [done|]. by apply accept_taken.
    + destruct (parseBinary blob) as [a| |]; [|by rewrite Hs; cbn [from_option id]; rewrite Hks..]. cbn [from_option id].
      rewrite Hon, (Hk (onUdpData (Some pl) a)); [done|]. apply onUdpData_path.
  - intros Hn Ht Hu.
    destruct f as [| | | |i blob win|i|i r|i|i delta|nonce|nonce|i pl|i|i blob pl]; try done; injection Hf as ->;
      cbn [dispatchFrame]; unfold findSession; rewrite ?Hn; try done. by destruct (Ht win blob).
Qed.

(** C3. The tunnel loses nothing but what a failure or a close explains: in
    every reachable state, whatever the schedule of the two relays and the two
    readers and however the links fail or close, each user of the tunnel has been
    sent a prefix of what the other one sent, in order and unchanged, and each of
    the bytes that follow is accounted for: it is in the relays, in the receiving
    session, on the wire, not read from the socket yet, or lost to a failed write
    of an ended relay, to a closed inbox, to a closed session or to a link that
    went down. *)
Theorem tunnel_faithful sid target wn wf mn mf (client remote : TcpSocketStream) (T : Tunnel C) :
  0 <= sid < 2 ^ 64 -> 0 <= wn < 2 ^ 32 -> 0 <= wf < 2 ^ 32 -> 0 <= mn < 2 ^ 32 -> 0 <= mf < 2 ^ 32 ->
  t_out client = [] -> t_out remote = [] ->
  rtc tunnel_step (tunnel_init sid target wn wf mn mf client remote) T ->
  accounted sid (stream (t_sock client)) (t_out (b_b (far T))) (ab (far T)) (fab (far T)) (b_a (far T))
    (up T) (b_b (near T)) (ab (near T)) (fab (near T)) (stream (t_sock (b_a (near T)))) /\
  accounted sid (stream (t_sock remote)) (t_out (b_a (near T))) (ba (near T)) (fba (near T)) (b_b (near T))
    (down T) (b_a (far T)) (ba (far T)) (fba (far T)) (stream (t_sock (b_b (far T)))).
Proof.
  apply tunnel_accounted.
Qed.
(** C20. What a CLOSE costs, end to end: when the far reader dispatches the CLOSE
    of the sender while the far relay is still inside the write of an earlier
    chunk, what the far session has queued by then is never sent to the target,
    whatever happens afterwards and although nothing has failed.  (A relay that
    waits in [read] has been handed the next message already, so only a relay
    that does not wait loses its inbox.) *)
Theorem close_truncates sid target wn wf mn mf (client remote : TcpSocketStream) (T T' : Tunnel C) reason rest held :
  0 <= sid < 2 ^ 64 -> 0 <= wn < 2 ^ 32 -> 0 <= wf < 2 ^ 32 -> 0 <= mn < 2 ^ 32 -> 0 <= mf < 2 ^ 32 ->
  t_out client = [] -> t_out remote = [] -> zlen reason < 2 ^ 62 ->
  rtc tunnel_step (tunnel_init sid target wn wf mn mf client remote) T ->
  up T = encodeFrame [] (CloseFrame sid reason) :: rest -> reading (b_a (far T)) = true ->
  ab (far T) = HSend held -> leftover_ (se_session (b_a (far T))) = None ->
  rtc tunnel_step (mkTunnel (near T) (on_a (recv_frame (CloseFrame sid reason)) (far T)) rest (down T)) T' ->
  exists more rest', stream (t_sock client) = t_out (b_b (far T')) ++ more ++ pending (se_session (b_a (far T))) ++ rest'.
Proof.
  intros Hsid Hwn Hwf Hmn Hmf Hc0 Ht0 Hreason Hr Hup Hl _ Hleft Hr'.
  destruct (tunnel_accounted sid target wn wf mn mf client remote T) as [(lost & late & d & cut & _ & Hin & _) _]; [done..|].
  destruct (tunnel_inv_run _ _ _ _ _ _ _ _ _ Hsid Hmn Hmf Hr) as (_ & ((Hsf & _ & Hto) & (Hf & _)) & _).
  rewrite Ht0 in Hto. cbn [app] in Hto. rewrite Hto, app_assoc, <- (proj1 Hf) in Hin.
  set (T1 := mkTunnel _ _ _ _) in Hr'. pose proof (close_fits sid reason Hsid Hreason) as Hfits.
  assert (tunnel_step T T1) as Hst by (by apply tn_up).
  set (any := fun (_ : TcpSocketStream) (_ _ : bytes) => True). set (any' := fun (_ : SessionEnd C) (_ _ : bytes) => True).
  assert (ends_ok any any' (near T') /\ ends_ok (deaf_end (fl_got (fab (far T)))) any (far T')) as [_ [(_ & Hgot & _) _]].
  { revert Hr'. apply (rtc_ind_r (fun T' => ends_ok any any' (near T') /\ ends_ok (deaf_end _) any (far T'))).
    - split; [done|]. split; [|done]. split; [apply close_deaf; [by apply (run_state _ _ _ (proj1 Hsf))|done]|]. split; [done|]. by apply (recv_inv (session_history _) _ _ _ _ Hfits) in Hsf as (_ & _ & _ & _ & ?).
    - intros ? ? _. apply tunnel_ends_step; apply _. }
  destruct (tunnel_inv_run sid target wn wf mn mf client remote T' Hsid Hmn Hmf)
    as (_ & ((_ & _ & Hto') & ((Hf' & _) & _)) & _);
    [by etrans; [exact Hr|eapply rtc_l]|].
  rewrite Ht0 in Hto'. cbn [app] in Hto'. rewrite <- Hgot, Hf', <- Hto' in Hin.
  rewrite <- !app_assoc in Hin. rewrite Hin. eexists _, _. rewrite (app_assoc (in_flight _)). reflexivity.
Qed.
End TunnelProperties.

(** ** Witnesses: schedules of the tunnel, executed *)

Section Schedules.
Context `{AbslOps} {C : Type -> Type} `{ChannelOps C}.

Inductive Move := MNear (t : Turn) | MFar (t : Turn) | MUp (f : ShineFrame bytes) | MDown (f : ShineFrame bytes).

(** A move that cannot be made leaves the tunnel as it is. *)
Definition move (m : Move) (T : Tunnel C) : Tunnel C :=
  match m with
  | MNear t =>
      match bidi_turn t (near T) with
      | Some n => mkTunnel n (far T) (enqueue (b_b (near T)) (sent_since (b_b (near T)) (b_b n)) (up T)) (down T)
      | None => T
      end
  | MFar t =>
      match bidi_turn t (far T) with
      | Some n => mkTunnel (near T) n (up T) (enqueue (b_a (far T)) (sent_since (b_a (far T)) (b_a n)) (down T))
      | None => T
      end
  | MUp f =>
      match up T with
      | w :: rest =>
          if bool_decide (w = encodeFrame [] f) && reading (b_a (far T))
          then mkTunnel (near T) (on_a (recv_frame f) (far T)) rest (down T) else T
      | [] => T
      end
  | MDown f =>
      match down T with
      | w :: rest =>
          if bool_decide (w = encodeFrame [] f) && reading (b_b (near T))
          then mkTunnel (on_b (recv_frame f) (near T)) (far T) (up T) rest else T
      | [] => T
      end
  end.
Definition run_moves (ms : list Move) (T : Tunnel C) : Tunnel C := fold_left (fun T m => move m T) ms T.

Definition move_fits (m : Move) : Prop := match m with MUp f | MDown f => frame_fits f | _ => True end.

Lemma run_moves_rtc ms T : Forall move_fits ms -> rtc tunnel_step T (run_moves ms T).
Proof.
  intros Hms. revert T. induction Hms as [|m ms Hm Hms IH]; intros T; [done|].
  cbn [run_moves fold_left]. etrans; [|apply IH]. clear IH. destruct m as [t|t|f|f]; cbn [move].
  - destruct (bidi_turn t (near T)) eqn:E; [|done]. eapply rtc_once, tn_near, E.
  - destruct (bidi_turn t (far T)) eqn:E; [|done]. eapply rtc_once, tn_far, E.
  - destruct (up T) as [|w rest] eqn:E; [done|]. destruct (bool_decide_reflect (w = encodeFrame [] f)) as [->|]; [|done].
    destruct (reading (b_a (far T))) eqn:El; [|done]. by eapply rtc_once, tn_up.
  - destruct (down T) as [|w rest] eqn:E; [done|]. destruct (bool_decide_reflect (w = encodeFrame [] f)) as [->|]; [|done].
    destruct (reading (b_b (near T))) eqn:El; [|done]. by eapply rtc_once, tn_down.
Qed.
End Schedules.

#[local] Existing Instance reference_absl.

(** A client that sends "hello" and closes; a target that sends "hi" and closes. *)
Definition demo_tunnel : Tunnel fifo :=
  tunnel_init 7 (fromDomain (lit "h") 80) 1000 1000 4096 4096
    (sample_tcp (lit "hello") [5] []) (sample_tcp (lit "hi") [2] []).

(** The far session is read as soon as the data is there. *)
Definition demo_prompt : list Move :=
  [MDown (AckFrame 7); MNear TurnAB; MNear TurnAB; MNear TurnAB; MUp (DataFrame 7 (lit "hello"));
   MFar TurnAB; MFar TurnAB; MFar TurnAB; MNear TurnAB; MFar TurnBA; MFar TurnBA; MFar TurnBA; MDown (DataFrame 7 (lit "hi"));
   MNear TurnBA; MNear TurnBA; MNear TurnBA].
(** The relay of the far side gets to run only after the CLOSE came in. *)
Definition demo_late : list Move :=
  [MNear TurnAB; MNear TurnAB; MNear TurnAB; MNear TurnAB; MNear TurnAB; MNear TurnAB; MUp (DataFrame 7 (lit "hello"))].

(** The far relay is still writing "hel" when the reader dispatches "lo". *)
Definition busy_tunnel : Tunnel fifo :=
  tunnel_init 7 (fromDomain (lit "h") 80) 1000 1000 4096 4096
    (sample_tcp (lit "hello") [3; 2] []) (sample_tcp (lit "hi") [2] []).
Definition demo_busy : list Move :=
  repeat (MNear TurnAB) 10 ++
  [MUp (DataFrame 7 (lit "hel")); MFar TurnAB; MFar TurnAB; MUp (DataFrame 7 (lit "lo"))].

Lemma demo_prompt_fits : Forall move_fits demo_prompt.
Proof. repeat (apply Forall_cons; split; [by first [apply ack_fits|apply data_fits|exact I]|]). by apply Forall_nil. Qed.

Lemma demo_late_fits : Forall move_fits demo_late.
Proof. repeat (apply Forall_cons; split; [by first [apply data_fits|exact I]|]). by apply Forall_nil. Qed.

Lemma demo_busy_fits : Forall move_fits demo_busy.
Proof. repeat (apply Forall_cons; split; [by first [apply data_fits|exact I]|]). by apply Forall_nil. Qed.

Lemma tunnel_faithful_witness :
  let T := run_moves demo_prompt demo_tunnel in
  t_out (b_b (far T)) = lit "hello" /\ t_out (b_a (near T)) = lit "hi" /\
  exists rest, lit "hello" = t_out (b_b (far T)) ++ rest.
Proof.
  intros T. assert (rtc tunnel_step demo_tunnel T) as Hr by (apply run_moves_rtc, demo_prompt_fits).
  split; [by vm_compute|]. split; [by vm_compute|]. clearbody T.
  destruct (tunnel_faithful 7 (fromDomain (lit "h") 80) 1000 1000 4096 4096 (sample_tcp (lit "hello") [5] [])
    (sample_tcp (lit "hi") [2] []) T) as [(? & ? & ? & ? & _ & E & _) _];
    [lia..|reflexivity|reflexivity|exact Hr|]. eexists. exact E.
Defined.

Lemma close_truncates_witness :
  let T := run_moves demo_busy busy_tunnel in
  let T1 := mkTunnel (near T) (on_a (recv_frame (CloseFrame 7 [])) (far T)) [] (down T) in
  let T' := run_moves (repeat (MFar TurnAB) 6 ++ repeat (MFar TurnBA) 6 ++ [MFar TurnFinish]) T1 in
  finished (far T') = true /\ t_out (b_b (far T')) = lit "hel" /\
  exists more rest', lit "hello" = t_out (b_b (far T')) ++ more ++ lit "lo" ++ rest'.
Proof.
  intros T T1 T'.
  assert (rtc tunnel_step busy_tunnel T) as Hr by (apply run_moves_rtc, demo_busy_fits).
  assert (rtc tunnel_step T1 T') as Hr'.
  { apply run_moves_rtc. repeat (apply Forall_cons; split; [exact I|]). by apply Forall_nil. }
  assert (finished (far T') = true) as Hf by (by vm_compute). split; [exact Hf|].
  split; [by vm_compute|]. clear Hf. clearbody T'.
  destruct (close_truncates 7 (fromDomain (lit "h") 80) 1000 1000 4096 4096 (sample_tcp (lit "hello") [3; 2] [])
    (sample_tcp (lit "hi") [2] []) T T' [] [] (lit "hel")) as (more & rest' & E);
    try lia; try exact Hr; try exact Hr'; try by vm_compute.
  assert (pending (se_session (b_a (far T))) = lit "lo") as Hp by (by vm_compute).
  rewrite Hp in E. by exists more, rest'.
Defined.

Lemma dispatch_delivers_witness :
  sessions_ accepted_link !! 7 = Some 0%nat /\
  heap_ (dispatchFrame 9 (DataFrame 7 (lit "abc")) accepted_link) !! 0%nat = Some (onData (Some (lit "abc")) accepted_session).
Proof.
  split; [reflexivity|].
  destruct (dispatch_delivers 9 (DataFrame 7 (lit "abc")) accepted_link 7 eq_refl) as [Hd _].
  by apply (Hd 0%nat accepted_session).
Defined.
