(* ===== verification/Teardown.v ===== *)
(** * What a failing link does to the relays on it

    [Link::failLink] resets every session of the link.  Neither direction of a
    relay over such a session can be suspended on the session any more: its reads
    return what was partly read and then end of stream, its writes end with the
    link's error.  What can still hold the relay is the socket at its other end: a
    user who stays connected and sends nothing, or does not read.  Otherwise the
    relay returns, and closes the socket, in a bounded number of its own turns. *)
From S2P Require Import Prelude Absl Buffer Resp2 ShineFrame Address Request Channel Socket Session Link Pipe Tunnel.
From Stdlib Require Import Strings.Byte.

(** ** A session its link has let go of *)

Section Released.
Context `{AbslOps} {C : Type -> Type} `{ChannelSpec C}.
Implicit Types s : Session C.
Implicit Types x : SessionEnd C.

Definition released x : Prop :=
  lv_closed (se_link x) = true /\ 0 < lv_max_data_frame (se_link x) /\ state_ (se_session x) = Closed /\
  - 2 ^ 63 <= send_credit_ (se_session x) < 2 ^ 63 /\ leftover_ok (se_session x) /\
  exists g, credit_signal_ (se_session x) = Some g /\ ch_closed g = true.
Definition left_bytes x : nat := length (leftover_bytes (se_session x)).

Lemma read_closed lv cap s :
  0 <= cap -> state_ s = Closed -> leftover_ok s ->
  exists d s' eff, read lv cap s = (Return d, (s', eff)) /\ leftover_ok s' /\ leftover_bytes s = d ++ leftover_bytes s' /\
    state_ s' = Closed /\ send_credit_ s' = send_credit_ s /\ credit_signal_ s' = credit_signal_ s.
Proof.
  intros Hc Hs Hl. unfold read. rewrite Hs, bool_decide_true by done. cbn [orb].
  destruct (leftover_ s) as [l|] eqn:El; [|by exists [], s, no_effects].
  unfold leftover_ok in Hl. rewrite El in Hl. rewrite (proj2 (Z.ltb_lt _ _)) by lia.
  destruct (read_leftover lv cap l s) as [d [s' eff]] eqn:E.
  destruct (read_leftover_fields _ _ _ _ _ _ _ Hc El Hl E) as (left & off & v & _ & Es & Hok & Hb & _).
  exists d, s', eff. split; [done|]. split; [done|]. split; [done|]. by subst s'.
Qed.

(** A pending write sends what credit is left into the closed link, then ends. *)
Lemma write_closed_link lv s d :
  lv_closed lv = true -> 0 < lv_max_data_frame lv -> - 2 ^ 63 <= send_credit_ s < 2 ^ 63 ->
  (exists g, credit_signal_ s = Some g /\ ch_closed g = true) ->
  (exists st, write_iter lv s d = WriteReturn st) \/
  (exists n, 0 < n <= zlen d /\
     write_iter lv s d = WriteSent (add_bytes_out n (set_credit (i64 (send_credit_ s - n)) s))
       (encodeData [] (sid_ s) (slice d 0 n)) (drop (Z.to_nat n) d)).
Proof.
  intros Hl Hm Hc (g & Hg & Hcl). unfold write_iter. pose proof (zlen_nonneg d).
  destruct (Z.eqb_spec (zlen d) 0); [left; eauto|]. destruct (Z.leb_spec (send_credit_ s) 0) as [Hle|Hgt].
  - left. rewrite Hg, Hl. pose proof (recv_closed_ready _ g Hcl) as Hr.
    destruct (ch_async_receive g) as [[m| |] g']; eauto. done.
  - right. rewrite u64_small by lia.
    exists (Z.min (Z.min (zlen d) (lv_max_data_frame lv)) (send_credit_ s)). split; [lia|].
    by rewrite (proj2 (Z.eqb_neq _ _)) by lia.
Qed.

#[export] Instance released_ready : ReadyStream released left_bytes never never.
Proof.
  unfold left_bytes. split; cbn [ss_read ss_write_move ss_shutdownWrite ss_close Session_stream].
  - intros x (Hl & Hm & Hs & Hc & Hlo & g & Hg & Hcl).
    destruct (read_closed (se_link x) copy_buf (se_session x)) as (d & s' & eff & -> & Hok & Hb & Hs' & Hc' & Hg'); [done..|].
    split; [|split; [done|]].
    + unfold released, se_add. cbn [se_link se_session]. rewrite Hc', Hg'. eauto 10.
    + cbn [se_add se_session]. rewrite Hb, length_app. lia.
  - intros d x (Hl & Hm & Hs & Hc & Hlo & Hg).
    destruct (write_closed_link (se_link x) (se_session x) d Hl Hm Hc Hg) as [[st ->]|(n & Hn & ->)].
    + destruct st; (split; [|by split]); unfold released; eauto 10.
    + split; [|split; [done|rewrite length_drop; unfold zlen in Hn; lia]].
      unfold released, se_add. cbn. eauto 10 with shine.
  - intros x (Hl & Hm & Hs & Hc & Hlo & Hg). unfold shutdownWrite, lv_usable. rewrite Hl, andb_false_r. cbn.
    unfold released, se_add. cbn. eauto 10.
  - intros x (Hl & Hm & Hs & Hc & Hlo & g & Hg & Hcl). unfold close. rewrite Hs, bool_decide_true by done. cbn.
    unfold released, se_add. cbn. rewrite Hg. cbn. split; [|done]. do 5 (split; [done|]). eexists. split; [done|]. apply close_closed.
Qed.

(** What [failLink] makes of a well-formed stream session. *)
Lemma link_fail_released x :
  session_wf (se_session x) -> protocol_ (se_session x) = TCP -> 0 < lv_max_data_frame (se_link x) -> released (link_fail x).
Proof.
  intros (Hr & Ht) Hp Hm. rewrite Hp in Ht. destruct Ht as (_ & Hl & [g Hg] & _). unfold ranges_ok in Hr.
  unfold released, link_fail, se_add. cbn. rewrite Hg. cbn. do 3 (split; [done|]). split; [lia|]. split; [done|].
  eexists. split; [done|]. apply close_closed.
Qed.
End Released.

(** ** Relays that never go through a null pointer, and close what they return *)

Section SafeTurns.
Context {A B : Type} `{SessionStream A, !SessionStreamSpec A, SessionStream B, !SessionStreamSpec B}.

Definition never_ub {S} `{SessionStream S} (s : S) : Prop :=
  (forall s', ss_read copy_buf s <> Some (UB, s')) /\ (forall d s', ss_write_move d s <> Some (WriteDone UB s')).

(** [QA] and [QB] hold of a closed end. *)
Definition safe_relay (QA : A -> Prop) (QB : B -> Prop) (s : Bidi A B) : Prop :=
  ab s <> HUB /\ ba s <> HUB /\ (finished s = true -> QA (b_a s) /\ QB (b_b s)).

Lemma half_safe {X Y} `{SessionStream X, SessionStream Y} pc (src : X) (dst : Y) pc' e src' dst' :
  half_step pc src dst = Some (pc', e, src', dst') -> never_ub src -> never_ub dst -> pc' <> HUB.
Proof.
  intros E [Hr _] [_ Hw]. destruct pc as [|d|d| | |]; cbn [half_step] in E.
  - destruct (ss_read copy_buf src) as [[[d|st|] s1]|] eqn:Er; [destruct (_ =? 0)| | |]; simplify_eq; try done. by edestruct Hr.
  - destruct (ss_write_begin dst); by simplify_eq.
  - destruct (ss_write_move d dst) as [[[u|st|] s1|? ? ?]|] eqn:Ew; simplify_eq; try done. by edestruct Hw.
  - by simplify_eq.
  - done.
  - done.
Qed.

(** Nothing moves once the relay has returned, which closes both ends. *)
Lemma finished_turn QA QB t (s s' : Bidi A B) :
  (forall a, QA (ss_close a)) -> (forall b, QB (ss_close b)) -> bidi_ok s -> bidi_turn t s = Some s' ->
  (finished s = true -> QA (b_a s) /\ QB (b_b s)) -> finished s' = true -> QA (b_a s') /\ QB (b_b s').
Proof.
  intros Qa Qb (_ & _ & Hf) E Hq Hfin. destruct t; cbn [bidi_turn] in E.
  - destruct (half_step (ab s) (b_a s) (b_b s)) as [[[[pc e] a'] b']|] eqn:Es; [|done]. injection E as <-.
    by rewrite (proj1 (Hf Hfin)) in Es.
  - destruct (half_step (ba s) (b_b s) (b_a s)) as [[[[pc e] b'] a']|] eqn:Es; [|done]. injection E as <-.
    by rewrite (proj2 (Hf Hfin)) in Es.
  - destruct (ab s), (ba s), (finished s); try done. injection E as <-. split; [apply Qa|apply Qb].
Qed.

Lemma turn_safe QA QB t (s s' : Bidi A B) :
  (forall a, QA (ss_close a)) -> (forall b, QB (ss_close b)) -> never_ub (b_a s) -> never_ub (b_b s) ->
  bidi_ok s -> bidi_turn t s = Some s' -> safe_relay QA QB s -> safe_relay QA QB s'.
Proof.
  intros Qa Qb Na Nb Hok E (Ua & Ub & Hq). pose proof (finished_turn QA QB t s s' Qa Qb Hok E Hq) as Hq'.
  unfold safe_relay. destruct t; cbn [bidi_turn] in E.
  - destruct (half_step (ab s) (b_a s) (b_b s)) as [[[[pc e] a'] b']|] eqn:Es; [|done]. injection E as <-.
    split; [exact (half_safe _ _ _ _ _ _ _ Es Na Nb)|]. by split.
  - destruct (half_step (ba s) (b_b s) (b_a s)) as [[[[pc e] b'] a']|] eqn:Es; [|done]. injection E as <-.
    split; [done|]. split; [exact (half_safe _ _ _ _ _ _ _ Es Nb Na)|done].
  - destruct (ab s), (ba s), (finished s); try done. injection E as <-. by split; [|split].
Qed.
End SafeTurns.

Section SafeTunnel.
Context `{AbslOps, !AbslSpec} {C : Type -> Type} `{ChannelSpec C}.

Lemma tcp_never_ub (t : TcpSocketStream) : never_ub t.
Proof.
  split; cbn [ss_read ss_write_move Tcp_stream].
  - intros s' E. by destruct (tcp_read_cases _ _ _ E) as [(_ & ? & ?)|[(_ & ? & _)|(? & ? & ? & _)]].
  - intros d s' E. destruct (tcp_write_cases d t _ E) as [(_ & ?)|[(? & ? & ? & _)|(? & ? & ? & _ & _ & _ & _ & _ & ?)]]; done.
Qed.

Lemma session_never_ub (x : SessionEnd C) : session_wf (se_session x) -> protocol_ (se_session x) = TCP -> never_ub x.
Proof.
  intros Hwf Hp. pose proof (no_null_deref _ Hwf) as Hn. rewrite Hp in Hn. destruct Hn as [Hr Hw].
  split; cbn [ss_read ss_write_move Session_stream].
  - intros x' E. specialize (Hr (se_link x) copy_buf). by destruct (read (se_link x) copy_buf (se_session x)) as [[d| |] [s1 eff]].
  - intros d x' E. specialize (Hw (se_link x) d). by destruct (write_iter (se_link x) (se_session x) d) as [[st|]| | | |].
Qed.

Definition socket_closed (t : TcpSocketStream) : Prop := t_closed t = true.
Definition any_session (x : SessionEnd C) : Prop := True.
Definition safe_tunnel (T : Tunnel C) : Prop :=
  safe_relay socket_closed any_session (near T) /\ safe_relay any_session socket_closed (far T).

Lemma history_wf sid target pw ow x g p :
  0 <= ow < 2 ^ 32 -> session_history (Session_new (C := C) sid target pw ow TCP) x g p ->
  session_wf (se_session x) /\ protocol_ (se_session x) = TCP.
Proof.
  intros Ho (Hr & _). split; [eapply run_wf; [exact Hr|by apply Session_new_wf]|by rewrite (run_protocol _ _ _ Hr)].
Qed.

Lemma tunnel_wf sid target wn wf mn mf client remote (T : Tunnel C) :
  0 <= sid < 2 ^ 64 -> 0 <= wn < 2 ^ 32 -> 0 <= wf < 2 ^ 32 -> 0 <= mn < 2 ^ 32 -> 0 <= mf < 2 ^ 32 ->
  rtc tunnel_step (tunnel_init sid target wn wf mn mf client remote) T ->
  (session_wf (se_session (b_b (near T))) /\ protocol_ (se_session (b_b (near T))) = TCP /\ bidi_ok (near T)) /\
  (session_wf (se_session (b_a (far T))) /\ protocol_ (se_session (b_a (far T))) = TCP /\ bidi_ok (far T)).
Proof.
  intros Hs Hwn Hwf Hmn Hmf Hr.
  destruct (tunnel_inv_run sid target wn wf mn mf client remote T Hs Hmn Hmf Hr) as (((_ & Hn) & Bn) & ((Hf & _) & Bf) & _).
  destruct (history_wf _ _ _ _ _ _ _ Hwn Hn), (history_wf _ _ _ _ _ _ _ Hwf Hf). done.
Qed.

Lemma tunnel_safe sid target wn wf mn mf client remote (T : Tunnel C) :
  0 <= sid < 2 ^ 64 -> 0 <= wn < 2 ^ 32 -> 0 <= wf < 2 ^ 32 -> 0 <= mn < 2 ^ 32 -> 0 <= mf < 2 ^ 32 ->
  rtc tunnel_step (tunnel_init sid target wn wf mn mf client remote) T -> safe_tunnel T.
Proof.
  intros Hs Hwn Hwf Hmn Hmf. revert T. apply (rtc_ind_r safe_tunnel); [by repeat split|].
  intros T T' Hr Hst Hsafe.
  destruct (tunnel_wf _ _ _ _ _ _ _ _ _ Hs Hwn Hwf Hmn Hmf Hr) as ((Wn & Pn & Bn) & (Wf & Pf & Bf)).
  destruct Hsafe as [Sn Sf].
  destruct Hst as [t n E|t n E|f rest E Hf Hl|f rest E Hf Hl|g Hl Hg|g Hl Hg|k Hl|k Hl| |]; try by split.
  - split; [|done]. eapply (turn_safe _ _ t (near T)); eauto using tcp_never_ub, session_never_ub; done.
  - split; [done|]. eapply (turn_safe _ _ t (far T)); eauto using tcp_never_ub, session_never_ub; done.
Qed.
End SafeTunnel.

(** ** Properties *)

Section TeardownProperties.
Context `{AbslOps, !AbslSpec} {C : Type -> Type} `{ChannelSpec C}.

(** A link's options never change. *)
Definition frame_limit (m : Z) (x : SessionEnd C) (_ _ : bytes) : Prop :=
  lv_max_data_frame (se_link x) = m /\ end_ranges x.

#[export] Instance frame_limit_inv m : EndInvariant (frame_limit m).
Proof.
  apply session_end_inv; [by intros x g p []|]. intros x g p s1 ev more [Hm Hr] _ Hs _.
  unfold frame_limit, end_ranges in *. cbn. by rewrite Hs.
Qed.
#[export] Instance frame_limit_event m : EventInvariant (frame_limit m).
Proof.
  intros x x' g p [Hm Hr] [ev s1 Hc|lv Hlv]; unfold frame_limit, end_ranges in *; cbn; [|by rewrite Hlv].
  by apply reader_call_frames in Hc as (-> & _).
Qed.

Lemma tunnel_limits sid target wn wf mn mf client remote (T : Tunnel C) :
  0 <= sid < 2 ^ 64 -> 0 <= mn < 2 ^ 32 -> 0 <= mf < 2 ^ 32 ->
  rtc tunnel_step (tunnel_init sid target wn wf mn mf client remote) T ->
  lv_max_data_frame (se_link (b_b (near T))) = mn /\ lv_max_data_frame (se_link (b_a (far T))) = mf.
Proof.
  intros Hs Hmn Hmf Hr. set (any := fun (_ : TcpSocketStream) (_ _ : bytes) => True).
  assert (ends_ok any (frame_limit mn) (near T) /\ ends_ok (frame_limit mf) any (far T)) as [[_ [Hn _]] [[Hf _] _]]; [|done].
  revert Hr. apply (rtc_ind_r (fun T => ends_ok any (frame_limit mn) (near T) /\ ends_ok (frame_limit mf) any (far T))).
  - by repeat split; unfold end_ranges; cbn; try lia.
  - intros ? ? _. apply tunnel_ends_step; apply _.
Qed.

(** Under every schedule of its own turns [s] takes at most [n] of them, and
    where it can take none it is in a state of [Q]. *)
Definition relay_ends {A B : Type} `{SessionStream A, SessionStream B} (s : Bidi A B) (n : nat) (Q : Bidi A B -> Prop) : Prop :=
  (forall k s', nsteps turn_step k s s' -> (k <= n)%nat) /\
  (forall s', rtc turn_step s s' -> (forall s'', ~ turn_step s' s'') -> Q s').

Lemma ready_relay_ends {A B : Type} `{SessionStream A, !SessionStreamSpec A, SessionStream B, !SessionStreamSpec B}
    (PA : A -> Prop) lA iA kA `{!ReadyStream PA lA iA kA} (PB : B -> Prop) lB iB kB `{!ReadyStream PB lB iB kB}
    (QA : A -> Prop) (QB : B -> Prop) (s : Bidi A B) :
  (forall a, QA (ss_close a)) -> (forall b, QB (ss_close b)) -> PA (b_a s) -> PB (b_b s) ->
  safe_relay QA QB s -> bidi_ok s ->
  relay_ends s (8 * (lA (b_a s) + lB (b_b s)) + 2 * (Z.to_nat copy_buf + 5) + 1) (fun s' =>
    half_rests iA kB (ab s') (b_a s') (b_b s') /\ half_rests iB kA (ba s') (b_b s') (b_a s') /\
    (ab s' = HDone -> ba s' = HDone -> finished s' = true /\ QA (b_a s') /\ QB (b_b s'))).
Proof.
  intros Qa Qb Ha Hb (Ua & Ub & Hq) Hok. assert (relay_ready PA PB s) as Hr by done. split.
  - intros k s' Hk. destruct (relay_turns_bounded PA lA iA kA PB lB iB kB _ _ _ Hk Hr) as [_ Hm].
    assert (forall pc n, zlen (in_flight pc) <= copy_buf -> (half_measure pc n <= 8 * n + Z.to_nat copy_buf + 5)%nat) as Hpc
      by (intros pc n Hl; unfold half_measure; destruct pc; unfold zlen in Hl; cbn [in_flight length] in Hl; lia).
    destruct Hok as ((_ & _ & La) & (_ & _ & Lb) & _).
    pose proof (Hpc _ (lA (b_a s)) La). pose proof (Hpc _ (lB (b_b s)) Lb). unfold relay_measure in Hm.
    destruct (finished s); lia.
  - intros s' Hs' Hstuck.
    assert (relay_ready PA PB s' /\ bidi_ok s' /\ (finished s' = true -> QA (b_a s') /\ QB (b_b s'))) as (Hr' & _ & Hq').
    { revert Hs'. apply (rtc_ind_r (fun s' => relay_ready PA PB s' /\ bidi_ok s' /\ (finished s' = true -> QA (b_a s') /\ QB (b_b s')))); [done|].
      intros s1 s2 _ Hst (R1 & B1 & Q1). split; [by apply (relay_turn_ready PA lA iA kA PB lB iB kB _ _ Hst R1)|].
      destruct Hst as [t E]. split; [by eapply bidi_ok_turn|]. by eapply finished_turn. }
    destruct (relay_ready_progress PA lA iA kA PB lB iB kB s' Hr' Hstuck) as (Hab & Hba & Hf).
    split; [done|]. split; [done|]. intros E1 E2. pose proof (Hf E1 E2). split; [done|]. by apply Hq'.
Qed.

(** Where the relay of a failed link can stop.  [from_user] reads the user's
    socket [t], [to_user] writes to it; each is over, or waits for that socket,
    and when both are over [bidiCopy] has returned and closed it. *)
Definition at_rest (t : TcpSocketStream) (from_user to_user : HalfPc) (returned : bool) : Prop :=
  (from_user = HDone \/ (from_user = HRead /\ tcp_idle t)) /\
  (to_user = HDone \/ ((exists d, to_user = HSend d) /\ tcp_blocked t)) /\
  (from_user = HDone -> to_user = HDone -> returned = true /\ t_closed t = true).

Lemma rests_from {B : Type} pc (t : TcpSocketStream) (x : B) :
  half_rests tcp_idle never pc t x -> pc = HDone \/ (pc = HRead /\ tcp_idle t).
Proof. intros [?|[?|[_ []]]]; [by left|by right]. Qed.
Lemma rests_to {A : Type} pc (x : A) (t : TcpSocketStream) :
  half_rests never tcp_blocked pc x t -> pc = HDone \/ ((exists d, pc = HSend d) /\ tcp_blocked t).
Proof. intros [?|[[_ []]|?]]; [by left|by right]. Qed.

(** C9. A link that fails lets go of its relays, in every state a tunnel can be
    in: whatever the relay was suspended on, and however much it still holds, the
    relay on either side takes a number of its own turns bounded by the bytes it
    can still be given, under every schedule.  Where it stops, neither direction
    is suspended on the session: the one from the user is over or waits for a
    user who stays connected and sends nothing, the one to the user is over or
    waits for a user who does not read; and when both are over [bidiCopy] has
    returned and has closed the user's socket. *)
Theorem link_failure_ends_relays sid target wn wf mn mf (client remote : TcpSocketStream) (T : Tunnel C) :
  0 <= sid < 2 ^ 64 -> 0 <= wn < 2 ^ 32 -> 0 <= wf < 2 ^ 32 -> 0 < mn < 2 ^ 32 -> 0 < mf < 2 ^ 32 ->
  rtc tunnel_step (tunnel_init sid target wn wf mn mf client remote) T ->
  relay_ends (on_b link_fail (near T)) (8 * (tcp_left (b_a (near T)) + left_bytes (b_b (near T))) + 2 * (Z.to_nat copy_buf + 5) + 1)
    (fun s => at_rest (b_a s) (ab s) (ba s) (finished s)) /\
  relay_ends (on_a link_fail (far T)) (8 * (left_bytes (b_a (far T)) + tcp_left (b_b (far T))) + 2 * (Z.to_nat copy_buf + 5) + 1)
    (fun s => at_rest (b_b s) (ba s) (ab s) (finished s)).
Proof.
  intros Hs Hwn Hwf Hmn Hmf Hr.
  destruct (tunnel_wf sid target wn wf mn mf client remote T) as ((Wn & Pn & Bn) & (Wf & Pf & Bf)); [done || lia..|].
  destruct (tunnel_safe sid target wn wf mn mf client remote T) as [Sn Sf]; [done || lia..|].
  destruct (tunnel_limits sid target wn wf mn mf client remote T) as [Ln Lf]; [done || lia..|].
  split.
  - destruct (ready_relay_ends tcp_any tcp_left tcp_idle tcp_blocked released left_bytes never never socket_closed any_session
        (on_b link_fail (near T))) as [Hn Hq]; [done..|apply link_fail_released; [done..|lia]|done|done|].
    split; [exact Hn|]. intros s' Hs' Hst. destruct (Hq s' Hs' Hst) as (Hab & Hba & Hf).
    split; [by eapply rests_from|]. split; [by eapply rests_to|]. intros E1 E2. by destruct (Hf E1 E2) as (? & ? & _).
  - destruct (ready_relay_ends released left_bytes never never tcp_any tcp_left tcp_idle tcp_blocked any_session socket_closed
        (on_a link_fail (far T))) as [Hn Hq]; [done..|apply link_fail_released; [done..|lia]|done|done|done|].
    split; [exact Hn|]. intros s' Hs' Hst. destruct (Hq s' Hs' Hst) as (Hab & Hba & Hf).
    split; [by eapply rests_from|]. split; [by eapply rests_to|]. intros E1 E2. by destruct (Hf E2 E1) as (? & _ & ?).
Qed.
End TeardownProperties.

(** ** Witnesses *)

#[local] Existing Instance reference_absl.

Lemma bidi_run_turns {A B : Type} `{SessionStream A, SessionStream B} ts (s : Bidi A B) : rtc turn_step s (bidi_run ts s).
Proof.
  revert s. induction ts as [|t ts IH]; intros s; cbn [bidi_run]; [done|].
  destruct (bidi_turn t s) as [s'|] eqn:E; [|done]. eapply rtc_l; [by exists t|]. apply IH.
Qed.

(** The near relay is suspended on its session when the link fails; the client
    has ended its stream, so the relay returns. *)
Lemma link_failure_ends_relays_witness :
  let T := run_moves demo_late demo_tunnel in
  let s := bidi_run (alternate 20) (on_b link_fail (near T)) in
  bidi_turn TurnBA (near T) = None /\ finished s = true /\ t_closed (b_a s) = true.
Proof.
  intros T s. split; [by vm_compute|].
  assert (forall t, bidi_turn t s = None) as Hstuck by (intros t; destruct t; by vm_compute).
  assert (ab s = HDone) as E1 by (by vm_compute). assert (ba s = HDone) as E2 by (by vm_compute).
  assert (rtc turn_step (on_b link_fail (near T)) s) as Hs by apply bidi_run_turns.
  assert (rtc tunnel_step demo_tunnel T) as Hr by (apply run_moves_rtc, demo_late_fits).
  clearbody s. destruct (link_failure_ends_relays 7 (fromDomain (lit "h") 80) 1000 1000 4096 4096
    (sample_tcp (lit "hello") [5] []) (sample_tcp (lit "hi") [2] []) T) as [[_ Hn] _]; [lia..|exact Hr|].
  destruct (Hn s Hs) as (_ & _ & Hf); [|by apply Hf].
  intros s'' [t E]. by rewrite Hstuck in E.
Defined.

(** A client that stays connected and silent keeps the relay, and its socket,
    after the link is gone: the direction to the client is over, the other one
    stays in [read] and [bidiCopy] waits for both. *)
Definition silent_client : TcpSocketStream := mkTcp (mkSock (lit "hello") [5]) PeerStays [] [] false false.
Lemma silent_client_outlives_link :
  let T := run_moves [MNear TurnAB; MNear TurnAB; MNear TurnAB; MNear TurnAB]
             (tunnel_init (C := fifo) 7 (fromDomain (lit "h") 80) 1000 1000 4096 4096 silent_client (sample_tcp [] [] [])) in
  let s := bidi_run (alternate 20) (on_b link_fail (near T)) in
  (forall t, bidi_turn t s = None) /\ finished s = false /\ t_closed (b_a s) = false /\
  ab s = HRead /\ tcp_idle (b_a s) /\ ba s = HDone.
Proof. intros T s. split; [intros t; destruct t; by vm_compute|]. by vm_compute. Qed.
