(* ===== verification/Backpressure.v ===== *)
(** * Backpressure: what a tunnel holds in memory

    A session's inbox has no bound of its own ([async_send] on a full channel
    suspends a coroutine that holds the payload); what bounds it is the credit of
    the peer.  Between two sessions of this program the credit works for every
    schedule and every failure: a slow target makes the client wait. *)
From stdpp Require Import relations.
From S2P Require Import Prelude Absl Buffer Resp2 ShineFrame Address Request Channel Socket Session FlowControl Link Pipe Tunnel Teardown.
From Stdlib Require Import Strings.Byte.

(** The credit the WINDOW frames among [fs] grant. *)
Definition frame_window (f : ShineFrame bytes) : Z := if f is WindowFrame _ d then d else 0.
Definition frames_window (fs : list (ShineFrame bytes)) : Z := zsum (frame_window <$> fs).

Section CallBudget.
Context `{AbslOps, !AbslSpec} {C : Type -> Type} `{ChannelSpec C}.
Implicit Types s : Session C.

Lemma frames_window_app fs gs : frames_window (fs ++ gs) = frames_window fs + frames_window gs.
Proof. unfold frames_window. by rewrite fmap_app, zsum_app. Qed.

Lemma frames_cons f fs :
  zlen (frames_data (f :: fs)) = zlen (frame_data f) + zlen (frames_data fs) /\
  frames_window (f :: fs) = frame_window f + frames_window fs.
Proof. split; [|done]. apply (zlen_app (frame_data f)). Qed.

Lemma frames_window_nonneg sid fs : Forall (session_frame sid) fs -> 0 <= frames_window fs.
Proof.
  intros Hf. unfold frames_window, zsum. induction Hf as [|f fs [[Hw _] _] _ IH]; cbn; [lia|].
  destruct f; cbn in *; lia.
Qed.

(** Frames and what they cost: the data they carry, the credit they grant. *)
Definition costs (sid : Z) (ws : list bytes) (data grant : Z) : Prop :=
  exists fs, ws = encodeFrame [] <$> fs /\ Forall (session_frame sid) fs /\
    zlen (frames_data fs) = data /\ frames_window fs = grant.

Lemma costs_nil sid : costs sid [] 0 0.
Proof. by exists []. Qed.
Lemma costs_one sid f : session_frame sid f -> costs sid [encodeFrame [] f] (zlen (frame_data f)) (frame_window f).
Proof.
  intros Hf. exists [f]. split; [done|]. split; [by apply Forall_singleton|].
  unfold frames_data, frames_window, zsum. cbn. rewrite app_nil_r. lia.
Qed.
Lemma costs_close sid : 0 <= sid < 2 ^ 64 -> costs sid [encodeClose [] sid []] 0 0.
Proof. intros. apply (costs_one sid (CloseFrame sid [])). split; [by apply close_fits|done]. Qed.
Lemma costs_app sid ws d g ws' d' g' : costs sid ws d g -> costs sid ws' d' g' -> costs sid (ws ++ ws') (d + d') (g + g').
Proof.
  intros (fs & -> & Hf & <- & <-) (gs & -> & Hg & <- & <-). exists (fs ++ gs). rewrite frames_data_app, frames_window_app, zlen_app.
  split; [by rewrite fmap_app|]. split; [by apply Forall_app|done].
Qed.
Lemma costs_nonneg sid ws d g : costs sid ws d g -> 0 <= d /\ 0 <= g.
Proof. intros (fs & _ & Hf & <- & <-). split; [apply zlen_nonneg|by eapply frames_window_nonneg]. Qed.
Lemma costs_take sid ws d g k : costs sid ws d g -> exists d' g', costs sid (take k ws) d' g' /\ d' <= d /\ g' <= g.
Proof.
  intros (fs & -> & Hf & <- & <-). exists (zlen (frames_data (take k fs))), (frames_window (take k fs)).
  split; [exists (take k fs); rewrite fmap_take; split; [done|]; split; [by apply Forall_take|done]|].
  rewrite <- (take_drop k fs) at 2 4. rewrite frames_data_app, frames_window_app, zlen_app.
  pose proof (zlen_nonneg (frames_data (drop k fs))).
  pose proof (frames_window_nonneg sid (drop k fs) (Forall_drop _ _ _ Hf)). lia.
Qed.
Lemma costs_head sid f ws d g :
  frame_fits f -> costs sid (encodeFrame [] f :: ws) d g ->
  session_frame sid f /\ costs sid ws (d - zlen (frame_data f)) (g - frame_window f).
Proof.
  intros Hf (fs & E & Hfs & <- & <-). destruct fs as [|h fs]; [done|]. injection E as E ->.
  apply Forall_cons in Hfs as [Hh Hfs]. apply encodeFrame_inj in E as ->; [|done|apply Hh]. split; [done|].
  exists fs. destruct (frames_cons h fs) as [-> ->]. split; [done|]. split; [done|]. lia.
Qed.

(** The accounting of a read moves its bytes from the unread to the granted. *)
Lemma account_costs lv n s s' eff :
  0 <= sid_ s < 2 ^ 64 -> 0 <= n -> 0 <= recv_unacked_ s -> recv_unacked_ s + n < 2 ^ 32 ->
  read_account lv n s = (s', eff) ->
  exists grant, costs (sid_ s) (enqueued eff) 0 grant /\ recv_unacked_ s' + grant = recv_unacked_ s + n.
Proof.
  intros Hs Hn Hu Hb. unfold read_account, maybeSendWindow. cbn. rewrite (u32_small n), u32_small by lia.
  destruct (lv_usable lv); [destruct (_ <=? _)|]; intros [= <- <-]; cbn [recv_unacked_ set_unacked enqueued no_effects];
    [|exists 0; split; [apply costs_nil|lia]..].
  exists (recv_unacked_ s + n). split; [|lia].
  apply (costs_one _ (WindowFrame (sid_ s) (recv_unacked_ s + n))). split; [apply window_fits; lia|done].
Qed.

Lemma read_costs lv cap s d s' eff :
  0 <= cap -> leftover_ok s -> 0 <= sid_ s < 2 ^ 64 -> 0 <= recv_unacked_ s -> recv_unacked_ s + zlen d < 2 ^ 32 ->
  read lv cap s = (Return d, (s', eff)) ->
  exists grant, costs (sid_ s) (enqueued eff) 0 grant /\ recv_unacked_ s' + grant = recv_unacked_ s + zlen d /\
    send_credit_ s' = send_credit_ s.
Proof.
  intros Hcap Hl Hs Hu Hb E. unfold read in E.
  assert (forall s1 n, sid_ s1 = sid_ s -> recv_unacked_ s1 = recv_unacked_ s -> send_credit_ s1 = send_credit_ s -> zlen d = n ->
    read_account lv n s1 = (s', eff) ->
    exists grant, costs (sid_ s) (enqueued eff) 0 grant /\ recv_unacked_ s' + grant = recv_unacked_ s + zlen d /\
      send_credit_ s' = send_credit_ s) as Hacc.
  { intros s1 n E1 E2 E3 <- Ea. pose proof (zlen_nonneg d).
    assert (send_credit_ s' = send_credit_ s) as Hc
      by (rewrite <- E3; apply (f_equal fst) in Ea; cbn in Ea; subst s'; destruct (read_account_fields lv (zlen d) s1) as (v & -> & _); done).
    destruct (account_costs lv (zlen d) s1 s' eff) as (grant & Hg & Eg); [rewrite ?E1, ?E2; lia || done..|].
    rewrite E1, E2 in *. eauto. }
  assert (forall s1, recv_unacked_ s1 = recv_unacked_ s -> send_credit_ s1 = send_credit_ s ->
    (Return ([] : bytes), (s1, no_effects)) = (Return d, (s', eff)) ->
    exists grant, costs (sid_ s) (enqueued eff) 0 grant /\ recv_unacked_ s' + grant = recv_unacked_ s + zlen d /\
      send_credit_ s' = send_credit_ s) as Heof.
  { intros s1 E1 E2 [= <- <- <-]. exists 0. split; [apply costs_nil|]. split; [unfold zlen; cbn; lia|done]. }
  unfold leftover_ok in Hl.
  destruct (leftover_ s) as [l|]; [destruct (Z.ltb_spec (leftover_off_ s) (zlen l)) as [Hlt|]|].
  - unfold read_leftover in E. injection E as Ed Ea.
    eapply Hacc; [..|exact Ea]; try (by destruct (_ <=? _)). rewrite <- Ed, zlen_slice; lia.
  - lia.
  - destruct (_ || _); [by apply (Heof s)|]. destruct (inbox_ s) as [c|]; [|done].
    destruct (ch_async_receive c) as [[[p|]| |] c']; [|by apply (Heof (set_inbox (Some c') s))..|done].
    unfold read_payload in E. injection E as Ed Ea. pose proof (zlen_nonneg p).
    eapply Hacc; [..|exact Ea]; try (by destruct (_ <? _)). rewrite <- Ed, zlen_slice; lia.
Qed.

(** What a call of the relay does to the budget of both directions. *)
Lemma call_costs lv s ev s' :
  0 <= lv_max_data_frame lv < 2 ^ 32 -> 0 <= sid_ s < 2 ^ 64 -> session_wf s -> protocol_ s = TCP ->
  0 <= send_credit_ s -> zlen (pending s) + recv_unacked_ s < 2 ^ 32 -> call_step lv s ev s' ->
  exists d g, costs (sid_ s) (ev_frames ev) d g /\ send_credit_ s' + d = send_credit_ s /\ 0 <= send_credit_ s' /\
    zlen (pending s') + recv_unacked_ s' + g <= zlen (pending s) + recv_unacked_ s.
Proof.
  intros Hm Hs Hwf Hp Hc Hb Hcall. assert (0 <= copy_buf) as Hcap by done. pose proof Hwf as ((_ & Hcr & Hu & _) & Ht). rewrite Hp in Ht. destruct Ht as (_ & Hl & _).
  destruct Hcall as [d s1 eff E|d s1 E|d s1 wire rest E|s1 eff E|s1 eff E]; cbn [ev_frames ev_none].
  - destruct (read_return _ _ _ _ _ _ Hcap Hwf Hp E) as (_ & _ & _ & _ & _ & _ & _ & _ & _ & _ & _ & _ & Hpend).
    rewrite Hpend, zlen_app in Hb |- *. pose proof (zlen_nonneg (pending s1)).
    destruct (read_costs lv copy_buf s d s1 eff) as (g & Hg & Eu & Ec); [done || lia..|].
    exists 0, g. split; [done|]. lia.
  - exists 0, 0. split; [apply costs_nil|]. destruct (write_iter_path lv s d s1 (or_introl E)) as [Hpath _].
    rewrite (receive_path_pending _ _ Hpath). unfold write_iter in E. repeat case_match; simplify_eq/=; lia.
  - destruct (write_iter_path lv s d s1) as [Hpath _]; [right; eauto|]. rewrite (receive_path_pending _ _ Hpath).
    pose proof (zlen_nonneg d). unfold write_iter in E.
    destruct (zlen d =? 0); [done|]. destruct (Z.leb_spec (send_credit_ s) 0); [repeat case_match; done|].
    rewrite u64_small in E by lia.
    set (n := Z.min (Z.min (zlen d) (lv_max_data_frame lv)) (send_credit_ s)) in *. destruct (n =? 0); [done|].
    injection E as <- <- <-. cbn [send_credit_ recv_unacked_ add_bytes_out set_credit]. rewrite i64_small by lia.
    assert (zlen (slice d 0 n) = n) as Hn by (apply zlen_slice; lia). exists n, 0. rewrite <- Hn at 2.
    split; [|lia]. apply (costs_one (sid_ s) (DataFrame (sid_ s) (slice d 0 n))). split; [apply data_fits; lia|done].
  - exists 0, 0. rewrite (receive_path_pending _ _ (shutdownWrite_path _ _ _ _ E)). unfold shutdownWrite in E.
    repeat case_match; simplify_eq/=; split; try (by auto using costs_nil, costs_close); lia.
  - exists 0, 0. rewrite (receive_path_pending _ _ (close_path _ _ _ _ E)). destruct (close_inboxes_pending s) as [lost El].
    rewrite El, zlen_app. pose proof (zlen_nonneg lost). unfold close in E.
    repeat case_match; simplify_eq/=; split; try (by auto using costs_nil, costs_close); lia.
Qed.
End CallBudget.

(** ** The budget of a direction *)

Section Budget.
Context `{AbslOps, !AbslSpec} {C : Type -> Type} `{ChannelSpec C}.
Implicit Types x y : SessionEnd C.

Definition credit_of x : Z := send_credit_ (se_session x).
(** What the receiver holds and has not granted back. *)
Definition held_by x : Z := zlen (pending (se_session x)) + recv_unacked_ (se_session x).

Definition spent x0 y (_ _ : bytes) : Prop :=
  end_ranges y /\ session_wf (se_session y) /\ protocol_ (se_session y) = TCP /\
  sid_ (se_session y) = sid_ (se_session x0) /\ se_link y = se_link x0 /\ held_by x0 < 2 ^ 32 /\ 0 <= credit_of y /\
  exists ws d g, frames_of (se_events y) = frames_of (se_events x0) ++ ws /\ costs (sid_ (se_session x0)) ws d g /\
    credit_of y + d = credit_of x0 /\ held_by y + g <= held_by x0.

#[export] Instance spent_inv x0 : EndInvariant (spent x0).
Proof.
  apply session_end_inv; [by intros y g p []|].
  intros y g p s1 ev more ((Hm & Hs) & Hwf & Hp & Hsid & Hl & Hb & Hc & ws & d & gr & Ef & Hcost & Ec & Eh) Hcall Hsid1 _.
  destruct (costs_nonneg _ _ _ _ Hcost) as [_ Hg].
  destruct (call_costs _ _ _ _ Hm Hs Hwf Hp Hc ltac:(unfold held_by in *; lia) Hcall) as (d1 & g1 & Hcost1 & Ec1 & Hc1 & Eh1).
  destruct (call_session_step _ _ _ _ (proj1 Hm) Hcall) as [Hst _].
  unfold spent, end_ranges, se_add, credit_of, held_by in *. cbn [se_session se_link se_events] in *.
  rewrite Hsid1. split; [done|]. split; [by eapply step_wf|]. split; [by rewrite (step_protocol _ _ _ Hst)|].
  do 3 (split; [done|]). split; [done|]. exists (ws ++ ev_frames ev), (d + d1), (gr + g1).
  rewrite frames_of_snoc, Ef, app_assoc. split; [done|]. split; [apply costs_app; [done|by rewrite <- Hsid]|]. lia.
Qed.

Lemma recv_costs sid f x :
  session_frame sid f -> session_wf (se_session x) -> 0 <= credit_of x -> credit_of x + frame_window f < 2 ^ 63 ->
  0 <= credit_of (recv_frame f x) <= credit_of x + frame_window f /\
  held_by (recv_frame f x) <= held_by x + zlen (frame_data f).
Proof.
  intros Hsf Hwf Hc Hw. pose proof (zlen_nonneg (frame_data f)).
  assert (0 <= frame_window f) as Hpos by (destruct Hsf as [[Hfw _] _], f; cbn in *; lia).
  unfold credit_of, held_by, recv_frame in *. case_bool_decide; [lia|].
  destruct (deliver f (se_session x)) as [s1|] eqn:Ed; [|lia]. cbn [se_add se_session].
  assert (session_step (se_session x) (mkEvent (frame_data f) [] []) s1) as Hst.
  { destruct Hsf as [[Hfw _] Hf]. destruct f; try done; injection Ed as <-; cbn [frame_data].
    - apply st_on_peer_close.
    - by apply st_on_window, Hfw.
    - apply (st_on_data _ (Some payload)). }
  destruct (step_stream _ _ _ Hst Hwf) as (_ & (lost & E) & _). apply (f_equal zlen) in E. cbn [ev_in ev_out app] in E.
  rewrite !zlen_app in E. pose proof (zlen_nonneg lost).
  assert (0 <= send_credit_ s1 <= send_credit_ (se_session x) + frame_window f /\ recv_unacked_ s1 = recv_unacked_ (se_session x)); [|lia].
  destruct Hsf as [_ Hf]. destruct f; try done; injection Ed as <-; cbn [frame_window] in *.
  - unfold onPeerClose. destruct (state_ (se_session x)); cbn; lia.
  - cbn. rewrite i64_small by lia. lia.
  - unfold onData. repeat case_match; cbn; lia.
Qed.

Lemma down_costs x (g : SessionEnd C -> SessionEnd C) :
  g = link_closeNow \/ g = link_fail -> credit_of (g x) = credit_of x /\ held_by (g x) <= held_by x.
Proof.
  intros [->| ->]; unfold credit_of, held_by, link_fail, link_closeNow, se_add; cbn [se_session]; [done|].
  destruct (close_inboxes_pending (set_state Closed (se_session x))) as [lost E]. split; [done|].
  change (pending (set_state Closed (se_session x))) with (pending (se_session x)) in E.
  change (pending (onReset (se_session x))) with (pending (close_inboxes (set_state Closed (se_session x)))).
  rewrite E, zlen_app. pose proof (zlen_nonneg lost). cbn. lia.
Qed.

(** The window [W] of a direction covers the sender's credit, the data on the
    wire, what the receiver holds, and the credit on its way back. *)
Definition budget (sid W : Z) (wire back : list bytes) (sender receiver : SessionEnd C) : Prop :=
  exists d g d' g', costs sid wire d g' /\ costs sid back d' g /\ 0 <= credit_of sender /\
    credit_of sender + d + held_by receiver + g <= W.

Lemma enqueue_costs sid x ws wire d g d1 g1 :
  costs sid ws d1 g1 -> costs sid wire d g ->
  exists d' g', costs sid (enqueue x ws wire) d' g' /\ d' <= d + d1 /\ g' <= g + g1.
Proof.
  intros H1' Hw. destruct (costs_nonneg _ _ _ _ H1'). unfold enqueue. destruct (link_up x).
  - exists (d + d1), (g + g1). split; [by apply costs_app|lia].
  - exists d, g. split; [done|lia].
Qed.
End Budget.

Section BudgetSteps.
Context `{AbslOps, !AbslSpec} {C : Type -> Type} `{ChannelSpec C}.
Implicit Types x y : SessionEnd C.

Lemma held_nonneg x : session_wf (se_session x) -> 0 <= held_by x.
Proof. intros ((_ & _ & Hu & _) & _). unfold held_by. pose proof (zlen_nonneg (pending (se_session x))). lia. Qed.

Lemma spent_sent x y g p ws d gr :
  spent x y g p -> sent_since x y = ws -> costs (sid_ (se_session x)) ws d gr ->
  0 <= credit_of y /\ credit_of y + d = credit_of x /\ held_by y + gr <= held_by x.
Proof.
  intros (_ & _ & _ & _ & _ & _ & Hc & ws' & d' & g' & Ef & (fs & -> & Hf & <- & <-) & Ec & Eh) <-.
  unfold sent_since. rewrite Ef, drop_app_length. intros (fs' & E & Hf' & <- & <-).
  by apply (encode_frames_inj (sid_ (se_session x))) in E as ->.
Qed.

Lemma spent_costs x y g p : spent x y g p -> exists d gr, costs (sid_ (se_session x)) (sent_since x y) d gr.
Proof.
  intros (_ & _ & _ & _ & _ & _ & _ & ws & d & gr & Ef & Hc & _). exists d, gr.
  unfold sent_since. by rewrite Ef, drop_app_length.
Qed.

(** A turn of the relay on the sender's side, and of the one on the receiver's. *)
Lemma budget_turn sid W wire back x y r g p :
  sid_ (se_session x) = sid -> spent x y g p ->
  (budget sid W wire back x r -> budget sid W (enqueue x (sent_since x y) wire) back y r) /\
  (budget sid W wire back r x -> budget sid W wire (enqueue x (sent_since x y) back) r y).
Proof.
  intros <- Hsp. destruct (spent_costs _ _ _ _ Hsp) as (d1 & g1 & Hc1).
  destruct (spent_sent _ _ _ _ _ _ _ Hsp eq_refl Hc1) as (Hc & Ec & Eh).
  split; intros (d & gr & d' & gr' & Hw & Hb & Hs & HW).
  - destruct (enqueue_costs _ x _ _ _ _ _ _ Hc1 Hw) as (d2 & g2 & Hw' & ? & ?).
    exists d2, gr, d', g2. split; [done|]. split; [done|]. lia.
  - destruct (enqueue_costs _ x _ _ _ _ _ _ Hc1 Hb) as (d2 & g2 & Hb' & ? & ?).
    exists d, g2, d2, gr'. split; [done|]. split; [done|]. lia.
Qed.

(** The frame at the head of a wire reaches the session it is for. *)
Lemma budget_recv sid W f rest other x r :
  frame_fits f -> W < 2 ^ 32 -> session_wf (se_session x) -> session_wf (se_session r) ->
  budget sid W (encodeFrame [] f :: rest) other r x -> budget sid W other (encodeFrame [] f :: rest) x r ->
  budget sid W rest other r (recv_frame f x) /\ budget sid W other rest (recv_frame f x) r.
Proof.
  intros Hf HW Hwx Hwr (d & g & d' & g' & Hw & Hb & Hs & Hsum) (d1 & g1 & d1' & g1' & Hw1 & Hb1 & Hs1 & Hsum1).
  pose proof (held_nonneg _ Hwr). destruct (costs_nonneg _ _ _ _ Hw1).
  destruct (costs_head _ _ _ _ _ Hf Hw) as [Hsf Hw']. destruct (costs_head _ _ _ _ _ Hf Hb1) as [_ Hb1'].
  destruct (costs_nonneg _ _ _ _ Hb1'), (costs_nonneg _ _ _ _ Hw').
  destruct (recv_costs _ _ _ Hsf Hwx Hs1 ltac:(lia)) as [Hc' Hh'].
  split; [exists (d - zlen (frame_data f)), g, d', (g' - frame_window f)|exists d1, (g1 - frame_window f), (d1' - zlen (frame_data f)), g1'];
    (split; [done|]); (split; [done|]); lia.
Qed.

Lemma budget_down sid W wire back x r (g : SessionEnd C -> SessionEnd C) :
  g = link_closeNow \/ g = link_fail ->
  (budget sid W wire back x r -> budget sid W wire back (g x) r) /\ (budget sid W wire back r x -> budget sid W wire back r (g x)).
Proof.
  intros Hg. destruct (down_costs x g Hg) as [Ec Eh].
  split; intros (d & gr & d' & gr' & Hw & Hb & Hs & HW); exists d, gr, d', gr'; rewrite ?Ec; (split; [done|]); (split; [done|]); lia.
Qed.

Lemma budget_take sid W wire back x r k :
  (budget sid W wire back x r -> budget sid W (take k wire) back x r) /\
  (budget sid W wire back x r -> budget sid W wire (take k back) x r).
Proof.
  split; intros (d & gr & d' & gr' & Hw & Hb & Hs & HW).
  - destruct (costs_take _ _ _ _ k Hw) as (d2 & g2 & Hw' & ? & ?). exists d2, gr, d', g2. split; [done|]. split; [done|]. lia.
  - destruct (costs_take _ _ _ _ k Hb) as (d2 & g2 & Hb' & ? & ?). exists d, g2, d2, gr'. split; [done|]. split; [done|]. lia.
Qed.

Lemma announced_costs x : 0 <= sid_ (se_session x) < 2 ^ 64 -> costs (sid_ (se_session x)) (announced x) 0 0.
Proof.
  intros Hs. unfold announced. case_bool_decide; [apply costs_nil|].
  apply (costs_one _ (CloseFrame (sid_ (se_session x)) (lit "shutdown"))). split; [by apply close_fits|done].
Qed.

Lemma budget_announced sid W wire back x r :
  sid_ (se_session x) = sid -> 0 <= sid < 2 ^ 64 ->
  (budget sid W wire back x r -> budget sid W (enqueue x (announced x) wire) back x r) /\
  (budget sid W wire back r x -> budget sid W wire (enqueue x (announced x) back) r x).
Proof.
  intros <- Hs. pose proof (announced_costs x Hs) as Ha. split; intros (d & gr & d' & gr' & Hw & Hb & Hc & HW).
  - destruct (enqueue_costs _ x _ _ _ _ _ _ Ha Hw) as (d2 & g2 & Hw' & ? & ?). exists d2, gr, d', g2. split; [done|]. split; [done|]. lia.
  - destruct (enqueue_costs _ x _ _ _ _ _ _ Ha Hb) as (d2 & g2 & Hb' & ? & ?). exists d, g2, d2, gr'. split; [done|]. split; [done|]. lia.
Qed.
End BudgetSteps.

(** ** Properties *)

Section BackpressureProperties.
Context `{AbslOps, !AbslSpec} {C : Type -> Type} `{ChannelSpec C}.

Definition tunnel_budget (sid W : Z) (T : Tunnel C) : Prop :=
  budget sid W (up T) (down T) (b_b (near T)) (b_a (far T)) /\ budget sid W (down T) (up T) (b_a (far T)) (b_b (near T)).

Lemma costs_carries sid ws d g d' : costs sid ws d g -> carries sid ws d' -> zlen d' = d.
Proof. intros (fs & -> & Hf & <- & _) (gs & E & Hg & <-). by apply (encode_frames_inj sid) in E as ->. Qed.

Lemma budget_held sid W wire back s r d :
  budget sid W wire back s r -> session_wf (se_session r) -> carries sid wire d -> zlen d + zlen (pending (se_session (C := C) r)) <= W.
Proof.
  intros (d0 & g & d' & g' & Hw & Hb & Hc & HW) ((_ & _ & Hu & _) & _) Hd. unfold held_by, credit_of in *.
  rewrite (costs_carries _ _ _ _ _ Hw Hd). destruct (costs_nonneg _ _ _ _ Hb). lia.
Qed.

Lemma history_sid s0 (x : SessionEnd C) g p : session_history s0 x g p -> sid_ (se_session x) = sid_ s0 /\ end_ranges x.
Proof. by intros (_ & _ & _ & ? & ?). Qed.

Lemma tunnel_budget_step sid target wn wf mn mf client remote (T T' : Tunnel C) :
  0 <= sid < 2 ^ 64 -> 0 <= wn < 2 ^ 32 -> 0 <= wf < 2 ^ 32 -> 0 <= mn < 2 ^ 32 -> 0 <= mf < 2 ^ 32 ->
  rtc tunnel_step (tunnel_init sid target wn wf mn mf client remote) T ->
  tunnel_step T T' -> tunnel_budget sid wn T -> tunnel_budget sid wn T'.
Proof.
  intros Hs Hwn Hwf Hmn Hmf Hr Hst [Bu Bd].
  destruct (tunnel_wf sid target wn wf mn mf client remote T) as ((Wn & Pn & _) & (Wf & Pf & _)); [done..|].
  destruct (tunnel_inv_run sid target wn wf mn mf client remote T Hs Hmn Hmf Hr) as (((_ & Hn) & _) & ((Hf & _) & _) & _).
  apply history_sid in Hn as [Sn Rn], Hf as [Sf Rf]. cbn [sid_ Session_new] in Sn, Sf.
  set (any := fun (_ : TcpSocketStream) (_ _ : bytes) => True).
  assert (forall x r wire back, budget sid wn wire back x r -> budget sid wn back wire r x -> session_wf (se_session x) ->
    session_wf (se_session r) -> protocol_ (se_session x) = TCP -> end_ranges x -> spent x x [] []) as Hrefl.
  { intros x r wire back (d & g & d' & g' & H1' & H2' & Hc & _) (d1 & g1 & d1' & g1' & H3' & H4' & Hc' & HW) Wx Wr Px Rx.
    destruct (costs_nonneg _ _ _ _ H3'), (costs_nonneg _ _ _ _ H4').
    split; [done|]. do 4 (split; [done|]). split; [lia|]. split; [done|]. exists [], 0, 0.
    rewrite app_nil_r. split; [done|]. split; [apply costs_nil|lia]. }
  destruct Hst as [t n E|t n E|f rest E Hfit Hl|f rest E Hfit Hl|g Hl Hg|g Hl Hg|k Hl|k Hl| |];
    unfold tunnel_budget; cbn [near far up down on_a on_b b_a b_b].
  - destruct (ends_ok_turn any (spent (b_b (near T))) t _ _ E) as [_ Hsp]; [split; [done|by eapply Hrefl]|].
    by split; apply (budget_turn _ _ _ _ _ _ _ _ _ Sn Hsp).
  - destruct (ends_ok_turn (spent (b_a (far T))) any t _ _ E) as [Hsp _]; [split; [by eapply Hrefl|done]|].
    by split; apply (budget_turn _ _ _ _ _ _ _ _ _ Sf Hsp).
  - rewrite E in Bu, Bd. apply budget_recv; done || lia.
  - rewrite E in Bu, Bd. apply and_comm, budget_recv; done || lia.
  - by split; apply (budget_down _ _ _ _ _ _ _ Hg).
  - by split; apply (budget_down _ _ _ _ _ _ _ Hg).
  - by split; apply budget_take.
  - by split; apply budget_take.
  - by split; apply budget_announced.
  - by split; apply budget_announced.
Qed.

Lemma tunnel_budget_run sid target wn wf mn mf client remote (T : Tunnel C) :
  0 <= sid < 2 ^ 64 -> 0 <= wn < 2 ^ 32 -> 0 <= wf < 2 ^ 32 -> 0 <= mn < 2 ^ 32 -> 0 <= mf < 2 ^ 32 ->
  rtc tunnel_step (tunnel_init sid target wn wf mn mf client remote) T -> tunnel_budget sid wn T.
Proof.
  intros Hs Hwn Hwf Hmn Hmf. revert T. apply (rtc_ind_r (tunnel_budget sid wn)).
  - unfold tunnel_budget, budget, credit_of, held_by. cbn [tunnel_init near far up down bidi_init b_a b_b se_session].
    rewrite !pending_new. cbn [send_credit_ recv_unacked_ Session_new]. rewrite i64_small by lia.
    assert (costs sid [encodeAck [] sid] 0 0) as Ha by (by apply (costs_one sid (AckFrame sid)); split; [by apply ack_fits|]).
    split; [exists 0, 0, 0, 0|exists 0, 0, 0, 0]; (split; [apply costs_nil || done|]); (split; [apply costs_nil || done|]); unfold zlen; cbn; lia.
  - intros T T' Hr Hst. by apply (tunnel_budget_step sid target wn wf mn mf client remote).
Qed.
Lemma lag_bounded sid W input output rx frx receiver wire sender tx ftx left d :
  accounted sid input output rx frx receiver wire sender tx ftx left -> carries sid wire d ->
  zlen d + zlen (pending (se_session (C := C) receiver)) <= W ->
  link_up sender = true -> inbox_open (se_session receiver) -> state_ (se_session receiver) <> Closed ->
  fl_lost frx = [] -> fl_lost ftx = [] ->
  zlen input <= zlen output + W + 2 * copy_buf + zlen left.
Proof.
  intros (lost & late & d' & cut & Hd' & -> & Hl & Hla & Hcu & _ & _ & Hi & Ho) Hd HW Hup Hop Hst Er Et.
  rewrite Hl, Er, Et by done. assert (late = []) as -> by (destruct late; [done|]; by destruct Hst; apply Hla).
  assert (cut = []) as -> by (destruct cut; [done|]; by rewrite Hcu in Hup).
  assert (d' = d) as -> by (destruct (carries_more sid wire d [] d' Hd) as (e & (fs & E & _ & <-) & ->);
    [by rewrite app_nil_r|]; destruct fs; [by rewrite app_nil_r|done]).
  rewrite !zlen_app, !zlen_nil. lia.
Qed.

(** C10. A tunnel holds a bounded number of bytes, under every schedule and every
    failure: in each direction the data on the wire and the data queued in the
    receiving session never exceed the window the session was opened with, and a
    relay holds at most its 32 KiB buffer.  So a slow reader stops the writer at
    the other end: as long as nothing was lost, no more than the window and the
    two buffers has been taken from one user and not been given to the other. *)
Theorem tunnel_memory_bounded sid target wn wf mn mf (client remote : TcpSocketStream) (T : Tunnel C) :
  0 <= sid < 2 ^ 64 -> 0 <= wn < 2 ^ 32 -> 0 <= wf < 2 ^ 32 -> 0 <= mn < 2 ^ 32 -> 0 <= mf < 2 ^ 32 ->
  t_out client = [] -> t_out remote = [] ->
  rtc tunnel_step (tunnel_init sid target wn wf mn mf client remote) T ->
  exists d d', carries sid (up T) d /\ carries sid (down T) d' /\
    zlen d + zlen (pending (se_session (b_a (far T)))) <= wn /\ zlen d' + zlen (pending (se_session (b_b (near T)))) <= wn /\
    (link_up (b_b (near T)) = true -> inbox_open (se_session (b_a (far T))) -> state_ (se_session (b_a (far T))) <> Closed ->
       fl_lost (fab (far T)) = [] -> fl_lost (fab (near T)) = [] ->
       zlen (stream (t_sock client)) <= zlen (t_out (b_b (far T))) + wn + 2 * copy_buf + zlen (stream (t_sock (b_a (near T))))) /\
    (link_up (b_a (far T)) = true -> inbox_open (se_session (b_b (near T))) -> state_ (se_session (b_b (near T))) <> Closed ->
       fl_lost (fba (near T)) = [] -> fl_lost (fba (far T)) = [] ->
       zlen (stream (t_sock remote)) <= zlen (t_out (b_a (near T))) + wn + 2 * copy_buf + zlen (stream (t_sock (b_b (far T))))).
Proof.
  intros Hs Hwn Hwf Hmn Hmf Hc0 Ht0 Hr.
  destruct (tunnel_budget_run sid target wn wf mn mf client remote T) as [Bu Bd]; [done..|].
  destruct (tunnel_wf sid target wn wf mn mf client remote T) as ((Wn & _) & (Wf & _)); [done..|].
  destruct (tunnel_accounted sid target wn wf mn mf client remote T) as [Au Ad]; [done..|].
  pose proof Au as (_ & _ & d & _ & Hd & _). pose proof Ad as (_ & _ & d' & _ & Hd' & _).
  pose proof (budget_held _ _ _ _ _ _ _ Bu Wf Hd). pose proof (budget_held _ _ _ _ _ _ _ Bd Wn Hd').
  exists d, d'. do 4 (split; [done|]). split; intros; by eapply lag_bounded.
Qed.
End BackpressureProperties.

(** ** Witness *)

#[local] Existing Instance reference_absl.

(** A window of four bytes: the near relay is suspended inside its write. *)
Definition slow_tunnel : Tunnel fifo :=
  tunnel_init 7 (fromDomain (lit "h") 80) 4 4 4096 4096 (sample_tcp (lit "hello") [5] []) (sample_tcp [] [] []).
Definition slow_moves : list Move := [MNear TurnAB; MNear TurnAB; MNear TurnAB; MUp (DataFrame 7 (lit "hell"))].

Lemma tunnel_memory_bounded_witness :
  let T := run_moves slow_moves slow_tunnel in
  bidi_turn TurnAB (near T) = None /\ pending (se_session (b_a (far T))) = lit "hell" /\
  zlen (pending (se_session (b_a (far T)))) <= 4.
Proof.
  intros T. split; [by vm_compute|]. split; [by vm_compute|].
  assert (rtc tunnel_step slow_tunnel T) as Hr.
  { apply run_moves_rtc. repeat (apply Forall_cons; split; [by first [apply data_fits|exact I]|]). by apply Forall_nil. }
  clearbody T. destruct (tunnel_memory_bounded 7 (fromDomain (lit "h") 80) 4 4 4096 4096
    (sample_tcp (lit "hello") [5] []) (sample_tcp [] [] []) T) as (d & _ & _ & _ & Hd & _);
    [lia..|reflexivity|reflexivity|exact Hr|].
  pose proof (zlen_nonneg d). lia.
Defined.

