(* ===== verification/Datagram.v ===== *)
(** * Datagram relays (session_stream.hpp, the UDP parts of shine_outbound.cpp, direct_outbound.cpp, shine_inbound.cpp)

    [IDatagramStream] as a class, the two coroutines [read_client] and
    [read_remote] that join two of them, the [InjectedStream] wrapper, and the
    implementations: a UDP session of a link and the UDP socket of the direct
    outbound with its cache of resolved names. *)
From S2P Require Import Prelude Absl Buffer Resp2 ShineFrame Address Request Channel Socket Session Pipe.
From Stdlib Require Import Strings.Byte.

(** ** The interface *)

Definition Datagram : Type := bytes * Address.

(** [None] is a suspended [receiveFrom]. *)
Class DatagramStream (T : Type) := {
  ds_receive : T -> option (res Datagram * T);
  ds_send : Datagram -> T -> res unit * T;
  ds_close : T -> T;
  ds_event : T -> T -> Prop;
}.

(** A closed stream stays closed, never suspends a receiver and has no more than
    [backlog] datagrams left to give before it reports an error. *)
Class DatagramStreamSpec (T : Type) `{DatagramStream T} (closed : T -> Prop) (backlog : T -> nat) : Prop := {
  ds_close_closed s : closed (ds_close s);
  ds_receive_closed s : closed s ->
    exists r s', ds_receive s = Some (r, s') /\ closed s' /\
      match r with Ok _ => (backlog s' < backlog s)%nat | _ => True end;
  ds_send_closed m s : closed s -> closed (snd (ds_send m s)) /\ backlog (snd (ds_send m s)) = backlog s;
  ds_event_closed s s' : closed s -> ds_event s s' -> closed s' /\ backlog s' = backlog s;
}.

(** ** The relay *)

(** Where [read_client] (or [read_remote]) is. *)
Inductive PumpPc :=
  | PReceive
  | PSend (m : Datagram)
  | PClose                    (* past the loop *)
  | PDone
  | PUB.
#[export] Instance PumpPc_eq_dec : EqDecision PumpPc.
Proof. solve_decision. Defined.

(** What a step did: the datagram received, the one sent on, the one whose send
    failed. *)
Record PumpEvent := mkPumpEvent { pe_got : list Datagram; pe_sent : list Datagram; pe_lost : list Datagram }.
Definition pe_none : PumpEvent := mkPumpEvent [] [] [].

Section Pump.
Context {A B : Type} `{DatagramStream A} `{DatagramStream B}.

(** The loop receives from [src] and sends to [dst]; when it ends it closes
    [dst]. *)
Definition pump_step (pc : PumpPc) (src : A) (dst : B) : option (PumpPc * PumpEvent * A * B) :=
  match pc with
  | PReceive =>
      match ds_receive src with
      | None => None
      | Some (Ok m, src') => Some (PSend m, mkPumpEvent [m] [] [], src', dst)
      | Some (Err _, src') => Some (PClose, pe_none, src', dst)
      | Some (UB, src') => Some (PUB, pe_none, src', dst)
      end
  | PSend m =>
      match ds_send m dst with
      | (Ok _, dst') => Some (PReceive, mkPumpEvent [] [m] [], src, dst')
      | (Err _, dst') => Some (PClose, mkPumpEvent [] [] [m], src, dst')
      | (UB, dst') => Some (PUB, mkPumpEvent [] [] [m], src, dst')
      end
  | PClose => Some (PDone, pe_none, src, ds_close dst)
  | PDone | PUB => None
  end.
End Pump.

Record PumpFlow := mkPumpFlow { pf_got : list Datagram; pf_sent : list Datagram; pf_lost : list Datagram }.
Definition pump_add (f : PumpFlow) (e : PumpEvent) : PumpFlow :=
  mkPumpFlow (pf_got f ++ pe_got e) (pf_sent f ++ pe_sent e) (pf_lost f ++ pe_lost e).

Section Relay.
Context {A B : Type} `{DatagramStream A} `{DatagramStream B}.

(** [read_client() && read_remote()] *)
Record UdpRelay := mkUdpRelay {
  client : A; remote : B;
  rc : PumpPc; rr : PumpPc;
  frc : PumpFlow; frr : PumpFlow;
}.

Definition relay_init (c : A) (r : B) : UdpRelay :=
  mkUdpRelay c r PReceive PReceive (mkPumpFlow [] [] []) (mkPumpFlow [] [] []).

Inductive Side := ReadClient | ReadRemote.

Definition relay_turn (t : Side) (s : UdpRelay) : option UdpRelay :=
  match t with
  | ReadClient =>
      match pump_step (rc s) (client s) (remote s) with
      | None => None
      | Some (pc, e, c', r') => Some (mkUdpRelay c' r' pc (rr s) (pump_add (frc s) e) (frr s))
      end
  | ReadRemote =>
      match pump_step (rr s) (remote s) (client s) with
      | None => None
      | Some (pc, e, r', c') => Some (mkUdpRelay c' r' (rc s) pc (frc s) (pump_add (frr s) e))
      end
  end.

Inductive relay_step (s : UdpRelay) : UdpRelay -> Prop :=
  | relay_move t s' : relay_turn t s = Some s' -> relay_step s s'
  | relay_event_client c' : ds_event (client s) c' ->
      relay_step s (mkUdpRelay c' (remote s) (rc s) (rr s) (frc s) (frr s))
  | relay_event_remote r' : ds_event (remote s) r' ->
      relay_step s (mkUdpRelay (client s) r' (rc s) (rr s) (frc s) (frr s)).

Fixpoint relay_run (ts : list Side) (s : UdpRelay) : UdpRelay :=
  match ts with
  | [] => s
  | t :: ts => relay_run ts (match relay_turn t s with Some s' => s' | None => s end)
  end.
End Relay.
Arguments UdpRelay : clear implicits.

(** ** [InjectedStream] *)

Record InjectedStream (T : Type) := mkInjectedStream { inner_ : T; p_ : option Datagram }.
Arguments mkInjectedStream {T}.
Arguments inner_ {T}.
Arguments p_ {T}.

#[export] Instance Injected_stream `{DatagramStream T} : DatagramStream (InjectedStream T) := {|
  ds_receive s :=
    match p_ s with
    | Some m => Some (Ok m, mkInjectedStream (inner_ s) None)
    | None => match ds_receive (inner_ s) with
              | None => None
              | Some (r, i) => Some (r, mkInjectedStream i None)
              end
    end;
  ds_send m s := let '(r, i) := ds_send m (inner_ s) in (r, mkInjectedStream i (p_ s));
  ds_close s := mkInjectedStream (ds_close (inner_ s)) (p_ s);
  ds_event s s' := exists i, ds_event (inner_ s) i /\ s' = mkInjectedStream i (p_ s);
|}.

#[export] Instance Injected_stream_spec `{DatagramStreamSpec T closed backlog} :
  DatagramStreamSpec (InjectedStream T) (fun s => closed (inner_ s))
    (fun s => (backlog (inner_ s) + if p_ s is Some _ then 1 else 0)%nat).
Proof.
  split.
  - intros s. apply ds_close_closed.
  - intros [i [m|]] Hc; cbn in *; [eexists _, _; split; [done|]; cbn; split; [done|lia]|].
    destruct (ds_receive_closed i Hc) as (r & i' & -> & Hc' & Hb). eexists _, _. split; [done|]. split; [done|].
    cbn. destruct r; lia.
  - intros m [i p] Hc. cbn in *. destruct (ds_send_closed m i Hc) as [Hs Hb].
    destruct (ds_send m i) as [r i']. cbn in *. by rewrite Hb.
  - intros [i p] s' Hc (i' & He & ->). cbn in *. by destruct (ds_event_closed i i' Hc He) as [? ->].
Qed.

(** ** Lossless and torn down *)

Definition pump_held (pc : PumpPc) : list Datagram := match pc with PSend m => [m] | _ => [] end.
Definition pump_ended (pc : PumpPc) : bool := match pc with PClose | PDone | PUB => true | _ => false end.
Definition pump_ok (pc : PumpPc) (f : PumpFlow) : Prop :=
  pf_got f = pf_sent f ++ pump_held pc ++ pf_lost f /\
  (if pump_ended pc then length (pf_lost f) <= 1 else pf_lost f = [])%nat.

Section PumpFacts.
Context {A B : Type} `{DatagramStream A} `{DatagramStream B}.

Lemma pump_step_ok pc f (src : A) (dst : B) pc' e src' dst' :
  pump_step pc src dst = Some (pc', e, src', dst') -> pump_ok pc f -> pump_ok pc' (pump_add f e).
Proof.
  unfold pump_ok. destruct f as [g p l]. cbn [pump_add pf_got pf_sent pf_lost].
  destruct pc as [|m| | |]; cbn [pump_step pump_held pump_ended].
  - destruct (ds_receive src) as [[[m|st|] s1]|]; intros [= <- <- <- <-] [-> ->]; cbn; rewrite ?app_nil_r;
      (split; [done|]); done || lia.
  - destruct (ds_send m dst) as [[u|st|] s1]; intros [= <- <- <- <-] [-> ->]; cbn; rewrite ?app_nil_r;
      (split; [done|]); done || lia.
  - intros [= <- <- <- <-] [-> Hl]. cbn. by rewrite !app_nil_r.
  - done.
  - done.
Qed.

End PumpFacts.

Section RelayFacts.
Context {A B : Type} `{DatagramStream A} `{DatagramStream B}.

Definition relay_ok (s : UdpRelay A B) : Prop := pump_ok (rc s) (frc s) /\ pump_ok (rr s) (frr s).

Lemma relay_ok_run c r s : rtc relay_step (relay_init c r) s -> relay_ok s.
Proof.
  apply (rtc_ind_r relay_ok).
  - by repeat split.
  - intros s1 s2 _ [t s' E|c' _|r' _] [H1 H2]; [|by split..].
    destruct t; cbn [relay_turn] in E;
      destruct (pump_step _ _ _) as [[[[pc e] x] y]|] eqn:Es; try done; injection E as <-.
    + split; [|done]. by apply (pump_step_ok _ _ _ _ _ _ _ _ Es).
    + split; [done|]. by apply (pump_step_ok _ _ _ _ _ _ _ _ Es).
Qed.
End RelayFacts.

(** ** Teardown *)

Section Teardown.
Context {A B : Type} {closedA : A -> Prop} {closedB : B -> Prop} {backA : A -> nat} {backB : B -> nat}.
Context `{DatagramStreamSpec A closedA backA, DatagramStreamSpec B closedB backB}.

(** The turns a loop over a closed source can still take. *)
Definition pump_left (pc : PumpPc) (backlog : nat) : nat :=
  match pc with PReceive => 2 * backlog + 2 | PSend _ => 2 * backlog + 3 | PClose => 1 | PDone | PUB => 0 end.

Lemma pump_closed_step pc (src : A) (dst : B) :
  closedA src -> pump_ended pc = false \/ pc = PClose ->
  exists pc' e src' dst', pump_step pc src dst = Some (pc', e, src', dst') /\ closedA src' /\
    (pump_left pc' (backA src') < pump_left pc (backA src))%nat.
Proof.
  intros Hc Hpc. destruct pc as [|m| | |]; cbn [pump_step].
  - destruct (ds_receive_closed src Hc) as (r & s' & -> & Hc' & Hb).
    destruct r as [m|st|]; eexists _, _, _, _; (split; [done|]; split; [done|]); cbn; lia.
  - destruct (ds_send m dst) as [[u|st|] d'] eqn:Es; eexists _, _, _, _; (split; [done|]; split; [done|]); cbn; lia.
  - eexists _, _, _, _. split; [done|]. split; [done|]. cbn. lia.
  - by destruct Hpc.
  - by destruct Hpc.
Qed.

(** The destination of a loop stays closed once it is. *)
Lemma pump_dst_closed pc (src : A) (dst : B) pc' e src' dst' :
  pump_step pc src dst = Some (pc', e, src', dst') -> closedB dst \/ pc = PClose -> closedB dst'.
Proof.
  destruct pc as [|m| | |]; cbn [pump_step].
  - destruct (ds_receive src) as [[[m|st|] s1]|]; intros [= <- <- <- <-] [?|?]; done.
  - destruct (ds_send m dst) as [r d'] eqn:Es. intros E Hc. assert (closedB d') as Hd.
    { destruct Hc as [Hc|]; [|done]. destruct (ds_send_closed m dst Hc) as [Hs _]. by rewrite Es in Hs. }
    destruct r; by injection E as <- <- <- <-.
  - intros [= <- <- <- <-] _. apply ds_close_closed.
  - done.
  - done.
Qed.
End Teardown.

Section RelayTeardown.
Context {A B : Type} {closedA : A -> Prop} {closedB : B -> Prop} {backA : A -> nat} {backB : B -> nat}.
Context `{DatagramStreamSpec A closedA backA, DatagramStreamSpec B closedB backB}.
Implicit Types s : UdpRelay A B.

(** A loop that is done has closed the stream it sent to. *)
Definition teardown_ok s : Prop :=
  (rc s = PDone -> closedB (remote s)) /\ (rr s = PDone -> closedA (client s)).

Lemma pump_done_was (pc : PumpPc) (src : A) (dst : B) pc' e src' dst' :
  pump_step pc src dst = Some (pc', e, src', dst') -> pc' = PDone -> pc = PClose.
Proof.
  destruct pc as [|m| | |]; cbn [pump_step]; try done.
  - by destruct (ds_receive src) as [[[m|st|] s1]|]; intros [= <- <- <- <-].
  - by destruct (ds_send m dst) as [[u|st|] d']; intros [= <- <- <- <-].
Qed.

Lemma pump_src_closed (pc : PumpPc) (src : A) (dst : B) pc' e src' dst' :
  pump_step pc src dst = Some (pc', e, src', dst') -> closedA src -> closedA src'.
Proof.
  intros E Hc. destruct pc as [|m| | |]; cbn [pump_step] in E; try done.
  - destruct (ds_receive_closed src Hc) as (r & s1 & Er & Hc' & _). rewrite Er in E.
    destruct r as [m|st|]; by injection E as <- <- <- <-.
  - by destruct (ds_send m dst) as [[u|st|] d']; injection E as <- <- <- <-.
  - by injection E as <- <- <- <-.
Qed.

(** A loop over a closed source runs to its end by itself. *)
Fixpoint pump_iter (n : nat) (pc : PumpPc) (src : A) (dst : B) : PumpPc :=
  match n with
  | O => pc
  | S n => match pump_step pc src dst with None => pc | Some (pc', _, src', dst') => pump_iter n pc' src' dst' end
  end.
Definition pump_over (pc : PumpPc) : Prop := pc = PDone \/ pc = PUB.

Lemma pump_iter_over n : forall pc (src : A) (dst : B),
  closedA src -> (pump_left pc (backA src) <= n)%nat -> pump_over (pump_iter n pc src dst).
Proof.
  induction n as [|n IH]; intros pc src dst Hc Hn; cbn [pump_iter].
  - destruct pc; cbn in Hn; try lia; by (left + right).
  - destruct (decide (pc = PDone)) as [->|]; [by left|]. destruct (decide (pc = PUB)) as [->|]; [by right|].
    destruct (pump_closed_step (closedA := closedA) (backA := backA) pc src dst Hc) as (pc' & e & src' & dst' & -> & Hc' & Hm);
      [destruct pc; auto; done|].
    apply IH; [done|lia].
Qed.
End RelayTeardown.

Section RelayTeardown2.
Context {A B : Type} {closedA : A -> Prop} {closedB : B -> Prop} {backA : A -> nat} {backB : B -> nat}.
Context `{DatagramStreamSpec A closedA backA, DatagramStreamSpec B closedB backB}.
Implicit Types s : UdpRelay A B.

Lemma run_client_iter n s : rc (relay_run (replicate n ReadClient) s) = pump_iter n (rc s) (client s) (remote s).
Proof.
  revert s. induction n as [|n IH]; intros s; [done|]. cbn [replicate relay_run pump_iter relay_turn].
  destruct (pump_step (rc s) (client s) (remote s)) as [[[[pc e] c'] r']|] eqn:E; rewrite IH; [done|].
  destruct n; cbn [pump_iter]; [done|by rewrite E].
Qed.

Lemma run_remote_iter n s : rr (relay_run (replicate n ReadRemote) s) = pump_iter n (rr s) (remote s) (client s).
Proof.
  revert s. induction n as [|n IH]; intros s; [done|]. cbn [replicate relay_run pump_iter relay_turn].
  destruct (pump_step (rr s) (remote s) (client s)) as [[[[pc e] r'] c']|] eqn:E; rewrite IH; [done|].
  destruct n; cbn [pump_iter]; [done|by rewrite E].
Qed.

Lemma teardown_ok_step s s' :
  relay_step s s' -> teardown_ok (closedA := closedA) (closedB := closedB) s ->
  teardown_ok (closedA := closedA) (closedB := closedB) s'.
Proof.
  unfold teardown_ok. intros [t s1 E|c' E|r' E] [T1 T2]; cbn [rc rr client remote].
  - destruct t; cbn [relay_turn] in E.
    + destruct (pump_step (rc s) (client s) (remote s)) as [[[[pc e] c'] r']|] eqn:Es; [|done]. injection E as <-. cbn.
      split; [intros ->; eapply (pump_dst_closed (A := A) (B := B)); [exact Es|right; by eapply (pump_done_was (A := A) (B := B))]|].
      intros Hrr. eapply (pump_src_closed (A := A) (B := B)); [exact Es|by apply T2].
    + destruct (pump_step (rr s) (remote s) (client s)) as [[[[pc e] r'] c']|] eqn:Es; [|done]. injection E as <-. cbn.
      split; [|intros ->; eapply (pump_dst_closed (A := B) (B := A)); [exact Es|right; by eapply (pump_done_was (A := B) (B := A))]].
      intros Hrr. eapply (pump_src_closed (A := B) (B := A)); [exact Es|by apply T1].
  - split; [done|]. intros Hr. apply T2 in Hr. by apply (ds_event_closed _ _ Hr) in E as [? _].
  - split; [|done]. intros Hr. apply T1 in Hr. by apply (ds_event_closed _ _ Hr) in E as [? _].
Qed.

Lemma teardown_ok_run c r s :
  rtc relay_step (relay_init c r) s -> teardown_ok (closedA := closedA) (closedB := closedB) s.
Proof.
  apply (rtc_ind_r (teardown_ok (closedA := closedA) (closedB := closedB))); [by split|].
  intros s1 s2 _ Hst. by apply teardown_ok_step.
Qed.
End RelayTeardown2.

(** ** UDP sessions *)

Section SessionDatagrams.
Context `{AbslOps} {C : Type -> Type} `{ChannelOps C}.
Implicit Types x : SessionEnd C.

(** [sendTo] ignores what becomes of the [async_send] it awaits: it answers OK
    whether a full write channel suspends it or not, and also when the link fails
    meanwhile.  So a suspended send is a loop that has no turn until it resumes,
    and its result and the frame it leaves are those of [ds_send]. *)
#[export] Instance Session_datagrams : DatagramStream (SessionEnd C) := {|
  ds_receive x :=
    match receiveFrom (se_session x) with
    | (Return (Ok (Some p, a)), s1) => Some (Ok (p, a), se_add s1 ev_none x)
    | (Return (Ok (None, _)), _) | (NullDeref, _) | (Return UB, _) => Some (UB, x)
    | (Return (Err st), s1) => Some (Err st, se_add s1 ev_none x)
    | (Pending, _) => None
    end;
  ds_send m x :=
    let '(r, (s1, eff)) := sendTo (se_link x) (se_session x) (fst m) (snd m) in
    (match r with None => Ok tt | Some st => Err st end, se_add s1 (mkEvent [] [] (enqueued eff)) x);
  ds_close x :=
    let '(s1, eff) := close (se_link x) (se_session x) in se_add s1 (mkEvent [] [] (enqueued eff)) x;
  ds_event := session_event;
|}.
End SessionDatagrams.

Section SessionDatagramFacts.
Context `{AbslOps} {C : Type -> Type} `{ChannelSpec C}.
Implicit Types x : SessionEnd C.

Lemma close_state lv (s : Session C) : state_ (fst (close lv s)) = Closed.
Proof. unfold close. destruct (state_ s) eqn:E; cbn; try done; by destruct (lv_alive lv). Qed.

#[export] Instance Session_datagrams_spec :
  DatagramStreamSpec (SessionEnd C) (fun x => state_ (se_session x) = Closed) (fun _ => 0%nat).
Proof.
  split.
  - intros x. cbn. pose proof (close_state (se_link x) (se_session x)) as Hs. by destruct (close _ _).
  - intros x Hc. cbn. unfold receiveFrom. rewrite Hc. cbn. by eexists _, _.
  - intros m x Hc. cbn. split; [|done]. unfold sendTo. unfold write_guard. rewrite Hc.
    by destruct (negb _).
  - intros x x' Hc [ev s1 Hr|lv Hlv]; [|done]. split; [|done]. cbn.
    apply reader_call_frames in Hr as (_ & _ & _ & Hst). apply step_state in Hst. rewrite Hc in Hst.
    by destruct (state_ s1).
Qed.
End SessionDatagramFacts.

(** ** The direct outbound's UDP socket *)

(** [cache], and what the socket has sent; what it will deliver; the
    clock, the resolver and the time it takes are the world's. *)
Record DirectUdp := mkDirectUdp {
  du_open : bool;
  du_cache : gmap bytes (Endpoint * Z);
  du_out : list (Endpoint * bytes);
  du_in : list Arrival;
  du_clock : Z;                                            (* absl::Now(), in ns *)
  du_latency : Z;
  du_dns : bytes -> bytes -> list Endpoint + bytes;
}.

Definition cache_ttl : Z := 60 * 1000000000.
Definition cache_max : nat := 1024.

(** Where a datagram for [t] goes; [None] is [continue]. [now] and [later] are
    the two readings of the clock, around the resolution. *)
Definition find_dest (dns : bytes -> bytes -> list Endpoint + bytes) (now later : Z) (t : Address)
    (cache : gmap bytes (Endpoint * Z)) : res (option Endpoint * gmap bytes (Endpoint * Z)) :=
  match type_ t with
  | Domain =>
      let it := cache !! domain_ t in
      let resolve_again :=
        match resolveOne dns t with
        | UB => UB
        | Err _ => Ok (None, cache)
        | Ok rep =>
            Ok (Some rep,
                if bool_decide (size cache < cache_max)%nat then <[domain_ t := (rep, later)]> cache
                else match it with
                     | Some _ => <[domain_ t := (rep, later)]> cache
                     | None => cache
                     end)
        end in
      match it with
      | Some (dest, stamp) => if now - stamp <? cache_ttl then Ok (Some dest, cache) else resolve_again
      | None => resolve_again
      end
  | IPv4 => b ← rdn (bytes_ t) 0 4; Ok (Some (mkEndpoint b (port_ t)), cache)
  | IPv6 => b ← rdn (bytes_ t) 0 16; Ok (Some (mkEndpoint b (port_ t)), cache)
  end.

(** The body of the loop of [read_client] after [receiveFrom]; the result of
    [async_send_to] is ignored. *)
Definition direct_send (m : Datagram) (u : DirectUdp) : res unit * DirectUdp :=
  match find_dest (du_dns u) (du_clock u) (du_clock u + du_latency u) (snd m) (du_cache u) with
  | UB => (UB, u)
  | Err st => (Err st, u)
  | Ok (None, cache) =>
      (Ok tt, mkDirectUdp (du_open u) cache (du_out u) (du_in u) (du_clock u) (du_latency u) (du_dns u))
  | Ok (Some dest, cache) =>
      (Ok tt, mkDirectUdp (du_open u) cache (if du_open u then du_out u ++ [(dest, fst m)] else du_out u)
                (du_in u) (du_clock u) (du_latency u) (du_dns u))
  end.

(** The body of the loop of [read_remote] up to [sendTo]. *)
Definition endpoint_address (e : Endpoint) : Address :=
  if bool_decide (length (ep_addr e) = 4%nat) then fromIPv4 (ep_addr e) (ep_port e)
  else fromIPv6 (ep_addr e) (ep_port e).

#[export] Instance DirectUdp_stream : DatagramStream DirectUdp := {|
  ds_receive u :=
    if negb (du_open u) then Some (Err bad_descriptor, u)
    else match du_in u with
         | [] => None
         | inl (sender, d) :: rest =>
             Some (Ok (d, endpoint_address sender),
                   mkDirectUdp (du_open u) (du_cache u) (du_out u) rest (du_clock u) (du_latency u) (du_dns u))
         | inr msg :: rest =>
             Some (Err (UnavailableError msg),
                   mkDirectUdp (du_open u) (du_cache u) (du_out u) rest (du_clock u) (du_latency u) (du_dns u))
         end;
  ds_send := direct_send;
  ds_close u := mkDirectUdp false (du_cache u) (du_out u) (du_in u) (du_clock u) (du_latency u) (du_dns u);
  ds_event u u' :=
    du_open u' = du_open u /\ du_cache u' = du_cache u /\ du_out u' = du_out u /\
    (exists more, du_in u' = du_in u ++ more) /\ du_clock u <= du_clock u' /\ 0 <= du_latency u';
|}.

#[export] Instance DirectUdp_stream_spec : DatagramStreamSpec DirectUdp (fun u => du_open u = false) (fun _ => 0%nat).
Proof.
  split.
  - done.
  - intros u Hc. cbn. rewrite Hc. by eexists _, _.
  - intros m u Hc. cbn. split; [|done]. unfold direct_send. by repeat case_match.
  - intros u u' Hc (-> & _). done.
Qed.

(** ** The cache *)

Record Query := mkQuery { q_dns : bytes -> bytes -> list Endpoint + bytes; q_now : Z; q_later : Z; q_target : Address }.

(** The datagrams handled so far with where they went, and the cache. *)
Inductive cache_run : list (Query * option Endpoint) -> gmap bytes (Endpoint * Z) -> Prop :=
  | cache_run_nil : cache_run [] ∅
  | cache_run_snoc tr cache q o cache' :
      cache_run tr cache -> find_dest (q_dns q) (q_now q) (q_later q) (q_target q) cache = Ok (o, cache') ->
      cache_run (tr ++ [(q, o)]) cache'.

(** [e] was the resolver's answer for the name [d] to one of the queries. *)
Definition answered (tr : list (Query * option Endpoint)) (d : bytes) (e : Endpoint) (stamp : Z) : Prop :=
  exists q, q ∈ fst <$> tr /\ type_ (q_target q) = Domain /\ domain_ (q_target q) = d /\
    resolveOne (q_dns q) (q_target q) = Ok e /\ q_later q = stamp.

Definition cache_ok (tr : list (Query * option Endpoint)) (cache : gmap bytes (Endpoint * Z)) : Prop :=
  (size cache <= cache_max)%nat /\ forall d e stamp, cache !! d = Some (e, stamp) -> answered tr d e stamp.

Section CacheFacts.

Lemma answered_more tr x d e stamp : answered tr d e stamp -> answered (tr ++ [x]) d e stamp.
Proof.
  intros (q & Hq & Hr). exists q. split; [|done]. rewrite fmap_app. apply elem_of_app. by left.
Qed.

Lemma answered_last tr q o e :
  type_ (q_target q) = Domain -> resolveOne (q_dns q) (q_target q) = Ok e ->
  answered (tr ++ [(q, o)]) (domain_ (q_target q)) e (q_later q).
Proof.
  intros Ht Hr. exists q. split; [|done]. rewrite fmap_app. apply elem_of_app. right. by left.
Qed.

(** A query by cases: an address, a fresh entry, or a resolution. *)
Lemma find_dest_cases dns now later t cache o cache' :
  find_dest dns now later t cache = Ok (o, cache') ->
  (type_ t <> Domain /\ cache' = cache /\ exists e, o = Some e /\ resolveOne dns t = Ok e) \/
  (type_ t = Domain /\ cache' = cache /\ exists e stamp, cache !! domain_ t = Some (e, stamp) /\
     now - stamp < cache_ttl /\ o = Some e) \/
  (type_ t = Domain /\ ((o = None /\ cache' = cache) \/
     exists e, o = Some e /\ resolveOne dns t = Ok e /\
       (cache' = cache \/ (cache' = <[domain_ t := (e, later)]> cache /\
          ((size cache < cache_max)%nat \/ is_Some (cache !! domain_ t)))))).
Proof.
  assert (forall it, cache !! domain_ t = it ->
    match resolveOne dns t with
    | UB => UB
    | Err _ => Ok (None, cache)
    | Ok rep =>
        Ok (Some rep, if bool_decide (size cache < cache_max)%nat then <[domain_ t := (rep, later)]> cache
                      else match it with Some _ => <[domain_ t := (rep, later)]> cache | None => cache end)
    end = Ok (o, cache') ->
    (o = None /\ cache' = cache) \/
     exists e, o = Some e /\ resolveOne dns t = Ok e /\
       (cache' = cache \/ (cache' = <[domain_ t := (e, later)]> cache /\
          ((size cache < cache_max)%nat \/ is_Some (cache !! domain_ t))))) as Hres.
  { intros it Hit. destruct (resolveOne dns t) as [e|st|]; [|intros [= <- <-]; by left|done].
    case_bool_decide as Hs; [|destruct it]; intros [= <- <-]; right; exists e; rewrite Hit; eauto 10. }
  unfold find_dest. destruct (type_ t) eqn:Et.
  - unfold resolveOne. rewrite Et. destruct (rdn (bytes_ t) 0 4); [|done..]. cbn. intros [= <- <-]. left. eauto.
  - unfold resolveOne. rewrite Et. destruct (rdn (bytes_ t) 0 16); [|done..]. cbn. intros [= <- <-]. left. eauto.
  - destruct (cache !! domain_ t) as [[e stamp]|] eqn:Ec.
    + destruct (Z.ltb_spec (now - stamp) cache_ttl).
      * intros [= <- <-]. right. left. eauto 10.
      * intros E. right. right. split; [done|]. exact (Hres _ eq_refl E).
    + intros E. right. right. split; [done|]. exact (Hres _ eq_refl E).
Qed.

Lemma cache_run_ok tr cache : cache_run tr cache -> cache_ok tr cache.
Proof.
  induction 1 as [|tr cache q o cache' _ [Hs Ha] E]; [split; [rewrite map_size_empty; unfold cache_max; lia|by intros ??? ?%lookup_empty_Some]|].
  assert (forall d e stamp, cache !! d = Some (e, stamp) -> answered (tr ++ [(q, o)]) d e stamp) as Ha'
    by eauto using answered_more.
  apply find_dest_cases in E as [(_ & -> & _)|[(_ & -> & _)|(Ht & [[_ ->]|(e & _ & Hr & [->|[-> Hsize]])])]];
    [by split..|].
  split.
  - destruct (cache !! domain_ (q_target q)) as [old|] eqn:Ec.
    + rewrite map_size_insert_Some by done. done.
    + rewrite map_size_insert_None by done. destruct Hsize as [|[? ?]]; [lia|done].
  - intros d e' stamp. destruct (decide (d = domain_ (q_target q))) as [->|Hd].
    + rewrite lookup_insert. case_decide; [|done]. intros [= <- <-]. by apply answered_last.
    + rewrite lookup_insert_ne by done. apply Ha'.
Qed.
End CacheFacts.

(** ** Properties *)

Section DatagramProperties.

(** A datagram relay is lossless and keeps the order, whatever the two
    streams are and however the two loops and the rest of the world interleave:
    in each direction the datagrams sent on are exactly the first of those
    received, with their addresses; the only others are the one a loop holds and
    the one whose send failed, which ended the loop. *)
Theorem udp_relay_lossless `{DatagramStream A, DatagramStream B} (c : A) (r : B) s :
  rtc relay_step (relay_init c r) s ->
  pf_got (frc s) = pf_sent (frc s) ++ pump_held (rc s) ++ pf_lost (frc s) /\
  pf_got (frr s) = pf_sent (frr s) ++ pump_held (rr s) ++ pf_lost (frr s) /\
  (pump_ended (rc s) = false -> pf_lost (frc s) = []) /\ (pump_ended (rr s) = false -> pf_lost (frr s) = []).
Proof.
  intros Hr. destruct (relay_ok_run c r s Hr) as [[E1 L1] [E2 L2]]. split; [done|]. split; [done|].
  split; [destruct (pump_ended (rc s))|destruct (pump_ended (rr s))]; done.
Qed.

(** C30. A datagram relay tears itself down: a loop that ends has closed the
    stream it sent to, for good, and that ends the other loop, which is never
    suspended again and stops after a bounded number of its own turns (two for
    each datagram the closed stream still has, and three more). *)
Theorem udp_relay_tears_down {A B : Type} {closedA : A -> Prop} {closedB : B -> Prop} {backA : A -> nat} {backB : B -> nat}
    `{DatagramStreamSpec A closedA backA, DatagramStreamSpec B closedB backB} (c : A) (r : B) s n :
  rtc relay_step (relay_init c r) s ->
  (rr s = PDone -> closedA (client s) /\
     ((2 * backA (client s) + 3 <= n)%nat -> pump_over (rc (relay_run (replicate n ReadClient) s)))) /\
  (rc s = PDone -> closedB (remote s) /\
     ((2 * backB (remote s) + 3 <= n)%nat -> pump_over (rr (relay_run (replicate n ReadRemote) s)))).
Proof.
  intros Hr. destruct (teardown_ok_run (closedA := closedA) (closedB := closedB) c r s Hr) as [T1 T2]. split.
  - intros E. pose proof (T2 E) as Hc. split; [done|]. intros Hn. rewrite run_client_iter.
    apply (pump_iter_over (closedA := closedA) (backA := backA)); [done|]. destruct (rc s); cbn; lia.
  - intros E. pose proof (T1 E) as Hc. split; [done|]. intros Hn. rewrite run_remote_iter.
    apply (pump_iter_over (closedA := closedB) (backA := backB)); [done|]. destruct (rr s); cbn; lia.
Qed.

(** C32. The direct outbound sends where it should: whatever datagrams came
    before, the cache has at most 1024 names; an address goes to itself; and a
    name goes to an endpoint the resolver gave for that very name, either now or
    less than 60 seconds ago. *)
Theorem direct_destination_sound tr cache q o cache' :
  cache_run tr cache -> find_dest (q_dns q) (q_now q) (q_later q) (q_target q) cache = Ok (o, cache') ->
  (size cache' <= 1024)%nat /\
  match type_ (q_target q), o with
  | Domain, None => True
  | Domain, Some e =>
      resolveOne (q_dns q) (q_target q) = Ok e \/
      exists stamp, answered tr (domain_ (q_target q)) e stamp /\ q_now q - stamp < 60 * 1000000000
  | _, _ => exists e, o = Some e /\ resolveOne (q_dns q) (q_target q) = Ok e
  end.
Proof.
  intros Hrun E. split.
  { apply (cache_run_ok (tr ++ [(q, o)])). by econstructor. }
  apply cache_run_ok in Hrun as [_ Ha].
  apply find_dest_cases in E as [(Ht & _ & He)|[(Ht & _ & e & stamp & Hc & Hn & ->)|(Ht & Hres)]].
  - by destruct (type_ (q_target q)).
  - rewrite Ht. right. exists stamp. split; [by apply Ha|done].
  - rewrite Ht. destruct Hres as [[-> _]|(e & -> & Hr & _)]; [done|by left].
Qed.

(** What the cache leaves out: the port.  After a datagram to a name was
    resolved, every datagram to that name in the next 60 seconds goes to the
    same endpoint, port included, whatever port it names. *)
Theorem direct_cache_ignores_port dns now later t cache e dns' now' later' t' :
  type_ t = Domain -> cache !! domain_ t = None -> (size cache < 1024)%nat -> resolveOne dns t = Ok e ->
  type_ t' = Domain -> domain_ t' = domain_ t -> now' - later < 60 * 1000000000 ->
  exists cache', find_dest dns now later t cache = Ok (Some e, cache') /\
    find_dest dns' now' later' t' cache' = Ok (Some e, cache').
Proof.
  intros Ht Hc Hs Hr Ht' Hd Hn. exists (<[domain_ t := (e, later)]> cache).
  unfold find_dest. rewrite Ht, Ht', Hc, Hr, Hd, bool_decide_eq_true_2, lookup_insert by done.
  case_decide; [|done]. by rewrite (proj2 (Z.ltb_lt _ _)).
Qed.
End DatagramProperties.

(** ** Witnesses *)

Lemma relay_run_rtc `{DatagramStream A, DatagramStream B} ts (s : UdpRelay A B) : rtc relay_step s (relay_run ts s).
Proof.
  revert s. induction ts as [|t ts IH]; intros s; cbn [relay_run]; [done|].
  destruct (relay_turn t s) as [s'|] eqn:E; [|done]. eapply rtc_l; [by econstructor|]. apply IH.
Qed.

Definition sample_dns (d s : bytes) : list Endpoint + bytes :=
  inl [mkEndpoint [x01; x02; x03; x04] (match SimpleAtoi (AbslOps := reference_absl) 0 65535 s with Some p => p | None => 0 end)].
Definition sample_direct (input : list Arrival) : DirectUdp := mkDirectUdp true ∅ [] input 0 0 sample_dns.
Definition dns_name : Address := fromDomain (lit "host") 53.
Definition sample_client : InjectedStream DirectUdp :=
  mkInjectedStream (sample_direct [inl (mkEndpoint [x09; x09; x09; x09] 9, lit "two")]) (Some (lit "one", dns_name)).

Lemma udp_relay_lossless_witness :
  let s := relay_run [ReadClient; ReadClient; ReadClient] (relay_init sample_client (sample_direct [])) in
  pf_sent (frc s) = [(lit "one", dns_name)] /\ pf_got (frc s) = pf_sent (frc s) ++ pump_held (rc s).
Proof.
  intros s. split; [by vm_compute|].
  destruct (udp_relay_lossless sample_client (sample_direct []) s) as (E & _ & L & _); [apply relay_run_rtc|].
  rewrite E, L by (by vm_compute). by rewrite app_nil_r.
Defined.

Lemma udp_relay_tears_down_witness :
  let c := mkInjectedStream (ds_close (sample_direct [])) (Some (lit "one", dns_name)) in
  let s := relay_run [ReadClient; ReadClient; ReadClient; ReadClient] (relay_init c (sample_direct [])) in
  rc s = PDone /\ pump_over (rr (relay_run (replicate 3 ReadRemote) s)).
Proof.
  intros c s. split; [by vm_compute|].
  destruct (udp_relay_tears_down (H0 := Injected_stream_spec (H0 := DirectUdp_stream_spec))
    (H2 := DirectUdp_stream_spec) c (sample_direct []) s 3) as [_ H];
    [apply relay_run_rtc|].
  apply H; [by vm_compute|lia].
Defined.

Definition sample_endpoint : Endpoint := mkEndpoint [x01; x02; x03; x04] 53.

Lemma direct_destination_sound_witness :
  find_dest sample_dns 10 11 dns_name ∅ = Ok (Some sample_endpoint, <[lit "host" := (sample_endpoint, 11)]> ∅) /\
    resolveOne sample_dns dns_name = Ok sample_endpoint.
Proof.
  assert (find_dest sample_dns 10 11 dns_name ∅ = Ok (Some sample_endpoint, <[lit "host" := (sample_endpoint, 11)]> ∅)) as E
    by reflexivity.
  split; [exact E|].
  destruct (direct_destination_sound [] ∅ (mkQuery sample_dns 10 11 dns_name) _ _ cache_run_nil E)
    as [_ [Er|(stamp & (q & Hq & _) & _)]]; [exact Er|]. by apply elem_of_nil in Hq.
Defined.

Lemma direct_cache_ignores_port_witness :
  exists cache', find_dest sample_dns 10 11 dns_name ∅ = Ok (Some sample_endpoint, cache') /\
    find_dest sample_dns 20 21 (fromDomain (lit "host") 443) cache' = Ok (Some sample_endpoint, cache').
Proof.
  apply (direct_cache_ignores_port sample_dns 10 11 dns_name ∅ sample_endpoint sample_dns 20 21 (fromDomain (lit "host") 443));
    [reflexivity|reflexivity|rewrite map_size_empty; lia|reflexivity|reflexivity|reflexivity|cbn; lia].
Defined.
