(* ===== verification/ShinePool.v ===== *)
(** * The ends of shine links (src/outbound/shine_outbound.cpp, src/inbound/shine_inbound.cpp)

    The outbound keeps a pool of client links and deals requests to them in turn;
    the inbound accepts server links and keeps those that are open.  Links are the
    records of Link.v, reached by pointer: an index into the heap of all links
    made.  Several [handle] coroutines, [stop] and the links themselves run
    concurrently: a step relation whose steps are the stretches of code between
    two suspension points or lock operations. *)
From S2P Require Import Prelude Absl Buffer Resp2 ShineFrame Address Request Channel Socket Session Link LinkReader Config Pipe Datagram.
From Stdlib Require Import Strings.Byte.

(** The default of [LinkOptions] (link.hpp). *)
Definition default_max_data_frame : Z := 256 * 1024.

Definition client_options (cfg : OutboundConfig) : LinkOptions :=
  mkLinkOptions (out_password cfg) (out_init_window cfg) (out_ping_interval cfg) (out_pong_timeout cfg)
    kMaxBulkLen default_max_data_frame false.
Definition server_options (cfg : InboundConfig) : LinkOptions :=
  mkLinkOptions (in_password cfg) (in_init_window cfg) (in_ping_interval cfg) (in_pong_timeout cfg)
    (in_max_payload cfg) default_max_data_frame true.

(** What the network answers to a connection attempt. *)
Record Network := mkNetwork {
  net_resolve : bytes -> bytes -> list Endpoint + bytes;
  net_connect : Endpoint -> option bytes;                (* the error message *)
}.

(** [parseHostPort], [resolveOne] and [async_connect], as every outbound with a
    server begins. *)
Definition connect_server `{AbslOps, BoostIp} (net : Network) (server : bytes) : res Endpoint :=
  a ← parseHostPort server;
  ep ← resolveOne (net_resolve net) a;
  match net_connect net ep with
  | Some msg => Err (UnavailableError msg)
  | None => Ok ep
  end.

(** ** Outbound *)

Section Pool.
Context `{AbslOps, BoostIp} {C : Type -> Type} `{ChannelOps C}.

(** One [handle] coroutine. *)
Inductive Task :=
  | TCheck                                    (* at the test of stopping_ *)
  | TPick                                     (* before the first lock *)
  | TDial                                     (* inside dialNewLink *)
  | TPush (l : nat)                           (* before the second lock *)
  | THave (l : nat)                           (* at waitHandshake *)
  | TOpen (l : nat)                           (* at openSession *)
  | TRelay (l p : nat)                        (* session p of link l is relayed *)
  | TFail (st : Status).

Record ShineOutbound := mkShine {
  pool_size : Z;                              (* cfg_.pool_size *)
  pool_ : list nat;
  rr_ : Z;                                    (* atomic<size_t> *)
  stopping_ : bool;
  links : list (Link C);                      (* every link made *)
  tasks : list Task;
}.

Definition ShineOutbound_new (cfg : OutboundConfig) : ShineOutbound :=
  mkShine (out_pool_size cfg) [] 0 false [] [].

Definition link_open (ls : list (Link C)) (l : nat) : bool :=
  match ls !! l with Some L => negb (closed_ L) | None => false end.

(** The first critical section of [pickOrMakeLink]: the candidate, the pool and
    the counter. *)
Definition pick (s : ShineOutbound) : option nat * list nat * Z :=
  let pool := filter (fun l => link_open (links s) l = true) (pool_ s) in
  if decide (pool = []) then (None, pool, rr_ s)
  else (pool !! Z.to_nat (rr_ s mod zlen pool), pool, u64 (rr_ s + 1)).

(** [dialNewLink], from the connected socket on. *)
Definition dial (cfg : OutboundConfig) (now : Z) (s : ShineOutbound) : nat * list (Link C) :=
  (length (links s), links s ++ [start false now (Link_new (client_options cfg))]).

(** The second critical section. *)
Definition push (l : nat) (s : ShineOutbound) : list nat :=
  if zlen (pool_ s) <? pool_size s then pool_ s ++ [l] else pool_ s.

Definition stop (s : ShineOutbound) : ShineOutbound :=
  mkShine (pool_size s) [] (rr_ s) true
    (fold_left (fun ls l => alter (fun L => snd (closeNow L)) l ls) (pool_ s) (links s)) (tasks s).

Definition set_task (i : nat) (t : Task) (s : ShineOutbound) : ShineOutbound :=
  mkShine (pool_size s) (pool_ s) (rr_ s) (stopping_ s) (links s) (<[i := t]> (tasks s)).

(** The stretches of one coroutine. *)
Definition task_step (cfg : OutboundConfig) (net : Network) (now : Z) (draws : list Z) (target : Address) (is_udp has_client : bool)
    (i : nat) (s : ShineOutbound) : option ShineOutbound :=
  match tasks s !! i with
  | Some TCheck =>
      Some (set_task i (if stopping_ s then TFail (UnavailableError (lit "stopped")) else TPick) s)
  | Some TPick =>
      let '(cand, pool, rr) := pick s in
      Some (mkShine (pool_size s) pool rr (stopping_ s) (links s)
              (<[i := match cand with Some l => THave l | None => TDial end]> (tasks s)))
  | Some TDial =>
      match connect_server net (out_server cfg) with
      | UB => None
      | Err _ => Some (set_task i (TFail (UnavailableError (lit "no live link"))) s)
      | Ok _ =>
          let '(l, ls) := dial cfg now s in
          Some (mkShine (pool_size s) (pool_ s) (rr_ s) (stopping_ s) ls (<[i := TPush l]> (tasks s)))
      end
  | Some (TPush l) =>
      Some (mkShine (pool_size s) (push l s) (rr_ s) (stopping_ s) (links s) (<[i := THave l]> (tasks s)))
  | Some (THave l) =>
      match links s !! l with
      | None => None
      | Some L =>
          match waitHandshake L with
          | (Return ok, L') =>
              Some (mkShine (pool_size s) (pool_ s) (rr_ s) (stopping_ s) (<[l := L']> (links s))
                (<[i := if ok then TOpen l else TFail (UnavailableError (lit "shine link handshake failed"))]> (tasks s)))
          | _ => None
          end
      end
  | Some (TOpen l) =>
      match links s !! l with
      | None => None
      | Some L =>
          match openSession draws target is_udp L with
          | Some (Ok p, L') =>
              Some (mkShine (pool_size s) (pool_ s) (rr_ s) (stopping_ s) (<[l := L']> (links s)) 
                (<[i := if is_udp && negb has_client then TFail (InvalidArgumentError (lit "no client udp stream"))
                        else TRelay l p]> (tasks s)))
          | Some (Err st, L') =>
              Some (mkShine (pool_size s) (pool_ s) (rr_ s) (stopping_ s) (<[l := L']> (links s)) (<[i := TFail st]> (tasks s)))
          | _ => None
          end
      end
  | Some (TRelay _ _) | Some (TFail _) | None => None
  end.

(** Coroutines, new requests, [stop], and the links at work. *)
Inductive pool_step (cfg : OutboundConfig) (s : ShineOutbound) : ShineOutbound -> Prop :=
  | ps_task net now draws target is_udp has_client i s' :
      task_step cfg net now draws target is_udp has_client i s = Some s' -> pool_step cfg s s'
  | ps_handle : pool_step cfg s (mkShine (pool_size s) (pool_ s) (rr_ s) (stopping_ s) (links s) (tasks s ++ [TCheck]))
  | ps_stop : pool_step cfg s (stop s)
  | ps_link l L L' : links s !! l = Some L -> link_step L L' ->
      pool_step cfg s (mkShine (pool_size s) (pool_ s) (rr_ s) (stopping_ s) (<[l := L']> (links s)) (tasks s)).
End Pool.
Arguments ShineOutbound : clear implicits.

(** ** The pool invariant *)

Definition pushed (t : Task) : option nat := match t with TPush l => Some l | _ => None end.
Definition dialing (t : Task) : bool := match t with TDial | TPush _ => true | _ => false end.
Definition task_link (t : Task) : option nat :=
  match t with TPush l | THave l | TOpen l | TRelay l _ => Some l | _ => None end.

Section PoolFacts.
Context `{AbslOps, BoostIp} {C : Type -> Type} `{ChannelOps C}.
Implicit Types s : ShineOutbound C.

Definition pushing (ts : list Task) : list nat := omap pushed ts.

(** Pointers are valid and the links in the pool, or about to be, distinct. *)
Definition pool_inv (size : Z) (pool : list nat) (n : nat) (ts : list Task) : Prop :=
  zlen pool <= size /\ NoDup (pool ++ pushing ts) /\ Forall (fun l => l < n)%nat (pool ++ omap task_link ts).
Definition pool_ok s : Prop := pool_inv (pool_size s) (pool_ s) (length (links s)) (tasks s).

(** A task in its place. *)
Lemma task_split (ts : list Task) i t :
  ts !! i = Some t -> exists l r, ts = l ++ t :: r /\ forall t', <[i := t']> ts = l ++ t' :: r.
Proof.
  intros E. exists (take i ts), (drop (S i) ts). pose proof (lookup_lt_Some _ _ _ E). split.
  - by rewrite take_drop_middle.
  - intros t'. rewrite insert_take_drop by done. done.
Qed.

Lemma omap_replace {A} (f : Task -> option A) l t r :
  omap f (l ++ t :: r) = omap f l ++ (match f t with Some x => [x] | None => [] end) ++ omap f r.
Proof. rewrite omap_app. cbn. by destruct (f t). Qed.

Lemma filter_sub (p : nat -> bool) l : sublist (filter (fun x => p x = true) l) l.
Proof. apply sublist_filter. Qed.

Lemma pool_inv_replace z pool n l t r t' :
  pool_inv z pool n (l ++ t :: r) -> pushed t' = None -> (forall x, task_link t' = Some x -> (x < n)%nat) ->
  pool_inv z pool n (l ++ t' :: r).
Proof.
  unfold pool_inv, pushing. intros (Hz & Hn & Hf) Hp Ht. rewrite !omap_replace in *. rewrite Hp.
  split; [done|]. split.
  - eapply sublist_NoDup; [exact Hn|]. apply sublist_app; [done|]. apply sublist_app; [done|].
    apply sublist_app; [apply sublist_nil_l|done].
  - rewrite !Forall_app in *. destruct Hf as (F1 & F2 & _ & F3). split; [done|]. split; [done|]. split; [|done].
    destruct (task_link t') eqn:E; [|done]. constructor; [by apply Ht|done].
Qed.

Lemma pool_inv_shrink z pool pool' n ts : pool_inv z pool n ts -> sublist pool' pool -> pool_inv z pool' n ts.
Proof.
  intros (Hz & Hn & Hf) Hs. split; [|split].
  - apply sublist_length in Hs. unfold zlen in *. lia.
  - eapply sublist_NoDup; [exact Hn|]. by apply sublist_app.
  - rewrite Forall_app in *. destruct Hf. split; [|done]. rewrite Forall_forall in *. intros x Hx. apply sublist_subseteq in Hs. auto.
Qed.

Lemma pool_inv_dial z pool n l r :
  pool_inv z pool n (l ++ TDial :: r) -> pool_inv z pool (S n) (l ++ TPush n :: r).
Proof.
  unfold pool_inv, pushing. rewrite !omap_replace. cbn [pushed task_link app]. intros (Hz & Hn & Hf).
  assert (forall ts : list Task, omap pushed ts ⊆ omap task_link ts) as Hsub.
  { intros ts x (t & Ht & E)%list_elem_of_omap. apply list_elem_of_omap. exists t. split; [done|]. by destruct t. }
  split; [done|]. split.
  - rewrite !app_assoc in *. rewrite <- Permutation_middle. constructor; [|done].
    intros Hin. rewrite Forall_forall in Hf. assert (n < n)%nat; [|lia]. apply Hf.
    rewrite !elem_of_app in *. destruct Hin as [[?|?%Hsub]|?%Hsub]; auto.
  - assert (forall x, (x < n -> x < S n)%nat) as Hlt by lia.
    rewrite !Forall_app in *. destruct Hf as (? & ? & ?).
    split; [by eapply Forall_impl|]. split; [by eapply Forall_impl|]. constructor; [lia|by eapply Forall_impl].
Qed.

Lemma pool_inv_push z pool n l x r :
  pool_inv z pool n (l ++ TPush x :: r) ->
  pool_inv z (if zlen pool <? z then pool ++ [x] else pool) n (l ++ THave x :: r).
Proof.
  unfold pool_inv, pushing. rewrite !omap_replace. cbn [pushed task_link app]. intros (Hz & Hn & Hf).
  assert (x < n)%nat as Hx by (rewrite !Forall_app, Forall_cons in Hf; naive_solver).
  destruct (Z.ltb_spec (zlen pool) z); (split; [rewrite ?zlen_app, ?zlen_cons, ?zlen_nil; lia|]); split.
  - eapply NoDup_Permutation_proper; [|exact Hn]. rewrite <- !app_assoc. apply Permutation_app; [done|].
    cbn [app]. by rewrite Permutation_middle.
  - rewrite <- app_assoc. rewrite !Forall_app in *. naive_solver.
  - eapply sublist_NoDup; [exact Hn|]. apply sublist_app; [done|]. apply sublist_app; [done|]. by apply sublist_cons.
  - done.
Qed.

Lemma links_stop (ps : list nat) (ls : list (Link C)) :
  length (fold_left (fun ls l => alter (fun L => snd (closeNow L)) l ls) ps ls) = length ls.
Proof. revert ls. induction ps as [|p ps IH]; intros ls; cbn [fold_left]; [done|]. by rewrite IH, length_alter. Qed.

Lemma pick_sub s cand pool rr : pick s = (cand, pool, rr) -> sublist pool (pool_ s) /\
  match cand with
  | Some l => l ∈ pool_ s /\ link_open (links s) l = true /\ rr = u64 (rr_ s + 1)
  | None => pool = [] /\ (forall l, l ∈ pool_ s -> link_open (links s) l = false) /\ rr = rr_ s
  end.
Proof.
  unfold pick. set (p := filter _ _). assert (sublist p (pool_ s)) as Hsub by apply sublist_filter.
  destruct (decide (p = [])) as [E|E]; intros [= <- <- <-].
  - split; [done|]. split; [exact E|]. split; [|done]. intros l Hl. destruct (link_open (links s) l) eqn:Eo; [|done].
    assert (l ∈ p) as Hin by (unfold p; apply list_elem_of_filter; auto). rewrite E in Hin. by apply not_elem_of_nil in Hin.
  - split; [done|]. pose proof (zlen_pos p E). pose proof (Z.mod_pos_bound (rr_ s) (zlen p) ltac:(lia)).
    destruct (lookup_lt_is_Some_2 p (Z.to_nat (rr_ s mod zlen p))) as [l El]; [unfold zlen in *; lia|].
    rewrite El. apply list_elem_of_lookup_2, list_elem_of_filter in El as [Ho Hl]. done.
Qed.

Lemma pool_ok_step cfg s s' : pool_step cfg s s' -> pool_ok s -> pool_ok s'.
Proof.
  unfold pool_ok. intros Hst Hok. destruct Hst as [net now draws target is_udp has_client i s' E| | |l L L' _ _].
  - unfold task_step in E. destruct (tasks s !! i) as [t|] eqn:Et; [|done].
    destruct (task_split _ _ _ Et) as (ts1 & ts2 & Ets & Hins). rewrite Ets in Hok.
    assert (forall x, task_link t = Some x -> (x < length (links s))%nat) as Hx.
    { intros x Ex. destruct Hok as (_ & _ & Hf). rewrite omap_replace, Ex, !Forall_app, Forall_cons in Hf. naive_solver. }
    destruct t as [| | |l|l|l|l p|st]; try done.
    + injection E as <-. cbn. rewrite Hins. eapply pool_inv_replace; [done|by destruct (stopping_ s)..].
    + destruct (pick s) as [[cand pool] rr] eqn:Ep. injection E as <-. cbn. rewrite Hins.
      apply pick_sub in Ep as [Hsub Hc].
      eapply pool_inv_replace; [by eapply pool_inv_shrink|by destruct cand|].
      destruct cand as [l|]; [|done]. cbn. intros x [= <-]. destruct Hok as (_ & _ & Hf), Hc as [Hin _].
      rewrite Forall_app, Forall_forall in Hf. destruct Hf as [Hf _]. by apply Hf.
    + destruct (connect_server net (out_server cfg)); [|injection E as <-|done].
      * injection E as <-. cbn. rewrite Hins, length_app, Nat.add_1_r. by apply pool_inv_dial.
      * cbn. rewrite Hins. by eapply pool_inv_replace.
    + injection E as <-. cbn. rewrite Hins. by apply pool_inv_push.
    + destruct (links s !! l) as [L|]; [|done]. destruct (waitHandshake L) as [[ok| |] L']; try done. injection E as <-.
      cbn. rewrite Hins, length_insert. eapply pool_inv_replace; [done|by destruct ok|]. destruct ok; [|done]. by apply Hx.
    + destruct (links s !! l) as [L|]; [|done]. destruct (openSession draws target is_udp L) as [[[p|st|] L']|]; try done;
        injection E as <-; cbn; rewrite Hins, length_insert.
      * eapply pool_inv_replace; [done|by destruct (_ && _)|]. destruct (_ && _); [done|]. by apply Hx.
      * by eapply pool_inv_replace.
  - cbn. destruct Hok as (Hz & Hn & Hf). unfold pool_inv, pushing in *. rewrite !omap_app. cbn. by rewrite !app_nil_r.
  - cbn. rewrite links_stop. eapply pool_inv_shrink; [done|apply sublist_nil_l].
  - cbn. by rewrite length_insert.
Qed.

Lemma pool_ok_run cfg s : 0 <= out_pool_size cfg -> rtc (pool_step cfg) (ShineOutbound_new cfg) s -> pool_ok s.
Proof.
  intros Hz. apply (rtc_ind_r pool_ok).
  - unfold pool_ok, pool_inv. cbn. rewrite zlen_nil. split; [done|]. split; constructor.
  - intros s1 s2 _ Hst. by apply (pool_ok_step cfg).
Qed.
End PoolFacts.

(** ** Links that close stay closed *)

Section ClosedLinks.
Context `{AbslOps, BoostIp} {C : Type -> Type} `{ChannelOps C}.
Implicit Types L : Link C.

Lemma apply_effects_closed sid eff L : closed_ (apply_effects sid eff L) = closed_ L.
Proof.
  unfold apply_effects, eraseSession.
  assert (forall ws l, closed_ (fold_left (fun l w => enqueueFrame w l) ws l) = closed_ (l : Link C)) as Hf.
  { induction ws as [|w ws IH]; intros l; cbn [fold_left]; [done|]. rewrite IH. unfold enqueueFrame. by destruct (closed_ l) eqn:E. }
  destruct (erased eff); cbn; by rewrite Hf.
Qed.

Lemma announce_closed L : closed_ (gracefulShutdown_announce L) = closed_ L.
Proof.
  unfold gracefulShutdown_announce. generalize (snd <$> map_to_list (sessions_ L)). intros ps. revert L.
  induction ps as [|p ps IH]; intros L; cbn [fold_left]; [done|]. rewrite IH.
  destruct (heap_ L !! p); [|done]. apply enqueueFrame_fields.
Qed.

Lemma link_step_closed L L' : link_step L L' -> closed_ L = true -> closed_ L' = true.
Proof.
  intros [now f Hf|L1 Hst] Hc; [|destruct Hst; cbn; try done].
  - by destruct (dispatch_fields now f L) as (-> & _).
  - unfold call_session. by rewrite apply_effects_closed.
  - unfold openSession in *. rewrite Hc in *. by simplify_eq.
  - unfold heartbeat_tick, enqueueFrame, failLink. repeat case_match; cbn; congruence.
  - unfold writer_iter, failLink. rewrite Hc. cbn. repeat case_match; cbn; congruence.
  - unfold waitHandshake. rewrite Hc. by destruct (handshake_done_ L).
  - by rewrite announce_closed.
  - unfold failLink. by rewrite Hc.
  - unfold closeNow. by rewrite Hc.
Qed.

Lemma close_all_open (ps : list nat) (ls : list (Link C)) l :
  link_open (fold_left (fun ls l => alter (fun L => snd (closeNow L)) l ls) ps ls) l
  = link_open ls l && bool_decide (l ∉ ps).
Proof.
  revert ls. induction ps as [|p ps IH]; intros ls; cbn [fold_left].
  - rewrite bool_decide_eq_true_2 by apply not_elem_of_nil. by rewrite andb_true_r.
  - rewrite IH. unfold link_open. rewrite list_lookup_alter. destruct (decide (p = l)) as [->|Hne].
    + rewrite (bool_decide_eq_false_2 (l ∉ l :: ps)) by (intros Hn; apply Hn; by left).
      rewrite andb_false_r. destruct (ls !! l) as [L|]; cbn; [|done].
      unfold closeNow. by destruct (closed_ L) eqn:Ec; cbn; rewrite ?Ec.
    + f_equal. apply bool_decide_ext. rewrite not_elem_of_cons. naive_solver.
Qed.

Lemma link_open_insert (ls : list (Link C)) l L L' k :
  ls !! l = Some L -> (closed_ L = true -> closed_ L' = true) ->
  link_open (<[l := L']> ls) k = true -> link_open ls k = true.
Proof.
  intros El Hc. unfold link_open. destruct (decide (k = l)) as [->|Hne].
  - rewrite El, list_lookup_insert_eq by (by eapply lookup_lt_Some). destruct (closed_ L); [by rewrite Hc|done].
  - by rewrite list_lookup_insert_ne.
Qed.
End ClosedLinks.

(** ** Inbound *)

Section Inbound.
Context `{AbslOps, BoostIp} {C : Type -> Type} `{ChannelOps C}.

(** [acceptLoop] *)
Inductive Accept := AWait | APush (l : nat) | AEnd.

Record ShineInbound := mkInbound_ {
  links_ : list nat;
  in_stopping : bool;
  acceptor_open : bool;
  in_heap : list (Link C);
  acc : Accept;
}.
Definition ShineInbound_new : ShineInbound := mkInbound_ [] false true [] AWait.

(** A connection was accepted: the link is made and started. *)
Definition accept (cfg : InboundConfig) (now : Z) (s : ShineInbound) : ShineInbound :=
  mkInbound_ (links_ s) (in_stopping s) (acceptor_open s)
    (in_heap s ++ [start true now (Link_new (server_options cfg))]) (APush (length (in_heap s))).

(** The critical section, and the loop condition after it. *)
Definition accept_push (l : nat) (s : ShineInbound) : ShineInbound :=
  mkInbound_ (filter (fun k => link_open (in_heap s) k = true) (links_ s) ++ [l]) (in_stopping s) (acceptor_open s)
    (in_heap s) (if in_stopping s then AEnd else AWait).

Definition stop_inbound (s : ShineInbound) : ShineInbound :=
  mkInbound_ [] true false
    (fold_left (fun ls l => alter (fun L => snd (closeNow L)) l ls) (links_ s) (in_heap s)) (acc s).

Inductive inbound_step (cfg : InboundConfig) (s : ShineInbound) : ShineInbound -> Prop :=
  | is_accept now : acc s = AWait -> acceptor_open s = true -> inbound_step cfg s (accept cfg now s)
  | is_error : acc s = AWait ->
      inbound_step cfg s (mkInbound_ (links_ s) (in_stopping s) (acceptor_open s) (in_heap s) AEnd)
  | is_push l : acc s = APush l -> inbound_step cfg s (accept_push l s)
  | is_stop : inbound_step cfg s (stop_inbound s)
  | is_link l L L' : in_heap s !! l = Some L -> link_step L L' ->
      inbound_step cfg s (mkInbound_ (links_ s) (in_stopping s) (acceptor_open s) (<[l := L']> (in_heap s)) (acc s)).

(** The handler of a new session; [None] is a suspended [receiveFrom], an inner
    [None] a session without a datagram. *)
Definition on_new_session (cfg : InboundConfig) (x : SessionEnd C) (t : Address)
  : option (option (Request * (SessionEnd C + InjectedStream (SessionEnd C)))) :=
  match protocol_ (se_session x) with
  | TCP => Some (Some (mkRequest (in_tag cfg) (in_protocol cfg) TCP t, inl x))
  | UDP =>
      match ds_receive x with
      | None => None
      | Some (Ok (p, a), x') =>
          Some (Some (mkRequest (in_tag cfg) (in_protocol cfg) UDP a, inr (mkInjectedStream x' (Some (p, a)))))
      | Some (_, _) => Some None
      end
  end.
End Inbound.
Arguments ShineInbound : clear implicits.

Section InboundFacts.
Context `{AbslOps, BoostIp} {C : Type -> Type} `{ChannelOps C}.
Implicit Types s : ShineInbound C.

(** Every open link is listed, or about to be. *)
Definition inbound_ok s : Prop :=
  (forall l, link_open (in_heap s) l = true -> l ∈ links_ s \/ acc s = APush l) /\
  (in_stopping s = true -> acceptor_open s = false) /\
  (in_stopping s = true -> forall l, l ∈ links_ s -> acc s = AEnd).

Lemma link_open_app (ls : list (Link C)) L k :
  link_open (ls ++ [L]) k = true -> link_open ls k = true \/ k = length ls.
Proof.
  unfold link_open. destruct (decide (k < length ls)%nat).
  - rewrite lookup_app_l by done. by left.
  - rewrite lookup_app_r by lia. destruct (k - length ls)%nat eqn:E; [right; lia|done].
Qed.

Lemma inbound_ok_step cfg s s' : inbound_step cfg s s' -> inbound_ok s -> inbound_ok s'.
Proof.
  intros Hst (Ho & Hs & Hl). destruct Hst as [now Ea Hop|Ea|l Ea| |l L L' El Hst]; unfold inbound_ok; cbn.
  - split; [|split; [done|]].
    + intros k [Hk| ->]%link_open_app; [|by right]. left. destruct (Ho k Hk); [done|congruence].
    + intros Hstop. apply Hs in Hstop. congruence.
  - split; [|split; [done|done]]. intros k Hk. left. destruct (Ho k Hk); [done|congruence].
  - split; [|split; [done|]].
    + intros k Hk. left. apply elem_of_app. destruct (Ho k Hk) as [Hin|E]; [left|right].
      * apply list_elem_of_filter. auto.
      * rewrite Ea in E. injection E as ->. by left.
    + by intros ->.
  - split; [|split; [done|]].
    + intros k. rewrite close_all_open. intros [Hk Hn%bool_decide_eq_true]%andb_true_iff. destruct (Ho k Hk); [done|by right].
    + intros _ k Hk. by apply elem_of_nil in Hk.
  - split; [|split; [done|done]]. intros k Hk. apply Ho. eapply link_open_insert; [done|by eapply link_step_closed|done].
Qed.
End InboundFacts.

(** ** Turns and growth *)

Section Dealing.
Context `{AbslOps, BoostIp} {C : Type -> Type} `{ChannelOps C}.
Implicit Types s : ShineOutbound C.

(** [n] requests in a row, nothing else happening. *)
Fixpoint picks (n : nat) s : list (option nat) :=
  match n with
  | O => []
  | S n =>
      let '(cand, pool, rr) := pick s in
      cand :: picks n (mkShine (pool_size s) pool rr (stopping_ s) (links s) (tasks s))
  end.

Definition live s : list nat := filter (fun l => link_open (links s) l = true) (pool_ s).

Lemma filter_live (p : nat -> bool) (l : list nat) :
  filter (fun x => p x = true) (filter (fun x => p x = true) l) = filter (fun x => p x = true) l.
Proof.
  induction l as [|x l IH]; [done|]. rewrite filter_cons. case_decide; [|done]. by rewrite filter_cons_True, IH.
Qed.

Lemma picks_lookup n : forall s k,
  live s <> [] -> 0 <= rr_ s -> rr_ s + Z.of_nat n <= 2 ^ 64 -> (k < n)%nat ->
  picks n s !! k = Some (live s !! Z.to_nat ((rr_ s + Z.of_nat k) mod zlen (live s))).
Proof.
  induction n as [|n IH]; intros s k Hne Hr Hn Hk; [lia|]. cbn [picks]. unfold pick.
  fold (live s). destruct (decide (live s = [])) as [?|_]; [done|]. destruct k as [|k].
  - cbn. by rewrite Z.add_0_r.
  - set (s' := mkShine _ _ _ _ _ _).
    change (picks n s' !! k = Some (live s !! Z.to_nat ((rr_ s + Z.of_nat (S k)) mod zlen (live s)))).
    assert (live s' = live s) as El by (unfold live, s'; cbn; apply filter_live).
    assert (rr_ s' = rr_ s + 1) as Er by (unfold s'; cbn; apply u64_small; lia).
    rewrite (IH s' k) by (rewrite ?El, ?Er; lia || done). rewrite El, Er. do 4 f_equal. lia.
Qed.

(** Handlers between a failed pick and the push of what they dialed. *)
Definition dials (ts : list Task) : nat := length (filter (fun t => dialing t = true) ts).

#[local] Arguments dials : simpl never.

Lemma dials_split l t r : dials (l ++ t :: r) = (dials l + (if dialing t then 1 else 0) + dials r)%nat.
Proof.
  unfold dials. rewrite filter_app, length_app, filter_cons.
  destruct (dialing t) eqn:E; case_decide; try congruence; cbn; lia.
Qed.

(** Never two at once. *)
Definition one_at_a_time (cfg : OutboundConfig) s s' : Prop := pool_step cfg s s' /\ (dials (tasks s') <= 1)%nat.

Definition small_ok s : Prop := (length (pool_ s) + dials (tasks s) <= 1)%nat.

Lemma small_ok_step cfg s s' : one_at_a_time cfg s s' -> small_ok s -> small_ok s'.
Proof.
  unfold small_ok. intros [Hst Hone] Hok. destruct Hst as [net now draws target is_udp has_client i s' E| | |l L L' _ _].
  - unfold task_step in E. destruct (tasks s !! i) as [t|] eqn:Et; [|done].
    destruct (task_split _ _ _ Et) as (ts1 & ts2 & Ets & Hins). rewrite Ets, dials_split in Hok.
    destruct t as [| | |l|l|l|l p|st]; try done.
    + injection E as <-. cbn. rewrite Hins, dials_split. destruct (stopping_ s); cbn in *; lia.
    + destruct (pick s) as [[cand pool] rr] eqn:Ep. injection E as <-. revert Hone. cbn. rewrite Hins, dials_split.
      apply pick_sub in Ep as [Hsub Hc]. apply sublist_length in Hsub. destruct cand as [l|]; cbn in *; [lia|].
      destruct Hc as [-> _]. cbn. lia.
    + destruct (connect_server net (out_server cfg)); [|injection E as <-|done].
      * injection E as <-. cbn. rewrite Hins, dials_split. cbn in *. lia.
      * cbn. rewrite Hins, dials_split. cbn in *. lia.
    + injection E as <-. cbn. rewrite Hins, dials_split. unfold push.
      destruct (_ <? _); rewrite ?length_app; cbn in *; lia.
    + destruct (links s !! l) as [L|]; [|done]. destruct (waitHandshake L) as [[ok| |] L']; try done. injection E as <-.
      cbn. rewrite Hins, dials_split. destruct ok; cbn in *; lia.
    + destruct (links s !! l) as [L|]; [|done]. destruct (openSession draws target is_udp L) as [[[p|st|] L']|]; try done;
        injection E as <-; cbn; rewrite Hins, dials_split; [destruct (_ && _)|]; cbn in *; lia.
  - cbn. rewrite dials_split. change (dials []) with 0%nat. cbn. lia.
  - cbn. cbn in Hone. lia.
  - done.
Qed.
End Dealing.

(** ** Properties *)

Section ShineProperties.
Context `{AbslOps, BoostIp} {C : Type -> Type} `{ChannelOps C}.

(** C29. The pool is bounded, whatever requests, dials, [stop]s and link failures
    interleave: it never holds more than [pool_size] links, never one twice, and
    every link a request uses is one that was made. *)
Theorem pool_bounded cfg (s : ShineOutbound C) :
  0 <= out_pool_size cfg -> rtc (pool_step cfg) (ShineOutbound_new cfg) s ->
  zlen (pool_ s) <= pool_size s /\ NoDup (pool_ s) /\
  (forall l, l ∈ pool_ s \/ (exists t, t ∈ tasks s /\ task_link t = Some l) -> (l < length (links s))%nat).
Proof.
  intros Hz Hr. destruct (pool_ok_run cfg s Hz Hr) as (Hb & Hn & Hf). split; [done|]. split.
  - by apply NoDup_app in Hn as (? & _).
  - rewrite Forall_forall in Hf. intros l [Hl|(t & Ht & Hl)]; apply Hf; rewrite elem_of_app; [by left|right].
    apply list_elem_of_omap. by exists t.
Qed.

(** Requests are dealt in turn: as many consecutive picks as there are open
    links in the pool return each of them once, in pool order from the one the
    counter points to, and never a closed one; the pool is rid of closed links by
    the way. *)
Theorem pool_round_robin (s : ShineOutbound C) :
  live s <> [] -> 0 <= rr_ s -> rr_ s + zlen (live s) <= 2 ^ 64 ->
  picks (length (live s)) s = Some <$> rotate (Z.to_nat (rr_ s)) (live s) /\
  Forall (fun l => link_open (links s) l = true /\ l ∈ pool_ s) (live s) /\ snd (fst (pick s)) = live s.
Proof.
  intros Hne Hr Hn. split; [|split].
  - apply list_eq. intros k. destruct (decide (k < length (live s))%nat) as [Hk|Hk].
    + rewrite picks_lookup by (done || unfold zlen in *; lia). rewrite list_lookup_fmap, lookup_rotate_r by done.
      unfold rotate_nat_add. unfold zlen. rewrite Z2Nat.id by lia.
      assert (Z.to_nat ((rr_ s + Z.of_nat k) mod Z.of_nat (length (live s))) < length (live s))%nat as Hlt.
      { pose proof (Z.mod_pos_bound (rr_ s + Z.of_nat k) (Z.of_nat (length (live s))) ltac:(lia)). lia. }
      destruct (lookup_lt_is_Some_2 _ _ Hlt) as [l ->]. done.
    + rewrite !lookup_ge_None_2; [done|rewrite length_fmap, length_rotate; lia|].
      assert (forall n t, length (picks n t) = n) as ->; [|lia].
      induction n as [|n IH]; intros t; cbn [picks]; [done|]. destruct (pick t) as [[??]?]. cbn. by rewrite IH.
  - apply Forall_forall. intros l Hl. apply list_elem_of_filter in Hl. done.
  - unfold pick. fold (live s). by destruct (decide _).
Qed.

(** How the pool grows: only when it has no open link.  As long as two
    requests do not find it empty at the same time, it never has more than one
    link, whatever [pool_size] says. *)
Theorem pool_grows_only_when_empty cfg (s : ShineOutbound C) :
  rtc (one_at_a_time cfg) (ShineOutbound_new cfg) s -> (length (pool_ s) <= 1)%nat.
Proof.
  intros Hr. assert (small_ok s) as Hok; [|unfold small_ok in Hok; lia].
  revert Hr. apply (rtc_ind_r small_ok); [unfold small_ok; cbn; lia|].
  intros s1 s2 _ Hst. by apply (small_ok_step cfg).
Qed.

(** What [stop] does not reach: it closes every link of the pool and turns
    new requests away, but a request that was dialing then puts its link into the
    pool of the stopped outbound, where it stays open. *)
Theorem stop_misses_dialing cfg net (now : Z) (s : ShineOutbound C) i ep :
  tasks s !! i = Some TDial -> connect_server net (out_server cfg) = Ok ep -> 0 < pool_size s ->
  (forall l, l ∈ pool_ s -> link_open (links (stop s)) l = false) /\
  exists s', rtc (pool_step cfg) (stop s) s' /\ stopping_ s' = true /\ exists l, pool_ s' = [l] /\ link_open (links s') l = true.
Proof.
  intros Ht Hc Hp. split.
  - intros l Hl. unfold stop. cbn [links]. rewrite close_all_open, bool_decide_eq_false_2 by auto. apply andb_false_r.
  - pose proof (lookup_lt_Some _ _ _ Ht) as Hi. set (s1 := stop s).
    set (n := length (links s1)). set (L := start false now (Link_new (client_options cfg)) : Link C).
    set (s2 := mkShine (pool_size s) [] (rr_ s) true (links s1 ++ [L]) (<[i := TPush n]> (tasks s))).
    set (s3 := mkShine (pool_size s) [n] (rr_ s) true (links s1 ++ [L]) (<[i := THave n]> (<[i := TPush n]> (tasks s)))).
    exists s3. split; [|split; [done|]].
    + eapply rtc_l; [|eapply rtc_once].
      * apply (ps_task cfg s1 net now [] (fromDomain [] 0) false false i s2). unfold task_step. cbn. by rewrite Ht, Hc.
      * apply (ps_task cfg s2 net now [] (fromDomain [] 0) false false i s3). unfold task_step. cbn [tasks s2].
        rewrite list_lookup_insert_eq by done. unfold push. cbn [pool_ pool_size s2].
        rewrite (proj2 (Z.ltb_lt _ _)) by (rewrite zlen_nil; done). done.
    + exists n. split; [done|]. unfold link_open. cbn [links s3]. by rewrite lookup_app_r, Nat.sub_diag by lia.
Qed.

(** The inbound keeps track of its links: at every moment each open link is
    in [links_], or is the one just accepted; so [stop] leaves no other link open,
    and every accept forgets exactly the closed ones. *)
Theorem inbound_links_tracked cfg (s : ShineInbound C) :
  rtc (inbound_step cfg) ShineInbound_new s ->
  (forall l, link_open (in_heap s) l = true -> l ∈ links_ s \/ acc s = APush l) /\
  (forall l, link_open (in_heap (stop_inbound s)) l = true -> acc s = APush l) /\
  (forall l, links_ (accept_push l s) = filter (fun k => link_open (in_heap s) k = true) (links_ s) ++ [l]).
Proof.
  intros Hr. assert (inbound_ok s) as Hok.
  { revert Hr. apply (rtc_ind_r inbound_ok); [|intros s1 s2 _; apply inbound_ok_step].
    split; [|by split]. intros l Hl. by destruct l. }
  split; [apply Hok|]. split; [|done]. intros l Hl.
  assert (inbound_ok (stop_inbound s)) as (Ho & _) by (eapply (inbound_ok_step cfg); [apply is_stop|done]).
  apply Ho in Hl as [Hl|Hl]; [by apply elem_of_nil in Hl|done].
Qed.

(** The link [stop] misses: one accepted just before it is added after it,
    open, to the list of an inbound whose accept loop is over. *)
Theorem inbound_stop_misses_accepted cfg (s : ShineInbound C) l :
  acc s = APush l -> link_open (in_heap s) l = true -> l ∉ links_ s ->
  exists s', rtc (inbound_step cfg) (stop_inbound s) s' /\ acc s' = AEnd /\ acceptor_open s' = false /\
    links_ s' = [l] /\ link_open (in_heap s') l = true.
Proof.
  intros Ea Ho Hn. exists (accept_push l (stop_inbound s)). split; [apply rtc_once; by apply is_push|].
  split; [done|]. split; [done|]. split; [done|]. cbn.
  by rewrite close_all_open, Ho, bool_decide_eq_true_2.
Qed.
End ShineProperties.

(** ** Witnesses *)

#[local] Existing Instance reference_absl.
#[local] Existing Instance full_form_boost.

Definition sample_net : Network := mkNetwork (fun _ _ => inl []) (fun _ => None).
Definition sample_pool_cfg : OutboundConfig :=
  mkOutbound (lit "up") (lit "shine-client") (lit "10.0.0.1:443") (lit "pw") 2 15 10 5 1000 [] [].

(** A new request, or a stretch of the coroutine [i]; a stretch that cannot run
    is skipped. *)
Definition turn (k : option nat) (s : ShineOutbound fifo) : ShineOutbound fifo :=
  match k with
  | None => mkShine (pool_size s) (pool_ s) (rr_ s) (stopping_ s) (links s) (tasks s ++ [TCheck])
  | Some i =>
      match task_step sample_pool_cfg sample_net 5 [3] (fromDomain (lit "h") 80) false true i s with
      | Some s' => s'
      | None => s
      end
  end.
Definition turns (ks : list (option nat)) (s : ShineOutbound fifo) : ShineOutbound fifo := fold_left (fun s k => turn k s) ks s.

Lemma turn_step k s : turn k s = s \/ pool_step sample_pool_cfg s (turn k s).
Proof.
  destruct k as [i|]; cbn [turn]; [|right; apply ps_handle].
  destruct (task_step _ _ _ _ _ _ _ i s) eqn:E; [|by left]. right. by eapply ps_task.
Qed.

Lemma turns_rtc ks s : rtc (pool_step sample_pool_cfg) s (turns ks s).
Proof.
  revert s. induction ks as [|k ks IH]; intros s; [done|]. unfold turns. cbn [fold_left].
  destruct (turn_step k s) as [->|Hst]; [apply IH|]. eapply rtc_l; [exact Hst|apply IH].
Qed.

Fixpoint one_dialer (ks : list (option nat)) (s : ShineOutbound fifo) : bool :=
  match ks with [] => true | k :: ks => (dials (tasks (turn k s)) <=? 1)%nat && one_dialer ks (turn k s) end.

Lemma turns_one_rtc ks s : one_dialer ks s = true -> rtc (one_at_a_time sample_pool_cfg) s (turns ks s).
Proof.
  revert s. induction ks as [|k ks IH]; intros s; [done|]. unfold turns. cbn [fold_left one_dialer].
  intros [Hd%Nat.leb_le Ho]%andb_true_iff. destruct (turn_step k s) as [E|Hst].
  - rewrite E in Ho |- *. by apply IH.
  - eapply rtc_l; [by split|by apply IH].
Qed.

Definition new_pool : ShineOutbound fifo := ShineOutbound_new sample_pool_cfg.
(** Two requests that find the pool empty, a third after them. *)
Definition crowd : list (option nat) :=
  [None; None; None; Some 0; Some 1; Some 2; Some 0; Some 1; Some 2; Some 0; Some 1; Some 2; Some 0; Some 1; Some 2]%nat.

Lemma pool_bounded_witness :
  length (links (turns crowd new_pool)) = 3%nat /\ zlen (pool_ (turns crowd new_pool)) <= 2.
Proof.
  split; [by vm_compute|]. apply (pool_bounded sample_pool_cfg (turns crowd new_pool)); [cbn; lia|apply turns_rtc].
Defined.

Lemma pool_round_robin_witness : picks 2 (turns crowd new_pool) = Some <$> rotate 0 [0; 1]%nat.
Proof.
  apply (pool_round_robin (turns crowd new_pool)); by vm_compute.
Defined.

Lemma pool_grows_only_when_empty_witness :
  let s := turns [None; Some 0; Some 0; Some 0; Some 0; None; Some 1; Some 1; Some 1]%nat new_pool in
  (length (tasks s) = 2 /\ length (pool_ s) <= 1)%nat.
Proof.
  split; [by vm_compute|]. apply (pool_grows_only_when_empty sample_pool_cfg). apply turns_one_rtc. by vm_compute.
Defined.

Lemma stop_misses_dialing_witness :
  exists s', rtc (pool_step sample_pool_cfg) (stop (turns [None; Some 0; Some 0]%nat new_pool)) s' /\
    stopping_ s' = true /\ exists l, pool_ s' = [l] /\ link_open (links s') l = true.
Proof.
  apply (stop_misses_dialing sample_pool_cfg sample_net 5 (turns [None; Some 0; Some 0]%nat new_pool) 0 (mkEndpoint [x0a; x00; x00; x01] 443));
    by vm_compute.
Defined.

Definition sample_server_cfg : InboundConfig :=
  mkInbound (lit "srv") (lit "shine") (lit "0.0.0.0:443") (lit "pw") 1000 15 10 5 1000 [] [].
Definition one_accepted : ShineInbound fifo := accept sample_server_cfg 5 ShineInbound_new.

Lemma inbound_links_tracked_witness :
  forall l, link_open (in_heap (stop_inbound (accept_push 0 one_accepted))) l = true -> False.
Proof.
  intros l Hl. assert (rtc (inbound_step sample_server_cfg) ShineInbound_new (accept_push 0 one_accepted)) as Hr.
  { eapply rtc_l; [apply (is_accept _ _ 5); done|]. apply rtc_once. by apply is_push. }
  destruct (inbound_links_tracked sample_server_cfg _ Hr) as (_ & Hs & _). by apply Hs in Hl.
Defined.

Lemma inbound_stop_misses_accepted_witness :
  exists s', rtc (inbound_step sample_server_cfg) (stop_inbound one_accepted) s' /\ acc s' = AEnd /\
    acceptor_open s' = false /\ links_ s' = [0%nat] /\ link_open (in_heap s') 0 = true.
Proof. apply (inbound_stop_misses_accepted sample_server_cfg one_accepted 0); [done|done|apply not_elem_of_nil]. Defined.
