(* ===== verification/Packets.v ===== *)
(** * The datagram tunnel: a UDP association from end to end

    What Tunnel.v is for streams: the near process relays a client's datagrams
    to a UDP session of a link (outbound/shine_outbound.cpp, [read_client] and
    [read_remote]), the far process waits for the first datagram of the accepted
    session, which carries the target, and relays the session to an outbound
    (inbound/shine_inbound.cpp with its [InjectedStream], then any
    [IDatagramStream]).  Datagrams may be lost at full queues, at closed sessions
    and with their link; they are never altered, reordered or duplicated. *)
From stdpp Require Import gmap relations.
From S2P Require Import Prelude Absl Buffer Resp2 ShineFrame Address Request Channel Socket Session Link Pipe Tunnel Datagram ShinePool.
From Stdlib Require Import Strings.Byte.

Section Packets.
Context `{AbslOps} {C : Type -> Type} `{ChannelOps C} {A B : Type} `{DatagramStream A, DatagramStream B}.
Implicit Types x y : SessionEnd C.

(** The handler of the accepted session: in its first [receiveFrom], over, or in
    the outbound's relay with that datagram put back. *)
Inductive FarSide :=
  | FarWaiting x
  | FarDropped x
  | FarRelaying (r : UdpRelay (InjectedStream (SessionEnd C)) B).

Record Packets := mkPackets {
  pk_near : UdpRelay A (SessionEnd C);
  pk_far : FarSide;
  pk_up : list bytes;                            (* frames enqueued by near, not yet read by far *)
  pk_down : list bytes;
}.

Definition near_end (T : Packets) : SessionEnd C := remote (pk_near T).
Definition end_of (f : FarSide) : SessionEnd C :=
  match f with FarWaiting x | FarDropped x => x | FarRelaying r => inner_ (client r) end.
Definition far_end (T : Packets) : SessionEnd C := end_of (pk_far T).

Definition on_near (g : SessionEnd C -> SessionEnd C) (s : UdpRelay A (SessionEnd C)) : UdpRelay A (SessionEnd C) :=
  mkUdpRelay (client s) (g (remote s)) (rc s) (rr s) (frc s) (frr s).
Definition on_far (g : SessionEnd C -> SessionEnd C) (f : FarSide) : FarSide :=
  match f with
  | FarWaiting x => FarWaiting (g x)
  | FarDropped x => FarDropped (g x)
  | FarRelaying r =>
      FarRelaying (mkUdpRelay (mkInjectedStream (g (inner_ (client r))) (p_ (client r))) (remote r) (rc r) (rr r) (frc r) (frr r))
  end.

(** [on_new_session] of a UDP session, when its first datagram is there; [out0]
    is the stream of the outbound it is routed to. *)
Definition first_datagram (out0 : Request -> B) (cfg : Config.InboundConfig) x : option FarSide :=
  match ds_receive x with
  | None => None
  | Some (Ok m, x') =>
      Some (FarRelaying (relay_init (mkInjectedStream x' (Some m))
              (out0 (mkRequest (Config.in_tag cfg) (Config.in_protocol cfg) UDP (snd m)))))
  | Some (_, x') => Some (FarDropped x')
  end.

(** It is the handler of ShinePool.v, with what becomes of its request. *)
Lemma first_datagram_handler (out0 : Request -> B) cfg x t r :
  protocol_ (se_session x) = UDP -> first_datagram out0 cfg x = Some (FarRelaying r) ->
  exists req i, ShinePool.on_new_session cfg x t = Some (Some (req, inr i)) /\ r = relay_init i (out0 req).
Proof.
  intros Hp. unfold first_datagram, ShinePool.on_new_session. rewrite Hp.
  destruct (ds_receive x) as [[[[p a]|st|] x']|]; try done. intros [= <-]. by eexists _, _.
Qed.

Inductive packets_step (out0 : Request -> B) (cfg : Config.InboundConfig) (T : Packets) : Packets -> Prop :=
  | pt_near t n : relay_turn t (pk_near T) = Some n ->
      packets_step out0 cfg T (mkPackets n (pk_far T) (enqueue (near_end T) (sent_since (near_end T) (remote n)) (pk_up T)) (pk_down T))
  | pt_client c' : ds_event (client (pk_near T)) c' ->
      packets_step out0 cfg T
        (mkPackets (mkUdpRelay c' (remote (pk_near T)) (rc (pk_near T)) (rr (pk_near T)) (frc (pk_near T)) (frr (pk_near T)))
           (pk_far T) (pk_up T) (pk_down T))
  | pt_first x f : pk_far T = FarWaiting x -> first_datagram out0 cfg x = Some f ->
      packets_step out0 cfg T (mkPackets (pk_near T) f (pk_up T) (pk_down T))
  | pt_far t r r' : pk_far T = FarRelaying r -> relay_turn t r = Some r' ->
      packets_step out0 cfg T
        (mkPackets (pk_near T) (FarRelaying r') (pk_up T)
           (enqueue (far_end T) (sent_since (far_end T) (inner_ (client r'))) (pk_down T)))
  | pt_remote r b' : pk_far T = FarRelaying r -> ds_event (remote r) b' ->
      packets_step out0 cfg T
        (mkPackets (pk_near T) (FarRelaying (mkUdpRelay (client r) b' (rc r) (rr r) (frc r) (frr r))) (pk_up T) (pk_down T))
  | pt_up f rest : pk_up T = encodeFrame [] f :: rest -> frame_fits f -> link_up (far_end T) = true ->
      packets_step out0 cfg T (mkPackets (pk_near T) (on_far (recv_frame f) (pk_far T)) rest (pk_down T))
  | pt_down f rest : pk_down T = encodeFrame [] f :: rest -> frame_fits f -> link_up (near_end T) = true ->
      packets_step out0 cfg T (mkPackets (on_near (recv_frame f) (pk_near T)) (pk_far T) (pk_up T) rest)
  | pt_near_closed g : g = link_closeNow \/ g = link_fail ->
      packets_step out0 cfg T (mkPackets (on_near g (pk_near T)) (pk_far T) (pk_up T) (pk_down T))
  | pt_far_closed g : g = link_closeNow \/ g = link_fail ->
      packets_step out0 cfg T (mkPackets (pk_near T) (on_far g (pk_far T)) (pk_up T) (pk_down T))
  | pt_cut_up k : link_up (near_end T) = false ->
      packets_step out0 cfg T (mkPackets (pk_near T) (pk_far T) (take k (pk_up T)) (pk_down T))
  | pt_cut_down k : link_up (far_end T) = false ->
      packets_step out0 cfg T (mkPackets (pk_near T) (pk_far T) (pk_up T) (take k (pk_down T)))
  | pt_near_announce :
      packets_step out0 cfg T (mkPackets (pk_near T) (pk_far T) (enqueue (near_end T) (announced (near_end T)) (pk_up T)) (pk_down T))
  | pt_far_announce :
      packets_step out0 cfg T (mkPackets (pk_near T) (pk_far T) (pk_up T) (enqueue (far_end T) (announced (far_end T)) (pk_down T))).

(** [openSession] with [is_udp] and what the NEW_UDP frame makes at the far link. *)
Definition packets_init (sid : Z) (target : Address) (wn wf mn mf : Z) (c : A) : Packets :=
  mkPackets
    (relay_init c (mkEnd (Session_new sid target wn wn UDP) (mkLinkView true false mn) []))
    (FarWaiting (mkEnd (Session_new sid Address_default 0 wf UDP) (mkLinkView true false mf) []))
    [] [encodeAck [] sid].
End Packets.
Arguments FarSide : clear implicits.
Arguments Packets : clear implicits.

(** ** One end of the session *)

Section EndMoves.
Context `{AbslOps, !AbslSpec} {C : Type -> Type} `{ChannelSpec C}.
Implicit Types x y : SessionEnd C.

(** The datagram a frame delivers, and those that wait in a session. *)
Definition frame_dgrams (f : ShineFrame bytes) : list Datagram :=
  match f with
  | UdpDataFrame _ blob p => match parseBinary blob with Ok a => [(p, a)] | _ => [] end
  | _ => []
  end.
Definition wire_dgrams (fs : list (ShineFrame bytes)) : list Datagram := mjoin (frame_dgrams <$> fs).
Definition queued (q : list (option bytes * Address)) : list Datagram :=
  omap (fun pm => match fst pm with Some p => Some (p, snd pm) | None => None end) q.
Definition waiting x : list Datagram :=
  match udp_inbox_ (se_session x) with Some c => queued (ch_queue c) | None => [] end.

Lemma queued_app q1 q2 : queued (q1 ++ q2) = queued q1 ++ queued q2.
Proof. apply omap_app. Qed.

(** What the other end is handed for the datagrams [sendTo] accepts. *)
Definition arrives (ms : list Datagram) : list Datagram :=
  mjoin ((fun m => frame_dgrams (UdpDataFrame 0 (toBinary (snd m)) (fst m))) <$> ms).
Definition small (m : Datagram) : Prop := zlen (fst m) < 2 ^ 62.

(** The queue of an open session takes 1024 datagrams. *)
Definition ready x : Prop :=
  state_ (se_session x) = Open ->
  exists c, udp_inbox_ (se_session x) = Some c /\ ch_closed c = false /\ ch_bound c = 1024 /\
    Forall (fun pm => is_Some (fst pm)) (ch_queue c).

(** [y] is [x] after a move of its own side: [got] was taken from its queue, [ms]
    was sent. *)
Definition moved x y (got ms : list Datagram) : Prop :=
  sid_ (se_session y) = sid_ (se_session x) /\ se_link y = se_link x /\
  sublist (got ++ waiting y) (waiting x) /\
  (state_ (se_session y) = Open -> state_ (se_session x) = Open /\ got ++ waiting y = waiting x) /\
  (ready x -> ready y) /\
  exists fs, sent_since x y = encodeFrame [] <$> fs /\ Forall frame_fits fs /\ wire_dgrams fs = arrives ms /\
    (link_up x = false -> ms = []).

Lemma sent_since_add x s1 ev : sent_since x (se_add s1 ev x) = ev_frames ev.
Proof. unfold sent_since, se_add. cbn [se_events]. rewrite frames_of_snoc. by rewrite drop_app_length. Qed.

Lemma moved_quiet x s1 ev got :
  sid_ s1 = sid_ (se_session x) -> state_ s1 = state_ (se_session x) -> ev_frames ev = [] ->
  got ++ waiting (se_add s1 ev x) = waiting x -> (ready x -> ready (se_add s1 ev x)) ->
  moved x (se_add s1 ev x) got [].
Proof.
  intros Hs Ht He Hw Hr. split; [done|]. split; [done|]. split; [by rewrite Hw|]. split.
  - cbn [se_add se_session]. by rewrite Ht.
  - split; [done|]. exists []. by rewrite sent_since_add, He.
Qed.

Lemma moved_refl x : moved x x [] [].
Proof.
  do 5 (split; [done|]). exists []. split; [|done]. unfold sent_since. by rewrite drop_ge.
Qed.

Lemma udp_data_fits sid a p : 0 <= sid < 2 ^ 64 -> zlen p < 2 ^ 62 -> frame_fits (UdpDataFrame sid (toBinary a) p).
Proof.
  intros Hs Hp. split; [done|]. cbn [frame_value value_fits]. split; [done|]. unfold INT64_MAX.
  assert (zlen (toBinary a) <= 300) as Ha.
  { unfold toBinary. rewrite !zlen_app. change (zlen [_; _]) with 2.
    assert (zlen (slice (bin_src a) 0 (bin_len a)) <= 255); [|lia].
    assert (bin_len a <= 255) by (unfold bin_len, u8; destruct (type_ a); try lia; pose proof (Z.mod_pos_bound (Z.min (zlen (domain_ a)) 255) (2 ^ 8)); lia).
    unfold slice, zlen. rewrite length_take. lia. }
  repeat constructor; change (zlen (putU64BE [] sid)) with 8; try done; lia.
Qed.

(** *** The moves of a session *)

Lemma receive_moved x r y :
  ds_receive x = Some (r, y) -> moved x y (match r with Ok m => [m] | _ => [] end) [].
Proof.
  cbn [ds_receive Session_datagrams]. unfold receiveFrom.
  destruct (bool_decide (state_ (se_session x) = Closed) || _).
  { intros [= <- <-]. by apply moved_quiet. }
  destruct (udp_inbox_ (se_session x)) as [c|] eqn:Ec; [|intros [= <- <-]; apply moved_refl].
  destruct (ch_async_receive c) as [rv c'] eqn:Er. apply recv_queue in Er as (Eq & Ecl & Eb).
  assert (forall s1, udp_inbox_ s1 = Some c' -> waiting (se_add s1 ev_none x) = queued (ch_queue c')) as Hw
    by (intros s1 E; unfold waiting, se_add; cbn [se_session]; by rewrite E).
  assert (forall s1, udp_inbox_ s1 = Some c' -> state_ s1 = state_ (se_session x) -> ready x -> ready (se_add s1 ev_none x)) as Hr.
  { unfold ready, se_add. cbn [se_session]. intros s1 E -> Hx Ho. destruct (Hx Ho) as (c0 & E0 & Hc & Hb & Hq).
    rewrite Ec in E0. injection E0 as <-. exists c'. rewrite Ecl, Eb. do 3 (split; [done|]).
    rewrite Eq in Hq. by apply Forall_app in Hq as [_ Hq]. }
  assert (waiting x = queued (ch_queue c)) as Hx by (unfold waiting; by rewrite Ec).
  destruct rv as [[[p|] a]| |]; cbn [fst].
  - intros [= <- <-]. apply moved_quiet; [done..| |by apply Hr]. by rewrite Hw, Hx, Eq.
  - intros [= <- <-]. apply moved_refl.
  - intros [= <- <-]. apply moved_quiet; [done..| |by apply Hr]. by rewrite Hw, Hx, Eq.
  - done.
Qed.

Lemma send_moved m x r y :
  0 <= sid_ (se_session x) < 2 ^ 64 -> (r = Ok tt -> small m) -> ds_send m x = (r, y) ->
  moved x y [] (match r with Ok _ => [m] | _ => [] end).
Proof.
  intros Hsid Hm. cbn [ds_send Session_datagrams]. unfold sendTo.
  destruct (write_guard (se_link x) (se_session x)) eqn:Eg; intros [= <- <-]; [by apply moved_quiet|].
  specialize (Hm eq_refl). do 5 (split; [done|]).
  exists [UdpDataFrame (sid_ (se_session x)) (toBinary (snd m)) (fst m)].
  rewrite sent_since_add. split; [done|]. split; [apply Forall_singleton; by apply udp_data_fits|]. split; [done|].
  unfold link_up. unfold write_guard, lv_usable in Eg. intros El. apply negb_false_iff in El.
  by rewrite El, andb_false_r in Eg.
Qed.

Lemma waiting_closed_inboxes (s : Session C) l e l' e' :
  sublist (waiting (mkEnd (close_inboxes s) l e)) (waiting (mkEnd s l' e')).
Proof.
  unfold waiting. cbn [se_session close_inboxes set_udp_inbox udp_inbox_ set_inbox].
  destruct (udp_inbox_ s) as [c|]; [|done]. cbn [option_map].
  destruct (close_queue _ c) as [q ->]. rewrite queued_app. by apply sublist_inserts_r.
Qed.

Lemma close_moved x : 0 <= sid_ (se_session x) < 2 ^ 64 -> moved x (ds_close x) [] [].
Proof.
  intros Hsid. cbn [ds_close Session_datagrams]. unfold close.
  assert (forall s1 ev, sid_ s1 = sid_ (se_session x) -> udp_inbox_ s1 = udp_inbox_ (se_session x) ->
    ev_frames ev = [] \/ ev_frames ev = [encodeClose [] (sid_ (se_session x)) []] ->
    state_ s1 = Closed -> moved x (se_add (close_channels s1) ev x) [] []) as Hm.
  { intros s1 ev Hs Hu Hev Ht.
    assert (state_ (se_session (se_add (close_channels s1) ev x)) <> Open) as Hno by (cbn; by rewrite Ht).
    split; [done|]. split; [done|]. split; [|split; [done|split; [by intros _ ?|]]].
    - etrans; [apply (waiting_closed_inboxes s1 (se_link x) (se_events x) (se_link x) (se_events x))|]. unfold waiting. cbn [se_session]. by rewrite Hu.
    - rewrite sent_since_add. destruct Hev as [->| ->]; [by exists []|].
      exists [CloseFrame (sid_ (se_session x)) []]. split; [done|]. split; [|done].
      apply Forall_singleton. by apply close_fits. }
  case_bool_decide; cbn [negb]; [apply Hm; auto|].
  destruct (lv_alive (se_link x)), (lv_closed (se_link x)); apply Hm; auto.
Qed.

Lemma waiting_new sid target pw ow lv evs :
  waiting (mkEnd (Session_new (C := C) sid target pw ow UDP) lv evs) = [].
Proof. unfold waiting, Session_new. cbn [se_session udp_inbox_]. rewrite bool_decide_false by done. by rewrite make_queue. Qed.

(** *** What the reader and the link do to a session *)

(** [y] is [x] after it was handed [ds], which it drops when it is full or not
    open. *)
Definition reacts x y (ds : list Datagram) : Prop :=
  sid_ (se_session y) = sid_ (se_session x) /\ sublist (waiting y) (waiting x ++ ds) /\
  (ready x -> ready y) /\
  (state_ (se_session y) = Open -> state_ (se_session x) = Open /\
     (ready x -> zlen (waiting x ++ ds) <= 1024 -> waiting y = waiting x ++ ds)).

Lemma reacts_quiet x y :
  sid_ (se_session y) = sid_ (se_session x) -> state_ (se_session y) = state_ (se_session x) ->
  udp_inbox_ (se_session y) = udp_inbox_ (se_session x) -> reacts x y [].
Proof.
  intros Hi Ht Hu. assert (waiting y = waiting x) as Hw by (unfold waiting; by rewrite Hu).
  unfold reacts, ready. rewrite Hw, Ht, Hu, app_nil_r. done.
Qed.

Lemma reacts_closed x (s1 : Session C) l e ds :
  sid_ s1 = sid_ (se_session x) -> udp_inbox_ s1 = udp_inbox_ (se_session x) -> state_ s1 <> Open ->
  reacts x (mkEnd (close_inboxes s1) l e) ds.
Proof.
  intros Hi Hu Ht. split; [done|]. split; [|split; [by intros _ ?|done]].
  etrans; [apply (waiting_closed_inboxes s1 l e l e)|]. unfold waiting. cbn [se_session]. rewrite Hu. by apply sublist_inserts_r.
Qed.

Lemma queued_length q : Forall (fun pm => is_Some (fst pm)) q -> zlen (queued q) = zlen q.
Proof.
  induction 1 as [|[[p|] a] q [? Hp] _ IH]; [done| |done]. change (queued ((Some p, a) :: q)) with ((p, a) :: queued q).
  by rewrite !zlen_cons, IH.
Qed.

Lemma reacts_datagram p a (s : Session C) l e l' e' :
  reacts (mkEnd s l e) (mkEnd (onUdpData (Some p) a s) l' e') [(p, a)].
Proof.
  unfold reacts, ready, waiting, onUdpData. cbn [se_session]. destruct (udp_inbox_ s) as [c|] eqn:Ec.
  2:{ rewrite Ec. split; [done|]. split; [by apply sublist_nil_l|]. split; [done|].
      intros Ho. split; [done|]. intros Hr. by destruct (Hr Ho) as (? & ? & _). }
  cbn [set_udp_inbox udp_inbox_ state_ sid_]. rewrite try_send_queue, queued_app. split; [done|]. split.
  { apply sublist_app; [done|]. by destruct (negb _ && _); [|apply sublist_nil_l]. }
  split.
  - intros Hr Ho. destruct (Hr Ho) as (c0 & [= <-] & Hc & Hb & Hq). eexists. split; [done|].
    rewrite try_send_closed, try_send_bound, try_send_queue. do 2 (split; [done|]). apply Forall_app. split; [done|].
    destruct (negb _ && _); [|done]. by apply Forall_singleton.
  - intros Ho. split; [done|]. intros Hr Hz. destruct (Hr Ho) as (c0 & [= <-] & Hc & Hb & Hq).
    rewrite zlen_app, queued_length in Hz by done. change (zlen [(p, a)]) with 1 in Hz.
    rewrite Hc, Hb. cbn [negb andb]. by rewrite (proj2 (Z.ltb_lt _ _)) by lia.
Qed.

Lemma recv_reacts f x : se_link (recv_frame f x) = se_link x /\ reacts x (recv_frame f x) (frame_dgrams f).
Proof.
  unfold recv_frame. case_bool_decide as Hc.
  { split; [done|]. split; [done|]. split; [by apply sublist_inserts_r|]. rewrite Hc. done. }
  destruct f as [| | | |i blob win|i|i r|i|i delta|nonce|nonce|i pl|i|i blob pl]; cbn [deliver];
    try (split; [done|]; by apply reacts_quiet).
  - split; [done|]. destruct x as [s l e]. cbn [se_session] in *. unfold onPeerClose, se_add. cbn [se_link se_events].
    destruct (state_ s) eqn:Es; apply reacts_closed; cbn [se_session set_state state_]; try done; by rewrite Es.
  - split; [done|]. by apply (reacts_closed x (set_state Closed (se_session x)) (se_link x) (se_events x)).
  - split; [done|]. unfold onData. by destruct pl, (inbox_ (se_session x)); apply reacts_quiet.
  - cbn [frame_dgrams]. destruct (parseBinary blob) as [a| |]; [|split; [done|]; by apply reacts_quiet..].
    split; [done|]. destruct x as [s l e]. apply reacts_datagram.
Qed.

Lemma down_reacts (g : SessionEnd C -> SessionEnd C) x :
  g = link_closeNow \/ g = link_fail -> link_up (g x) = false /\ reacts x (g x) [].
Proof.
  intros [->| ->]; (split; [done|]); [by apply reacts_quiet|].
  by apply (reacts_closed x (set_state Closed (se_session x)) (se_link x) (se_events x)).
Qed.

(** *** One direction *)

(** What the receiving loop took, then what waits in its session, then what is on
    the wire, is among what the sending loop sent, in that order; it is all of it
    while the link is up at the sender [x], the session open at the receiver [r],
    and no more was sent than the queue takes. *)
Definition flow (wire : list bytes) (put taken : list Datagram) x r : Prop :=
  exists fs, wire = encodeFrame [] <$> fs /\ Forall frame_fits fs /\
    sublist (taken ++ waiting r ++ wire_dgrams fs) (arrives put) /\ ready r /\
    (link_up x = true -> state_ (se_session r) = Open -> zlen put <= 1024 ->
       taken ++ waiting r ++ wire_dgrams fs = arrives put).

Lemma wire_dgrams_app fs gs : wire_dgrams (fs ++ gs) = wire_dgrams fs ++ wire_dgrams gs.
Proof. unfold wire_dgrams. by rewrite fmap_app, join_app. Qed.
Lemma arrives_app ms ns : arrives (ms ++ ns) = arrives ms ++ arrives ns.
Proof. unfold arrives. by rewrite fmap_app, join_app. Qed.
Lemma arrives_length ms : zlen (arrives ms) <= zlen ms.
Proof.
  induction ms as [|[p a] ms IH]; [done|].
  change (arrives ((p, a) :: ms)) with (frame_dgrams (UdpDataFrame 0 (toBinary a) p) ++ arrives ms).
  rewrite zlen_app, zlen_cons. cbn [frame_dgrams]. destruct (parseBinary (toBinary a)); cbn [zlen length]; unfold zlen in *; cbn [length]; lia.
Qed.

(** The sender's link only goes down. *)
Lemma flow_sender wire put taken x y r :
  (link_up y = true -> link_up x = true) -> flow wire put taken x r -> flow wire put taken y r.
Proof. intros Hl (fs & -> & Hf & Hs & Hr & He). exists fs. do 4 (split; [done|]). auto. Qed.

Lemma flow_send wire put taken r x y got ms :
  moved x y got ms -> flow wire put taken x r -> flow (enqueue x (sent_since x y) wire) (put ++ ms) taken y r.
Proof.
  intros (_ & Hl & _ & _ & _ & gs & -> & Hg & Hm & Hd) (fs & -> & Hf & Hs & Hr & He). unfold enqueue, flow.
  assert (link_up y = link_up x) as -> by (unfold link_up; by rewrite Hl).
  rewrite <- fmap_app, arrives_app, <- Hm, zlen_app. pose proof (zlen_nonneg ms). destruct (link_up x).
  - exists (fs ++ gs). split; [done|]. split; [by apply Forall_app|]. rewrite wire_dgrams_app. split; [|split; [done|]].
    + rewrite !app_assoc. apply sublist_app; [|done]. by rewrite <- app_assoc.
    + intros _ Ho Hz. rewrite !app_assoc, <- (app_assoc taken), He by (done || lia). done.
  - exists fs. split; [done|]. split; [done|]. split; [by apply sublist_inserts_r|done].
Qed.

Lemma flow_take wire put taken s x y got ms : moved x y got ms -> flow wire put taken s x -> flow wire put (taken ++ got) s y.
Proof.
  intros (_ & _ & Hw & Ho & Hk & _) (fs & -> & Hf & Hs & Hr & He). exists fs. split; [done|]. split; [done|]. split; [|split; [auto|]].
  - etrans; [|exact Hs]. rewrite <- app_assoc, (app_assoc got). apply sublist_app; [done|]. by apply sublist_app.
  - intros Hl Hy Hz. destruct (Ho Hy) as [Hx Hx2]. rewrite <- He, <- Hx2 by done. by rewrite <- !app_assoc.
Qed.

Lemma flow_reacts f fs put taken s x y :
  reacts x y (frame_dgrams f) -> Forall frame_fits fs -> ready x ->
  sublist (taken ++ waiting x ++ frame_dgrams f ++ wire_dgrams fs) (arrives put) ->
  (link_up s = true -> state_ (se_session x) = Open -> zlen put <= 1024 ->
     taken ++ waiting x ++ frame_dgrams f ++ wire_dgrams fs = arrives put) ->
  flow (encodeFrame [] <$> fs) put taken s y.
Proof.
  intros (_ & Hw & Hk & Ho) Hf Hr Hs He. exists fs. split; [done|]. split; [done|]. split; [|split; [auto|]].
  - etrans; [|exact Hs]. apply sublist_app; [done|]. rewrite app_assoc. by apply sublist_app.
  - intros Hl Hy Hz. destruct (Ho Hy) as [Hx Heq]. specialize (He Hl Hx Hz). rewrite Heq; [by rewrite <- app_assoc|done|].
    pose proof (arrives_length put) as Hn. rewrite <- He, !zlen_app in Hn. rewrite zlen_app.
    pose proof (zlen_nonneg taken). pose proof (zlen_nonneg (wire_dgrams fs)). lia.
Qed.

Lemma flow_recv f rest put taken s x :
  frame_fits f -> flow (encodeFrame [] f :: rest) put taken s x -> flow rest put taken s (recv_frame f x).
Proof.
  intros Hf ([|g fs] & E & Hfs & Hs & Hr & He); [done|]. injection E as E ->. apply Forall_cons in Hfs as [Hg Hfs].
  apply encodeFrame_inj in E as <-; [|done..]. by apply (flow_reacts f fs put taken s x); [apply recv_reacts|..].
Qed.

Lemma flow_down g wire put taken s x :
  g = link_closeNow \/ g = link_fail -> flow wire put taken s x -> flow wire put taken s (g x).
Proof.
  intros Hg (fs & -> & Hf & Hs & Hr & He). by apply (flow_reacts (PingFrame 0) fs put taken s x); [apply down_reacts|..].
Qed.

Lemma flow_cut k wire put taken s x : link_up s = false -> flow wire put taken s x -> flow (take k wire) put taken s x.
Proof.
  intros Hl (fs & -> & Hf & Hs & Hr & _). exists (take k fs). rewrite fmap_take. split; [done|]. split; [by apply Forall_take|].
  split; [|by rewrite Hl]. etrans; [|exact Hs]. do 2 (apply sublist_app; [done|]). rewrite <- (take_drop k fs) at 2.
  rewrite wire_dgrams_app. by apply sublist_inserts_r.
Qed.

Lemma flow_announce wire put taken x r :
  0 <= sid_ (se_session x) < 2 ^ 64 -> flow wire put taken x r -> flow (enqueue x (announced x) wire) put taken x r.
Proof.
  intros Hsid (fs & -> & Hf & Hs & Hr & He). unfold enqueue. destruct (link_up x) eqn:El; [|exists fs; by rewrite El].
  unfold announced. case_bool_decide; [rewrite app_nil_r; exists fs; by rewrite El|].
  exists (fs ++ [CloseFrame (sid_ (se_session x)) (lit "shutdown")]). rewrite fmap_app. split; [done|]. split.
  - apply Forall_app. split; [done|]. apply Forall_singleton. apply close_fits; [exact Hsid|reflexivity].
  - rewrite wire_dgrams_app, El. change (wire_dgrams [CloseFrame _ _]) with (@nil Datagram). by rewrite app_nil_r.
Qed.

(** *** The two loops over a session, bare and with its first datagram put back *)

Context {B : Type} `{DatagramStream B}.

Lemma pump_to_session pc (src : B) x pc' e src' y :
  pump_step pc src x = Some (pc', e, src', y) -> 0 <= sid_ (se_session x) < 2 ^ 64 -> Forall small (pe_sent e) ->
  moved x y [] (pe_sent e).
Proof.
  intros E Hsid. destruct pc as [|m| | |]; cbn [pump_step] in E; try done.
  - destruct (ds_receive src) as [[[m|st|] s1]|]; try done; injection E as <- <- <- <-; intros _; apply moved_refl.
  - destruct (ds_send m x) as [r d] eqn:Es. intros Hm.
    assert (moved x d [] (match r with Ok _ => [m] | _ => [] end)) as Hd.
    { apply (send_moved m x r d Hsid); [|done]. intros ->. injection E as <- <- <- <-. exact (Forall_inv Hm). }
    by destruct r; injection E as <- <- <- <-.
  - injection E as <- <- <- <-. intros _. by apply close_moved.
Qed.

Lemma pump_from_session pc x (dst : B) pc' e y dst' :
  pump_step pc x dst = Some (pc', e, y, dst') -> moved x y (pe_got e) [].
Proof.
  intros E. destruct pc as [|m| | |]; cbn [pump_step] in E; try done.
  - destruct (ds_receive x) as [[r s1]|] eqn:Er; [|done]. apply receive_moved in Er.
    by destruct r; injection E as <- <- <- <-.
  - destruct (ds_send m dst) as [[u|st|] d]; injection E as <- <- <- <-; apply moved_refl.
  - injection E as <- <- <- <-. apply moved_refl.
Qed.

Lemma pump_to_injected pc (src : B) (i : InjectedStream (SessionEnd C)) pc' e src' i' :
  pump_step pc src i = Some (pc', e, src', i') -> pump_step pc src (inner_ i) = Some (pc', e, src', inner_ i') /\ p_ i' = p_ i.
Proof.
  destruct i as [x p]. destruct pc as [|m| | |]; cbn [pump_step inner_ p_]; try done.
  - by destruct (ds_receive src) as [[[m|st|] s1]|]; intros [= <- <- <- <-].
  - cbn [ds_send Injected_stream inner_ p_]. by destruct (ds_send m x) as [[u|st|] d]; intros [= <- <- <- <-].
  - by intros [= <- <- <- <-].
Qed.

Lemma pump_from_injected pc (i : InjectedStream (SessionEnd C)) (dst : B) pc' e i' dst' :
  pump_step pc i dst = Some (pc', e, i', dst') ->
  exists got, moved (inner_ i) (inner_ i') got [] /\ option_list (p_ i) ++ got = pe_got e ++ option_list (p_ i').
Proof.
  intros E. destruct i as [x [m|]], pc as [|n| | |]; cbn [pump_step inner_ p_] in *; try done.
  - injection E as <- <- <- <-. exists []. split; [apply moved_refl|done].
  - destruct (ds_send n dst) as [[u|st|] d]; injection E as <- <- <- <-; exists []; (split; [apply moved_refl|done]).
  - injection E as <- <- <- <-. exists []. split; [apply moved_refl|done].
  - cbn [ds_receive Injected_stream inner_ p_] in E. destruct (ds_receive x) as [[r s1]|] eqn:Er; [|done].
    apply receive_moved in Er. destruct r; injection E as <- <- <- <-; eexists; (split; [exact Er|done]).
  - destruct (ds_send n dst) as [[u|st|] d]; injection E as <- <- <- <-; exists []; (split; [apply moved_refl|done]).
  - injection E as <- <- <- <-. exists []. split; [apply moved_refl|done].
Qed.
End EndMoves.

(** ** The invariant *)

Section Moves.
Context `{AbslOps, !AbslSpec} {C : Type -> Type} `{ChannelSpec C}.
Implicit Types x y r : SessionEnd C.

(** What each kind of step does to the direction an end sends and to the one it
    receives. *)
Lemma moved_both w1 p1 t1 w2 p2 t2 x y r got ms :
  moved x y got ms -> flow w1 p1 t1 x r -> flow w2 p2 t2 r x ->
  sid_ (se_session y) = sid_ (se_session x) /\
  flow (enqueue x (sent_since x y) w1) (p1 ++ ms) t1 y r /\ flow w2 p2 (t2 ++ got) r y.
Proof.
  intros Hm Hs Hr. split; [apply Hm|]. split; [by eapply flow_send|by eapply flow_take].
Qed.

Lemma recv_both f rest w2 p1 t1 p2 t2 x r :
  frame_fits f -> flow w2 p2 t2 x r -> flow (encodeFrame [] f :: rest) p1 t1 r x ->
  sid_ (se_session (recv_frame f x)) = sid_ (se_session x) /\
  flow w2 p2 t2 (recv_frame f x) r /\ flow rest p1 t1 r (recv_frame f x).
Proof.
  intros Hf Hs Hr. destruct (recv_reacts f x) as [Hl [Hi _]]. split; [done|].
  split; [|by apply flow_recv]. eapply flow_sender; [|exact Hs]. unfold link_up. by rewrite Hl.
Qed.

Lemma down_both g w1 p1 t1 w2 p2 t2 x r :
  g = link_closeNow \/ g = link_fail -> flow w1 p1 t1 x r -> flow w2 p2 t2 r x ->
  sid_ (se_session (g x)) = sid_ (se_session x) /\ flow w1 p1 t1 (g x) r /\ flow w2 p2 t2 r (g x).
Proof.
  intros Hg Hs Hr. destruct (down_reacts g x Hg) as [Hl [Hi _]]. split; [done|].
  split; [|by apply flow_down]. eapply flow_sender; [|exact Hs]. by rewrite Hl.
Qed.
End Moves.

Section PacketsInvariant.
Context `{AbslOps, !AbslSpec} {C : Type -> Type} `{ChannelSpec C} {A B : Type} `{DatagramStream A, DatagramStream B}.
Implicit Types T : Packets C A B.

(** What the far process got from the session, counting the datagram put back,
    what it sent to its outbound, and the same of the other direction. *)
Definition far_taken (f : FarSide C B) : list Datagram :=
  match f with FarRelaying r => pf_got (frc r) ++ option_list (p_ (client r)) | _ => [] end.
Definition far_sent (f : FarSide C B) : list Datagram :=
  match f with FarRelaying r => pf_sent (frc r) | _ => [] end.
Definition far_got (f : FarSide C B) : list Datagram :=
  match f with FarRelaying r => pf_got (frr r) | _ => [] end.
Definition far_put (f : FarSide C B) : list Datagram :=
  match f with FarRelaying r => pf_sent (frr r) | _ => [] end.

Definition packets_inv (sid : Z) T : Prop :=
  sid_ (se_session (near_end T)) = sid /\ sid_ (se_session (far_end T)) = sid /\
  flow (pk_up T) (pf_sent (frc (pk_near T))) (far_taken (pk_far T)) (near_end T) (far_end T) /\
  flow (pk_down T) (far_put (pk_far T)) (pf_got (frr (pk_near T))) (far_end T) (near_end T).
Definition packets_small T : Prop := Forall small (pf_sent (frc (pk_near T))) /\ Forall small (far_put (pk_far T)).

Lemma near_turn_packets sid t T n :
  0 <= sid < 2 ^ 64 -> relay_turn t (pk_near T) = Some n ->
  let T' := mkPackets n (pk_far T) (enqueue (near_end T) (sent_since (near_end T) (remote n)) (pk_up T)) (pk_down T) in
  packets_small T' -> packets_small T /\ (packets_inv sid T -> packets_inv sid T').
Proof.
  intros Hsid Et T' [Hs1 Hs2]. subst T'. unfold packets_small, packets_inv in *. cbn [pk_near pk_far pk_up pk_down] in *.
  change (far_end (mkPackets n _ _ _)) with (far_end T). change (near_end (mkPackets n _ _ _)) with (remote n).
  destruct t; cbn [relay_turn] in Et.
  - destruct (pump_step (rc (pk_near T)) _ _) as [[[[pc e] c'] r']|] eqn:E; [|done]. injection Et as <-.
    cbn [frc frr remote pump_add pf_sent pf_got] in *. apply Forall_app in Hs1 as [Hs1 He]. split; [done|].
    intros (Hn & Hf & Hu & Hd). apply pump_to_session in E as Hm; [|by rewrite <- Hn in Hsid|done].
    destruct (moved_both _ _ _ _ _ _ _ _ _ _ _ Hm Hu Hd) as (-> & Hu' & Hd'). by rewrite app_nil_r in Hd'.
  - destruct (pump_step (rr (pk_near T)) _ _) as [[[[pc e] r'] c']|] eqn:E; [|done]. injection Et as <-.
    cbn [frc frr remote pump_add pf_sent pf_got] in *. split; [done|].
    intros (Hn & Hf & Hu & Hd). apply pump_from_session in E as Hm.
    destruct (moved_both _ _ _ _ _ _ _ _ _ _ _ Hm Hu Hd) as (-> & Hu' & Hd'). by rewrite app_nil_r in Hu'.
Qed.

Lemma far_turn_packets sid t T r r' :
  0 <= sid < 2 ^ 64 -> pk_far T = FarRelaying r -> relay_turn t r = Some r' ->
  let T' := mkPackets (pk_near T) (FarRelaying r') (pk_up T)
              (enqueue (far_end T) (sent_since (far_end T) (inner_ (client r'))) (pk_down T)) in
  packets_small T' -> packets_small T /\ (packets_inv sid T -> packets_inv sid T').
Proof.
  intros Hsid Ef Et T' [Hs1 Hs2]. subst T'. unfold packets_small, packets_inv, far_end in *.
  cbn [pk_near pk_far pk_up pk_down] in *. change (near_end (mkPackets (pk_near T) _ _ _)) with (near_end T).
  rewrite Ef. cbn [far_taken far_put end_of] in *. destruct t; cbn [relay_turn] in Et.
  - destruct (pump_step (rc r) _ _) as [[[[pc e] c'] b']|] eqn:E; [|done]. injection Et as <-.
    cbn [frc frr client pump_add pf_sent pf_got] in *. split; [done|]. intros (Hn & Hf & Hu & Hd).
    apply pump_from_injected in E as (got & Hm & Eg).
    destruct (moved_both _ _ _ _ _ _ _ _ _ _ _ Hm Hd Hu) as (-> & Hd' & Hu').
    rewrite app_nil_r in Hd'. by rewrite <- app_assoc, Eg, app_assoc in Hu'.
  - destruct (pump_step (rr r) _ _) as [[[[pc e] b'] c']|] eqn:E; [|done]. injection Et as <-.
    cbn [frc frr client pump_add pf_sent pf_got] in *. apply Forall_app in Hs2 as [Hs2 He]. split; [done|].
    intros (Hn & Hf & Hu & Hd). apply pump_to_injected in E as [E Ep]. rewrite Ep.
    apply pump_to_session in E as Hm; [|by rewrite <- Hf in Hsid|done].
    destruct (moved_both _ _ _ _ _ _ _ _ _ _ _ Hm Hd Hu) as (-> & Hd' & Hu'). by rewrite app_nil_r in Hu'.
Qed.

(** A call on the far session from outside its relay. *)
Lemma on_far_fields g (f : FarSide C B) :
  far_taken (on_far g f) = far_taken f /\ far_put (on_far g f) = far_put f /\ end_of (on_far g f) = g (end_of f).
Proof. by destruct f. Qed.

Lemma first_packets (out0 : Request -> B) cfg x f :
  first_datagram out0 cfg x = Some f ->
  far_put f = [] /\ moved x (end_of f) (far_taken f) [].
Proof.
  unfold first_datagram. destruct (ds_receive x) as [[r x']|] eqn:E; [|done]. apply receive_moved in E.
  by destruct r; intros [= <-].
Qed.

(** The reader or the link calls [g] on the near session, or on the far one. *)
Lemma near_call_inv sid g T up down :
  (forall w p t, flow w p t (near_end T) (far_end T) -> w = pk_up T -> flow (pk_down T) (far_put (pk_far T)) (pf_got (frr (pk_near T))) (far_end T) (near_end T) ->
     sid_ (se_session (g (near_end T))) = sid_ (se_session (near_end T)) /\ flow up p t (g (near_end T)) (far_end T) /\
     flow down (far_put (pk_far T)) (pf_got (frr (pk_near T))) (far_end T) (g (near_end T))) ->
  packets_inv sid T -> packets_inv sid (mkPackets (on_near g (pk_near T)) (pk_far T) up down).
Proof.
  intros Hg (Hn & Hf & Hu & Hd). destruct (Hg _ _ _ Hu eq_refl Hd) as (Hi & Hu' & Hd').
  split; [by rewrite <- Hn|]. split; [done|]. by split.
Qed.

Lemma far_call_inv sid g T up down :
  (forall w p t, flow w p t (far_end T) (near_end T) -> w = pk_down T -> flow (pk_up T) (pf_sent (frc (pk_near T))) (far_taken (pk_far T)) (near_end T) (far_end T) ->
     sid_ (se_session (g (far_end T))) = sid_ (se_session (far_end T)) /\ flow down p t (g (far_end T)) (near_end T) /\
     flow up (pf_sent (frc (pk_near T))) (far_taken (pk_far T)) (near_end T) (g (far_end T))) ->
  packets_inv sid T -> packets_inv sid (mkPackets (pk_near T) (on_far g (pk_far T)) up down).
Proof.
  intros Hg (Hn & Hf & Hu & Hd). destruct (Hg _ _ _ Hd eq_refl Hu) as (Hi & Hd' & Hu').
  unfold packets_inv, far_end. cbn [pk_near pk_far pk_up pk_down].
  destruct (on_far_fields g (pk_far T)) as (-> & -> & ->). split; [done|]. split; [by rewrite <- Hf|]. by split.
Qed.

Lemma packets_inv_step (out0 : Request -> B) cfg sid T T' :
  0 <= sid < 2 ^ 64 -> packets_step out0 cfg T T' -> packets_small T' ->
  packets_small T /\ (packets_inv sid T -> packets_inv sid T').
Proof.
  intros Hsid Hst.
  assert (forall g, far_put (on_far g (pk_far T)) = far_put (pk_far T)) as Hfp by (intros g; by destruct (pk_far T)).
  destruct Hst as [t n E|c' _|x f Ef E|t r r' Ef E|r b' Ef _|f rest E Hf _|f rest E Hf _|g Hg|g Hg|k Hk|k Hk| |];
    try (intros [Hs1 Hs2]; cbn [pk_near pk_far] in Hs1, Hs2; rewrite ?Hfp in Hs2; split; [by split|]).
  - exact (near_turn_packets sid t T n Hsid E).
  - done.
  - apply first_packets in E as [E1 E2]. unfold packets_small, packets_inv, far_end. cbn [pk_near pk_far pk_up pk_down].
    rewrite Ef, E1. intros Hs. split; [done|]. intros (Hn & Hx & Hu & Hd).
    destruct (moved_both _ _ _ _ _ _ _ _ _ _ _ E2 Hd Hu) as (-> & Hd' & Hu'). split; [done|]. split; [done|].
    split; [exact Hu'|]. eapply flow_sender; [|exact Hd]. destruct E2 as (_ & El & _). cbn [end_of]. unfold link_up. by rewrite El.
  - exact (far_turn_packets sid t T r r' Hsid Ef E).
  - unfold packets_small, packets_inv, far_end. cbn [pk_near pk_far pk_up pk_down]. rewrite Ef. done.
  - apply far_call_inv. intros w p t Hd -> Hu. rewrite E in Hu. by apply recv_both.
  - apply near_call_inv. intros w p t Hu -> Hd. rewrite E in Hd. by apply recv_both.
  - apply near_call_inv. intros w p t Hu -> Hd. by apply down_both.
  - apply far_call_inv. intros w p t Hd -> Hu. by apply down_both.
  - intros (Hn & Hx & Hu & Hd). split; [done|]. split; [done|]. split; [by apply flow_cut|done].
  - intros (Hn & Hx & Hu & Hd). split; [done|]. split; [done|]. split; [done|by apply flow_cut].
  - intros (Hn & Hx & Hu & Hd). split; [done|]. split; [done|]. split; [|exact Hd]. apply flow_announce; [by rewrite <- Hn in Hsid|done].
  - intros (Hn & Hx & Hu & Hd). split; [done|]. split; [done|]. split; [exact Hu|]. apply flow_announce; [by rewrite <- Hx in Hsid|done].
Qed.

Lemma ready_new sid target pw ow lv evs : ready (mkEnd (Session_new (C := C) sid target pw ow UDP) lv evs).
Proof.
  intros _. cbn [se_session]. unfold Session_new. cbn [udp_inbox_]. rewrite bool_decide_false by done. eexists. split; [done|].
  by rewrite make_closed, make_bound, make_queue.
Qed.

Lemma packets_inv_run (out0 : Request -> B) cfg sid target wn wf mn mf (c : A) T :
  0 <= sid < 2 ^ 64 -> rtc (packets_step out0 cfg) (packets_init sid target wn wf mn mf c) T ->
  packets_small T -> packets_inv sid T.
Proof.
  intros Hsid. revert T. apply (rtc_ind_r (fun T => packets_small T -> packets_inv sid T)).
  - intros _. split; [done|]. split; [done|]. split.
    + exists []. do 2 (split; [done|]). cbn [pk_far packets_init far_end end_of far_taken app].
      rewrite waiting_new. do 2 (split; [done || apply ready_new|]). done.
    + exists [AckFrame sid]. split; [done|]. split; [apply Forall_singleton; by apply ack_fits|].
      cbn [pk_near packets_init near_end remote relay_init frr pf_got app]. rewrite waiting_new.
      do 2 (split; [done || apply ready_new|]). done.
  - intros T1 T2 _ Hst IH Hs. destruct (packets_inv_step out0 cfg sid T1 T2 Hsid Hst Hs) as [Hs1 Hi]. by apply Hi, IH.
Qed.
End PacketsInvariant.

(** ** The relays of a reachable tunnel *)

Section Reached.
Context `{AbslOps, !AbslSpec} {C : Type -> Type} `{ChannelSpec C} {A B : Type} `{DatagramStream A, DatagramStream B}.
Implicit Types T : Packets C A B.

Lemma down_events g (x : SessionEnd C) : g = link_closeNow \/ g = link_fail -> rtc session_event x (g x).
Proof.
  assert (session_event x (link_closeNow x)) as Hc by (by apply sv_link).
  intros [->| ->]; [by apply rtc_once|]. eapply rtc_l; [exact Hc|]. apply rtc_once. apply sv_reader, rc_reset.
Qed.

Lemma recv_events f (x : SessionEnd C) : frame_fits f -> rtc session_event x (recv_frame f x).
Proof. intros Hf. destruct (recv_event f x Hf) as [->|]; [done|by apply rtc_once]. Qed.

Lemma near_events g (s : UdpRelay A (SessionEnd C)) :
  rtc session_event (remote s) (g (remote s)) -> rtc relay_step s (on_near g s).
Proof.
  destruct s as [c x p q f1 f2]. unfold on_near. cbn [client remote rc rr frc frr]. generalize (g x). intros y.
  apply (rtc_congruence (fun x => mkUdpRelay c x p q f1 f2)). intros x1 x2 E. by apply (relay_event_remote (mkUdpRelay c x1 p q f1 f2)).
Qed.

Lemma near_reached (out0 : Request -> B) cfg sid target wn wf mn mf (c : A) T :
  rtc (packets_step out0 cfg) (packets_init sid target wn wf mn mf c) T ->
  rtc relay_step (pk_near (packets_init (B := B) sid target wn wf mn mf c)) (pk_near T).
Proof.
  revert T. apply rtc_ind_r; [done|]. intros T1 T2 _ Hst IH. etrans; [exact IH|]. clear IH.
  destruct Hst as [t n E|c' Hc|x f Ef E|t r r' Ef E|r b' Ef Hb|f rest E Hf _|f rest E Hf _|g Hg|g Hg|k _|k _| |];
    cbn [pk_near]; try reflexivity.
  - eapply rtc_once, relay_move, E.
  - by apply rtc_once, relay_event_client.
  - by apply near_events, recv_events.
  - by apply near_events, down_events.
Qed.

(** The relay of the far side started with the first datagram put back, towards
    the outbound that was asked for its address. *)
Definition far_started (out0 : Request -> B) (cfg : Config.InboundConfig) (f : FarSide C B) : Prop :=
  match f with
  | FarRelaying r =>
      exists x m, rtc relay_step
        (relay_init (mkInjectedStream x (Some m)) (out0 (mkRequest (Config.in_tag cfg) (Config.in_protocol cfg) UDP (snd m)))) r /\
        exists rest, far_taken (FarRelaying r) = m :: rest
  | _ => True
  end.

Lemma injected_events p (x y : SessionEnd C) (b : B) q q' f1 f2 :
  rtc session_event x y ->
  rtc relay_step (mkUdpRelay (mkInjectedStream x p) b q q' f1 f2) (mkUdpRelay (mkInjectedStream y p) b q q' f1 f2).
Proof.
  apply (rtc_congruence (fun x => mkUdpRelay (mkInjectedStream x p) b q q' f1 f2)). intros x1 x2 E.
  apply (relay_event_client (mkUdpRelay (mkInjectedStream x1 p) b q q' f1 f2)). by exists x2.
Qed.

Lemma far_events out0 cfg g (f : FarSide C B) :
  (forall x, rtc session_event x (g x)) -> far_started out0 cfg f -> far_started out0 cfg (on_far g f).
Proof.
  intros Hg. destruct f as [x|x|[[i p] b q q' f1 f2]]; [done..|]. intros (x & m & Hr & Ht). exists x, m. split; [|exact Ht].
  etrans; [exact Hr|]. by apply injected_events.
Qed.

Lemma far_turn_started out0 cfg t (r r' : UdpRelay (InjectedStream (SessionEnd C)) B) :
  relay_turn t r = Some r' -> far_started out0 cfg (FarRelaying r) -> far_started out0 cfg (FarRelaying r').
Proof.
  intros E (x & m & Hr & rest & Ht). exists x, m. split; [eapply rtc_r; [exact Hr|by eapply relay_move]|].
  cbn [far_taken] in *. destruct t; cbn [relay_turn] in E.
  - destruct (pump_step (rc r) _ _) as [[[[pc e] c'] b']|] eqn:Ep; [|done]. injection E as <-.
    apply pump_from_injected in Ep as (got & _ & Eg). cbn [frc pump_add pf_got client].
    rewrite <- app_assoc, <- Eg, app_assoc, Ht. by eexists.
  - destruct (pump_step (rr r) _ _) as [[[[pc e] b'] c']|] eqn:Ep; [|done]. injection E as <-.
    apply pump_to_injected in Ep as [_ Ep]. exists rest. cbn [frc client]. by rewrite Ep.
Qed.

Lemma far_reached (out0 : Request -> B) cfg sid target wn wf mn mf (c : A) T :
  rtc (packets_step out0 cfg) (packets_init sid target wn wf mn mf c) T -> far_started out0 cfg (pk_far T).
Proof.
  revert T. apply (rtc_ind_r (fun T => far_started out0 cfg (pk_far T))); [done|]. intros T1 T2 _ Hst IH.
  destruct Hst as [t n E|c' Hc|x f Ef E|t r r' Ef E|r b' Ef Hb|f rest E Hf _|f rest E Hf _|g Hg|g Hg|k _|k _| |];
    cbn [pk_far]; try exact IH.
  - unfold first_datagram in E. destruct (ds_receive x) as [[[m|st|] x']|]; [|by injection E as <-..|done].
    injection E as <-. exists x', m. split; [done|]. by exists [].
  - rewrite Ef in IH. by eapply far_turn_started.
  - rewrite Ef in IH. destruct IH as (x & m & Hr & Ht). exists x, m. split; [|exact Ht].
    eapply rtc_r; [exact Hr|]. by apply relay_event_remote.
  - apply far_events; [|exact IH]. intros x. by apply recv_events.
  - apply far_events; [|exact IH]. intros x. by apply down_events.
Qed.

(** A datagram whose address survives its encoding. *)
Definition packet_ok (m : Datagram) : Prop := addr_wf (snd m) /\ addr_encodable (snd m) /\ small m.

(** While the link of the sender [x] is up and the session of the receiver [r]
    open, what was sent is what was taken, what waits and what is on the wire; the
    queue of a session has room for the first 1024 datagrams, whoever reads. *)
Definition nothing_lost (wire : list bytes) (put taken : list Datagram) (x r : SessionEnd C) : Prop :=
  link_up x = true -> state_ (se_session r) = Open -> zlen put <= 1024 ->
  exists fs, wire = encodeFrame [] <$> fs /\ put = taken ++ waiting r ++ wire_dgrams fs.

Lemma arrives_ok ms : Forall packet_ok ms -> arrives ms = ms.
Proof.
  induction 1 as [|[p a] ms (Hwf & He & _) _ IH]; [done|].
  change (arrives ((p, a) :: ms)) with (frame_dgrams (UdpDataFrame 0 (toBinary a) p) ++ arrives ms). rewrite IH.
  cbn [frame_dgrams fst snd] in *.
  rewrite <- (app_nil_r (toBinary a)), parse_toBinary_encodable by done. done.
Qed.

Lemma ok_small ms : Forall packet_ok ms -> Forall small ms.
Proof. intros Hm. eapply Forall_impl; [exact Hm|]. by intros m (_ & _ & ?). Qed.
End Reached.

(** ** Properties *)

Section PacketsProperties.
Context `{AbslOps, !AbslSpec} {C : Type -> Type} `{ChannelSpec C} {A B : Type} `{DatagramStream A, DatagramStream B}.

(** C22. The datagram tunnel from end to end, whatever the schedule of the two
    relays and the two readers, and however queues overflow and links fail or
    close: what the far process sends to its outbound is a selection of the
    client's datagrams, what the client is sent a selection of the outbound's, in
    their order, none altered or duplicated, each with its address; the outbound
    was asked for the address of the first datagram that arrived, which is the
    first it is given; and nothing is lost on the way as long as the link is up,
    the session open and the queue cannot be full. *)
Theorem packet_tunnel_faithful (out0 : Request -> B) cfg sid target wn wf mn mf (c : A) (T : Packets C A B) :
  0 <= sid < 2 ^ 64 -> rtc (packets_step out0 cfg) (packets_init sid target wn wf mn mf c) T ->
  Forall packet_ok (pf_got (frc (pk_near T))) -> Forall packet_ok (far_got (pk_far T)) ->
  sublist (far_sent (pk_far T)) (pf_got (frc (pk_near T))) /\
  sublist (pf_sent (frr (pk_near T))) (far_got (pk_far T)) /\
  nothing_lost (pk_up T) (pf_sent (frc (pk_near T))) (far_taken (pk_far T)) (near_end T) (far_end T) /\
  nothing_lost (pk_down T) (far_put (pk_far T)) (pf_got (frr (pk_near T))) (far_end T) (near_end T) /\
  forall r, pk_far T = FarRelaying r ->
    exists x m, rtc relay_step
        (relay_init (mkInjectedStream x (Some m)) (out0 (mkRequest (Config.in_tag cfg) (Config.in_protocol cfg) UDP (snd m)))) r /\
      m ∈ pf_got (frc (pk_near T)) /\ (forall m', head (far_sent (pk_far T)) = Some m' -> m' = m).
Proof.
  intros Hsid Hr Hn Hf. pose proof (near_reached out0 cfg sid target wn wf mn mf c T Hr) as Hnr.
  destruct (relay_ok_run c _ _ Hnr) as [[E1 _] [E2 _]].
  pose proof (far_reached out0 cfg sid target wn wf mn mf c T Hr) as Hfr.
  assert (exists l1 l2, far_taken (pk_far T) = far_sent (pk_far T) ++ l1 /\ far_got (pk_far T) = far_put (pk_far T) ++ l2) as (l1 & l2 & E3 & E4).
  { destruct (pk_far T) as [x|x|r]; [by exists [], []..|]. destruct Hfr as (x & m & Hrr & _).
    destruct (relay_ok_run _ _ _ Hrr) as [[E3 _] [E4 _]]. cbn [far_taken far_sent far_got far_put].
    rewrite E3, E4, <- !app_assoc. by eexists _, _. }
  rewrite E1 in Hn. rewrite E4 in Hf. apply Forall_app in Hn as [Hn _]. apply Forall_app in Hf as [Hf _].
  destruct (packets_inv_run out0 cfg sid target wn wf mn mf c T Hsid Hr) as (_ & _ & (fs & Ewu & _ & Hup & _ & Xup) & (gs & Ewd & _ & Hdown & _ & Xdown)).
  { split; by apply ok_small. }
  rewrite arrives_ok in Hup, Hdown, Xup, Xdown by done.
  assert (sublist (far_taken (pk_far T)) (pf_got (frc (pk_near T)))) as Hup'.
  { rewrite E1. apply sublist_inserts_r. etrans; [|exact Hup]. by apply sublist_inserts_r. }
  split; [etrans; [|exact Hup']; rewrite E3; by apply sublist_inserts_r|]. split.
  { rewrite E4. apply sublist_inserts_r. etrans; [|exact Hdown]. rewrite E2. rewrite <- !app_assoc. by apply sublist_inserts_r. }
  split; [intros H1' H2' H3'; exists fs; split; [done|]; by rewrite Xup|].
  split; [intros H1' H2' H3'; exists gs; split; [done|]; by rewrite Xdown|].
  intros r Er. rewrite Er in *. destruct Hfr as (x & m & Hrr & rest & Ht). exists x, m. split; [done|]. rewrite Ht in Hup', E3. split.
  - eapply elem_of_submseteq; [|by apply sublist_submseteq]. left.
  - destruct (far_sent (FarRelaying r)); [done|]. injection E3 as -> _. by intros m' [= <-].
Qed.
End PacketsProperties.

(** ** Witness: a query and its answer *)

Section PacketSchedules.
Context `{AbslOps} {C : Type -> Type} `{ChannelOps C} {A B : Type} `{DatagramStream A, DatagramStream B}.

Inductive PacketMove := PNear (t : Side) | PFar (t : Side) | PFirst | PUp (f : ShineFrame bytes) | PDown (f : ShineFrame bytes).

(** A move that cannot be made leaves the tunnel as it is. *)
Definition packet_move (out0 : Request -> B) (cfg : Config.InboundConfig) (m : PacketMove) (T : Packets C A B) : Packets C A B :=
  match m with
  | PNear t =>
      match relay_turn t (pk_near T) with
      | Some n => mkPackets n (pk_far T) (enqueue (near_end T) (sent_since (near_end T) (remote n)) (pk_up T)) (pk_down T)
      | None => T
      end
  | PFar t =>
      match pk_far T with
      | FarRelaying r =>
          match relay_turn t r with
          | Some r' => mkPackets (pk_near T) (FarRelaying r') (pk_up T)
                         (enqueue (far_end T) (sent_since (far_end T) (inner_ (client r'))) (pk_down T))
          | None => T
          end
      | _ => T
      end
  | PFirst =>
      match pk_far T with
      | FarWaiting x =>
          match first_datagram out0 cfg x with Some f => mkPackets (pk_near T) f (pk_up T) (pk_down T) | None => T end
      | _ => T
      end
  | PUp f =>
      match pk_up T with
      | w :: rest =>
          if bool_decide (w = encodeFrame [] f) && link_up (far_end T)
          then mkPackets (pk_near T) (on_far (recv_frame f) (pk_far T)) rest (pk_down T) else T
      | [] => T
      end
  | PDown f =>
      match pk_down T with
      | w :: rest =>
          if bool_decide (w = encodeFrame [] f) && link_up (near_end T)
          then mkPackets (on_near (recv_frame f) (pk_near T)) (pk_far T) (pk_up T) rest else T
      | [] => T
      end
  end.
Definition packet_moves out0 cfg (ms : list PacketMove) (T : Packets C A B) : Packets C A B :=
  fold_left (fun T m => packet_move out0 cfg m T) ms T.
Definition packet_move_fits (m : PacketMove) : Prop := match m with PUp f | PDown f => frame_fits f | _ => True end.

Lemma packet_moves_rtc (out0 : Request -> B) cfg ms (T : Packets C A B) :
  Forall packet_move_fits ms -> rtc (packets_step out0 cfg) T (packet_moves out0 cfg ms T).
Proof.
  intros Hms. revert T. induction Hms as [|m ms Hm Hms IH]; intros T; [reflexivity|].
  cbn [packet_moves fold_left]. etrans; [|apply IH]. clear IH. destruct m as [t|t| |f|f]; cbn [packet_move].
  - destruct (relay_turn t (pk_near T)) eqn:E; [|reflexivity]. eapply rtc_once, pt_near, E.
  - destruct (pk_far T) as [x|x|r] eqn:Ef; [reflexivity..|]. destruct (relay_turn t r) eqn:E; [|reflexivity].
    by eapply rtc_once, pt_far.
  - destruct (pk_far T) as [x|x|r] eqn:Ef; [|reflexivity..].
    destruct (first_datagram out0 cfg x) eqn:E; [|reflexivity]. by eapply rtc_once, pt_first.
  - destruct (pk_up T) as [|w rest] eqn:E; [reflexivity|]. destruct (bool_decide_reflect (w = encodeFrame [] f)) as [->|]; [|reflexivity].
    destruct (link_up (far_end T)) eqn:El; [|reflexivity]. by eapply rtc_once, pt_up.
  - destruct (pk_down T) as [|w rest] eqn:E; [reflexivity|]. destruct (bool_decide_reflect (w = encodeFrame [] f)) as [->|]; [|reflexivity].
    destruct (link_up (near_end T)) eqn:El; [|reflexivity]. by eapply rtc_once, pt_down.
Qed.
End PacketSchedules.

#[local] Existing Instance reference_absl.

Definition answer_from : Endpoint := mkEndpoint [x08; x08; x08; x08] 53.
Definition demo_out0 (_ : Request) : DirectUdp := sample_direct [inl (answer_from, lit "answer")].
Definition demo_inbound : Config.InboundConfig := Config.default_inbound.
Definition demo_packets : Packets fifo (InjectedStream DirectUdp) DirectUdp :=
  packets_init 7 (fromDomain (lit "h") 80) 1000 1000 4096 4096 sample_client.
Definition demo_up : ShineFrame bytes := UdpDataFrame 7 (toBinary dns_name) (lit "one").
Definition demo_down : ShineFrame bytes := UdpDataFrame 7 (toBinary (endpoint_address answer_from)) (lit "answer").
Definition demo_exchange : list PacketMove :=
  [PNear ReadClient; PNear ReadClient; PUp demo_up; PFirst; PFar ReadClient; PFar ReadClient; PFar ReadRemote; PFar ReadRemote;
   PDown (AckFrame 7); PDown demo_down; PNear ReadRemote; PNear ReadRemote].

Lemma demo_exchange_fits : Forall packet_move_fits demo_exchange.
Proof. repeat (apply Forall_cons; split; [by first [apply ack_fits|apply udp_data_fits|exact I]|]). by apply Forall_nil. Qed.

Lemma packet_tunnel_faithful_witness :
  let T := packet_moves demo_out0 demo_inbound demo_exchange demo_packets in
  far_sent (pk_far T) = [(lit "one", dns_name)] /\
  pf_sent (frr (pk_near T)) = [(lit "answer", endpoint_address answer_from)] /\
  sublist (far_sent (pk_far T)) (pf_got (frc (pk_near T))) /\ sublist (pf_sent (frr (pk_near T))) (far_got (pk_far T)) /\
  exists fs, pk_up T = encodeFrame [] <$> fs /\ pf_sent (frc (pk_near T)) = far_taken (pk_far T) ++ waiting (far_end T) ++ wire_dgrams fs.
Proof.
  intros T. assert (rtc (packets_step demo_out0 demo_inbound) demo_packets T) as Hr by (apply packet_moves_rtc, demo_exchange_fits).
  split; [by vm_compute|]. split; [by vm_compute|].
  assert (pf_got (frc (pk_near T)) = [(lit "one", dns_name)]) as E1 by (by vm_compute).
  assert (far_got (pk_far T) = [(lit "answer", endpoint_address answer_from)]) as E2 by (by vm_compute).
  assert (zlen (pf_sent (frc (pk_near T))) <= 1024) as E3 by (by vm_compute).
  assert (link_up (near_end T) = true) as E4 by (by vm_compute).
  assert (state_ (se_session (far_end T)) = Open) as E5 by (by vm_compute). clearbody T.
  destruct (packet_tunnel_faithful demo_out0 demo_inbound 7 (fromDomain (lit "h") 80) 1000 1000 4096 4096 sample_client T)
    as (H1 & H2 & H3 & _); [lia|exact Hr| | |].
  - rewrite E1. apply Forall_singleton. by vm_compute.
  - rewrite E2. apply Forall_singleton. by vm_compute.
  - split; [exact H1|]. split; [exact H2|]. exact (H3 E4 E5 E3).
Defined.
