(* ===== verification/Association.v ===== *)
(** * UDP associations (src/inbound/socks5_inbound.cpp) relayed

    [Socks5UdpStream] as an [IDatagramStream]: the UDP socket, the control
    connection, and the coroutine that watches it.  Wrapped in an
    [InjectedStream] it is the client of a datagram relay; the theorems here are
    about that composition, for any outbound. *)
From S2P Require Import Prelude Absl ShineFrame Address Request Socket Config Socks5 Pipe Datagram.
From Stdlib Require Import Strings.Byte.

(** ** The stream *)

(** [Socks5UdpStream] with what its socket will deliver, how the next
    [async_send_to]s end ([Some] error message) and what was sent; [ts_] is the
    control connection. *)
Record Assoc := mkAssoc {
  as_udp : Socks5UdpStream.t;
  as_in : list Arrival;
  as_sends : list (option bytes);
  as_out : list (Endpoint * bytes);
  as_control : bool;                       (* ts_ is open *)
}.

(** [receiveFrom].  While it waits it drops the datagrams it ignores; they are
    dropped here when it returns, which is the same by [receive_resumes]. *)
Definition assoc_receive (a : Assoc) : option (res Datagram * Assoc) :=
  match Socks5UdpStream.receiveFrom (as_in a) (as_udp a) with
  | (Socks5UdpStream.Got p t, u, rest) => Some (Ok (p, t), mkAssoc u rest (as_sends a) (as_out a) (as_control a))
  | (Socks5UdpStream.Failed st, u, rest) => Some (Err st, mkAssoc u rest (as_sends a) (as_out a) (as_control a))
  | (Socks5UdpStream.Undefined, u, rest) => Some (UB, mkAssoc u rest (as_sends a) (as_out a) (as_control a))
  | (Socks5UdpStream.Pending, _, _) => None
  end.

Definition assoc_send (m : Datagram) (a : Assoc) : res unit * Assoc :=
  match Socks5UdpStream.sendTo (fst m) (snd m) (as_udp a) with
  | UB => (UB, a)
  | Err st => (Err st, a)
  | Ok dg =>
      match as_sends a with
      | Some msg :: ws => (Err (UnavailableError msg), mkAssoc (as_udp a) (as_in a) ws (as_out a) (as_control a))
      | None :: ws => (Ok tt, mkAssoc (as_udp a) (as_in a) ws (as_out a ++ [dg]) (as_control a))
      | [] => (Ok tt, mkAssoc (as_udp a) (as_in a) [] (as_out a ++ [dg]) (as_control a))
      end
  end.

(** [close]: both sockets. *)
Definition assoc_close (a : Assoc) : Assoc :=
  mkAssoc (Socks5UdpStream.close (as_udp a)) (as_in a) (as_sends a) (as_out a) false.

(** What others do to it: the network delivers; the watching coroutine, whose
    one-byte read of the control connection completes or fails, closes it. *)
Inductive assoc_event (a : Assoc) : Assoc -> Prop :=
  | ae_arrival e : assoc_event a (mkAssoc (as_udp a) (as_in a ++ [e]) (as_sends a) (as_out a) (as_control a))
  | ae_monitor : assoc_event a (assoc_close a).

#[export] Instance Assoc_stream : DatagramStream Assoc := {|
  ds_receive := assoc_receive;
  ds_send := assoc_send;
  ds_close := assoc_close;
  ds_event := assoc_event;
|}.

#[export] Instance Assoc_stream_spec :
  DatagramStreamSpec Assoc (fun a => Socks5UdpStream.us_open (as_udp a) = false) (fun _ => 0%nat).
Proof.
  split.
  - done.
  - intros a Hc. cbn. unfold assoc_receive.
    destruct (as_in a) as [|[[e d]|msg] l]; cbn [Socks5UdpStream.receiveFrom]; rewrite Hc; cbn; by eexists _, _.
  - intros m a Hc. cbn. unfold assoc_send, Socks5UdpStream.sendTo. by rewrite Hc.
  - by intros a a' Hc [e|].
Qed.

(** The client stream of an outbound: the association with the first datagram
    put back. *)
Definition client_closed (x : InjectedStream Assoc) : Prop := Socks5UdpStream.us_open (as_udp (inner_ x)) = false.
Definition client_backlog (x : InjectedStream Assoc) : nat := if p_ x is Some _ then 1 else 0.
#[export] Instance Client_stream_spec : DatagramStreamSpec (InjectedStream Assoc) client_closed client_backlog.
Proof. exact (Injected_stream_spec (H0 := Assoc_stream_spec)). Qed.

(** [handleClient] from the first datagram on: the request and the client
    stream of the outbound. *)
Definition udp_start (cfg : InboundConfig) (sends : list (option bytes)) (arrivals : list Arrival)
  : option (Request * InjectedStream Assoc) :=
  match udp_associate cfg arrivals with
  | None => None
  | Some (req, st, rest) =>
      Some (req, mkInjectedStream (mkAssoc (Socks5.inner_ st) rest sends [] true) (inj_ st))
  end.

(** ** What is received *)

Section Received.
Import Socks5UdpStream.

Lemma receive_resumes dgs more : forall st st' rest,
  us_open st = true -> receiveFrom dgs st = (Pending, st', rest) ->
  receiveFrom (dgs ++ more) st = receiveFrom more st' /\
  (ep_port (client_ep_ st) <> 0 -> st' = st).
Proof.
  induction dgs as [|[[sender d]|msg] dgs IH]; intros st st' rest Ho; cbn [app receiveFrom]; rewrite Ho; cbn [negb].
  - by intros [= <- <-].
  - destruct (ep_port (client_ep_ st) =? 0) eqn:Ez; cbn [negb andb].
    + destruct (parse_datagram d) as [[[p t]|]|e|]; try done. intros E.
      destruct (IH (mk true sender) st' rest eq_refl) as [-> _]; [done|]. split; [done|].
      intros Hn. apply Z.eqb_eq in Ez. lia.
    + destruct (negb (bool_decide (sender = client_ep_ st))); [by apply IH|].
      destruct (parse_datagram d) as [[[p t]|]|e|]; try done. by apply IH.
  - done.
Qed.

Definition intact (l : list Arrival) : bool := forallb (fun e => if e is inl _ then true else false) l.

Lemma intact_app l1 l2 : intact (l1 ++ l2) = intact l1 && intact l2.
Proof. apply forallb_app. Qed.

Lemma heard_app c l1 l2 : intact l1 = true -> heard c (l1 ++ l2) = heard c l1 ++ heard c l2.
Proof.
  induction l1 as [|[e|msg] l1 IH]; cbn [intact forallb heard app]; [done| |done].
  intros Hi. destruct (deliverable c e); by rewrite IH.
Qed.

Lemma heard_prefix c l1 l2 : exists more, heard c (l1 ++ l2) = heard c l1 ++ more.
Proof.
  induction l1 as [|[e|msg] l1 IH]; cbn [heard app]; [by eexists| |by exists []].
  destruct IH as [more ->]. destruct (deliverable c e); by exists more.
Qed.

(** What [receiveFrom] takes from the socket of a pinned association. *)
Lemma receive_consumes c dgs : forall st r st' rest,
  client_ep_ st = c -> ep_port c <> 0 -> receiveFrom dgs st = (r, st', rest) ->
  st' = st /\ exists past, dgs = past ++ rest /\
    match r with
    | Got p t => intact past = true /\ heard c past = [(p, t)]
    | Undefined => False
    | _ => True
    end.
Proof.
  induction dgs as [|[[sender d]|msg] dgs IH]; intros st r st' rest Hc Hp; cbn [receiveFrom];
    destruct (us_open st) eqn:Ho; cbn [negb].
  1, 2, 4, 6: intros [= <- <- <-]; split; [done|by exists []].
  2: { intros [= <- <- <-]. split; [done|]. by exists [inr msg]. }
  rewrite Hc, (proj2 (Z.eqb_neq _ _)) by done. cbn [negb andb].
  assert (forall o, deliverable c (sender, d) = o -> o = None -> receiveFrom dgs st = (r, st', rest) ->
    st' = st /\ exists past, inl (sender, d) :: dgs = past ++ rest /\
      match r with Got p t => intact past = true /\ heard c past = [(p, t)] | Undefined => False | _ => True end) as Hskip.
  { intros o Hd -> E. destruct (IH st r st' rest Hc Hp E) as (-> & past & -> & Hr). split; [done|].
    exists (inl (sender, d) :: past). split; [done|]. destruct r; try done.
    cbn [intact forallb heard]. by rewrite Hd. }
  unfold deliverable in Hskip. cbn [fst snd] in Hskip.
  destruct (decide (sender = c)) as [->|Hn].
  - rewrite bool_decide_eq_true_2 by done. cbn [negb].
    destruct (parse_datagram_cases d) as [E|(t & pl & _ & _ & E)]; rewrite E in Hskip |- *; [by apply (Hskip None)|].
    intros [= <- <- <-]. split; [done|]. exists [inl (c, d)]. split; [done|]. split; [done|].
    cbn [heard]. unfold deliverable. cbn [fst snd]. by rewrite decide_True, E.
  - rewrite bool_decide_eq_false_2 by done. cbn [negb]. by apply (Hskip None).
Qed.
End Received.

(** ** The relay of an association *)

(** The datagram [sendTo] makes of a reply. *)
Definition reply (c : Endpoint) (m : Datagram) : Endpoint * bytes := (c, [x00; x00; x00] ++ toBinary (snd m) ++ fst m).

Lemma assoc_send_cases m a :
  exists r a', assoc_send m a = (r, a') /\ as_udp a' = as_udp a /\ as_in a' = as_in a /\
    match r with
    | Ok _ => as_out a' = as_out a ++ [reply (Socks5UdpStream.client_ep_ (as_udp a)) m]
    | Err _ => as_out a' = as_out a
    | UB => False
    end.
Proof.
  unfold assoc_send, Socks5UdpStream.sendTo. destruct (negb _); [by eexists _, _|].
  destruct (as_sends a) as [|[msg|] ws]; by eexists _, _.
Qed.

Lemma injected_takes c got arrivals past (x x' : InjectedStream Assoc) r :
  Socks5UdpStream.client_ep_ (as_udp (inner_ x)) = c -> ep_port c <> 0 -> ds_receive x = Some (r, x') ->
  arrivals = past ++ as_in (inner_ x) -> intact past = true -> heard c past = got ++ option_list (p_ x) ->
  Socks5UdpStream.client_ep_ (as_udp (inner_ x')) = c /\ as_out (inner_ x') = as_out (inner_ x) /\
  exists past', arrivals = past' ++ as_in (inner_ x') /\
    match r with
    | Ok m => intact past' = true /\ heard c past' = (got ++ [m]) ++ option_list (p_ x')
    | Err _ => exists more, heard c past' = got ++ more
    | UB => False
    end.
Proof.
  destruct x as [a [m|]]; cbn [ds_receive Injected_stream p_ inner_]; intros Hc Hp E Harr Hi Hh.
  { injection E as <- <-. split; [done|]. split; [done|]. exists past. split; [done|]. split; [done|].
    by rewrite Hh, app_nil_r. }
  cbn in E. unfold assoc_receive in E. cbn [option_list] in Hh. rewrite app_nil_r in Hh.
  destruct (Socks5UdpStream.receiveFrom (as_in a) (as_udp a)) as [[e u] rest] eqn:Er.
  destruct (receive_consumes c _ _ _ _ _ Hc Hp Er) as (-> & past2 & Hin & Hr).
  destruct e as [p t|st| |]; try done; injection E as <- <-;
    (split; [done|]); (split; [done|]); exists (past ++ past2);
    (split; [rewrite <- app_assoc; cbn; by rewrite <- Hin|]).
  - destruct Hr as [Hi2 Hh2]. split; [by rewrite intact_app, Hi, Hi2|].
    by rewrite heard_app, Hh, Hh2, app_nil_r.
  - rewrite heard_app, Hh by done. by eexists.
Qed.

Section Relayed.
Context {B : Type} `{DatagramStream B}.
Implicit Types s : UdpRelay (InjectedStream Assoc) B.

(** What the association has heard, and answered, so far. *)
Definition assoc_ok (c : Endpoint) (arrivals : list Arrival) s : Prop :=
  let a := inner_ (client s) in
  Socks5UdpStream.client_ep_ (as_udp a) = c /\
  as_out a = reply c <$> pf_sent (frr s) /\
  exists past, arrivals = past ++ as_in a /\
    if pump_ended (rc s) then exists more, heard c past = pf_got (frc s) ++ more
    else intact past = true /\ heard c past = pf_got (frc s) ++ option_list (p_ (client s)).

Lemma assoc_ok_client c arrivals s s' :
  ep_port c <> 0 -> relay_turn ReadClient s = Some s' -> assoc_ok c arrivals s -> assoc_ok c arrivals s'.
Proof.
  intros Hp E (Hc & Ho & past & Harr & Hpast). cbn [relay_turn] in E. unfold assoc_ok.
  destruct (rc s) as [|m| | |] eqn:Erc; cbn [pump_step pump_ended] in E, Hpast; try done.
  - destruct Hpast as [Hi Hh]. destruct (ds_receive (client s)) as [[r x']|] eqn:Er; [|done].
    destruct (injected_takes c _ _ _ _ _ _ Hc Hp Er Harr Hi Hh) as (Hc' & Ho' & past' & Harr' & Hr).
    destruct r as [m|st|]; [| |done]; injection E as <-; cbn [client frr rc frc pump_ended pump_add pf_got pe_got pe_none];
      (split; [done|]); (split; [by rewrite Ho'|]); exists past'; (split; [done|]); [done|by rewrite app_nil_r].
  - destruct (ds_send m (remote s)) as [[u|st|] r'] eqn:Es; injection E as <-;
      cbn [client frr rc frc pump_ended pump_add pf_got pe_got]; rewrite app_nil_r;
      (split; [done|]); (split; [done|]); exists past; (split; [done|]); destruct Hpast as [Hi Hh];
      rewrite ?Hh; eauto.
  - injection E as <-. cbn [client frr rc frc pump_ended pump_add pf_got pe_got pe_none]. rewrite app_nil_r. eauto.
Qed.

Lemma assoc_ok_remote c arrivals s s' :
  relay_turn ReadRemote s = Some s' -> assoc_ok c arrivals s -> assoc_ok c arrivals s'.
Proof.
  intros E (Hc & Ho & Hpast). cbn [relay_turn] in E. unfold assoc_ok.
  destruct (rr s) as [|m| | |] eqn:Err; cbn [pump_step] in E; try done.
  - destruct (ds_receive (remote s)) as [[[m|st|] r']|]; [..|done]; injection E as <-;
      cbn [client frr rc frc pump_add pf_sent pe_sent pe_none]; by rewrite app_nil_r.
  - destruct (client s) as [a p] eqn:Ecl. cbn [ds_send Injected_stream Assoc_stream inner_ p_] in E, Hc, Ho, Hpast.
    destruct (assoc_send_cases m a) as (r & a' & Es & Hu & Hin & Hr). rewrite Es in E.
    destruct r as [u|st|]; [| |done]; injection E as <-;
      cbn [client frr rc frc pump_add pf_sent pe_sent inner_ p_]; rewrite Hu, Hin, Hr;
      (split; [done|]); split; try done.
    + by rewrite fmap_app, Ho, Hc.
    + by rewrite app_nil_r.
  - injection E as <-. cbn [client frr rc frc pump_add pf_sent pe_sent pe_none]. rewrite app_nil_r.
    by destruct (client s) as [a p].
Qed.

Lemma assoc_ok_run c arrivals s0 s :
  ep_port c <> 0 -> assoc_ok c arrivals s0 -> rtc relay_step s0 s -> exists more, assoc_ok c (arrivals ++ more) s.
Proof.
  intros Hp H0 Hrun. revert arrivals H0.
  induction Hrun as [s|s1 s2 s3 Hs _ IH]; intros arrivals H1; [exists []; by rewrite app_nil_r|].
  destruct Hs as [[|] s' E|x' Hev|r' _].
  - by eapply IH, assoc_ok_client.
  - by eapply IH, assoc_ok_remote.
  - destruct Hev as (a' & Ha & ->). destruct H1 as (Hc & Ho & past & Harr & Hpast).
    destruct Ha as [e|].
    + destruct (IH (arrivals ++ [e])) as [more Hok]; [|exists ([e] ++ more); by rewrite app_assoc].
      split; [done|]. split; [done|]. exists past. split; [|done]. cbn. by rewrite Harr, <- app_assoc.
    + apply IH. split; [done|]. split; [done|]. by exists past.
  - by apply IH.
Qed.
End Relayed.

(** ** Properties *)

Lemma udp_start_ok {B : Type} `{DatagramStream B} cfg c d dgs sends req x (r : B) :
  ep_port c <> 0 -> udp_start cfg sends (inl (c, d) :: dgs) = Some (req, x) ->
  assoc_ok c (inl (c, d) :: dgs) (relay_init x r) /\ exists p, p_ x = Some (p, req_target req).
Proof.
  intros Hp. unfold udp_start, udp_associate. rewrite receive_first by done.
  destruct (Socks5UdpStream.receiveFrom _ _) as [[e u] rest] eqn:Er. destruct e as [p t| | |]; try done.
  intros [= <- <-].
  destruct (receive_consumes c _ (Socks5UdpStream.mk true c) _ _ _ eq_refl Hp Er) as (-> & past & Harr & Hi & Hh).
  split; [|by exists p]. split; [done|]. split; [done|]. by exists past.
Qed.

Section AssociationProperties.

(** C31. An association is its client's alone, whatever outbound it is relayed to
    and however the two loops, the network and the control connection
    interleave: the outbound is sent, in order and each once, a prefix of the
    well-formed datagrams of the client that sent the first one (all but those
    still waiting, while the loop runs), the first of which chose the route;
    and every reply goes to that client, in order and under the header made of
    its source. *)
Theorem association_confined {B : Type} `{DatagramStream B} cfg c d dgs sends req x (r : B) s :
  ep_port c <> 0 -> udp_start cfg sends (inl (c, d) :: dgs) = Some (req, x) ->
  rtc relay_step (relay_init x r) s ->
  exists more tail,
    heard c ((inl (c, d) :: dgs) ++ more) = pf_sent (frc s) ++ pump_held (rc s) ++ pf_lost (frc s) ++ tail /\
    (pump_ended (rc s) = false -> tail = option_list (p_ (client s)) ++ heard c (as_in (inner_ (client s)))) /\
    as_out (inner_ (client s)) = reply c <$> pf_sent (frr s) /\
    (exists p, head (heard c (inl (c, d) :: dgs)) = Some (p, req_target req)).
Proof.
  intros Hp Hs Hrun. destruct (udp_start_ok cfg c d dgs sends req x r Hp Hs) as [H0 [p Hpx]].
  destruct (assoc_ok_run c _ _ s Hp H0 Hrun) as (more & _ & Ho & past & Harr & Hpast).
  destruct (relay_ok_run x r s Hrun) as [[E _] _]. exists more.
  assert (exists tail, heard c ((inl (c, d) :: dgs) ++ more) = pf_got (frc s) ++ tail /\
    (pump_ended (rc s) = false -> tail = option_list (p_ (client s)) ++ heard c (as_in (inner_ (client s))))) as (tail & Ht & Hl).
  { rewrite Harr. destruct (pump_ended (rc s)).
    - destruct Hpast as [more1 Hh]. destruct (heard_prefix c past (as_in (inner_ (client s)))) as [more2 ->].
      rewrite Hh, <- app_assoc. by eexists.
    - destruct Hpast as [Hi Hh]. rewrite heard_app, Hh, <- app_assoc by done. by eexists. }
  exists tail. split; [by rewrite Ht, E, <- !app_assoc|]. split; [done|]. split; [done|].
  destruct H0 as (_ & _ & past0 & -> & Hi0 & Hh0). exists p. rewrite heard_app, Hh0 by done. cbn. by rewrite Hpx.
Qed.

(** The control connection ends an association: at any moment, when its read
    completes, the watching coroutine closes the stream; [read_client] is then
    over after at most five turns of its own, with the outbound's stream
    closed, after which [read_remote] ends too (in two turns for each datagram
    that stream still has, and three more). *)
Theorem association_ends {B : Type} {closedB : B -> Prop} {backB : B -> nat} `{DatagramStreamSpec B closedB backB}
    (x : InjectedStream Assoc) (r : B) s n :
  rtc relay_step (relay_init x r) s ->
  let s0 := mkUdpRelay (mkInjectedStream (assoc_close (inner_ (client s))) (p_ (client s))) (remote s)
              (rc s) (rr s) (frc s) (frr s) in
  let s1 := relay_run (replicate 5 ReadClient) s0 in
  relay_step s s0 /\ pump_over (rc s1) /\
  (rc s1 = PDone -> closedB (remote s1) /\
     ((2 * backB (remote s1) + 3 <= n)%nat -> pump_over (rr (relay_run (replicate n ReadRemote) s1)))).
Proof.
  intros Hrun s0 s1.
  assert (relay_step s s0) as Hstep.
  { apply (relay_event_client s (client s0)). exists (assoc_close (inner_ (client s))). split; [apply ae_monitor|done]. }
  split; [done|]. split.
  - unfold s1. rewrite run_client_iter.
    apply (pump_iter_over (closedA := client_closed) (backA := client_backlog)); [done|].
    unfold client_backlog. cbn. destruct (rc s), (p_ (client s)); cbn; lia.
  - assert (rtc relay_step (relay_init x r) s1) as Hr1.
    { etrans; [exact Hrun|]. eapply rtc_l; [exact Hstep|]. apply relay_run_rtc. }
    intros E. destruct (teardown_ok_run (closedA := client_closed) (backA := client_backlog) (closedB := closedB) x r s1 Hr1) as [T1 _].
    pose proof (T1 E) as Hc. split; [done|]. intros Hn. rewrite run_remote_iter.
    apply (pump_iter_over (closedA := closedB) (backA := backB)); [done|]. clearbody s1. destruct (rr s1); cbn; lia.
Qed.
End AssociationProperties.

(** ** Witnesses *)

Definition sample_arrivals : list Arrival :=
  [inl (mkEndpoint [] 9, sample_datagram); inl (sample_udp, [x00; x00; x00] ++ wire_target sample_target ++ lit "two")].
Definition sample_assoc : InjectedStream Assoc :=
  mkInjectedStream (mkAssoc (Socks5UdpStream.mk true sample_udp) sample_arrivals [] [] true)
    (Some (lit "hi", sample_target)).
Definition sample_remote : DirectUdp := sample_direct [inl (mkEndpoint [x09; x09; x09; x09] 53, lit "pong")].
Definition sample_turns : list Side := replicate 4 ReadClient ++ replicate 2 ReadRemote.

Lemma association_confined_witness :
  let s := relay_run sample_turns (relay_init sample_assoc sample_remote) in
  pf_sent (frc s) = [(lit "hi", sample_target); (lit "two", sample_target)] /\
  as_out (inner_ (client s)) = [reply sample_udp (lit "pong", fromIPv4 [x09; x09; x09; x09] 53)].
Proof.
  intros s. split; [by vm_compute|].
  destruct (association_confined sample_in sample_udp sample_datagram sample_arrivals []
    (mkRequest (lit "in") (lit "socks5") UDP sample_target) sample_assoc sample_remote s)
    as (more & tail & _ & _ & -> & _); [done|by vm_compute|apply relay_run_rtc|].
  by vm_compute.
Defined.

Lemma association_ends_witness :
  let s := relay_run sample_turns (relay_init sample_assoc sample_remote) in
  let s0 := mkUdpRelay (mkInjectedStream (assoc_close (inner_ (client s))) (p_ (client s))) (remote s)
              (rc s) (rr s) (frc s) (frr s) in
  rc s = PReceive /\ rr s = PReceive /\ ds_receive (remote s) = None /\
  pump_over (rr (relay_run (replicate 3 ReadRemote) (relay_run (replicate 5 ReadClient) s0))).
Proof.
  intros s s0. split; [by vm_compute|]. split; [by vm_compute|]. split; [by vm_compute|].
  destruct (association_ends (H0 := DirectUdp_stream_spec) sample_assoc sample_remote s 3) as (_ & _ & H);
    [apply relay_run_rtc|].
  apply H; [by vm_compute|lia].
Defined.
