(* ===== verification/Logging.v ===== *)
(** * Logging (src/core/logging.cpp)

    [log::init]: the default logger is created once and the level set on every
    call.  spdlog's registry and abseil's [AsciiStrToLower] are not the
    repository's: the registry is the set of names it refuses to register again,
    the conversion an interface. *)
From stdpp Require Import gmap.
From S2P Require Import Prelude Absl Geo.
From Stdlib Require Import Strings.Byte.

(** [spdlog::level], as far as [init] sets it. *)
Inductive Level := LTrace | LDebug | LInfo | LWarn | LErr | LOff.
#[export] Instance Level_eq_dec : EqDecision Level.
Proof. solve_decision. Defined.

Class AsciiLower := AsciiStrToLower : bytes -> bytes.
(** Documented: it replaces the upper-case ASCII letters, one by one. *)
Class AsciiLowerSpec `{AsciiLower} : Prop :=
  AsciiStrToLower_spec s : AsciiStrToLower s = map tolower s.

(** [initialized], the loggers registered and the level in force. *)
Record Logging := mkLogging { initialized : bool; loggers : gset bytes; log_level : Level }.
Definition Logging_new : Logging := mkLogging false ∅ LInfo.

Section Logging.
Context `{AsciiLower}.

Definition level_of (level_sv : bytes) : Level :=
  let s := AsciiStrToLower level_sv in
  if decide (s = lit "trace") then LTrace
  else if decide (s = lit "debug") then LDebug
  else if decide (s = lit "info") then LInfo
  else if decide (s = lit "warn" \/ s = lit "warning") then LWarn
  else if decide (s = lit "error") then LErr
  else if decide (s = lit "off") then LOff
  else LInfo.

(** [None]: [stdout_color_mt] throws, a logger of that name exists. *)
Definition stdout_color_mt (name : bytes) (g : Logging) : option Logging :=
  if decide (name ∈ loggers g) then None else Some (mkLogging (initialized g) ({[name]} ∪ loggers g) (log_level g)).

Definition init (level_sv : bytes) (g : Logging) : option Logging :=
  g1 ← (if initialized g then Some g
        else g' ← stdout_color_mt (lit "shine") g; Some (mkLogging true (loggers g') (log_level g')));
  Some (mkLogging (initialized g1) (loggers g1) (level_of level_sv)).

(** [init] on one string after the other. *)
Fixpoint inits (ls : list bytes) (g : Logging) : option Logging :=
  match ls with [] => Some g | l :: ls => g' ← init l g; inits ls g' end.

Lemma inits_initialized ls : forall g, initialized g = true ->
  inits ls g = Some (mkLogging true (loggers g) (from_option level_of (log_level g) (last ls))).
Proof.
  induction ls as [|l ls IH]; intros [i names lv] Hi; cbn in Hi; subst i; [done|].
  cbn [inits]. unfold init at 1. cbn -[level_of]. rewrite IH by done. cbn [loggers log_level].
  rewrite last_cons. by destruct (last ls).
Qed.

(** The first call creates the logger. *)
Lemma init_new l : init l Logging_new = Some (mkLogging true {[lit "shine"]} (level_of l)).
Proof.
  unfold init, stdout_color_mt. cbn -[level_of]. rewrite decide_False by set_solver. cbn -[level_of]. reflexivity.
Qed.

(** However often it is called, the logger is created once, nothing throws, and
    the level is the one the last call named. *)
Lemma init_repeatable ls l :
  exists g, inits (ls ++ [l]) Logging_new = Some g /\ log_level g = level_of l /\ loggers g = {[lit "shine"]}.
Proof.
  destruct ls as [|l0 ls]; cbn [inits app]; rewrite init_new; cbn [mbind option_bind]; [by eexists|].
  rewrite inits_initialized by done. eexists. split; [done|]. cbn [log_level loggers]. by rewrite last_snoc.
Qed.

(** Case does not matter. *)
Lemma level_of_case `{!AsciiLowerSpec} s : level_of (AsciiStrToLower s) = level_of s.
Proof.
  unfold level_of. rewrite !AsciiStrToLower_spec, map_map, (map_ext _ _ tolower_idem). done.
Qed.
End Logging.

#[export] Instance reference_lower : AsciiLower := lower.
#[export] Instance reference_lower_spec : AsciiLowerSpec.
Proof. by intros s. Qed.

Example level_warning : level_of (lit "WARNING") = LWarn.
Proof. by vm_compute. Qed.
Example level_default : level_of (lit "verbose") = LInfo.
Proof. by vm_compute. Qed.
