(* ===== verification/Metrics.v ===== *)
(** * Metrics (src/metrics/registry.cpp, src/metrics/exporter.cpp)

    The metric families the registry creates, and the exporter, which owns the
    HTTP server that publishes them.  prometheus-cpp is not the repository's: a
    metric's value and its increments are an interface, and so is whether the
    server can be started. *)
From S2P Require Import Prelude Absl Config.
From Stdlib Require Import Strings.Byte.

(** ** The registry *)

Inductive FamilyType := Counter | Gauge | Histogram.
Record Family := mkFamily { f_type : FamilyType; f_name : bytes; f_help : bytes }.

Definition inbound_connections : bytes := lit "shine_inbound_connections_total".
Definition sessions_active : bytes := lit "shine_sessions_active".
Definition sessions_opened : bytes := lit "shine_sessions_opened_total".
Definition sessions_closed : bytes := lit "shine_sessions_closed_total".
Definition bytes_total : bytes := lit "shine_bytes_total".
Definition connect_latency : bytes := lit "shine_connect_latency_seconds".
Definition errors_total : bytes := lit "shine_errors_total".
Definition resp2_decode_errors : bytes := lit "shine_resp2_decode_errors_total".

(** [Registry::Registry]: each [Register] in turn. *)
Definition Registry : list Family :=
  [mkFamily Counter inbound_connections (lit "Total inbound connections accepted");
   mkFamily Gauge sessions_active (lit "Currently active proxy sessions");
   mkFamily Counter sessions_opened (lit "Proxy sessions opened");
   mkFamily Counter sessions_closed (lit "Proxy sessions closed");
   mkFamily Counter bytes_total (lit "Bytes transferred");
   mkFamily Histogram connect_latency (lit "Outbound dial latency");
   mkFamily Counter errors_total (lit "Errors by kind");
   mkFamily Counter resp2_decode_errors (lit "RESP2 decode errors")].

(** No two families share a name: prometheus-cpp would merge them or throw. *)
Lemma registry_names_distinct : NoDup (f_name <$> Registry).
Proof. apply (bool_decide_unpack _). vm_compute. exact I. Qed.

(** prometheus-cpp: the value of the metric of a family with some labels, and
    adding to it. *)
Class Metrics (M : Type) := {
  m_value : M -> bytes -> list (bytes * bytes) -> Z;
  m_add : bytes -> list (bytes * bytes) -> Z -> M -> M;
}.
Class MetricsSpec (M : Type) `{Metrics M} : Prop :=
  m_value_add f l d (m : M) f' l' :
    m_value (m_add f l d m) f' l' = m_value m f' l' + (if decide (f = f' /\ l = l') then d else 0).

(** The metrics as a map. *)
Notation map_metrics := (gmap (bytes * list (bytes * bytes)) Z).
#[export] Instance Map_metrics : Metrics map_metrics := {|
  m_value m f l := default 0 (m !! (f, l));
  m_add f l d m := <[(f, l) := default 0 (m !! (f, l)) + d]> m;
|}.
#[export] Instance Map_metrics_spec : MetricsSpec map_metrics.
Proof.
  intros f l d m f' l'. cbn. destruct (decide (f = f' /\ l = l')) as [[-> ->]|Hn].
  - by rewrite lookup_insert_eq.
  - rewrite lookup_insert_ne; [lia|]. intros [= -> ->]. by apply Hn.
Qed.

(** ** The exporter *)

(** [exposer_]: the address it serves, when there is one. *)
Record Exporter := mkExporter { exposer_ : option bytes }.
Definition Exporter_new : Exporter := mkExporter None.

(** [Exporter::start]; [expose] is prometheus-cpp's [Exposer]: [None], or the
    message of the exception its constructor throws. *)
Definition Exporter_start (expose : bytes -> option bytes) (cfg : MetricsConfig) (e : Exporter) : res unit * Exporter :=
  match expose (metrics_listen cfg) with
  | None => (Ok tt, mkExporter (Some (metrics_listen cfg)))
  | Some what => (Err (UnavailableError (lit "metrics exposer: " ++ what)), e)
  end.

Definition Exporter_stop (e : Exporter) : Exporter := mkExporter None.
