(* ===== verification/Inbounds.v ===== *)
(** * Starting the inbounds (src/inbound/factory.cpp, [start] of the three inbounds)

    [makeInbound] chooses the class; each class's [start] turns the listen
    address into an endpoint and opens, binds and listens on its acceptor.  The
    three sockets calls are the operating system's: each gives an error message
    or succeeds. *)
From S2P Require Import Prelude Absl Address Config.
From Stdlib Require Import Strings.Byte.

Inductive InboundKind := Socks5Inbound | HttpConnectInbound | ShineInboundKind.

Definition makeInbound (cfg : InboundConfig) : res InboundKind :=
  if decide (in_protocol cfg = lit "socks5") then Ok Socks5Inbound
  else if decide (in_protocol cfg = lit "http-connect") then Ok HttpConnectInbound
  else if decide (in_protocol cfg = lit "shine") then Ok ShineInboundKind
  else Err (InvalidArgumentError (lit "unknown inbound protocol: " ++ in_protocol cfg)).

(** [open] (with whether the protocol is v6), [bind] and [listen]. *)
Record Listener := mkListener {
  sys_open : bool -> option bytes;
  sys_bind : Endpoint -> option bytes;
  sys_listen : Endpoint -> option bytes;
}.

Definition endpoint_v6 (real : Endpoint) : bool := negb (zlen (ep_addr real) =? 4).

(** [if (ec) return UnavailableError(ec.message())]. *)
Definition check_ec (ec : option bytes) : res unit :=
  match ec with Some msg => Err (UnavailableError msg) | None => Ok tt end.

(** From [acceptor_.open] to [acceptor_.listen]; [reuse_address] is best effort. *)
Definition open_acceptor (sys : Listener) (real : Endpoint) : res unit :=
  _ ← check_ec (sys_open sys (endpoint_v6 real));
  _ ← check_ec (sys_bind sys real);
  check_ec (sys_listen sys real).

(** [memcpy(b.data(), ep->bytes().data(), n)] into a fresh [bytes_type]. *)
Definition endpoint_of (ep : Address) (n : Z) : res Endpoint :=
  b ← rdn (bytes_ ep) 0 n; Ok (mkEndpoint b (port_ ep)).

Section Start.
Context `{AbslOps, BoostIp}.

(** [Socks5Inbound::start]; the result is the endpoint listened on. *)
Definition Socks5Inbound_start (sys : Listener) (cfg : InboundConfig) : res Endpoint :=
  ep ← parseHostPort (in_listen cfg);
  real ← (if decide (type_ ep = IPv4) then endpoint_of ep 4
          else if decide (type_ ep = IPv6) then endpoint_of ep 16
          else Err (InvalidArgumentError (lit "socks5 listen must be IP")));
  _ ← open_acceptor sys real;
  Ok real.

(** [HttpConnectInbound::start] *)
Definition HttpConnectInbound_start (sys : Listener) (cfg : InboundConfig) : res Endpoint :=
  ep ← parseHostPort (in_listen cfg);
  if decide (type_ ep = Domain) then Err (InvalidArgumentError (lit "http-connect listen must be IP"))
  else
    real ← (if decide (type_ ep = IPv4) then endpoint_of ep 4 else endpoint_of ep 16);
    _ ← open_acceptor sys real;
    Ok real.

(** [ShineInbound::start] *)
Definition ShineInbound_start (sys : Listener) (cfg : InboundConfig) : res Endpoint :=
  ep ← parseHostPort (in_listen cfg);
  if decide (type_ ep = Domain) then Err (InvalidArgumentError (lit "shine listen must be IP"))
  else
    real ← (if decide (type_ ep = IPv4) then endpoint_of ep 4 else endpoint_of ep 16);
    _ ← open_acceptor sys real;
    Ok real.

(** The virtual call of [main]. *)
Definition start_inbound (sys : Listener) (k : InboundKind) (cfg : InboundConfig) : res Endpoint :=
  match k with
  | Socks5Inbound => Socks5Inbound_start sys cfg
  | HttpConnectInbound => HttpConnectInbound_start sys cfg
  | ShineInboundKind => ShineInbound_start sys cfg
  end.
End Start.

(** ** What a started inbound listens on *)

(** The specification: the endpoint of an address, and the message of a class. *)
Definition listen_endpoint (a : Address) : option Endpoint :=
  match type_ a with
  | IPv4 => Some (mkEndpoint (take 4 (bytes_ a)) (port_ a))
  | IPv6 => Some (mkEndpoint (bytes_ a) (port_ a))
  | Domain => None
  end.
Definition listen_error (k : InboundKind) : bytes :=
  match k with
  | Socks5Inbound => lit "socks5 listen must be IP"
  | HttpConnectInbound => lit "http-connect listen must be IP"
  | ShineInboundKind => lit "shine listen must be IP"
  end.

Section StartFacts.
Context `{AbslOps, !AbslSpec, BoostIp, !BoostIpSpec}.

Lemma endpoint_of_ok a n : length (bytes_ a) = 16%nat -> 0 <= n <= 16 ->
  endpoint_of a n = Ok (mkEndpoint (take (Z.to_nat n) (bytes_ a)) (port_ a)).
Proof. intros Hl Hn. unfold endpoint_of. rewrite rdn_Ok by (unfold zlen; lia). done. Qed.

(** The three [start]s do the same, each in its own order, but for the message
    when the address is a name; none of them reads outside the address. *)
Lemma start_inbound_exact sys k ic :
  start_inbound sys k ic =
    (a ← parseHostPort (in_listen ic);
     match listen_endpoint a with
     | None => Err (InvalidArgumentError (listen_error k))
     | Some real => _ ← open_acceptor sys real; Ok real
     end).
Proof.
  pose proof (parseHostPort_result (in_listen ic)) as Hr.
  destruct k; cbn [start_inbound listen_error]; unfold Socks5Inbound_start, HttpConnectInbound_start, ShineInbound_start;
    (destruct (parseHostPort (in_listen ic)) as [a|st|]; [|done..]); cbn [mbind res_bind];
    destruct Hr as [(_ & Hl & _) _]; unfold listen_endpoint; destruct (type_ a); repeat case_decide; try done;
    rewrite endpoint_of_ok by (done || lia); try done; change (Z.to_nat 16) with 16%nat;
    by rewrite take_ge by (rewrite Hl; lia).
Qed.

(** A started inbound listens on the IP its entry names. *)
Definition listens_at (sys : Listener) (listen : bytes) (ep : Endpoint) : Prop :=
  open_acceptor sys ep = Ok tt /\ exists a, parseHostPort listen = Ok a /\ listen_endpoint a = Some ep.

Lemma start_inbound_ok sys k ic ep : start_inbound sys k ic = Ok ep <-> listens_at sys (in_listen ic) ep.
Proof.
  rewrite start_inbound_exact. split.
  - intros (a & Ea & E)%res_bind_ok. destruct (listen_endpoint a) as [real|] eqn:El; [|done].
    apply res_bind_ok in E as ([] & Eo & [= ->]). split; [done|]. by exists a.
  - intros (Eo & a & -> & El). cbn [mbind res_bind]. by rewrite El, Eo.
Qed.

Lemma start_inbound_defined sys k ic : start_inbound sys k ic <> UB.
Proof.
  rewrite start_inbound_exact. pose proof (parseHostPort_result (in_listen ic)) as Hr.
  destruct (parseHostPort (in_listen ic)) as [a|st|]; [|done..]. cbn [mbind res_bind].
  destruct (listen_endpoint a) as [real|]; [|done]. unfold open_acceptor, check_ec.
  by destruct (sys_open _ _), (sys_bind _ _), (sys_listen _ _).
Qed.
End StartFacts.
