(* ===== verification/Outbounds.v ===== *)
(** * Handling a request (src/outbound/factory.cpp, [handle] of the five outbounds)

    [makeOutbound] chooses the class; each class's [handle] is followed up to the
    point where the streams are relayed (Pipe.v, Datagram.v say what happens
    then).  What the coroutine awaits, the resolver, the connection, the server's
    bytes and the shine link, is given with the result it completes with. *)
From S2P Require Import Prelude Absl Address Request Channel Socket Session Config Router Socks5 HttpConnect Pipe ShinePool.
From Stdlib Require Import Strings.Byte.

Inductive OutboundKind := DirectOutbound | BlockOutbound | ShineOutboundKind | Socks5Outbound | HttpConnectOutbound.

Definition makeOutbound (cfg : OutboundConfig) : res OutboundKind :=
  if decide (out_protocol cfg = lit "direct") then Ok DirectOutbound
  else if decide (out_protocol cfg = lit "block") then Ok BlockOutbound
  else if decide (out_protocol cfg = lit "shine-client") then Ok ShineOutboundKind
  else if decide (out_protocol cfg = lit "socks5") then Ok Socks5Outbound
  else if decide (out_protocol cfg = lit "http-connect") then Ok HttpConnectOutbound
  else Err (InvalidArgumentError (lit "unknown outbound protocol: " ++ out_protocol cfg)).

(** ** The parts of [handle] *)

(** Which streams came with the request. *)
Record Client := mkClient { client_stream : bool; client_datagram_stream : bool }.

(** What [handle] ends in: the client's stream copied to a socket or to a
    session, datagrams relayed through a socket or a session, a dropped client. *)
Inductive Handled := RelayTcp (ep : Endpoint) | RelaySession | RelayUdp | RelayUdpSession | Dropped.

(** [bidiCopy(req.client_stream, remote_stream)]: through the client's pointer. *)
Definition bidi_copy (cl : Client) (h : Handled) : res Handled :=
  if client_stream cl then Ok h else UB.

(** What a shine outbound finds: [stopping_], the link [pickOrMakeLink] returns
    with the results of [waitHandshake] and of [openSession] on it. *)
Record ShineSide := mkShineSide {
  sh_stopping : bool;
  sh_link : option (bool * res unit);
}.

Section Handle.
Context `{AbslOps, BoostIp, MakeAddress, ReadUntil, Base64}.

(** [DirectOutbound::handleUdp] up to its loops; [bound] is the result of
    opening and binding the socket. *)
Definition DirectOutbound_handleUdp (bound : res unit) (cl : Client) : res Handled :=
  if negb (client_datagram_stream cl) then Err (InvalidArgumentError (lit "no client udp stream"))
  else _ ← bound; Ok RelayUdp.

Definition DirectOutbound_handle (net : Network) (bound : res unit) (q : Request) (cl : Client) : res Handled :=
  if decide (req_protocol q = UDP) then DirectOutbound_handleUdp bound cl
  else
    ep ← resolveOne (net_resolve net) (req_target q);
    match net_connect net ep with
    | Some msg => Err (UnavailableError msg)
    | None => bidi_copy cl (RelayTcp ep)
    end.

(** [Socks5Outbound::handle]; [peer] is the server connected to. *)
Definition Socks5Outbound_handle (net : Network) (peer : Peer) (cfg : OutboundConfig) (q : Request) (cl : Client) : res Handled :=
  ep ← connect_server net (out_server cfg);
  _ ← fst (socks5_connect cfg (req_target q) peer);
  bidi_copy cl (RelayTcp ep).

(** [HttpConnectOutbound::handle] *)
Definition HttpConnectOutbound_handle (net : Network) (peer : Peer) (cfg : OutboundConfig) (q : Request) (cl : Client) : res Handled :=
  ep ← connect_server net (out_server cfg);
  _ ← fst (http_connect cfg (req_target q) peer);
  bidi_copy cl (RelayTcp ep).

(** [ShineOutbound::handle] *)
Definition ShineOutbound_handle (side : ShineSide) (q : Request) (cl : Client) : res Handled :=
  if sh_stopping side then Err (UnavailableError (lit "stopped"))
  else match sh_link side with
  | None => Err (UnavailableError (lit "no live link"))
  | Some (ok, session) =>
      if negb ok then Err (UnavailableError (lit "shine link handshake failed"))
      else
        _ ← session;
        if decide (req_protocol q = UDP) then
          if negb (client_datagram_stream cl) then Err (InvalidArgumentError (lit "no client udp stream"))
          else Ok RelayUdpSession
        else bidi_copy cl RelaySession
  end.

(** [it->second->handle(req)], a virtual call. *)
Definition handle (net : Network) (peer : Peer) (bound : res unit) (side : ShineSide)
    (k : OutboundKind) (cfg : OutboundConfig) (q : Request) (cl : Client) : res Handled :=
  match k with
  | DirectOutbound => DirectOutbound_handle net bound q cl
  | BlockOutbound => Ok Dropped
  | ShineOutboundKind => ShineOutbound_handle side q cl
  | Socks5Outbound => Socks5Outbound_handle net peer cfg q cl
  | HttpConnectOutbound => HttpConnectOutbound_handle net peer cfg q cl
  end.
End Handle.

(** [BlockOutbound::handle] on the client's stream. *)
Definition block_handle `{SessionStream T} (client : option T) : option T :=
  option_map (fun s => ss_close (ss_shutdownWrite s)) client.

(** ** Handling without undefined behaviour *)

Section HandleFacts.
Context `{AbslOps, !AbslSpec, BoostIp, !BoostIpSpec, MakeAddress, !MakeAddressSpec, ReadUntil, Base64}.

Lemma connect_server_defined net server : connect_server net server <> UB.
Proof.
  unfold connect_server. pose proof (parseHostPort_result server) as Hr.
  destruct (parseHostPort server) as [a| |]; [|done|done]. cbn [mbind res_bind].
  pose proof (resolveOne_defined (net_resolve net) a (proj1 Hr)) as Hd.
  destruct (resolveOne (net_resolve net) a) as [ep| |]; [|done|done]. cbn [mbind res_bind]. by destruct (net_connect net ep).
Qed.

Lemma socks5_connect_safe cfg t : io_safe (socks5_connect cfg t).
Proof.
  unfold socks5_connect, authenticate_out, reply_extra.
  repeat first [apply io_safe_byte | case_match | apply io_safe_bind; [|intros ?]]; auto with io_safe.
Qed.

Lemma upstream_ub (m : res Endpoint) (n : res unit) cl :
  m <> UB -> n <> UB ->
  (ep ← m; _ ← n; bidi_copy cl (RelayTcp ep)) = UB <-> (exists ep, m = Ok ep) /\ n = Ok tt /\ client_stream cl = false.
Proof.
  intros Hm Hn. destruct m as [ep|st|]; [|split; [done|by intros ((? & ?) & _)]|done].
  destruct n as [[]|st|]; [|split; [done|by intros (_ & ? & _)]|done].
  cbn. unfold bidi_copy. destruct (client_stream cl); (split; [|by intros (_ & _ & ?)]); [done|]. eauto.
Qed.

Lemma http_connect_safe cfg t : io_safe (http_connect cfg t).
Proof.
  unfold http_connect. apply io_safe_bind; [apply io_safe_write|intros _].
  apply io_safe_bind; [|intros sb; by destruct (occursb _ _)].
  intros p. unfold read_header. by destruct (async_read_until _ _) as [[??]|].
Qed.

(** A shine outbound never touches a null stream when the request brought the
    one of its protocol. *)
Lemma shine_handle_defined side q cl :
  (forall ok session, sh_link side = Some (ok, session) -> session <> UB) ->
  (req_protocol q = TCP -> client_stream cl = true) -> ShineOutbound_handle side q cl <> UB.
Proof.
  intros Hs Hc. unfold ShineOutbound_handle, bidi_copy. destruct (sh_stopping side); [done|].
  destruct (sh_link side) as [[ok session]|]; [|done]. specialize (Hs _ _ eq_refl). destruct ok; [|done].
  destruct session as [u|st|]; [|done..]. cbn. destruct (req_protocol q); cbn.
  - by rewrite decide_False, Hc.
  - rewrite decide_True by done. by destruct (client_datagram_stream cl).
Qed.
End HandleFacts.

(** ** Properties *)

Section HandleProperties.
Context `{AbslOps, !AbslSpec, BoostIp, !BoostIpSpec, MakeAddress, !MakeAddressSpec, ReadUntil, !ReadUntilSpec, Base64}.

(** Handling is defined except for one combination: a UDP request, which
    comes with a datagram stream and no byte stream, given to a socks5 or an
    http-connect outbound.  There [handle] connects to the server, completes the
    handshake for a TCP connection and relays through a null client stream. *)
Theorem handle_null_stream net peer bound side k cfg q cl :
  Address.addr_wf (req_target q) -> bound <> UB ->
  (forall ok session, sh_link side = Some (ok, session) -> session <> UB) ->
  match req_protocol q with
  | TCP => client_stream cl = true
  | UDP => client_stream cl = false /\ client_datagram_stream cl = true
  end ->
  handle net peer bound side k cfg q cl = UB <->
  req_protocol q = UDP /\ (exists ep, connect_server net (out_server cfg) = Ok ep) /\
  ((k = Socks5Outbound /\ fst (socks5_connect cfg (req_target q) peer) = Ok tt) \/
   (k = HttpConnectOutbound /\ fst (http_connect cfg (req_target q) peer) = Ok tt)).
Proof.
  intros Hwf Hb Hl Hcl. pose proof (resolveOne_defined (net_resolve net) _ Hwf) as Hres.
  pose proof (connect_server_defined net (out_server cfg)) as Hcs.
  pose proof (socks5_connect_safe cfg (req_target q) peer) as Hs. pose proof (http_connect_safe cfg (req_target q) peer) as Hh.
  destruct k; unfold handle.
  1, 2, 3: split; [intros E; exfalso; revert E|by intros (_ & _ & [[? _]|[? _]])].
  - unfold DirectOutbound_handle, DirectOutbound_handleUdp, bidi_copy. destruct (req_protocol q).
    + rewrite decide_False by done. destruct (resolveOne _ _); [|done|done]. cbn [mbind res_bind].
      rewrite Hcl. by destruct (net_connect net _).
    + destruct Hcl as [_ ->]. rewrite decide_True by done. cbn. by destruct bound.
  - done.
  - apply shine_handle_defined; [done|]. intros Hp. by rewrite Hp in Hcl.
  - unfold Socks5Outbound_handle. rewrite upstream_ub by done.
    destruct (req_protocol q); [split; [intros (_ & _ & ?); congruence|by intros (? & _)]|].
    destruct Hcl as [-> _]. naive_solver.
  - unfold HttpConnectOutbound_handle. rewrite upstream_ub by done.
    destruct (req_protocol q); [split; [intros (_ & _ & ?); congruence|by intros (? & _)]|].
    destruct Hcl as [-> _]. naive_solver.
Qed.
End HandleProperties.

(** ** Witnesses *)

#[local] Existing Instance reference_absl.
#[local] Existing Instance full_form_boost.
#[local] Existing Instance reference_make_address.
#[local] Existing Instance reference_make_address_spec.
#[local] Existing Instance reference_read_until.
#[local] Existing Instance reference_read_until_spec.
#[local] Instance plain_base64 : Base64 := fun s => s.

(** A socks5 server that takes everything. *)
Definition agreeable : Peer := peer_of ([x05; x00] ++ [x05; x00; x00; x01; x00; x00; x00; x00; x00; x00]) [].
Definition udp_request : Request := mkRequest (lit "in") (lit "socks5") UDP (fromIPv4 [x08; x08; x08; x08] 53).

Definition open_link : ShineSide := mkShineSide false (Some (true, Ok tt)).

Lemma handle_null_stream_witness :
  handle sample_net agreeable (Ok tt) open_link Socks5Outbound (Socks5.sample_out (lit "user")) udp_request (mkClient false true) = UB.
Proof.
  apply (handle_null_stream sample_net agreeable (Ok tt) open_link Socks5Outbound (Socks5.sample_out (lit "user")) udp_request
    (mkClient false true)); [by vm_compute|done|by intros ? ? [= <- <-]|done|].
  split; [done|]. split; [eexists; by vm_compute|]. left. split; [done|by vm_compute].
Defined.
