(* ===== verification/EndToEnd.v ===== *)
(** * From a client's request to the target's socket

    The chain the program is made of, put together: the SOCKS5 conversation of
    the near process ([Socks5.handleClient]), the session its shine outbound
    opens ([Link.openSession]), the NEW frame that the far link's reader
    dispatches ([Link.dispatchFrame]) and the request its handler makes
    ([ShinePool.on_new_session]), the direct outbound that connects
    ([Outbounds.DirectOutbound_handle]), and the two relays ([Tunnel]). *)
From stdpp Require Import gmap relations.
From S2P Require Import Prelude Absl HttpConnect Buffer Resp2 ShineFrame Address Request Channel Socket Session Link LinkReader Config Socks5 Pipe Tunnel ShinePool Outbounds.
From Stdlib Require Import Strings.Byte.

Section Opening.
Context `{AbslOps, !AbslSpec} {C : Type -> Type} `{ChannelOps C}.
Implicit Types L : Link C.

Lemma toBinary_length a : addr_wf a -> zlen (toBinary a) <= 259.
Proof.
  intros (_ & Hb & _). unfold toBinary. rewrite (proj1 (bin_body_spec a Hb)), !zlen_app.
  assert (zlen (bin_body a) <= 255); [|unfold zlen in *; cbn [length]; lia].
  unfold bin_body, zlen. destruct (type_ a); rewrite ?length_take, ?Hb; lia.
Qed.

(** Every peer whose parser takes bulk strings of 512 bytes takes a NEW frame. *)
Lemma new_accepted m sid target w :
  512 <= m -> 0 <= sid < 2 ^ 64 -> 0 <= w < 2 ^ 32 -> addr_wf target -> frame_accepted m (NewFrame sid (toBinary target) w).
Proof.
  intros Hm Hs Hw Ha. pose proof (toBinary_length target Ha) as Hl. unfold frame_accepted. split; [done|].
  assert (forall k, 512 <= k -> value_fits k (frame_value (NewFrame sid (toBinary target) w))) as Hf.
  { intros k Hk. cbn [frame_value value_fits]. split; [done|]. unfold INT64_MAX.
    repeat (apply Forall_cons; split; [|]); try apply Forall_nil; try done; try lia;
      change (zlen (putU64BE [] sid)) with 8; change (zlen (putU32BE [] w)) with 4; change (zlen (lit "NEW")) with 3; lia. }
  split; apply Hf; [done|]. unfold INT64_MAX. lia.
Qed.

(** The session that a NEW frame makes on each link. *)
Definition opened (sid : Z) (target : Address) (pw ow : Z) (L : Link C) (p : nat) : Prop :=
  heap_ L !! p = Some (Session_new sid target pw ow TCP) /\ sessions_ L !! sid = Some p.

Lemma draw_nonzero_spec draws sid rest :
  draw_nonzero draws = Some (sid, rest) -> sid <> 0 /\ sid ∈ draws.
Proof.
  induction draws as [|v draws IH]; cbn [draw_nonzero]; [done|]. destruct (Z.eqb_spec v 0) as [->|Hv].
  - intros E. destruct (IH E). split; [done|by right].
  - intros [= -> ->]. split; [done|by left].
Qed.

Lemma openSession_tcp draws target L p L' :
  openSession draws target false L = Some (Ok p, L') ->
  exists sid, sid <> 0 /\ sid ∈ draws /\
    (sessions_ L !! sid = None -> opened sid target (init_window (opts_ L)) (init_window (opts_ L)) L' p) /\
    write_chan_ L' = ch_async_send (encodeFrame [] (NewFrame sid (toBinary target) (init_window (opts_ L)))) (write_chan_ L).
Proof.
  unfold openSession. destruct (closed_ L) eqn:Ec; [done|]. destruct (draw_nonzero draws) as [[sid rest]|] eqn:Ed; [|done].
  cbn [new_session]. intros [= <- <-]. destruct (draw_nonzero_spec _ _ _ Ed) as [Hz Hin].
  exists sid. split; [done|]. split; [done|]. unfold opened, enqueueFrame, emplace. cbn. rewrite Ec. cbn. split; [|done].
  intros ->. split; [by rewrite lookup_app_r, Nat.sub_diag by lia|by rewrite lookup_insert_eq].
Qed.

Lemma dispatch_new now sid target win L :
  closed_ L = false -> on_new_session_ L = true -> addr_wf target -> addr_encodable target ->
  let L' := dispatchFrame now (NewFrame sid (toBinary target) win) L in
  (sessions_ L !! sid = None -> opened sid target win (init_window (opts_ L)) L' (length (heap_ L))) /\
  spawned_ L' = spawned_ L ++ [(length (heap_ L), target)] /\
  write_chan_ L' = ch_async_send (encodeFrame [] (AckFrame sid)) (write_chan_ L).
Proof.
  intros Hc Hh Hwf He. cbn [dispatchFrame]. rewrite Hh. cbn [negb].
  rewrite <- (app_nil_r (toBinary target)), parse_toBinary_encodable by done.
  unfold acceptSession, opened, enqueueFrame, emplace. cbn. rewrite Hc. cbn. split; [|done].
  intros ->. split; [by rewrite lookup_app_r, Nat.sub_diag by lia|by rewrite lookup_insert_eq].
Qed.
End Opening.

(** ** Property *)

(** The client's stream after the handshake: the rest of its socket; [te] is how
    its stream ends, [ws] how writes to it end. *)
Definition client_tcp (p : Peer) (te : PeerEnd) (ws : list PutResult) : TcpSocketStream :=
  mkTcp (p_sock p) te ws [] false false.

Section EndToEnd.
Context `{AbslOps, !AbslSpec, BoostIp, ReadUntil, Base64} {C : Type -> Type} `{ChannelSpec C}.
Implicit Types L : Link C.

(** C4. A CONNECT request travels to its target, and its bytes after it.  A
    client that speaks SOCKS5 to the near process and asks for an address of at
    most 255 characters is taken up with exactly that address; the session the
    near link opens for it and the one the far link makes from its NEW frame are
    the two ends of a tunnel, under one id, each with the credit the other side
    granted; the far process's request is for the same address, and its direct
    outbound connects to the endpoint that address resolves to; and from there,
    in every reachable state, the target has been sent a prefix of what the
    client sent behind its request and the client a prefix of what the target
    sent. *)
Theorem request_reaches_target cfgI udp_bind methods rsv target payload spl te ws
    draws (Lc Lc' Ls : Link C) p cfg2 oc now net peer bound side ep remote mn mf :
  1 <= zlen methods <= 255 -> wanted cfgI ∈ methods -> creds_ok cfgI -> Address.addr_wf target -> addr_encodable target ->
  openSession draws target false Lc = Some (Ok p, Lc') -> Forall (fun v => 0 <= v < 2 ^ 64) draws ->
  0 <= init_window (opts_ Lc) < 2 ^ 32 -> 0 <= init_window (opts_ Ls) < 2 ^ 32 ->
  closed_ Ls = false -> on_new_session_ Ls = true -> 512 <= max_payload (opts_ Ls) ->
  (forall v, v ∈ draws -> sessions_ Lc !! v = None /\ sessions_ Ls !! v = None) ->
  resolveOne (net_resolve net) target = Ok ep -> net_connect net ep = None ->
  t_out remote = [] -> 0 <= mn < 2 ^ 32 -> 0 <= mf < 2 ^ 32 ->
  exists client sid,
    let T0 := tunnel_init (C := C) sid target (init_window (opts_ Lc)) (init_window (opts_ Ls)) mn mf (client_tcp client te ws) remote in
    let new := NewFrame sid (toBinary target) (init_window (opts_ Lc)) in
    let Ls' := dispatchFrame now new Ls in
    (handleClient cfgI udp_bind (peer_of (client_hello methods ++ auth_part cfgI ++ client_request x01 rsv target ++ payload) spl)
       = (Ok (AcceptConnect (mkRequest (in_tag cfgI) (in_protocol cfgI) TCP target)), client) /\
     stream (p_sock client) = payload) /\
    (heap_ Lc' !! p = Some (se_session (b_b (near T0))) /\ sessions_ Lc' !! sid = Some p /\
     write_chan_ Lc' = ch_async_send (encodeFrame [] new) (write_chan_ Lc) /\ frame_accepted (max_payload (opts_ Ls)) new) /\
    (exists q, heap_ Ls' !! q = Some (se_session (b_a (far T0))) /\ sessions_ Ls' !! sid = Some q /\
     spawned_ Ls' = spawned_ Ls ++ [(q, target)]) /\
    (let q2 := mkRequest (in_tag cfg2) (in_protocol cfg2) TCP target in
     on_new_session cfg2 (b_a (far T0)) target = Some (Some (q2, inl (b_a (far T0)))) /\
     handle net peer bound side DirectOutbound oc q2 (mkClient true false) = Ok (RelayTcp ep)) /\
    (forall T, rtc tunnel_step T0 T ->
       exists rest rest', payload = t_out (b_b (far T)) ++ rest /\ stream (t_sock remote) = t_out (b_a (near T)) ++ rest').
Proof.
  intros Hms Hin Hcr Hwf Henc Hopen Hdr Hwn Hws Hcl Hhan Hmax Hfresh Hres Hcon Hout Hmn Hmf.
  assert (Socks5.wire_ok target) as Hw by (split; [done|]; intros Hd; specialize (Henc Hd); lia).
  destruct (openSession_tcp _ _ _ _ _ Hopen) as (sid & _ & Hsid & Hnear & Hnew).
  destruct (Hfresh sid Hsid) as [Hf1 Hf2]. destruct (Hnear Hf1) as [Hh1 Hs1].
  rewrite Forall_forall in Hdr. pose proof (Hdr sid Hsid) as Hrange.
  destruct (dispatch_new now sid target (init_window (opts_ Lc)) Ls Hcl Hhan Hwf Henc) as (Hfar & Hsp & _).
  destruct (Hfar Hf2) as [Hh2 Hs2].
  set (client := mkPeer (mkSock payload spl) [] (server_flight cfgI ++ rep_connected)).
  exists client, sid. cbv zeta. split; [split; [|done]|].
  { apply (handleClient_complete cfgI udp_bind _ _ _ methods x01 rsv target rep_connected); [done..|by left|].
    apply exchange_new. exists payload. by rewrite <- !app_assoc. }
  split; [split; [done|]; split; [done|]; split; [done|]; by apply new_accepted|].
  split; [eexists; split; [done|]; split; done|].
  split; [split; [done|]; cbn [handle]; unfold DirectOutbound_handle; cbn; rewrite decide_False, Hres by done; cbn; by rewrite Hcon|].
  intros T Hr. destruct (tunnel_accounted _ _ _ _ _ _ (client_tcp client te ws) _ _ Hrange Hwn Hws Hmn Hmf eq_refl Hout Hr)
    as [(? & ? & ? & ? & _ & E1 & _) (? & ? & ? & ? & _ & E2 & _)].
  eexists _, _. split; [exact E1|exact E2].
Qed.
End EndToEnd.

(** ** Witness *)

#[local] Existing Instance reference_absl.
#[local] Existing Instance full_form_boost.
#[local] Existing Instance reference_read_until.
#[local] Instance plain_base64 : Base64 := fun s => s.

(** Name resolution that knows one address, and two links after the handshake. *)
Definition one_host : Endpoint := mkEndpoint [x5d; xb8; xd8; x22] 443.
Definition one_net : Network := mkNetwork (fun _ _ => inl [one_host]) (fun _ => None).
Definition demo_link : Link fifo := start true 0 (set_handshake true (ch_make 1) (Link_new sample_opts)).
Definition demo_opened : Link fifo := match openSession [0; 7] sample_target false demo_link with Some (_, L) => L | None => demo_link end.

Lemma request_reaches_target_witness :
  exists client, handleClient sample_in None
      (peer_of (client_hello [x02] ++ auth_part sample_in ++ client_request x01 x00 sample_target ++ lit "hello") [3])
    = (Ok (AcceptConnect (mkRequest (in_tag sample_in) (in_protocol sample_in) TCP sample_target)), client) /\
    handle one_net (peer_of [] []) (Ok tt) open_link DirectOutbound (sample_out []) (mkRequest (lit "srv") (lit "shine") TCP sample_target)
      (mkClient true false) = Ok (RelayTcp one_host).
Proof.
  destruct (request_reaches_target sample_in None [x02] x00 sample_target (lit "hello") [3] PeerCloses [] [0; 7] demo_link demo_opened demo_link
    0 sample_server_cfg (sample_out []) 5 one_net (peer_of [] []) (Ok tt) open_link one_host (sample_tcp [] [] []) 4096 4096)
    as (client & sid & (Hc & _) & _ & _ & (_ & Hh) & _);
    [done|by vm_compute; left|by vm_compute|by vm_compute|by vm_compute|reflexivity|by repeat constructor|done|done|reflexivity|reflexivity|done| |reflexivity|reflexivity|reflexivity|done|done|].
  - intros v _. split; apply lookup_empty.
  - exists client. split; [exact Hc|exact Hh].
Defined.
