(* ===== verification/LinkRun.v ===== *)
(** * A link from its first byte

    [Link::start] spawns one coroutine that shakes hands and then reads until the
    link closes ([Link.run_link]).  LinkReader.v has its two halves; here they
    are run one after the other on one byte stream, which the network may split
    anywhere, across the end of the handshake too.  [Running] is the reader after
    the handshake among the other coroutines of its link, which may leave it
    suspended in sending an answer or in the inbox of a session. *)
From stdpp Require Import gmap relations.
From S2P Require Import Prelude Absl Buffer Resp2 ShineFrame Address Request Channel Socket Session Link LinkReader Multiplex Stall EndToEnd.
From Stdlib Require Import Strings.Byte.

Section Run.
Context `{AbslOps, !AbslSpec} {C : Type -> Type} `{ChannelSpec C}.
Implicit Types L : Link C.

(** What a link sends in its handshake, and what it waits for. *)
Definition own_flight (opts : LinkOptions) : list bytes :=
  if is_server opts then server_flight (password opts) else client_flight (password opts).
Definition peer_flight (opts : LinkOptions) : list bytes :=
  if is_server opts then client_flight (password opts) else server_flight (password opts).

(** [handshake_done_] is stored and whoever waits for it is woken. *)
Definition announce_ready L : Link C :=
  set_handshake true (ch_close (ch_try_send tt (handshake_signal_ L))) L.

(** A link whose handshake is over, before its first frame. *)
Definition established (opts : LinkOptions) (handler : bool) L : Prop :=
  opts_ L = opts /\ closed_ L = false /\ handshake_done_ L = true /\ on_new_session_ L = handler /\
  sessions_ L = ∅ /\ heap_ L = [] /\ spawned_ L = [] /\
  ch_closed (write_chan_ L) = false /\ ch_queue (write_chan_ L) = own_flight opts /\
  ch_bound (write_chan_ L) = 1024.

Definition started (opts : LinkOptions) (handler : bool) (t0 : Z) : Link C := start handler t0 (Link_new opts).

Lemma started_fresh opts handler t0 : fresh_link (started opts handler t0).
Proof. apply Link_new_ready. Qed.

Lemma shaken_established opts handler t0 L q :
  shaken (started opts handler t0) L (own_flight opts) q ->
  established opts handler (announce_ready L) /\ rb_inv (read_buf_ (announce_ready L)) q.
Proof.
  intros (rb & c & -> & Hrb & Hc & Hq & Hb). cbn in Hb. rewrite make_bound in Hb by lia. done.
Qed.

(** Either role completes on the other's flight and leaves what follows unread. *)
Lemma handshake_completes opts handler t0 rest splits fuel :
  let s := concat (peer_flight opts) ++ rest in
  8 <= max_payload opts -> zlen (password opts) <= max_payload opts -> zlen s < 2 ^ 56 -> (length s < fuel)%nat ->
  exists L q sk, (if is_server opts then handshakeServer fuel (started opts handler t0) (mkSock s splits)
                  else handshakeClient fuel (started opts handler t0) (mkSock s splits)) = Some (Ok (L, sk)) /\
    shaken (started opts handler t0) L (own_flight opts) q /\ q ++ stream sk = rest /\ (length (stream sk) <= length s)%nat.
Proof.
  intros s Hm Hpw Hs Hf. pose proof (started_fresh opts handler t0) as Hfr. unfold own_flight, peer_flight in *.
  destruct (is_server opts).
  - by apply (server_completes (started opts handler t0) (mkSock s splits) rest).
  - by apply (client_completes (started opts handler t0) (mkSock s splits) rest).
Qed.

Lemma run_link_handshake fuel now L (sk : Sock) L1 sk1 :
  (if is_server (opts_ L) then handshakeServer fuel L sk else handshakeClient fuel L sk) = Some (Ok (L1, sk1)) ->
  run_link fuel now L sk = if closed_ L1 then Some (Ok (L1, sk1)) else readerLoop fuel now (announce_ready L1) sk1.
Proof. intros E. unfold run_link. by rewrite E. Qed.

Lemma run_link_frames now opts handler t0 fs splits fuel :
  let s := concat (peer_flight opts) ++ frames_bytes fs in
  8 <= max_payload opts -> zlen (password opts) <= max_payload opts ->
  Forall (frame_accepted (max_payload opts)) fs -> zlen s < 2 ^ 56 -> (length s + length fs < fuel)%nat ->
  (forall L1, established opts handler L1 -> unsuspended now fs L1) ->
  exists L1 rb sk', established opts handler L1 /\ stream sk' = [] /\
    run_link fuel now (started opts handler t0) (mkSock s splits)
    = Some (Ok (set_read_buf rb (failLink (dispatch_all now fs L1)), sk')).
Proof.
  intros s Hm Hpw Hfs Hs Hf Hun. unfold s in *. clear s.
  destruct (handshake_completes opts handler t0 (frames_bytes fs) splits fuel Hm Hpw Hs) as (L & q & sk & E & Hsh & Hq & Hn);
    [lia|].
  destruct (shaken_established opts handler t0 L q Hsh) as [He Hrb]. pose proof He as (Ho & Hcl & _).
  exists (announce_ready L). destruct (reader_loop_frames now fuel (announce_ready L) sk fs q) as (rb & sk' & Es & Er);
    [done|done|by rewrite Ho|done| |lia|by apply Hun|].
  { rewrite Hq. rewrite zlen_app in Hs. pose proof (zlen_nonneg (concat (peer_flight opts))). lia. }
  exists rb, sk'. split; [done|]. split; [done|]. rewrite (run_link_handshake _ _ _ _ _ _ E).
  change (closed_ (announce_ready L)) with (closed_ L) in Hcl. by rewrite Hcl.
Qed.

(** A link that fails in its handshake has no session. *)
Lemma failed_early opts handler t0 L out q :
  shaken (started opts handler t0) L out q ->
  closed_ (failLink L) = true /\ sessions_ (failLink L) = ∅ /\ heap_ (failLink L) = [] /\ spawned_ (failLink L) = [].
Proof.
  intros (rb & c & -> & _). unfold failLink, reset_all. cbn. by rewrite map_to_list_empty.
Qed.

(** What the handshake makes of an arbitrary stream. *)
Definition shake (opts : LinkOptions) (fuel : nat) L (sk : Sock) : option (res (Link C * Sock)) :=
  if is_server opts then handshakeServer fuel L sk else handshakeClient fuel L sk.

Lemma shake_outcome opts handler t0 s splits fuel :
  zlen s < 2 ^ 56 -> (length s < fuel)%nat ->
  shaken_or_failed (started opts handler t0) (mkSock s splits)
    (is_server opts = true -> password opts <> [] -> authenticates (max_payload opts) (password opts) s)
    (shake opts fuel (started opts handler t0) (mkSock s splits)).
Proof.
  intros Hs Hf. pose proof (started_fresh opts handler t0) as Hfr. unfold shake. destruct (is_server opts).
  - destruct (server_outcome _ (mkSock s splits) fuel Hfr Hs ltac:(cbn; lia)) as (L1 & sk1 & E & Hc). exists L1, sk1.
    split; [done|]. destruct Hc as [|(out & q & ? & ? & ? & ? & ?)]; [by left|right]. by exists out, q.
  - destruct (client_outcome _ (mkSock s splits) fuel Hfr Hs ltac:(cbn; lia)) as (L1 & sk1 & E & Hc). exists L1, sk1.
    split; [done|]. destruct Hc as [|(out & q & ? & ? & ? & ? & _)]; [by left|right]. by exists out, q.
Qed.

(** The whole coroutine on an arbitrary stream: it fails in the handshake, or
    reads on from where the handshake stopped. *)
Lemma run_link_total now opts handler t0 s splits fuel :
  zlen s < 2 ^ 56 -> (2 * length s < fuel)%nat ->
  exists L' sk', run_link fuel now (started opts handler t0) (mkSock s splits) = Some (Ok (L', sk')) /\ reader_stopped L' /\
    ((sessions_ L' = ∅ /\ heap_ L' = [] /\ spawned_ L' = []) \/
     (is_server opts = true -> password opts <> [] -> authenticates (max_payload opts) (password opts) s)).
Proof.
  intros Hs Hf. destruct (shake_outcome opts handler t0 s splits fuel Hs ltac:(lia)) as (L1 & sk1 & E & Hc).
  rewrite (run_link_handshake _ _ _ _ _ _ E). destruct Hc as [(L0 & out & q & Hsh & ->)|(out & q & Hsh & _ & Hz & Hn & HP)].
  - destruct (failed_early _ _ _ _ _ _ Hsh) as (-> & ?). eexists _, _. split; [done|]. split; [left|by left].
    by destruct (failed_early _ _ _ _ _ _ Hsh).
  - destruct (shaken_fields _ _ _ _ Hsh) as (_ & Hcl & Hrb & _). rewrite Hcl. cbn [closed_ started start set_handler set_ping Link_new].
    cbn [stream] in Hz, Hn. rewrite zlen_app in Hz.
    destruct (reader_loop_total now fuel (announce_ready L1) sk1 q) as (L' & sk' & E' & Hc'); [done|done| | |].
    + rewrite zlen_app. lia.
    + unfold zlen in Hz. lia.
    + exists L', sk'. split; [done|]. split; [done|]. by right.
Qed.

(** ** DATA frames of one session *)

Lemma onData_queue (p : bytes) (s : Session C) c :
  inbox_ s = Some c -> ch_closed c = false ->
  exists c', inbox_ (onData (Some p) s) = Some c' /\ ch_closed c' = false /\ zlen (ch_queue c') <= zlen (ch_queue c) + 1.
Proof.
  intros Ei Hc. unfold onData. rewrite Ei. destruct p as [|b p]; [exists c; by repeat split; [..|lia]|].
  eexists. split; [done|]. rewrite send_closed, send_queue, Hc, zlen_app. split; [done|].
  change (zlen [Some (b :: p)]) with 1. lia.
Qed.

(** While they fit the inbox, the frames suspend nobody. *)
Lemma data_unsuspended now sid ps : forall L p (s : Session C) c,
  sessions_ L !! sid = Some p -> heap_ L !! p = Some s -> inbox_ s = Some c -> ch_closed c = false ->
  zlen (ch_queue c) + zlen ps <= 1024 -> unsuspended now (map (DataFrame sid) ps) L.
Proof.
  induction ps as [|d ps IH]; intros L p s c Hp Hs Hi Hc Hn; [done|]. cbn [map unsuspended].
  destruct (onData_queue d s c Hi Hc) as (c' & Hi' & Hc' & Hq'). rewrite zlen_cons in Hn. pose proof (zlen_nonneg ps).
  assert (dispatchFrame now (DataFrame sid d) L = on_session p (onData (Some d)) L) as ->
    by (cbn; unfold findSession; by rewrite Hp).
  assert (heap_ (on_session p (onData (Some d)) L) !! p = Some (onData (Some d) s)) as Hs'
    by (cbn; by rewrite list_lookup_alter_eq, Hs).
  split; [|by apply (IH _ p (onData (Some d) s) c'); [..|lia]].
  unfold dispatch_suspended, waits_on, findSession. rewrite Hp, Hs'. unfold inbox_full. rewrite Hi', Hc'.
  cbn [write_chan_ on_session set_heap negb andb]. rewrite Z.ltb_irrefl. cbn [andb orb].
  rewrite (proj2 (Z.ltb_ge _ _)) by lia. apply andb_false_r.
Qed.

Lemma onData_open (p : bytes) (s : Session C) :
  inbox_open s -> pending (onData (Some p) s) = pending s ++ p /\ inbox_open (onData (Some p) s).
Proof.
  intros (c & Ei & Ec). destruct (stream_ok_data (Some p) s) as [Ho _].
  assert (inbox_open (onData (Some p) s)) as Hop.
  { unfold onData. rewrite Ei. destruct p as [|b p]; [by exists c|]. eexists. split; [done|]. by rewrite send_closed. }
  destruct (Ho Hop) as [_ E]. by split; [symmetry|].
Qed.

Lemma dispatch_data_all now sid ps : forall L p (s : Session C),
  sessions_ L !! sid = Some p -> heap_ L !! p = Some s -> inbox_open s ->
  let L' := dispatch_all now (map (DataFrame sid) ps) L in
  sessions_ L' = sessions_ L /\ spawned_ L' = spawned_ L /\ write_chan_ L' = write_chan_ L /\
  exists s', heap_ L' !! p = Some s' /\ pending s' = pending s ++ concat ps /\ sid_ s' = sid_ s /\ target_ s' = target_ s.
Proof.
  induction ps as [|d ps IH]; intros L p s Hp Hs Ho.
  { cbn. split; [done|]. split; [done|]. split; [done|]. exists s. by rewrite app_nil_r. }
  destruct (onData_open d s Ho) as [E Ho'].
  set (L1 := dispatchFrame now (DataFrame sid d) L).
  assert (L1 = on_session p (onData (Some d)) L) as EL by (unfold L1; cbn; unfold findSession; by rewrite Hp).
  destruct (IH L1 p (onData (Some d) s)) as (E1 & E2 & E3 & s' & E4 & E5 & E6 & E7).
  - by rewrite EL.
  - rewrite EL. cbn. by rewrite list_lookup_alter_eq, Hs.
  - done.
  - cbn [map]. change (dispatch_all now (DataFrame sid d :: map (DataFrame sid) ps) L)
      with (dispatch_all now (map (DataFrame sid) ps) L1).
    split; [by rewrite E1, EL|]. split; [by rewrite E2, EL|]. split; [by rewrite E3, EL|]. exists s'. split; [done|].
    split; [by rewrite E5, E, <- app_assoc|]. rewrite E6, E7. unfold onData. by destruct d, (inbox_ s).
Qed.
End Run.

(** ** Two links *)

Section TwoLinks.
Context `{AbslOps, !AbslSpec} {C : Type -> Type} `{ChannelSpec C}.
Implicit Types L : Link C.

Lemma data_accepted m sid p : 0 <= sid < 2 ^ 64 -> zlen p + 9 <= m -> m <= INT64_MAX -> frame_accepted m (DataFrame sid p).
Proof.
  intros Hs Hp Hm. assert (zlen (kDataMagic :: be64 sid ++ p) = zlen p + 9) as Hl.
  { rewrite zlen_cons, zlen_app. change (zlen (be64 sid)) with 8. lia. }
  split; [done|]. cbn [frame_value value_fits]. rewrite Hl. lia.
Qed.

(** A session of an established link, as [openSession] makes it, and what waits
    to be written after the payloads [ps] were sent on it. *)
Lemma open_and_send opts handler L draws sid more target ps :
  established opts handler L -> draw_nonzero draws = Some (sid, more) ->
  exists p L', openSession draws target false L = Some (Ok p, L') /\
    opened sid target (init_window opts) (init_window opts) L' p /\
    let L2 := enqueue_all (map (encodeData [] sid) ps) L' in
    closed_ L2 = false /\ ch_closed (write_chan_ L2) = false /\
    ch_queue (write_chan_ L2)
      = own_flight opts ++ map (encodeFrame []) (NewFrame sid (toBinary target) (init_window opts) :: map (DataFrame sid) ps).
Proof.
  intros (Ho & Hcl & _ & _ & Hs & Hh & _ & Hch & Hq & _) Hd. unfold openSession. rewrite Hcl, Hd. cbn [new_session].
  eexists _, _. split; [done|]. split.
  { unfold opened, enqueueFrame, emplace. cbn. rewrite Hcl, Hs, lookup_empty. cbn.
    rewrite Ho, Hh. split; [done|by rewrite lookup_insert_eq]. }
  cbv zeta. match goal with |- context [enqueue_all _ ?l] => set (L1 := l) in * end.
  assert (closed_ L1 = false /\ ch_closed (write_chan_ L1) = false /\
          ch_queue (write_chan_ L1) = own_flight opts ++ [encodeFrame [] (NewFrame sid (toBinary target) (init_window opts))]) as (E1 & E2 & E3).
  { unfold L1, enqueueFrame. cbn. rewrite Hcl. cbn. by rewrite send_closed, send_queue, Hch, Hq, Ho. }
  destruct (enqueue_all_queue (map (encodeData [] sid) ps) L1 E1 E2) as (E4 & E5 & E6).
  split; [done|]. split; [done|]. rewrite E6, E3, <- app_assoc. cbn [map app]. by rewrite map_map.
Qed.

(** What the accepting link makes of that. *)
Lemma accept_and_receive now opts L sid target win ps :
  established opts true L -> addr_wf target -> addr_encodable target ->
  let L' := dispatch_all now (NewFrame sid (toBinary target) win :: map (DataFrame sid) ps) L in
  exists q s, sessions_ L' = {[sid := q]} /\ heap_ L' !! q = Some s /\ spawned_ L' = [(q, target)] /\
    sid_ s = sid /\ target_ s = target /\ pending s = concat ps /\
    ch_queue (write_chan_ L') = own_flight opts ++ [encodeAck [] sid].
Proof.
  intros (Ho & Hcl & _ & Hha & Hs & Hh & Hsp & Hch & Hq & _) Hwf He L'.
  destruct (dispatch_new now sid target win L Hcl Hha Hwf He) as (Hop & Hsp' & Hwr).
  set (L1 := dispatchFrame now (NewFrame sid (toBinary target) win) L) in *.
  destruct Hop as [Hs1 Ht1]; [by rewrite Hs|]. rewrite Hh in *. cbn [length] in *.
  assert (inbox_open (Session_new (C := C) sid target win (init_window (opts_ L)) TCP)) as Hin.
  { eexists. split; [done|]. apply make_closed. }
  destruct (dispatch_data_all now sid ps L1 _ _ Ht1 Hs1 Hin) as (E1 & E2 & E3 & s' & E4 & E5 & E6 & E7).
  change L' with (dispatch_all now (map (DataFrame sid) ps) L1). exists 0%nat, s'.
  rewrite E1, E2, E3, E4, E5, E6, E7, Hsp', Hsp, Hwr, send_queue, Hch, Hq, pending_new. split; [|done].
  assert (sessions_ L1 = emplace sid 0%nat (sessions_ L)) as ->.
  { unfold L1. cbn [dispatchFrame]. rewrite Hha. cbn [negb]. rewrite <- (app_nil_r (toBinary target)), parse_toBinary_encodable by done.
    unfold acceptSession, enqueueFrame. cbn. rewrite Hcl, Hh. done. }
  unfold emplace. by rewrite Hs, lookup_empty.
Qed.

Lemma own_flight_short opts : zlen (own_flight opts) <= 2.
Proof. unfold own_flight, client_flight, server_flight. by destruct (is_server opts), (decide _). Qed.

(** Up to 1024 payloads it makes it without being suspended. *)
Lemma accept_unsuspended now opts L sid target win ps :
  established opts true L -> addr_wf target -> addr_encodable target -> zlen ps <= 1024 ->
  unsuspended now (NewFrame sid (toBinary target) win :: map (DataFrame sid) ps) L.
Proof.
  intros (Ho & Hcl & _ & Hha & Hs & Hh & Hsp & Hch & Hq & Hb) Hwf He Hn. cbn [unsuspended].
  destruct (dispatch_new now sid target win L Hcl Hha Hwf He) as (Hop & _ & Hwr).
  set (L1 := dispatchFrame now (NewFrame sid (toBinary target) win) L) in *.
  destruct Hop as [Hs1 Ht1]; [by rewrite Hs|]. split.
  - unfold dispatch_suspended. cbn [waits_on]. rewrite orb_false_r, Hwr, send_bound, send_queue, Hch, Hq, Hb, zlen_app.
    pose proof (own_flight_short opts). change (zlen [encodeFrame [] (AckFrame sid)]) with 1.
    rewrite (proj2 (Z.ltb_ge 1024 _)) by lia. by rewrite !andb_false_r.
  - eapply data_unsuspended; [exact Ht1|exact Hs1|reflexivity|apply make_closed|].
    rewrite make_queue, zlen_nil. lia.
Qed.
End TwoLinks.

(** ** The reader among the other coroutines *)

Section Running.
Context `{AbslOps} {C : Type -> Type} `{ChannelOps C}.
Implicit Types L : Link C.

(** A link with its senders and the wait of its reader, as in Stall.v, and the
    reader: its socket, whether it has returned, and how often it has gone round.
    The frames come from the socket, so [mx_in] stays empty. *)
Record Running := mkRunning { rn_stall : Stall C; rn_sock : Sock; rn_over : bool; rn_turns : nat }.
Definition rn_link (R : Running) : Link C := sl_link (rn_stall R).

Definition running_init L (sk : Sock) : Running := mkRunning (mkStall (mkMux L [] None) []) sk false 0.

(** The reader is neither over nor suspended in a dispatch. *)
Definition reader_free (R : Running) : Prop :=
  rn_over R = false /\ Reader ∉ sl_waiting (rn_stall R) /\ reader_waits (sl_mux (rn_stall R)) = false.

(** ... goes round once, and is suspended when what it dispatched is: it waits
    for the inbox of a session, or among the senders. *)
Definition after_turn (S : Stall C) (t : ReaderTurn) L' : Stall C :=
  mkStall (mkMux L' (mx_in (sl_mux S)) (if t is Dispatched f then waits_on f (sl_link S) else None))
    (after_send Reader (sl_link S) L' (sl_waiting S)).

Inductive running_step (n : nat) (R : Running) : Running -> Prop :=
  | rn_turn now t L' sk' : reader_free R -> reader_iter now (rn_link R) (rn_sock R) = Ok (t, L', sk') ->
      running_step n R (mkRunning (after_turn (rn_stall R) t L') sk' (if t is LoopOver then true else false) (S (rn_turns R)))
  | rn_other S' : stall_step n (rn_stall R) S' -> mx_in (sl_mux S') = mx_in (sl_mux (rn_stall R)) ->
      running_step n R (mkRunning S' (rn_sock R) (rn_over R) (rn_turns R)).
End Running.
Arguments Running : clear implicits.

Section RunningFacts.
Context `{AbslOps, !AbslSpec} {C : Type -> Type} `{ChannelSpec C}.
Implicit Types (L : Link C) (S : Stall C) (R : Running C).

(** Nobody but the reader touches the receive buffer, and a closed link stays
    closed. *)
Definition keeps L L' : Prop :=
  read_buf_ L' = read_buf_ L /\ (closed_ L = true -> closed_ L' = true).

Lemma keeps_enqueue w L : keeps L (enqueueFrame w L).
Proof. unfold enqueueFrame. by destruct (closed_ L) eqn:E; split. Qed.
Lemma keeps_trans L1 L2 L3 : keeps L1 L2 -> keeps L2 L3 -> keeps L1 L3.
Proof. intros [E1 H1'] [E2 H2']. split; [congruence|auto]. Qed.
Lemma keeps_enqueue_all ws : forall L, keeps L (enqueue_all ws L).
Proof.
  unfold enqueue_all. induction ws as [|w ws IH]; intros L; [done|]. cbn [fold_left].
  eapply keeps_trans; [apply keeps_enqueue|apply IH].
Qed.
Lemma keeps_fail L : keeps L (failLink L).
Proof.
  split; [|intros _; apply failLink_closed]. replace L with (set_read_buf (read_buf_ L) L) at 1 by (by destruct L).
  by rewrite failLink_set_read_buf.
Qed.
Lemma keeps_call p (s' : Session C) eff L : keeps L (call_session p s' eff L).
Proof.
  unfold call_session, apply_effects.
  assert (keeps L (enqueue_all (enqueued eff) (set_heap (<[p:=s']> (heap_ L)) L))) as Hk
    by (by apply (keeps_trans _ (set_heap (<[p:=s']> (heap_ L)) L)); [split|apply keeps_enqueue_all]).
  by destruct (erased eff).
Qed.
Lemma keeps_tick now nonce L : keeps L (snd (heartbeat_tick now nonce L)).
Proof.
  unfold heartbeat_tick. destruct (negb _); [done|]. destruct (_ && _); [apply keeps_fail|].
  destruct (_ && _); [|done]. cbn [snd].
  eapply keeps_trans; [|apply keeps_enqueue]. by split.
Qed.
Lemma keeps_write ok L : keeps L (snd (writer_iter ok L)).
Proof.
  unfold writer_iter. destruct (closed_ L) eqn:Ec; [done|].
  destruct (ch_async_receive (write_chan_ L)) as [[msg| |] c]; [|by split; cbn; rewrite ?Ec|done].
  cbv zeta. destruct (bool_decide _); [by split; cbn; rewrite ?Ec|].
  destruct ok; cbn [snd]; [by split; cbn; rewrite ?Ec|]. eapply keeps_trans; [|apply keeps_fail]. by split; cbn; rewrite ?Ec.
Qed.
Lemma keeps_open draws target udp r L L' : openSession draws target udp L = Some (r, L') -> keeps L L'.
Proof.
  unfold openSession. destruct (closed_ L) eqn:Ec; [by intros [= _ <-]|].
  destruct (draw_nonzero draws) as [[sid more]|]; [|done]. cbn [new_session]. intros [= _ <-].
  eapply keeps_trans; [|apply keeps_enqueue]. by split; cbn; rewrite ?Ec.
Qed.

Lemma keeps_close L : keeps L (snd (closeNow L)).
Proof. unfold closeNow. destruct (closed_ L) eqn:E; cbn [snd]; by split. Qed.

Lemma stall_step_keeps n S S' : stall_step n S S' -> keeps (sl_link S) (sl_link S').
Proof.
  unfold sl_link. intros [S1 [f Hf|S2 Hst]|ok L'| | |Hc]; cbn [sl_mux with_link mx_link];
    [by split| |apply keeps_write|apply keeps_fail|apply keeps_close|by split].
  destruct Hst as [now Hw M|now nonce Hw Hc L'|i draws target udp r L' Hin Hw E|i p s Hin Hw Hs L'|i p s s' eff Hin Hw Hs Hcall L'];
    cbn [sl_mux with_link mx_link].
  - unfold M, mux_read. destruct (mx_in (sl_mux S)) as [|f rest]; [by split|]. destruct (_ || _); [by split|].
    destruct (dispatch_fields now f (mx_link (sl_mux S))) as (Ec & _ & Eb). split; cbn [mx_link]; congruence.
  - apply keeps_tick.
  - by eapply keeps_open.
  - apply keeps_enqueue.
  - apply keeps_call.
Qed.

(** A turn of the reader sends at most one frame, or ends with the link. *)
Lemma turn_effect now L sk t L' sk' :
  reader_iter now L sk = Ok (t, L', sk') ->
  (t = LoopOver /\ shrinks L L' /\ closed_ L' = true) \/ (t <> LoopOver /\ sends L L').
Proof.
  assert (forall rb, shrinks L (failLink (set_read_buf rb L))) as Hfail
    by (intros rb; by apply (fail_shrinks (set_read_buf rb L))).
  unfold reader_iter. destruct (closed_ L) eqn:Ec; [intros [= <- <- <-]; left; split; [done|]; split; [by apply shrinks_same|done]|].
  destruct (tryParse _ _ _) as [[sc rf]|e|]; [|intros [= <- <- <-]; left; split; [done|]; split; [apply fail_shrinks|apply failLink_closed]|done].
  destruct (sc =? 0).
  - destruct (sock_read_some _ _) as [d sk1]. destruct (zlen d =? 0);
      [intros [= <- <- <-]; left; split; [done|]; split; [apply Hfail|apply failLink_closed]|].
    destruct (rb_fill _ _) as [rb|e|]; cbn [mbind res_bind]; [|done..]. intros [= <- <- <-]. right. split; [done|]. by apply sends_same.
  - destruct (decodeShineFrame _ _) as [g|e|]; [|intros [= <- <- <-]; left; split; [done|]; split; [apply Hfail|apply failLink_closed]|done].
    intros [= <- <- <-]. right. split; [done|].
    match goal with |- sends L (set_read_buf _ ?x) => change (sends L x) end. apply dispatch_sends.
Qed.

(** Whoever is suspended has a frame beyond the 1024 of the channel. *)
Definition overfull S : Prop :=
  closed_ (sl_link S) = false -> sl_waiting S <> [] -> zlen (wq (sl_link S)) = 1024 + zlen (sl_waiting S).

Lemma overfull_intro M' ws :
  (closed_ (mx_link M') = false -> ws <> [] -> zlen (wq (mx_link M')) = 1024 + zlen ws) -> overfull (mkStall M' ws).
Proof. done. Qed.

Lemma overfull_send n S who M' :
  stall_ok n S -> overfull S -> sends (sl_link S) (mx_link M') ->
  overfull (mkStall M' (after_send who (sl_link S) (mx_link M') (sl_waiting S))).
Proof.
  intros (Hb & _ & _ & Hq & _) Ho (Ec & Eb & _ & Ew). unfold overfull, after_send, sl_link in *. cbn [sl_mux sl_waiting].
  rewrite Ec, Eb, Hb. destruct (closed_ (mx_link (sl_mux S))) eqn:Hc; [done|]. specialize (Hq eq_refl). specialize (Ho eq_refl).
  intros _. destruct Ew as [->|(_ & w & ->)]; [by rewrite Z.ltb_irrefl|]. rewrite zlen_app. change (zlen [w]) with 1.
  rewrite (proj2 (Z.ltb_lt _ _)) by lia. cbn [andb].
  destruct (Z.ltb_spec 1024 (zlen (wq (mx_link (sl_mux S))) + 1)) as [Hlt|Hge].
  - intros _. rewrite zlen_app. change (zlen [who]) with 1. destruct (sl_waiting S) as [|x ws]; [rewrite zlen_nil in *; lia|].
    rewrite Ho by done. lia.
  - intros Hn. rewrite Ho in Hge by done. pose proof (zlen_nonneg (sl_waiting S)). lia.
Qed.

Lemma overfull_write n S ok :
  let L' := snd (writer_iter ok (sl_link S)) in
  stall_ok n S -> overfull S -> overfull (mkStall (with_link S L') (after_write (sl_link S) L' (sl_waiting S))).
Proof.
  intros L' _ Ho. destruct (write_shrinks ok (sl_link S)) as [_ Hw]. fold L' in Hw. unfold after_write.
  apply overfull_intro. cbn [with_link mx_link]. intros Hc'. rewrite Hc'. destruct (Hw Hc') as [Hc Ew].
  specialize (Ho Hc). destruct Ew as [E|[w E]]; rewrite E in *; [rewrite Z.ltb_irrefl; exact Ho|].
  rewrite zlen_cons in *. rewrite (proj2 (Z.ltb_lt _ _)) by lia.
  destruct (sl_waiting S) as [|x ws]; [done|]. cbn [tail]. intros _. rewrite zlen_cons in Ho. specialize (Ho ltac:(done)). lia.
Qed.

Lemma overfull_closed M' ws : closed_ (mx_link M') = true \/ ws = [] -> overfull (mkStall M' ws).
Proof. unfold overfull, sl_link. cbn. intros [E|E] Hc Hn; [congruence|done]. Qed.

Lemma stall_step_overfull n S S' : stall_step n S S' -> stall_ok n S -> overfull S -> overfull S'.
Proof.
  intros [S1 [f Hf|S2 Hst]|ok L'| | |Hc] Hok Ho; [exact Ho| |by apply (overfull_write n)|by apply overfull_closed; right| |by apply overfull_closed; right].
  - destruct Hst as [now Hw M|now nonce Hw Hc L'|i draws target udp r L' Hin Hw E|i p s Hin Hw Hs L'|i p s s' eff Hin Hw Hs Hcall L'].
    + by apply (overfull_send n S Reader M); [..|apply read_sends].
    + destruct (tick_sends now nonce (sl_link S)) as [Hs|Hs]; [by apply (overfull_send n S Heart (with_link S L'))|].
      apply overfull_closed. left. cbn [with_link mx_link]. unfold L'. rewrite Hs. apply failLink_closed.
    + apply (overfull_send n S (Caller i) (with_link S L')); [done..|by eapply open_sends].
    + apply (overfull_send n S (Caller i) (with_link S L')); [done..|by apply sends_enqueue].
    + apply (overfull_send n S (Caller i) (with_link S L')); [done..|by eapply call_sends].
  - apply overfull_closed. left. cbn [with_link mx_link]. unfold closeNow. by destruct (closed_ (sl_link S)) eqn:E.
Qed.

(** ** What holds of the reader at any moment

    [k] is how often it can still have gone round. *)
Definition running_ok (n k : nat) R : Prop :=
  stall_ok n (rn_stall R) /\ overfull (rn_stall R) /\
  (if rn_over R then closed_ (rn_link R) = true /\ (rn_turns R <= k)%nat
   else exists q, rb_inv (read_buf_ (rn_link R)) q /\ zlen (q ++ stream (rn_sock R)) < 2 ^ 56 /\
          (rn_turns R + (2 * length (stream (rn_sock R)) + length q) + 1 <= k)%nat).

Lemma turn_ok n k R now t L' sk' :
  reader_free R -> reader_iter now (rn_link R) (rn_sock R) = Ok (t, L', sk') -> running_ok n k R ->
  running_ok n k (mkRunning (after_turn (rn_stall R) t L') sk' (if t is LoopOver then true else false) (S (rn_turns R))).
Proof.
  intros (Hov & Hw & _) E (Hok & Hfull & Hb). rewrite Hov in Hb. destruct Hb as (q & Hrb & Hz & Hk).
  unfold running_ok. cbn [rn_stall rn_sock rn_over rn_turns]. unfold rn_link in *. cbn [rn_stall].
  destruct (turn_effect _ _ _ _ _ _ E) as [(-> & Hs & Hc)|(Ht & Hs)].
  - split; [|split; [by apply overfull_closed; left|split; [done|lia]]].
    unfold after_turn, after_send. rewrite Hc. by apply (ended_ok n (rn_stall R)).
  - split; [by apply (after_send_ok n (rn_stall R) Reader (mkMux L' _ _)); [..|left]|].
    split; [by apply (overfull_send n (rn_stall R) Reader (mkMux L' _ _))|].
    unfold after_turn, sl_link at 1. cbn [sl_mux mx_link]. destruct (closed_ (sl_link (rn_stall R))) eqn:Hc.
    + unfold reader_iter in E. rewrite Hc in E. by injection E as <-.
    + destruct (reader_iter_total now _ _ q Hc Hrb Hz) as [(L2 & sk2 & E2 & _)|(t2 & L2 & sk2 & q2 & E2 & Ht2 & _ & _ & Hrb2 & Hz2 & Hm)];
        rewrite E in E2; injection E2 as -> -> ->; [done|].
      destruct t2; [..|done]; exists q2; (split; [done|]); (split; [done|lia]).
Qed.

Lemma running_step_ok n k R R' : running_step n R R' -> running_ok n k R -> running_ok n k R'.
Proof.
  intros [now t L' sk' Hfree E|S' Hst _] Hok; [by eapply turn_ok|]. destruct Hok as (Hs & Hf & Hb).
  destruct (stall_step_keeps n _ _ Hst) as [Eb Ec]. unfold running_ok, rn_link in *. cbn [rn_stall rn_sock rn_over rn_turns].
  split; [by eapply stall_step_ok|]. split; [by eapply stall_step_overfull|].
  destruct (rn_over R); [destruct Hb; by split; [apply Ec|]|]. by rewrite Eb.
Qed.

(** What that says. *)
Lemma running_turns n k R : running_ok n k R -> (rn_turns R <= k)%nat.
Proof. intros (_ & _ & Hb). destruct (rn_over R); [apply Hb|]. destruct Hb as (q & _ & _ & ?). lia. Qed.
Lemma running_over n k R : running_ok n k R -> rn_over R = true -> closed_ (rn_link R) = true.
Proof. intros (_ & _ & Hb) E. rewrite E in Hb. apply Hb. Qed.
Lemma running_defined n k R now :
  running_ok n k R -> rn_over R = false -> exists t L' sk', reader_iter now (rn_link R) (rn_sock R) = Ok (t, L', sk').
Proof.
  intros (_ & _ & Hb) E. rewrite E in Hb. destruct Hb as (q & Hrb & Hz & _).
  destruct (closed_ (rn_link R)) eqn:Hc; [unfold reader_iter; rewrite Hc; eauto|].
  destruct (reader_iter_total now _ _ q Hc Hrb Hz) as [(L2 & sk2 & E2 & _)|(t2 & L2 & sk2 & q2 & E2 & _)]; eauto.
Qed.
Lemma running_waits n k R :
  running_ok n k R -> rn_over R = false ->
  reader_free R \/
  (exists p x c, mx_wait (sl_mux (rn_stall R)) = Some p /\ heap_ (rn_link R) !! p = Some x /\
     inbox_ x = Some c /\ ch_closed c = false /\ 1024 < zlen (ch_queue c)) \/
  (Reader ∈ sl_waiting (rn_stall R) /\ (closed_ (rn_link R) = true \/ 1024 < zlen (wq (rn_link R)))).
Proof.
  intros (_ & Hf & _) E. destruct (decide (Reader ∈ sl_waiting (rn_stall R))) as [Hin|Hn].
  - right. right. split; [done|]. unfold rn_link. destruct (closed_ (sl_link (rn_stall R))) eqn:Hc; [by left|right].
    assert (sl_waiting (rn_stall R) <> []) as Hne by (intros E'; by rewrite E' in Hin; apply elem_of_nil in Hin).
    rewrite (Hf Hc Hne). destruct (sl_waiting (rn_stall R)); [done|]. rewrite zlen_cons. pose proof (zlen_nonneg l). lia.
  - destruct (reader_waits (sl_mux (rn_stall R))) eqn:Ew; [|by left]. right. left. unfold reader_waits in Ew.
    destruct (mx_wait (sl_mux (rn_stall R))) as [p|]; [|done]. unfold rn_link, sl_link.
    destruct (heap_ (mx_link (sl_mux (rn_stall R))) !! p) as [x|] eqn:Ex; [|done]. unfold inbox_full in Ew.
    destruct (inbox_ x) as [c|] eqn:Ei; [|done]. apply andb_true_iff in Ew as [Hc Hl]. apply negb_true_iff in Hc.
    exists p, x, c. apply Z.ltb_lt in Hl. done.
Qed.

(** The link and the socket a completed handshake leaves to the reader. *)
Lemma shaken_running_ok n opts handler t0 (s : bytes) L1 (sk1 : Sock) out q :
  shaken (started opts handler t0) L1 out q -> (length out <= 2)%nat -> zlen (q ++ stream sk1) <= zlen s ->
  (length (stream sk1) <= length s)%nat -> zlen s < 2 ^ 56 ->
  running_ok n (2 * length s + 1) (running_init (announce_ready L1) sk1).
Proof.
  intros Hsh Hout Hz Hn Hs. pose proof (shaken_bound _ _ _ _ Hsh) as Hb.
  destruct (shaken_fields _ _ _ _ Hsh) as (_ & Hc & Hrb & _ & Hq). cbn in Hb. rewrite make_bound in Hb by lia.
  unfold running_ok, stall_ok, overfull, rn_link, sl_link, wq. cbn. rewrite Hb, Hq.
  assert (zlen out <= 2) by (unfold zlen; lia). change (zlen (@nil Sender)) with 0.
  split; [split; [done|]; split; [constructor|]; split; [constructor|]; split; [intros _|]; lia|]. split; [done|].
  exists q. split; [done|]. split; [lia|]. rewrite zlen_app in Hz. unfold zlen in Hz. lia.
Qed.
End RunningFacts.

(** ** Properties *)

Section LinkRunProperties.
Context `{AbslOps, !AbslSpec} {C : Type -> Type} `{ChannelSpec C}.
Implicit Types L : Link C.

(** C5. Two links from their first byte to the payload of a session.  A client
    and a server link with the same password shake hands, each on exactly what
    the other one sends; the client opens a session and sends payloads on it; and
    however the network splits the byte stream that the client's writer produced,
    the coroutine of the server completes its handshake, makes one session, under
    the client's id and for the client's target, starts its handler, answers
    with an ACK, and has exactly the payload sent, in order, in its inbox; then
    it sees end of file and returns.  (Up to 1024 payloads: with more the reader
    waits for the session to be read.) *)
Theorem connect_and_send now t0 t1 optsC optsS target draws sid more ps splitsC splitsS fuelC fuelW fuelS :
  is_server optsC = false -> is_server optsS = true -> password optsC = password optsS ->
  8 <= max_payload optsC -> 512 <= max_payload optsS <= INT64_MAX ->
  zlen (password optsS) <= max_payload optsC -> zlen (password optsS) <= max_payload optsS ->
  Address.addr_wf target -> addr_encodable target -> 0 <= init_window optsC < 2 ^ 32 ->
  draw_nonzero draws = Some (sid, more) -> 0 <= sid < 2 ^ 64 ->
  zlen ps <= 1024 -> Forall (fun p => zlen p + 9 <= max_payload optsS) ps ->
  let to_client := concat (server_flight (password optsS)) in
  let fs := NewFrame sid (toBinary target) (init_window optsC) :: map (DataFrame sid) ps in
  let to_server := concat (client_flight (password optsS)) ++ frames_bytes fs in
  zlen to_client < 2 ^ 56 -> (length to_client < fuelC)%nat -> (length ps + 3 < fuelW)%nat ->
  zlen to_server < 2 ^ 56 -> (length to_server + length fs < fuelS)%nat ->
  exists Lc skc p Lc' Ls rb sks q s,
    handshakeClient fuelC (started (C := C) optsC false t0) (mkSock to_client splitsC) = Some (Ok (Lc, skc)) /\
    openSession draws target false (announce_ready Lc) = Some (Ok p, Lc') /\
    fst (writer_drain fuelW (enqueue_all (map (encodeData [] sid) ps) Lc') []) = to_server /\
    run_link fuelS now (started optsS true t1) (mkSock to_server splitsS) = Some (Ok (set_read_buf rb (failLink Ls), sks)) /\
    stream sks = [] /\ sessions_ Ls = {[sid := q]} /\ heap_ Ls !! q = Some s /\ spawned_ Ls = [(q, target)] /\
    sid_ s = sid /\ target_ s = target /\ pending s = concat ps /\
    concat (ch_queue (write_chan_ Ls)) = to_client ++ encodeAck [] sid.
Proof.
  intros HrC HrS Hpw HmC [HmS HmS'] HpC HpS Hwf Henc Hwin Hd Hsid Hn Hps to_client fs to_server HzC HfC HfW HzS HfS.
  destruct (handshake_completes optsC false t0 [] splitsC fuelC HmC) as (Lc & q0 & skc & E1 & Hsh & _);
    unfold peer_flight; rewrite ?HrC, ?Hpw, ?app_nil_r; try done.
  unfold peer_flight in E1. rewrite HrC, Hpw, app_nil_r in E1.
  destruct (shaken_established optsC false t0 Lc q0 Hsh) as [HeC _].
  destruct (open_and_send optsC false _ draws sid more target ps HeC Hd) as (p & Lc' & E2 & _ & E3 & E4 & E5).
  assert (own_flight optsC = client_flight (password optsS)) as Hown by (unfold own_flight; by rewrite HrC, Hpw).
  assert (length (client_flight (password optsS)) <= 2)%nat as Hfl by (unfold client_flight; destruct (decide _); cbn; lia).
  destruct (run_link_frames (C := C) now optsS true t1 fs splitsS fuelS) as (L1 & rb & sks & HeS & Es & Er).
  - lia.
  - done.
  - apply Forall_cons. split; [by apply new_accepted|]. apply Forall_map. eapply Forall_impl; [exact Hps|].
    intros d Hd'. by apply data_accepted.
  - unfold peer_flight. by rewrite HrS.
  - unfold peer_flight. by rewrite HrS.
  - intros L1 He1. by apply (accept_unsuspended now optsS).
  - unfold peer_flight in Er. rewrite HrS in Er.
    destruct (accept_and_receive now optsS L1 sid target (init_window optsC) ps HeS Hwf Henc)
      as (q & s & F1 & F2 & F3 & F4 & F5 & F6 & F7).
    exists Lc, skc, p, Lc', (dispatch_all now fs L1), rb, sks, q, s.
    split; [exact E1|]. split; [exact E2|]. split.
    { rewrite writer_drain_queue; [|done|done|].
      - rewrite E5, Hown, concat_app. done.
      - rewrite E5, Hown, length_app. cbn [length map]. rewrite !length_map. lia. }
    split; [exact Er|]. do 7 (split; [done|]). unfold fs. rewrite F7, concat_app. unfold own_flight. rewrite HrS. cbn [concat].
    by rewrite app_nil_r.
Qed.

(** C27. The coroutine of a link survives any peer.  Take an arbitrary byte stream,
    split in any way.  The handshake comes to an end on it, and fails the link or
    leaves it to the reader; and from there, under every interleaving of the reader
    with the writer, the heartbeat, any number of coroutines that call sessions or
    open them and whoever ends the link, the reader goes round at most twice per
    byte of the stream and once more, never leaves its buffer, and when it has
    returned the link is closed.  Until then it can go round, or is suspended in
    one of two ways: in the [onData] of a session whose inbox holds more than 1024
    messages, or in sending an answer while the write queue is beyond its 1024
    frames (or, of a link being closed, not closed yet). *)
Theorem link_survives_any_input n opts handler t0 s splits fuel :
  zlen s < 2 ^ 56 -> (length s < fuel)%nat ->
  exists L1 sk1,
    (if is_server opts then handshakeServer fuel (started (C := C) opts handler t0) (mkSock s splits)
     else handshakeClient fuel (started opts handler t0) (mkSock s splits)) = Some (Ok (L1, sk1)) /\
    (closed_ L1 = true \/ forall R, rtc (running_step n) (running_init (announce_ready L1) sk1) R ->
       (rn_turns R <= 2 * length s + 1)%nat /\
       (rn_over R = true -> closed_ (rn_link R) = true) /\
       (rn_over R = false ->
          (forall now, exists t L' sk', reader_iter now (rn_link R) (rn_sock R) = Ok (t, L', sk')) /\
          (reader_free R \/
           (exists p x c, mx_wait (sl_mux (rn_stall R)) = Some p /\ heap_ (rn_link R) !! p = Some x /\
              inbox_ x = Some c /\ ch_closed c = false /\ 1024 < zlen (ch_queue c)) \/
           (Reader ∈ sl_waiting (rn_stall R) /\ (closed_ (rn_link R) = true \/ 1024 < zlen (wq (rn_link R))))))).
Proof.
  intros Hs Hf. destruct (shake_outcome opts handler t0 s splits fuel Hs Hf) as (L1 & sk1 & E & Hc).
  exists L1, sk1. split; [exact E|].
  destruct Hc as [(L0 & out & q & Hsh & ->)|(out & q & Hsh & Hout & Hz & Hn & _)]; [left; apply failLink_closed|right].
  cbn [stream] in Hz, Hn. pose proof (shaken_running_ok n opts handler t0 s L1 sk1 out q Hsh Hout Hz Hn Hs) as H0'.
  intros R Hr. assert (running_ok n (2 * length s + 1) R) as Hok
    by (revert Hr; apply (rtc_ind_r (running_ok n _)); [done|intros ? ? _; apply running_step_ok]).
  split; [by eapply running_turns|]. split; [intros Ho; by eapply running_over|]. intros Ho.
  split; [intros now; by eapply running_defined|by eapply running_waits].
Qed.

(** C26. Nothing without the password: when the coroutine of a server link that
    has one returns, whatever the peer has sent, then either the second value of
    the peer's stream was an AUTH command with exactly this password, or the link
    has never had a session and never started a handler. *)
Theorem unauthenticated_peer_gets_nothing now opts handler t0 s splits fuel L' sk' :
  is_server opts = true -> password opts <> [] -> zlen s < 2 ^ 56 -> (2 * length s < fuel)%nat ->
  run_link fuel now (started (C := C) opts handler t0) (mkSock s splits) = Some (Ok (L', sk')) ->
  authenticates (max_payload opts) (password opts) s \/
  (sessions_ L' = ∅ /\ heap_ L' = [] /\ spawned_ L' = []).
Proof.
  intros Hr Hpw Hs Hf E. destruct (run_link_total (C := C) now opts handler t0 s splits fuel Hs Hf) as (L2 & sk2 & E2 & _ & Hc).
  rewrite E in E2. injection E2 as <- <-. destruct Hc as [?|Ha]; [by right|left; by apply Ha].
Qed.
End LinkRunProperties.

(** ** Witnesses *)

#[local] Existing Instance reference_absl.

Definition run_client : LinkOptions := demo_opts (lit "secret") false.
Definition run_server : LinkOptions := demo_opts (lit "secret") true.
Definition run_target : Address := fromDomain (lit "h") 80.
Definition run_frames : list (ShineFrame bytes) :=
  NewFrame 7 (toBinary run_target) (init_window run_client) :: map (DataFrame 7) [lit "pay"; lit "load"].
Definition run_wire : bytes := concat (client_flight (lit "secret")) ++ frames_bytes run_frames.

Lemma connect_and_send_witness :
  exists Ls rb sks q s,
    run_link 400 5 (started (C := fifo) run_server true 0) (mkSock run_wire [1; 30; 2]) = Some (Ok (set_read_buf rb (failLink Ls), sks)) /\
    heap_ Ls !! q = Some s /\ pending s = lit "payload" /\ spawned_ Ls = [(q, run_target)].
Proof.
  destruct (connect_and_send (C := fifo) 5 0 0 run_client run_server run_target [0; 7] 7 [] [lit "pay"; lit "load"] [3] [1; 30; 2]
    100 10 400)
    as (Lc & skc & p & Lc' & Ls & rb & sks & q & s & _ & _ & _ & E & _ & _ & Eh & Es & _ & _ & Ep & _);
    [reflexivity|reflexivity|reflexivity|by vm_compute|by vm_compute|by vm_compute|by vm_compute|by apply fromDomain_wf|by vm_compute|
     by vm_compute|reflexivity|lia|by vm_compute|repeat constructor; by vm_compute|by vm_compute|vm_compute; lia|cbn; lia|by vm_compute|vm_compute; lia|].
  exists Ls, rb, sks, q, s. split; [exact E|]. split; [exact Eh|]. split; [exact Ep|exact Es].
Defined.

(** A handshake that succeeds, and the reader's first turn after it. *)
Definition run_shake : option (res (Link fifo * Sock)) :=
  handshakeServer 400 (started (C := fifo) run_server true 0) (mkSock run_wire [1; 30; 2]).

Lemma run_shake_turn L1 sk1 :
  run_shake = Some (Ok (L1, sk1)) ->
  closed_ L1 = false /\ exists t L2 sk2, reader_iter 5 (announce_ready L1) sk1 = Ok (t, L2, sk2).
Proof.
  assert (match run_shake with
          | Some (Ok (L, sk)) => closed_ L = false /\ (if reader_iter 5 (announce_ready L) sk is Ok _ then True else False)
          | _ => False end) as Hturn by (vm_compute; split; [reflexivity|exact I]).
  intros E. rewrite E in Hturn. destruct Hturn as [Hc Ht]. split; [exact Hc|].
  destruct (reader_iter 5 (announce_ready L1) sk1) as [[[t L2] sk2]|e|]; [by exists t, L2, sk2|contradiction..].
Qed.

Lemma first_turn n L (sk : Sock) now t L' sk' :
  reader_iter now L sk = Ok (t, L', sk') ->
  exists R, rtc (running_step (C := fifo) n) (running_init L sk) R /\ rn_turns R = 1%nat.
Proof.
  intros E. eexists. split.
  - apply rtc_once. apply (rn_turn n (running_init L sk) now t L' sk'); [|exact E].
    split; [reflexivity|]. split; [apply not_elem_of_nil|reflexivity].
  - reflexivity.
Qed.

Lemma link_survives_any_input_witness :
  exists L1 sk1 R, run_shake = Some (Ok (L1, sk1)) /\ closed_ L1 = false /\
    rtc (running_step 2) (running_init (announce_ready L1) sk1) R /\ rn_turns R = 1%nat /\
    (rn_turns R <= 2 * length run_wire + 1)%nat /\ (rn_over R = true -> closed_ (rn_link R) = true).
Proof.
  destruct (link_survives_any_input (C := fifo) 2 run_server true 0 run_wire [1; 30; 2] 400) as (L1 & sk1 & E & Hc);
    [by vm_compute|vm_compute; lia|].
  replace (is_server run_server) with true in E by reflexivity. cbv iota in E.
  assert (run_shake = Some (Ok (L1, sk1))) as Es by (unfold run_shake; exact E). clear E. destruct (run_shake_turn L1 sk1 Es) as (Hop & t & L2 & sk2 & Et).
  destruct (first_turn 2 _ _ _ _ _ _ Et) as (R & Hr & Hk). destruct Hc as [Hc|Hc]; [congruence|].
  destruct (Hc R Hr) as (Hn & Ho & _). exists L1, sk1, R. exact (conj Es (conj Hop (conj Hr (conj Hk (conj Hn Ho))))).
Defined.

Lemma unauthenticated_peer_gets_nothing_witness :
  let s := frames_bytes (hello_frame :: AuthFrame (lit "guess") :: run_frames) in
  exists L' sk', run_link 800 5 (started (C := fifo) run_server true 0) (mkSock s [2]) = Some (Ok (L', sk')) /\
    (authenticates kMaxBulkLen (lit "secret") s \/ (sessions_ L' = ∅ /\ heap_ L' = [] /\ spawned_ L' = [])).
Proof.
  intros s. destruct (run_link 800 5 (started (C := fifo) run_server true 0) (mkSock s [2])) as [[[L' sk']|e|]|] eqn:E;
    [|by vm_compute in E..].
  exists L', sk'. split; [done|].
  apply (unauthenticated_peer_gets_nothing 5 run_server true 0 s [2] 800 L' sk'); [done|done|by vm_compute|vm_compute; lia|exact E].
Defined.
