(* ===== verification/Workers.v ===== *)
(** * The scheduler (src/core/scheduler.cpp, src/core/scheduler.hpp)

    The number of worker threads, how they are started and how they end.  The
    [io_context] they run is Boost.Asio's. *)
From S2P Require Import Prelude.

Module Scheduler.
(** The workers that have not returned from [io_.run()], and the flags;
    [guard_] keeps idle workers in it. *)
Record t := mk { n_threads : Z; workers : nat; guard_ : bool; io_stopped : bool; stopped_ : bool }.

(** The constructor; [hc] is [std::thread::hardware_concurrency()]. *)
Definition new (hc io_threads : Z) : t :=
  mk (if io_threads =? 0 then Z.max 2 (Z.min 8 (hc / 2)) else io_threads) 0 true false false.

(** The largest [std::vector<std::thread>], whose elements are 8 bytes. *)
Definition max_threads : Z := (2 ^ 63 - 1) / 8.

(** [run], where the system lets the process start [spawnable] threads.  [None]
    when it throws: [reserve] beyond the vector's largest size, or the
    [std::thread] that cannot be started. *)
Definition run (spawnable : Z) (s : t) : option t :=
  if max_threads <? n_threads s then None
  else if spawnable <? n_threads s then None
  else Some (mk (n_threads s) (Z.to_nat (n_threads s)) (guard_ s) (io_stopped s) (stopped_ s)).

Definition stop (s : t) : t :=
  if stopped_ s then s else mk (n_threads s) (workers s) false true true.

(** A worker returns once the io_context is stopped. *)
Definition worker_exit (s : t) : option t :=
  match workers s with
  | S n => if io_stopped s then Some (mk (n_threads s) n (guard_ s) (io_stopped s) (stopped_ s)) else None
  | O => None
  end.

(** A handler throws: the worker that ran it logs the exception and returns. *)
Definition worker_fails (s : t) : option t :=
  match workers s with
  | S n => Some (mk (n_threads s) n (guard_ s) (io_stopped s) (stopped_ s))
  | O => None
  end.

(** [join] returns when every worker has; the destructor is [stop], then [join]. *)
Definition joined (s : t) : bool := bool_decide (workers s = 0%nat).
End Scheduler.

(** What the worker threads that were started are. *)
Lemma scheduler_run_spec spawnable hc io_threads s :
  Scheduler.run spawnable (Scheduler.new hc io_threads) = Some s ->
  Scheduler.workers s = Z.to_nat (Scheduler.n_threads s) /\
  Scheduler.n_threads s = (if io_threads =? 0 then Z.max 2 (Z.min 8 (hc / 2)) else io_threads) /\
  Scheduler.n_threads s <= spawnable /\ Scheduler.stopped_ s = false /\ Scheduler.io_stopped s = false.
Proof.
  unfold Scheduler.run. cbn [Scheduler.new Scheduler.n_threads]. destruct (_ <? _); [done|].
  destruct (Z.ltb_spec spawnable (if io_threads =? 0 then Z.max 2 (Z.min 8 (hc / 2)) else io_threads)); [done|].
  by intros [= <-].
Qed.

Lemma scheduler_run_throws spawnable hc io_threads :
  Scheduler.run spawnable (Scheduler.new hc io_threads) = None <->
  Z.min Scheduler.max_threads spawnable < (if io_threads =? 0 then Z.max 2 (Z.min 8 (hc / 2)) else io_threads).
Proof.
  unfold Scheduler.run. cbn [Scheduler.new Scheduler.n_threads]. set (n := if _ =? _ then _ else _).
  destruct (Z.ltb_spec Scheduler.max_threads n); [split; [lia|done]|].
  destruct (Z.ltb_spec spawnable n); [split; [lia|done]|]. split; [done|lia].
Qed.
