(* ===== verification/Startup.v ===== *)
(** * Start-up and dispatch (src/main.cpp)

    From the command line to the running proxy: [main] loads the configuration,
    sets up logging and the exporter, builds the outbounds, compiles the router
    and starts the inbounds, or exits with a code; [dispatch] then finds the
    outbound of each request. *)
From S2P Require Import Prelude Absl Address Request Socket Config Geo Router Logging Metrics Inbounds Outbounds Socks5 ShinePool Workers.
From Stdlib Require Import Strings.Byte.

Section Startup.
Context `{AbslOps, BoostIp, MakeAddress, RegexOps, DoubleOps, YamlOps, AsciiLower}.

(** ** [main] *)

Inductive Args := Usage (code : Z) | ConfigPath (path : bytes).

(** The loop over [argv], with the path found so far. *)
Fixpoint scan_args (argv : list bytes) (cfg_path : bytes) : Args :=
  match argv with
  | [] => if decide (cfg_path = []) then Usage 1 else ConfigPath cfg_path
  | a :: rest =>
      let other := if decide (a = lit "-h" \/ a = lit "--help") then Usage 0 else scan_args rest cfg_path in
      if decide (a = lit "-c") then match rest with p :: rest' => scan_args rest' p | [] => other end
      else other
  end.

(** [outbounds->emplace(oc.tag, *ob)] for each of them; a tag that is there
    stays. *)
Fixpoint build_outbounds (outs : list OutboundConfig) (m : gmap bytes (OutboundKind * OutboundConfig))
  : res (gmap bytes (OutboundKind * OutboundConfig)) :=
  match outs with
  | [] => Ok m
  | oc :: rest =>
      k ← makeOutbound oc;
      build_outbounds rest (match m !! out_tag oc with Some _ => m | None => <[out_tag oc := (k, oc)]> m end)
  end.

Fixpoint build_inbounds (sys : Listener) (ins : list InboundConfig)
  : res (list (InboundKind * InboundConfig * Endpoint)) :=
  match ins with
  | [] => Ok []
  | ic :: rest =>
      k ← makeInbound ic;
      ep ← start_inbound sys k ic;
      more ← build_inbounds sys rest;
      Ok ((k, ic, ep) :: more)
  end.

Record Proxy := mkProxy {
  obs : gmap bytes (OutboundKind * OutboundConfig);
  router_of : Router;
  listening : list (InboundKind * InboundConfig * Endpoint);
  logging : Logging;
  scheduler : Scheduler.t;
  exporter : Exporter;
}.
Inductive Started := Exit (code : Z) | Running (p : Proxy) | Crashed.

Definition or_exit {A} (code : Z) (r : res A) (k : A -> Started) : Started :=
  match r with Ok a => k a | Err _ => Exit code | UB => Crashed end.

(** What the process finds: the file, the routing databases, the sockets, the
    metrics server, [hardware_concurrency()] and the number of threads it may
    start. *)
Record Host := mkHost {
  read_file : bytes -> option bytes;
  geosite_db : bytes -> option (list GeoSite);
  geoip_db : bytes -> option (list GeoIp.GeoIP);
  sockets : Listener;
  expose : bytes -> option bytes;
  cores : Z;
  spawnable : Z;
}.

Definition loadFromFile (host : Host) (path : bytes) : res Config :=
  match read_file host path with
  | None => Err (NotFoundError (lit "cannot open config file: " ++ path))
  | Some content => loadFromString content
  end.

(** [main] up to the wait for a signal.  [init] on the fresh process cannot
    throw, and a failing exporter is logged only; nothing catches what
    [Scheduler::run] throws. *)
Definition main (host : Host) (argv : list bytes) : Started :=
  match scan_args argv [] with
  | Usage code => Exit code
  | ConfigPath path =>
      or_exit 1 (loadFromFile host path) (fun cfg =>
      match init (level (log cfg)) Logging_new with
      | None => Crashed
      | Some logging =>
      match Scheduler.run (spawnable host) (Scheduler.new (cores host) (io_threads (server cfg))) with
      | None => Crashed
      | Some sched =>
      let exporter := snd (Exporter_start (expose host) (metrics cfg) Exporter_new) in
      or_exit 2 (build_outbounds (outbounds cfg) ∅) (fun obs =>
      or_exit 2 (compile (geosite_db host) (geoip_db host) (route cfg)) (fun router =>
      or_exit 2 (build_inbounds (sockets host) (inbounds cfg)) (fun ins =>
      Running (mkProxy obs router ins logging sched exporter))))
      end
      end)
  end.

(** [dispatch] on the running proxy. *)
Inductive Dispatched := DroppedRequest | GivenTo (tag : bytes) (k : OutboundKind) (cfg : OutboundConfig).
Definition dispatch_to (p : Proxy) (q : Request) : res Dispatched :=
  tag ← Router.pick (router_of p) q;
  if decide (tag = []) then Ok DroppedRequest
  else match obs p !! tag with
       | None => Ok DroppedRequest
       | Some (k, cfg) => Ok (GivenTo tag k cfg)
       end.
End Startup.

(** ** What has been built *)

Section StartupFacts.
Context `{AbslOps, !AbslSpec, BoostIp, !BoostIpSpec, MakeAddress, !MakeAddressSpec, RegexOps, DoubleOps, YamlOps, AsciiLower}.

Lemma or_exit_running {A} code (r : res A) k p :
  or_exit code r k = Running p <-> exists a, r = Ok a /\ k a = Running p.
Proof.
  split; [|by intros (a & -> & E)]. destruct r as [a| |]; [|done..]. intros E. by exists a.
Qed.

(** Every outbound is in the table under its tag when no tag occurs twice. *)
Lemma build_outbounds_spec outs : forall m m',
  NoDup (out_tag <$> outs) -> (forall o, o ∈ outs -> m !! out_tag o = None) -> build_outbounds outs m = Ok m' ->
  (forall o, o ∈ outs -> exists k, makeOutbound o = Ok k /\ m' !! out_tag o = Some (k, o)) /\
  (forall t e, m' !! t = Some e -> m !! t = Some e \/ (snd e ∈ outs /\ out_tag (snd e) = t /\ makeOutbound (snd e) = Ok (fst e))) /\
  (forall t e, m !! t = Some e -> m' !! t = Some e).
Proof.
  induction outs as [|oc outs IH]; intros m m' Hnd Hfresh E; cbn [build_outbounds] in E.
  { injection E as <-. split; [by intros o ?%elem_of_nil|]. split; auto. }
  apply res_bind_ok in E as (k & Ek & E). rewrite Hfresh in E by left.
  rewrite fmap_cons in Hnd. apply NoDup_cons in Hnd as [Hn Hnd].
  assert (forall o, o ∈ outs -> <[out_tag oc := (k, oc)]> m !! out_tag o = None) as Hfresh'.
  { intros o Ho. rewrite lookup_insert_ne; [apply Hfresh; by right|]. intros Et. apply Hn. rewrite Et.
    by apply list_elem_of_fmap_2. }
  destruct (IH _ _ Hnd Hfresh' E) as (I1 & I2 & I3).
  assert (m' !! out_tag oc = Some (k, oc)) as Hoc by (apply I3; by rewrite lookup_insert_eq).
  split; [|split].
  - intros o [->|Ho]%elem_of_cons; [by exists k|by apply I1].
  - intros t e Ht. destruct (I2 t e Ht) as [Hm|(? & ? & ?)]; [|right; split; [by right|done]].
    destruct (decide (t = out_tag oc)) as [->|Hne].
    + rewrite lookup_insert_eq in Hm. injection Hm as <-. right. split; [by left|done].
    + rewrite lookup_insert_ne in Hm by done. by left.
  - intros t e Ht. apply I3. destruct (decide (t = out_tag oc)) as [->|Hne]; [|by rewrite lookup_insert_ne].
    rewrite Hfresh in Ht by left. done.
Qed.

(** An inbound that runs was made from its entry and listens on its IP. *)
Definition inbound_started (sys : Listener) (ic : InboundConfig) (r : InboundKind * InboundConfig * Endpoint) : Prop :=
  let '(k, cfg, ep) := r in cfg = ic /\ makeInbound ic = Ok k /\ listens_at sys (in_listen ic) ep.

Lemma build_inbounds_ok sys ins rs : build_inbounds sys ins = Ok rs -> Forall2 (inbound_started sys) ins rs.
Proof.
  revert rs. induction ins as [|ic ins IH]; intros rs E; cbn [build_inbounds] in E; [by injection E as <-|].
  apply res_bind_ok in E as (k & Ek & E). apply res_bind_ok in E as (ep & Ep & E). apply res_bind_ok in E as (more & Em & [= <-]).
  constructor; [|by apply IH]. split; [done|]. split; [done|]. by apply start_inbound_ok in Ep.
Qed.




(** A configuration that loads is valid. *)
Lemma loadFromString_valid content c : loadFromString content = Ok c -> valid_config c.
Proof.
  unfold loadFromString. destruct (yaml_load content); [|done].
  intros (lg & _ & (srv & _ & (mt & _ & (ins & _ & (outs & _ & (rt & _ & E)%res_bind_ok)%res_bind_ok)%res_bind_ok)%res_bind_ok)%res_bind_ok)%res_bind_ok.
  apply res_bind_ok in E as ([] & Hv & [= <-]). by apply validate_spec.
Qed.

(** What [Running] means. *)
Definition runs (host : Host) (c : Config) (p : Proxy) : Prop :=
  valid_config c /\
  (forall o, o ∈ outbounds c -> exists k, makeOutbound o = Ok k /\ obs p !! out_tag o = Some (k, o)) /\
  (forall t k o, obs p !! t = Some (k, o) -> o ∈ outbounds c /\ out_tag o = t /\ makeOutbound o = Ok k) /\
  compile (geosite_db host) (geoip_db host) (route c) = Ok (router_of p) /\
  Forall2 (inbound_started (sockets host)) (inbounds c) (listening p) /\
  log_level (logging p) = level_of (level (log c)) /\
  Scheduler.run (spawnable host) (Scheduler.new (cores host) (io_threads (server c))) = Some (scheduler p) /\
  exposer_ (exporter p) = match expose host (metrics_listen (metrics c)) with None => Some (metrics_listen (metrics c)) | Some _ => None end.

Lemma main_running host argv p :
  main host argv = Running p ->
  exists path c, scan_args argv [] = ConfigPath path /\ loadFromFile host path = Ok c /\ runs host c p.
Proof.
  unfold main. destruct (scan_args argv []) as [code|path]; [done|].
  intros (c & Ec & E)%or_exit_running. rewrite init_new in E.
  destruct (Scheduler.run _ _) as [sched|] eqn:Es; [|done].
  apply or_exit_running in E as (m & Em & (router & Er & (ins & Ei & [= <-])%or_exit_running)%or_exit_running).
  exists path, c. split; [done|]. split; [done|]. unfold loadFromFile in Ec. destruct (read_file host path); [|done].
  pose proof (loadFromString_valid _ _ Ec) as Hv. pose proof Hv as (_ & _ & _ & _ & Hnd & _).
  destruct (build_outbounds_spec _ _ _ Hnd (fun o _ => lookup_empty _) Em) as (B1 & B2 & _).
  split; [done|]. split; [done|]. split; [intros t k o Ht; by destruct (B2 t (k, o) Ht)|]. split; [done|].
  split; [by apply build_inbounds_ok|]. split; [done|]. split; [done|]. unfold Exporter_start. cbn [exporter]. by destruct (expose host _).
Qed.
End StartupFacts.

(** ** Properties *)

Section StartupProperties.
Context `{AbslOps, !AbslSpec, BoostIp, !BoostIpSpec, MakeAddress, !MakeAddressSpec, RegexOps, DoubleOps, YamlOps, AsciiLower}.


(** C12. A running proxy routes every request: whatever request comes, to a
    well-formed address, it goes to the outbound of the first rule that applies,
    which exists and is the configured one, or, when no rule applies, to the
    default outbound, which exists too; it is dropped only when there is no
    default. *)
Theorem running_proxy_routes host argv p q :
  main host argv = Running p -> Router.addr_wf (req_target q) ->
  exists c d, runs host c p /\ dispatch_to p q = Ok d /\
    match d with
    | GivenTo tag k cfg =>
        Router.picks (router_of p) (rules_ (router_of p)) q tag /\
        cfg ∈ outbounds c /\ out_tag cfg = tag /\ makeOutbound cfg = Ok k
    | DroppedRequest => Router.picks (router_of p) (rules_ (router_of p)) q [] /\ default_outbound (route c) = []
    end.
Proof.
  intros Hm Ht. destruct (main_running host argv p Hm) as (path & c & _ & _ & Hr). exists c.
  pose proof Hr as ((_ & _ & _ & Hne & _ & _ & Hdef & Hrules) & Hobs & Hobs' & Hc & _).
  destruct (compile_ok _ _ _ _ Hc) as (Hwf & Htags & Hd).
  destruct (pick_rules_spec (router_of p) q (rules_ (router_of p)) Hwf Ht) as (tag & Ep & Hp).
  unfold dispatch_to, Router.pick. rewrite Ep. cbn [mbind res_bind].
  assert (tag ∈ out_tag <$> outbounds c \/ (tag = [] /\ default_outbound (route c) = [])) as [Htag|[-> Hdflt]].
  { destruct Hp as [(pre & r & post & Er & _ & _ & ->)|[_ ->]].
    - left. assert (c_outbound_tag r ∈ rule_outbound_tag <$> rules (route c)) as Hin.
      { rewrite <- Htags, Er, fmap_app. apply elem_of_app. right. left. }
      apply list_elem_of_fmap in Hin as (rc & -> & Hin). rewrite Forall_forall in Hrules. by apply Hrules.
    - rewrite Hd. destruct Hdef as [->|?]; [by right|by left]. }
  - apply list_elem_of_fmap in Htag as (o & -> & Ho). rewrite Forall_forall in Hne.
    destruct (Hobs o Ho) as (k & Ek & El). rewrite decide_False, El by (by apply Hne).
    eexists. split; [done|]. by split.
  - rewrite decide_True by done. eexists. by split.
Qed.

End StartupProperties.

(** ** Witnesses *)

#[local] Existing Instance reference_absl.
#[local] Existing Instance full_form_boost.
#[local] Existing Instance reference_make_address.
#[local] Existing Instance reference_make_address_spec.
#[local] Existing Instance sub_regex.
#[local] Existing Instance integer_double.
Definition proxy_doc : Tree :=
  TMap [(lit "inbounds", TList [TMap [(lit "tag", TStr (lit "in")); (lit "protocol", TStr (lit "socks5"));
                                      (lit "listen", TStr (lit "127.0.0.1:1080"))]]);
        (lit "outbounds", TList [sample_outbound]);
        (lit "route", TMap [(lit "rules", TList [sample_rule]); (lit "default", TStr (lit "out"))])].
#[local] Instance sample_yaml : YamlOps := tree_yaml proxy_doc.

Definition sample_host : Host := mkHost (fun _ => Some []) no_site_db no_ip_db (mkListener (fun _ => None) (fun _ => None) (fun _ => None)) (fun _ => None) 8 1000.
Definition sample_argv : list bytes := [lit "-c"; lit "proxy.yaml"].


(** The proxy of [proxy_doc] with a [server] section. *)
Definition with_server (srv : Tree) : YamlOps :=
  tree_yaml (match proxy_doc with TMap m => TMap ((lit "server", srv) :: m) | d => d end).

(** A negative [io_threads] becomes a number of threads no vector can hold; a
    [graceful_timeout] of 10^17 seconds is no 64-bit number of milliseconds. *)
Example negative_io_threads_crash :
  main (H4 := with_server (TMap [(lit "io_threads", TStr (lit "-1"))])) sample_host sample_argv = Crashed /\
  main (H4 := with_server (TMap [(lit "graceful_timeout", TStr (lit "100000000000000000s"))])) sample_host sample_argv = Crashed.
Proof. split; by vm_compute. Qed.

(** A scalar where a section is expected is refused. *)
Example scalar_section_refused : main (H4 := with_server (TStr (lit "foo"))) sample_host sample_argv = Exit 1.
Proof. by vm_compute. Qed.

Lemma running_proxy_routes_witness :
  exists p d, main sample_host sample_argv = Running p /\ dispatch_to p sample_request = Ok d /\ d <> DroppedRequest.
Proof.
  destruct (main sample_host sample_argv) as [code|p|] eqn:E; [by vm_compute in E| |by vm_compute in E]. exists p.
  destruct (running_proxy_routes sample_host sample_argv p sample_request) as (c & d & Hr & Hd & Hc); [exact E|by vm_compute|].
  exists d. split; [done|]. split; [done|]. intros ->. vm_compute in E. injection E as <-. by vm_compute in Hd.
Defined.

