(* ===== verification/Service.v ===== *)
(** * The running proxy at work (src/main.cpp, the accept loops of the plain inbounds)

    [acceptLoop] and [stop] of the SOCKS5 and HTTP CONNECT inbounds, which are
    the same code, and [dispatch] as the coroutine it is: many run at once, each
    counted in the metrics while its outbound handles the request.  The metrics
    library is an interface. *)
From S2P Require Import Prelude Absl Address Request Config Geo Router Socks5 HttpConnect Socket Logging Metrics Inbounds Outbounds Workers Startup.
From Stdlib Require Import Strings.Byte.

(** ** Accepting *)

(** Where [acceptLoop] is: at the test of [stopping_]; suspended in
    [async_accept]; about to resume with a connection, or with an error; over. *)
Inductive AcceptPc := AtTest | Accepting | Taken | Failing | Ended.
#[export] Instance AcceptPc_eq_dec : EqDecision AcceptPc.
Proof. solve_decision. Defined.

Record Acceptor := mkAcceptor {
  ac_pc : AcceptPc;
  ac_stopping : bool;               (* stopping_ *)
  ac_open : bool;                   (* acceptor_ is open *)
  ac_served : nat;                  (* handleClient coroutines spawned *)
}.
Definition Acceptor_new : Acceptor := mkAcceptor AtTest false true 0.

Definition accept_resume (a : Acceptor) : option Acceptor :=
  match ac_pc a with
  | AtTest => Some (mkAcceptor (if ac_stopping a then Ended else Accepting) (ac_stopping a) (ac_open a) (ac_served a))
  | Taken => Some (mkAcceptor AtTest (ac_stopping a) (ac_open a) (S (ac_served a)))
  | Failing => Some (mkAcceptor Ended (ac_stopping a) (ac_open a) (ac_served a))
  | Accepting | Ended => None
  end.

Definition accept_stop (a : Acceptor) : Acceptor := mkAcceptor (ac_pc a) true false (ac_served a).

(** The coroutine; the operating system, which completes [async_accept] with a
    connection while the socket is open or with an error at any time; [stop]. *)
Inductive accept_step (a : Acceptor) : Acceptor -> Prop :=
  | as_resume a' : accept_resume a = Some a' -> accept_step a a'
  | as_connection : ac_pc a = Accepting -> ac_open a = true ->
      accept_step a (mkAcceptor Taken (ac_stopping a) (ac_open a) (ac_served a))
  | as_error : ac_pc a = Accepting ->
      accept_step a (mkAcceptor Failing (ac_stopping a) (ac_open a) (ac_served a))
  | as_stop : accept_step a (accept_stop a).

(** What a stopped loop can still do: one turn at most, with a connection that
    was accepted already. *)
Definition accept_left (a : Acceptor) : nat :=
  match ac_pc a with AtTest => 1 | Accepting => 2 | Taken => 2 | Failing => 1 | Ended => 0 end.
Definition accept_due (a : Acceptor) : nat := match ac_pc a with Taken => 1 | _ => 0 end.
Definition accept_stopped (a : Acceptor) : Prop := ac_stopping a = true /\ ac_open a = false.

Lemma accept_step_stopped a a' :
  accept_step a a' -> accept_stopped a ->
  accept_stopped a' /\ (ac_served a' + accept_due a' = ac_served a + accept_due a)%nat /\ (ac_served a <= ac_served a')%nat.
Proof.
  destruct a as [pc st op n]. unfold accept_stopped, accept_left, accept_due. cbn.
  intros [a1 E|E1 E2|E|] [-> ->]; cbn in *; try subst pc.
  - destruct pc; cbn in E; try done; injection E as <-; cbn; (split; [done|]); lia.
  - done.
  - cbn. split; [done|]. lia.
  - cbn. split; [done|]. lia.
Qed.

Lemma accept_run_stopped a a' :
  rtc accept_step a a' -> accept_stopped a ->
  accept_stopped a' /\ (ac_served a' + accept_due a' = ac_served a + accept_due a)%nat /\ (ac_served a <= ac_served a')%nat.
Proof.
  induction 1 as [a|a1 a2 a3 Hs _ IH]; [done|]. intros H1.
  destruct (accept_step_stopped a1 a2 Hs H1) as (H2 & <- & Hle). destruct (IH H2) as (H3 & -> & Hle').
  split; [done|]. split; [done|]. lia.
Qed.

Lemma accept_never_stuck a : accept_stopped a -> ac_pc a <> Ended -> exists a', accept_step a a' /\ (accept_left a' < accept_left a)%nat.
Proof.
  destruct a as [pc st op n]. unfold accept_stopped, accept_left. cbn. intros [-> ->] Hn. destruct pc; try done.
  - eexists. split; [by apply as_resume|]. cbn. lia.
  - eexists. split; [by apply as_error|]. cbn. lia.
  - eexists. split; [by apply as_resume|]. cbn. lia.
  - eexists. split; [by apply as_resume|]. cbn. lia.
Qed.

Lemma accept_reaches_end n : forall a, accept_stopped a -> (accept_left a <= n)%nat ->
  exists a', rtc accept_step a a' /\ ac_pc a' = Ended.
Proof.
  induction n as [|n IH]; intros a Hs Hl.
  - exists a. split; [done|]. unfold accept_left in Hl. destruct (ac_pc a); done || lia.
  - destruct (decide (ac_pc a = Ended)) as [|Hn]; [by exists a|].
    destruct (accept_never_stuck a Hs Hn) as (a1 & H1 & Hlt).
    destruct (IH a1) as (a2 & H2 & E); [by eapply accept_step_stopped|lia|].
    exists a2. split; [by eapply rtc_l|done].
Qed.

(** ** Dispatching *)

Definition session_labels (q : Request) (tag : bytes) : list (bytes * bytes) :=
  [(lit "inbound", req_inbound_tag q); (lit "outbound", tag)].
Definition error_labels : list (bytes * bytes) := [(lit "kind", lit "outbound")].

Section Dispatching.
Context `{RegexOps} {M : Type} `{Metrics M}.

(** A [dispatch] inside [handle]. *)
Record Handling := mkHandling { hd_request : Request; hd_tag : bytes }.
Definition hd_labels (h : Handling) : list (bytes * bytes) := session_labels (hd_request h) (hd_tag h).

Record Dispatching := mkDispatching { dp_metrics : M; dp_running : list Handling }.

(** [dispatch] up to the call of [handle]. *)
Definition dispatch_begin (p : Proxy) (q : Request) (s : Dispatching) : res Dispatching :=
  d ← dispatch_to p q;
  match d with
  | DroppedRequest => Ok s
  | GivenTo tag _ _ =>
      let m1 := m_add sessions_opened (session_labels q tag) 1 (dp_metrics s) in
      let m2 := m_add sessions_active (session_labels q tag) 1 m1 in
      Ok (mkDispatching m2 (dp_running s ++ [mkHandling q tag]))
  end.

(** ... and from the return of [handle], with or without a status. *)
Definition dispatch_end (i : nat) (ok : bool) (s : Dispatching) : option Dispatching :=
  match dp_running s !! i with
  | None => None
  | Some h =>
      let m1 := m_add sessions_active (hd_labels h) (-1) (dp_metrics s) in
      let m2 := if ok then m1 else m_add errors_total error_labels 1 m1 in
      Some (mkDispatching m2 (delete i (dp_running s)))
  end.

(** What happens to [dispatch] from outside: a request arrives, or the outbound
    that handles one returns, with OK ([true]) or with a status. *)
Inductive DispatchEvent :=
  | Arrived (q : Request)
  | Returned (h : Handling) (ok : bool).

Inductive dispatch_step (p : Proxy) (s : Dispatching) : DispatchEvent -> Dispatching -> Prop :=
  | ds_begin q s' : dispatch_begin p q s = Ok s' -> dispatch_step p s (Arrived q) s'
  | ds_end i h ok s' :
      dp_running s !! i = Some h -> dispatch_end i ok s = Some s' ->
      dispatch_step p s (Returned h ok) s'.

(** [dispatch_run p s tr s']: [tr] is everything that happened between [s] and
    [s'], in order. *)
Inductive dispatch_run (p : Proxy) (s : Dispatching) : list DispatchEvent -> Dispatching -> Prop :=
  | dr_nil : dispatch_run p s [] s
  | dr_snoc tr s1 e s2 :
      dispatch_run p s tr s1 -> dispatch_step p s1 e s2 -> dispatch_run p s (tr ++ [e]) s2.

(** The history read from the events alone: the requests given to an outbound,
    and the handlers that returned with their outcome. *)
Definition event_begun (p : Proxy) (e : DispatchEvent) : option Handling :=
  match e with
  | Arrived q =>
      match dispatch_to p q with
      | Ok (GivenTo tag _ _) => Some (mkHandling q tag)
      | _ => None
      end
  | Returned _ _ => None
  end.
Definition event_ended (e : DispatchEvent) : option (Handling * bool) :=
  match e with Arrived _ => None | Returned h ok => Some (h, ok) end.
Definition begun (p : Proxy) (tr : list DispatchEvent) : list Handling := omap (event_begun p) tr.
Definition ended (tr : list DispatchEvent) : list (Handling * bool) := omap event_ended tr.
Definition failures (tr : list DispatchEvent) : Z := zlen (filter (fun e => snd e = false) (ended tr)).
End Dispatching.
Arguments Dispatching : clear implicits.

Section DispatchFacts.
Context `{RegexOps} {M : Type} `{MetricsSpec M}.

Definition count (l : list (bytes * bytes)) (hs : list Handling) : Z := zlen (filter (fun h => hd_labels h = l) hs).

Lemma count_app l h1 h2 : count l (h1 ++ h2) = count l h1 + count l h2.
Proof. unfold count. by rewrite filter_app, zlen_app. Qed.

Lemma count_one l h : count l [h] = if decide (hd_labels h = l) then 1 else 0.
Proof. unfold count. rewrite filter_cons, filter_nil. by case_decide. Qed.

Lemma count_perm l h1 h2 : h1 ≡ₚ h2 -> count l h1 = count l h2.
Proof. intros Hp. unfold count, zlen. by rewrite Hp. Qed.

Lemma begun_snoc p tr e : begun p (tr ++ [e]) = begun p tr ++ option_list (event_begun p e).
Proof. unfold begun. rewrite omap_app. cbn. by destruct (event_begun p e). Qed.
Lemma ended_snoc tr e : ended (tr ++ [e]) = ended tr ++ option_list (event_ended e).
Proof. unfold ended. rewrite omap_app. cbn. by destruct (event_ended e). Qed.

(** The metrics after the events [tr], from metrics [m0]. *)
Definition gauges_ok (p : Proxy) (m0 : M) (tr : list DispatchEvent) (s : Dispatching M) : Prop :=
  (dp_running s ++ (fst <$> ended tr) ≡ₚ begun p tr) /\
  (forall l, m_value (dp_metrics s) sessions_active l = m_value m0 sessions_active l + count l (dp_running s)) /\
  (forall l, m_value (dp_metrics s) sessions_opened l = m_value m0 sessions_opened l + count l (begun p tr)) /\
  m_value (dp_metrics s) errors_total error_labels = m_value m0 errors_total error_labels + failures tr /\
  Forall (fun h => is_Some (obs p !! hd_tag h)) (dp_running s).

Lemma family_eq (f1 f2 : bytes) (l1 l2 : list (bytes * bytes)) (d : Z) :
  bool_decide (f1 = f2) = false -> (if decide (f1 = f2 /\ l1 = l2) then d else 0) = 0.
Proof. intros Hf. apply bool_decide_eq_false in Hf. rewrite decide_False; [done|]. by intros [? _]. Qed.

Lemma family_same (f : bytes) (l1 l2 : list (bytes * bytes)) (d : Z) :
  (if decide (f = f /\ l1 = l2) then d else 0) = if decide (l1 = l2) then d else 0.
Proof. destruct (decide (l1 = l2)) as [->|Hn]; [by rewrite decide_True|]. rewrite decide_False; [done|]. by intros [_ ?]. Qed.

Lemma gauges_begin p m0 tr q s s' :
  dispatch_begin p q s = Ok s' -> gauges_ok p m0 tr s -> gauges_ok p m0 (tr ++ [Arrived q]) s'.
Proof.
  unfold dispatch_begin, gauges_ok, failures. rewrite begun_snoc, ended_snoc. cbn [event_begun event_ended option_list option_rect].
  rewrite app_nil_r. destruct (dispatch_to p q) as [d|st|] eqn:Ed; cbn [mbind res_bind]; [|done..].
  destruct d as [|tag k cfg]; [by intros [= <-]; rewrite app_nil_r|].
  intros [= <-] (Hp & Ha & Ho & He & Hf). cbn [dp_metrics dp_running option_list option_rect].
  split; [|split; [|split; [|split]]].
  - rewrite <- Hp, <- !app_assoc. apply Permutation_app_head, Permutation_app_comm.
  - intros l. rewrite !m_value_add, family_same, (family_eq sessions_opened), Ha, count_app, count_one by reflexivity.
    unfold hd_labels. cbn [hd_request hd_tag]. case_decide; lia.
  - intros l. rewrite !m_value_add, family_same, (family_eq sessions_active), Ho, !count_app, count_one by reflexivity.
    unfold hd_labels. cbn [hd_request hd_tag]. case_decide; lia.
  - rewrite !m_value_add, (family_eq sessions_active), (family_eq sessions_opened), He by reflexivity. lia.
  - apply Forall_app. split; [done|]. apply Forall_singleton. cbn.
    unfold dispatch_to in Ed. destruct (Router.pick (router_of p) q) as [t|?|]; cbn [mbind res_bind] in Ed; [|done..].
    destruct (decide (t = [])); [done|]. destruct (obs p !! t) as [[k' cfg']|] eqn:Eo; [|done].
    injection Ed as <- _ _. by rewrite Eo.
Qed.

Lemma delete_perm {A} (l : list A) i x : l !! i = Some x -> l ≡ₚ delete i l ++ [x].
Proof. intros E. rewrite Permutation_app_comm. by apply delete_Permutation. Qed.

Lemma gauges_end p m0 tr i h ok s s' :
  dp_running s !! i = Some h -> dispatch_end i ok s = Some s' -> gauges_ok p m0 tr s ->
  gauges_ok p m0 (tr ++ [Returned h ok]) s'.
Proof.
  unfold dispatch_end, gauges_ok, failures. intros Ei. rewrite Ei, begun_snoc, ended_snoc, app_nil_r.
  intros [= <-] (Hp & Ha & Ho & He & Hf). cbn [dp_metrics dp_running event_ended option_list option_rect].
  pose proof (delete_perm _ _ _ Ei) as Hd. split; [|split; [|split; [|split]]].
  - rewrite <- Hp, fmap_app. etrans; [|apply Permutation_app_tail; symmetry; exact Hd].
    rewrite <- app_assoc. apply Permutation_app_head, Permutation_app_comm.
  - intros l. pose proof (count_perm l _ _ Hd) as Hc. rewrite count_app, count_one in Hc.
    destruct ok; rewrite ?m_value_add, ?(family_eq errors_total), family_same, Ha, Hc by reflexivity; case_decide; lia.
  - intros l. destruct ok; rewrite ?m_value_add, ?(family_eq errors_total), (family_eq sessions_active), Ho by reflexivity; lia.
  - rewrite filter_app, zlen_app, filter_cons, filter_nil. cbn [snd].
    destruct ok; [rewrite decide_False by done|rewrite decide_True by done];
      rewrite ?m_value_add, ?(family_eq sessions_active), He by reflexivity.
    + change (zlen (A:=Handling * bool) []) with 0. lia.
    + rewrite decide_True by done. change (zlen [(h, false)]) with 1. lia.
  - by apply Forall_delete.
Qed.

Lemma gauges_run p m0 tr s :
  dispatch_run p (mkDispatching m0 []) tr s -> gauges_ok p m0 tr s.
Proof.
  induction 1 as [|tr s1 e s2 _ IH Hs].
  - unfold gauges_ok, failures. cbn. split_and!; [done|..|apply Forall_nil_2]; intros;
      change (count _ []) with 0 || change (zlen _) with 0; lia.
  - destruct Hs as [q s' E|i h ok s' Ei E]; [by eapply gauges_begin|by eapply gauges_end].
Qed.

(** The families nothing updates: whatever is dispatched, the metrics of the
    other five stay what they were. *)
Lemma unused_families_stay p (s s' : Dispatching M) tr f l :
  dispatch_run p s tr s' ->
  f ∈ [inbound_connections; sessions_closed; bytes_total; connect_latency; resp2_decode_errors] ->
  m_value (dp_metrics s') f l = m_value (dp_metrics s) f l.
Proof.
  intros Hr Hf.
  assert (forall (g : bytes) (ls : list (bytes * bytes)) (d : Z), g ∈ [sessions_opened; sessions_active; errors_total] ->
    (if decide (g = f /\ ls = l) then d else 0) = 0) as Hne.
  { intros g ls d Hg. apply family_eq, bool_decide_eq_false_2. intros ->. revert Hg Hf. clear.
    rewrite !elem_of_cons, !elem_of_nil. intros [->|[->|[->|[]]]] [|[|[|[|[|[]]]]]]; by vm_compute. }
  induction Hr as [|tr s1 e s2 _ IH Hs]; [done|]. rewrite <- IH. destruct Hs as [q s' E|i h ok s' Ei E].
  - unfold dispatch_begin in E. destruct (dispatch_to p q) as [[|tag k cfg]|st|]; cbn in E; [by injection E as <-| |done..].
    injection E as <-. cbn [dp_metrics]. rewrite !m_value_add, !Hne by set_solver. lia.
  - unfold dispatch_end in E. rewrite Ei in E. injection E as <-. cbn [dp_metrics].
    destruct ok; rewrite !m_value_add, !Hne by set_solver; lia.
Qed.
End DispatchFacts.

(** ** Properties *)

Section ServiceProperties.

(** An inbound stops: from the moment of [stop], wherever its accept loop is,
    at most one more client is served (one whose connection had been accepted
    already), and the loop can always run to its end. *)
Theorem accept_loop_stops a a' :
  rtc accept_step (accept_stop a) a' ->
  (ac_served a' <= ac_served a + 1)%nat /\ (ac_pc a <> Taken -> ac_served a' = ac_served a) /\
  exists a2, rtc accept_step a' a2 /\ ac_pc a2 = Ended.
Proof.
  intros Hr. destruct (accept_run_stopped _ _ Hr) as (Hs & Hn & Hle); [done|]. cbn in Hn, Hle.
  split; [|split].
  - unfold accept_due in Hn. cbn in Hn. destruct (ac_pc a), (ac_pc a'); cbn in Hn; lia.
  - intros Hp. unfold accept_due in Hn. cbn in Hn. destruct (ac_pc a), (ac_pc a'); cbn in Hn; congruence || lia.
  - by apply (accept_reaches_end (accept_left a')).
Qed.

(** One error of [async_accept] is enough, though: the loop ends, and serves
    nobody any more, while the inbound is neither stopped nor its listening
    socket closed. *)
Theorem accept_error_is_final a :
  rtc accept_step Acceptor_new a -> ac_pc a = Accepting -> ac_stopping a = false -> ac_open a = true ->
  exists a1, rtc accept_step a a1 /\ ac_pc a1 = Ended /\ ac_stopping a1 = false /\ ac_open a1 = true /\
    forall a2, rtc accept_step a1 a2 -> ac_pc a2 = Ended /\ ac_served a2 = ac_served a.
Proof.
  intros _ Hp Hs Ho. exists (mkAcceptor Ended (ac_stopping a) (ac_open a) (ac_served a)).
  split; [eapply rtc_l; [by apply as_error|]; by eapply rtc_once, as_resume|].
  split; [done|]. split; [done|]. split; [done|]. intros a2 Hr.
  assert (forall b, rtc accept_step b a2 -> ac_pc b = Ended -> ac_pc a2 = Ended /\ ac_served a2 = ac_served b) as Hend.
  { clear. induction 1 as [b|b1 b2 b3 Hstep _ IH]; [done|]. intros E.
    destruct Hstep as [b' Eb|Eb|Eb|]; [|by rewrite E in Eb..|by apply IH].
    unfold accept_resume in Eb. by rewrite E in Eb. }
  by apply (Hend _ Hr).
Qed.

(** C35. The gauges tell the truth.  Take any history of events, requests that
    arrive and handlers that return, each with its outcome.  The requests being
    handled are those the history gave to an outbound less those whose handler
    returned; the active gauge of an inbound and an outbound is the number of
    the former between them, the opened counter the number the history ever gave
    to that outbound from that inbound, and the error counter the number of
    handlers the history made return with a failure; every request being handled
    is with an outbound of the table, and no other family of the metrics moves. *)
Theorem dispatch_gauges `{RegexOps} {M : Type} `{MetricsSpec M} p (m0 : M) tr (s : Dispatching M) :
  dispatch_run p (mkDispatching m0 []) tr s ->
  (dp_running s ++ (fst <$> ended tr) ≡ₚ begun p tr) /\
  (forall l, m_value (dp_metrics s) sessions_active l = m_value m0 sessions_active l + count l (dp_running s)) /\
  (forall l, m_value (dp_metrics s) sessions_opened l = m_value m0 sessions_opened l + count l (begun p tr)) /\
  m_value (dp_metrics s) errors_total error_labels = m_value m0 errors_total error_labels + failures tr /\
  Forall (fun h => is_Some (obs p !! hd_tag h)) (dp_running s) /\
  (forall f l, f ∈ [inbound_connections; sessions_closed; bytes_total; connect_latency; resp2_decode_errors] ->
     m_value (dp_metrics s) f l = m_value m0 f l).
Proof.
  intros Hr. destruct (gauges_run p m0 tr s Hr) as (Hp & Ha & Ho & He & Hf).
  split_and!; [done..|]. intros f l Hin. by rewrite (unused_families_stay p _ s tr f l Hr Hin).
Qed.
End ServiceProperties.

(** ** Witnesses *)

Lemma accept_loop_stops_witness :
  let a := mkAcceptor Taken false true 7 in
  exists a', rtc accept_step (accept_stop a) a' /\ ac_served a' = 8%nat /\ (ac_served a' <= 8)%nat.
Proof.
  intros a. exists (mkAcceptor AtTest true false 8).
  assert (rtc accept_step (accept_stop a) (mkAcceptor AtTest true false 8)) as Hr
    by (by apply rtc_once, as_resume).
  split; [done|]. split; [done|]. by apply (accept_loop_stops a _ Hr).
Defined.

Lemma accept_error_is_final_witness :
  let a := mkAcceptor Accepting false true 0 in
  exists a1, rtc accept_step a a1 /\ ac_pc a1 = Ended /\ ac_open a1 = true.
Proof.
  intros a. destruct (accept_error_is_final a) as (a1 & Hr & He & _ & Ho & _).
  - by apply rtc_once, as_resume.
  - done.
  - done.
  - done.
  - by exists a1.
Defined.

#[local] Existing Instance sub_regex.

(** Two requests by the default route, one of which has failed. *)
Definition default_proxy : Proxy :=
  mkProxy {[lit "out" := (DirectOutbound, Socks5.sample_out [])]} (mkRouter [] (lit "out") None None) [] Logging_new (Scheduler.new 8 0) Exporter_new.
Definition one_request : Dispatching map_metrics :=
  match dispatch_begin default_proxy sample_request (mkDispatching ∅ []) with Ok s => s | _ => mkDispatching ∅ [] end.
Definition two_requests : Dispatching map_metrics :=
  match dispatch_begin default_proxy sample_request one_request with Ok s => s | _ => mkDispatching ∅ [] end.
Definition one_failed : Dispatching map_metrics := default two_requests (dispatch_end 0 false two_requests).

Definition failed_history : list DispatchEvent :=
  [Arrived sample_request; Arrived sample_request; Returned (mkHandling sample_request (lit "out")) false].

Lemma dispatch_gauges_witness :
  length (dp_running one_failed) = 1%nat /\
  m_value (dp_metrics one_failed) sessions_active (session_labels sample_request (lit "out")) = 1 /\
  m_value (dp_metrics one_failed) sessions_opened (session_labels sample_request (lit "out")) = 2 /\
  m_value (dp_metrics one_failed) errors_total error_labels = 1.
Proof.
  assert (dispatch_run default_proxy (mkDispatching ∅ []) failed_history one_failed) as Hr.
  { apply (dr_snoc _ _ [Arrived sample_request; Arrived sample_request] two_requests).
    - apply (dr_snoc _ _ [Arrived sample_request] one_request).
      + apply (dr_snoc _ _ [] (mkDispatching ∅ [])); [apply dr_nil|]. apply ds_begin. reflexivity.
      + apply ds_begin. reflexivity.
    - apply (ds_end _ _ 0); reflexivity. }
  split; [by vm_compute|].
  destruct (dispatch_gauges default_proxy ∅ failed_history one_failed Hr) as (_ & Ha & Ho & He & _).
  split; [rewrite Ha; by vm_compute|]. split; [rewrite Ho; by vm_compute|rewrite He; by vm_compute].
Defined.
