(* ===== verification/Shutdown.v ===== *)
(** * Shutdown (src/main.cpp after start-up, src/core/signal.cpp)

    The worker threads of the scheduler run the accept loops, the link pools and
    the coroutine that waits for a signal to shut down gracefully; the main
    thread waits for a signal of its own.  All of it interleaves: a step relation
    over the inbounds, the outbounds and the scheduler. *)
From S2P Require Import Prelude Absl Address Channel Config Link Request Socket Geo Router Socks5 ShinePool Logging Metrics Inbounds Outbounds Workers Startup Service.

Section Shutdown.
Context `{AbslOps, BoostIp} {C : Type -> Type} `{ChannelOps C}.

(** ** Inbounds and outbounds *)

Inductive InboundState :=
  | InPlain (a : Acceptor)                              (* socks5, http-connect *)
  | InShine (cfg : InboundConfig) (s : ShineInbound C).
Inductive OutboundState :=
  | OutPlain                                            (* IOutbound::stop() {} *)
  | OutShine (cfg : OutboundConfig) (s : ShineOutbound C).

Definition inbound_stop (i : InboundState) : InboundState :=
  match i with InPlain a => InPlain (accept_stop a) | InShine cfg s => InShine cfg (stop_inbound s) end.
Definition outbound_stop (o : OutboundState) : OutboundState :=
  match o with OutPlain => OutPlain | OutShine cfg s => OutShine cfg (ShinePool.stop s) end.

Inductive inbound_work : InboundState -> InboundState -> Prop :=
  | iw_plain a a' : accept_step a a' -> inbound_work (InPlain a) (InPlain a')
  | iw_shine cfg s s' : inbound_step cfg s s' -> inbound_work (InShine cfg s) (InShine cfg s').
Inductive outbound_work : OutboundState -> OutboundState -> Prop :=
  | ow_shine cfg s s' : pool_step cfg s s' -> outbound_work (OutShine cfg s) (OutShine cfg s').

(** ** The process *)

(** The main thread: in [main_ctx.run()]; the statements of the signal handler;
    in [sched.join()]; returned. *)
Inductive MainPc := MWait | MInbounds | MOutbounds | MExporter | MScheduler | MJoin | MExited (code : Z).

(** The coroutine in [waitForTermination]: waiting for a signal; in the timer,
    which expires at [until]; done. *)
Inductive Grace := GWait | GDrain (until : Z) | GOver.

Record Process := mkProcess {
  pr_in : list InboundState;
  pr_out : list OutboundState;
  pr_exporter : Exporter;
  pr_sched : Scheduler.t;
  pr_main : MainPc;
  pr_grace : Grace;
  pr_signal : bool;                 (* delivered to both signal sets *)
  pr_now : Z;
  pr_timeout : Z;                   (* graceful_timeout, in the unit of pr_now *)
}.

Definition main_step (s : Process) : option Process :=
  let next ins outs exporter sched pc :=
    Some (mkProcess ins outs exporter sched pc (pr_grace s) (pr_signal s) (pr_now s) (pr_timeout s)) in
  match pr_main s with
  | MWait => if pr_signal s then next (pr_in s) (pr_out s) (pr_exporter s) (pr_sched s) MInbounds else None
  | MInbounds => next (inbound_stop <$> pr_in s) (pr_out s) (pr_exporter s) (pr_sched s) MOutbounds
  | MOutbounds => next (pr_in s) (outbound_stop <$> pr_out s) (pr_exporter s) (pr_sched s) MExporter
  | MExporter => next (pr_in s) (pr_out s) (Exporter_stop (pr_exporter s)) (pr_sched s) MScheduler
  | MScheduler => next (pr_in s) (pr_out s) (pr_exporter s) (Scheduler.stop (pr_sched s)) MJoin
  | MJoin =>
      if Scheduler.joined (pr_sched s) then next (pr_in s) (pr_out s) (pr_exporter s) (pr_sched s) (MExited 0) else None
  | MExited _ => None
  end.

Definition grace_step (s : Process) : option Process :=
  match pr_grace s with
  | GWait =>
      if pr_signal s then
        Some (mkProcess (inbound_stop <$> pr_in s) (pr_out s) (pr_exporter s) (pr_sched s) (pr_main s)
                (GDrain (pr_now s + pr_timeout s)) (pr_signal s) (pr_now s) (pr_timeout s))
      else None
  | GDrain until =>
      if until <=? pr_now s then
        Some (mkProcess (pr_in s) (outbound_stop <$> pr_out s) (Exporter_stop (pr_exporter s)) (pr_sched s) (pr_main s)
                GOver (pr_signal s) (pr_now s) (pr_timeout s))
      else None
  | GOver => None
  end.

(** What runs on a worker needs one that has not returned. *)
Inductive process_step (s : Process) : Process -> Prop :=
  | pr_step_main s' : main_step s = Some s' -> process_step s s'
  | pr_step_grace s' : (0 < Scheduler.workers (pr_sched s))%nat -> grace_step s = Some s' -> process_step s s'
  | pr_step_inbound i x x' : (0 < Scheduler.workers (pr_sched s))%nat -> pr_in s !! i = Some x -> inbound_work x x' ->
      process_step s (mkProcess (<[i := x']> (pr_in s)) (pr_out s) (pr_exporter s) (pr_sched s) (pr_main s)
        (pr_grace s) (pr_signal s) (pr_now s) (pr_timeout s))
  | pr_step_outbound i x x' : (0 < Scheduler.workers (pr_sched s))%nat -> pr_out s !! i = Some x -> outbound_work x x' ->
      process_step s (mkProcess (pr_in s) (<[i := x']> (pr_out s)) (pr_exporter s) (pr_sched s) (pr_main s)
        (pr_grace s) (pr_signal s) (pr_now s) (pr_timeout s))
  | pr_step_worker sched :
      Scheduler.worker_exit (pr_sched s) = Some sched \/ Scheduler.worker_fails (pr_sched s) = Some sched ->
      process_step s (mkProcess (pr_in s) (pr_out s) (pr_exporter s) sched (pr_main s)
        (pr_grace s) (pr_signal s) (pr_now s) (pr_timeout s))
  | pr_step_signal :
      process_step s (mkProcess (pr_in s) (pr_out s) (pr_exporter s) (pr_sched s) (pr_main s)
        (pr_grace s) true (pr_now s) (pr_timeout s))
  | pr_step_time d : 0 <= d ->
      process_step s (mkProcess (pr_in s) (pr_out s) (pr_exporter s) (pr_sched s) (pr_main s)
        (pr_grace s) (pr_signal s) (pr_now s + d) (pr_timeout s)).

(** The process as [main] leaves start-up. *)
Definition Process_new (ins : list InboundState) (outs : list OutboundState) (exporter : Exporter)
    (sched : Scheduler.t) (timeout : Z) : Process :=
  mkProcess ins outs exporter sched MWait GWait false 0 timeout.

Definition inbound_state (e : InboundKind * InboundConfig * Endpoint) : InboundState :=
  match e with
  | (ShineInboundKind, cfg, _) => InShine cfg ShineInbound_new
  | _ => InPlain Acceptor_new
  end.
Definition outbound_state (e : OutboundKind * OutboundConfig) : OutboundState :=
  match e with
  | (ShineOutboundKind, cfg) => OutShine cfg (ShineOutbound_new cfg)
  | _ => OutPlain
  end.

(** ... and as it leaves the start-up of Startup.v; times are in seconds. *)
Definition process_of `{RegexOps} (c : Config) (p : Proxy) : Process :=
  Process_new (inbound_state <$> listening p) ((fun e => outbound_state (snd e)) <$> map_to_list (obs p)) (exporter p)
    (scheduler p) (graceful_timeout (server c)).

(** ** What has been stopped *)

Definition inbound_stopped (i : InboundState) : Prop :=
  match i with
  | InPlain a => accept_stopped a
  | InShine _ s => in_stopping s = true /\ acceptor_open s = false
  end.
Definition outbound_stopped (o : OutboundState) : Prop :=
  match o with OutPlain => True | OutShine _ s => stopping_ s = true end.

Lemma inbound_work_stopped i i' : inbound_work i i' -> inbound_stopped i -> inbound_stopped i'.
Proof.
  intros [a a' Hs|cfg s s' Hs]; cbn.
  - intros Ha. by destruct (accept_step_stopped a a' Hs Ha).
  - intros Ha. by destruct Hs.
Qed.

Lemma task_step_stopping cfg net now draws target is_udp has_client i (s s' : ShineOutbound C) :
  task_step cfg net now draws target is_udp has_client i s = Some s' -> stopping_ s' = stopping_ s.
Proof.
  unfold task_step. intros E. repeat (case_match; simplify_eq; try done).
Qed.

Lemma outbound_work_stopped o o' : outbound_work o o' -> outbound_stopped o -> outbound_stopped o'.
Proof.
  intros [cfg s s' Hs]. cbn. destruct Hs as [net now draws t u hc i s' E| | |]; try done. intros Hst.
  by rewrite (task_step_stopping _ _ _ _ _ _ _ _ _ _ E).
Qed.

Lemma inbounds_stop ins : Forall inbound_stopped (inbound_stop <$> ins).
Proof. apply Forall_fmap, Forall_true. by intros []. Qed.
Lemma outbounds_stop outs : Forall outbound_stopped (outbound_stop <$> outs).
Proof. apply Forall_fmap, Forall_true. by intros []. Qed.

(** How far the main thread's handler is, and what it has done by then. *)
Definition main_rank (pc : MainPc) : nat :=
  match pc with
  | MWait => 0 | MInbounds => 1 | MOutbounds => 2 | MExporter => 3 | MScheduler => 4 | MJoin => 5 | MExited _ => 6
  end.

Definition shut_ok (s : Process) : Prop :=
  let n := main_rank (pr_main s) in
  (1 <= n -> pr_signal s = true)%nat /\
  (2 <= n -> Forall inbound_stopped (pr_in s))%nat /\
  (3 <= n -> Forall outbound_stopped (pr_out s))%nat /\
  (4 <= n -> exposer_ (pr_exporter s) = None)%nat /\
  (5 <= n -> Scheduler.io_stopped (pr_sched s) = true)%nat /\
  match pr_main s with MExited code => code = 0 /\ Scheduler.workers (pr_sched s) = 0%nat | _ => True end.

Lemma scheduler_stop_stopped t :
  Scheduler.stopped_ t = Scheduler.io_stopped t ->
  Scheduler.stopped_ (Scheduler.stop t) = Scheduler.io_stopped (Scheduler.stop t) /\
  Scheduler.io_stopped (Scheduler.stop t) = true.
Proof. unfold Scheduler.stop. destruct (Scheduler.stopped_ t) eqn:E; [by rewrite E|done]. Qed.

(** Nothing but [stop] stops the io_context. *)
Definition sched_ok (s : Process) : Prop := Scheduler.stopped_ (pr_sched s) = Scheduler.io_stopped (pr_sched s).

Lemma worker_exit_fields t t' :
  Scheduler.worker_exit t = Some t' \/ Scheduler.worker_fails t = Some t' ->
  Scheduler.io_stopped t' = Scheduler.io_stopped t /\ Scheduler.stopped_ t' = Scheduler.stopped_ t /\
  (Scheduler.workers t = S (Scheduler.workers t')).
Proof.
  unfold Scheduler.worker_exit, Scheduler.worker_fails. destruct (Scheduler.workers t) as [|n] eqn:E; [by intros []|].
  intros [E1|[= <-]]; [|done]. destruct (Scheduler.io_stopped t) eqn:Ei; [|done]. by injection E1 as <-.
Qed.

Ltac stages :=
  repeat match goal with |- _ /\ _ => split end; intros; try done; try lia;
  try match goal with H : (_ <= _)%nat -> ?P |- ?P => apply H; lia end.

Lemma main_step_ok s s' : main_step s = Some s' -> sched_ok s -> shut_ok s -> sched_ok s' /\ shut_ok s'.
Proof.
  unfold main_step, sched_ok, shut_ok. intros E Hs (H1' & H2' & H3' & H4' & H5' & H6').
  destruct (pr_main s) eqn:Ep; cbn [main_rank] in *; try done.
  - destruct (pr_signal s) eqn:Esig; [|done]. injection E as <-. cbn. stages.
  - injection E as <-. cbn. stages. apply inbounds_stop.
  - injection E as <-. cbn. stages. apply outbounds_stop.
  - injection E as <-. cbn. stages.
  - injection E as <-. cbn. stages; by apply scheduler_stop_stopped.
  - unfold Scheduler.joined in E. case_bool_decide; [|done]. injection E as <-. cbn. stages.
Qed.

Lemma process_step_ok s s' : process_step s s' -> sched_ok s -> shut_ok s -> sched_ok s' /\ shut_ok s'.
Proof.
  intros Hst Hs Hok. pose proof Hok as (Q1 & Q2 & Q3 & Q4 & Q5 & Q6).
  destruct Hst as [s' E|s' Hw E|i x x' Hw Hi Hx|i x x' Hw Hi Hx|sched E| |d Hd].
  - by eapply main_step_ok.
  - assert (forall code, pr_main s <> MExited code) as Hrun.
    { intros code Hc. rewrite Hc in Q6. lia. }
    unfold grace_step in E. destruct (pr_grace s) as [|u|]; [|destruct (u <=? pr_now s)|]; try done;
      [destruct (pr_signal s); [|done]|]; injection E as <-; (split; [done|]); unfold shut_ok in *; cbn in *.
    + split; [done|]. split; [intros; apply inbounds_stop|done].
    + split; [done|]. split; [done|]. split; [intros; apply outbounds_stop|done].
  - split; [done|]. unfold shut_ok in *. cbn. split; [done|]. split; [|done].
    intros Hn. apply Forall_insert; [by apply Q2|]. eapply inbound_work_stopped; [done|].
    by eapply (Forall_lookup_1 _ _ _ _ (Q2 Hn)).
  - split; [done|]. unfold shut_ok in *. cbn. split; [done|]. split; [done|]. split; [|done].
    intros Hn. apply Forall_insert; [by apply Q3|]. eapply outbound_work_stopped; [done|].
    by eapply (Forall_lookup_1 _ _ _ _ (Q3 Hn)).
  - destruct (worker_exit_fields _ _ E) as (E1 & E2 & E3). unfold sched_ok, shut_ok in *. cbn.
    rewrite E1, E2. split; [done|]. repeat (split; [done|]). destruct (pr_main s); try done. lia.
  - split; [done|]. unfold shut_ok in *. cbn. by split.
  - by split.
Qed.

Lemma process_run_ok s0 s :
  rtc process_step s0 s -> sched_ok s0 -> shut_ok s0 -> sched_ok s /\ shut_ok s.
Proof.
  induction 1 as [s|s1 s2 s3 Hst _ IH]; [done|]. intros Hs Hok.
  destruct (process_step_ok s1 s2 Hst Hs Hok) as [Hs2 Hok2]. by apply IH.
Qed.

Lemma new_ok n hc io_threads ins outs exporter sched timeout :
  Scheduler.run n (Scheduler.new hc io_threads) = Some sched ->
  let s := Process_new ins outs exporter sched timeout in sched_ok s /\ shut_ok s.
Proof.
  intros (_ & _ & _ & Es & Ei)%scheduler_run_spec. split; [unfold sched_ok; cbn; congruence|].
  unfold shut_ok. cbn. by repeat (split; [intros; lia|]).
Qed.

(** Inbounds and outbounds stay the ones that were started. *)
Definition inbound_runs (ic : InboundConfig) (i : InboundState) : Prop :=
  match i with
  | InPlain _ => makeInbound ic = Ok Socks5Inbound \/ makeInbound ic = Ok HttpConnectInbound
  | InShine cfg _ => cfg = ic /\ makeInbound ic = Ok ShineInboundKind
  end.

Lemma inbound_runs_work ic i i' : inbound_work i i' -> inbound_runs ic i -> inbound_runs ic i'.
Proof. by destruct 1. Qed.
Lemma inbound_runs_stop ic i : inbound_runs ic i -> inbound_runs ic (inbound_stop i).
Proof. by destruct i. Qed.

Lemma process_run_inbounds ics s0 s :
  rtc process_step s0 s -> Forall2 inbound_runs ics (pr_in s0) ->
  Forall2 inbound_runs ics (pr_in s) /\ length (pr_out s) = length (pr_out s0).
Proof.
  induction 1 as [s|s1 s2 s3 Hst _ IH]; [done|]. intros Hf.
  assert (forall l, Forall2 inbound_runs ics l -> Forall2 inbound_runs ics (inbound_stop <$> l)) as Hstop.
  { intros l Hl. apply Forall2_fmap_r. eapply Forall2_impl; [exact Hl|]. intros ? ?. apply inbound_runs_stop. }
  assert (Forall2 inbound_runs ics (pr_in s2) /\ length (pr_out s2) = length (pr_out s1)) as [Hf2 <-]; [|by apply IH].
  destruct Hst as [s' E|s' Hw E|i x x' Hw Hi Hx|i x x' Hw Hi Hx|sched E| |d Hd]; cbn [pr_in pr_out]; try done.
  - unfold main_step in E. repeat case_match; try done; injection E as <-; cbn [pr_in pr_out]; rewrite ?length_fmap; auto.
  - unfold grace_step in E. repeat case_match; try done; injection E as <-; cbn [pr_in pr_out]; rewrite ?length_fmap; auto.
  - split; [|done]. rewrite <- (list_insert_id ics i (default default_inbound (ics !! i))).
    + apply Forall2_insert; [done|]. eapply inbound_runs_work; [done|].
      destruct (Forall2_lookup_r _ _ _ _ _ Hf Hi) as (ic & -> & Hr). done.
    + by destruct (Forall2_lookup_r _ _ _ _ _ Hf Hi) as (ic & -> & _).
  - split; [done|]. by rewrite length_insert.
Qed.

Lemma started_inbounds sys ics rs :
  Forall2 (inbound_started sys) ics rs -> Forall2 inbound_runs ics (inbound_state <$> rs).
Proof.
  intros Hf. apply Forall2_fmap_r. eapply Forall2_impl; [exact Hf|]. intros ic [[k cfg] ep] (-> & Hk & _).
  destruct k; cbn; auto.
Qed.

End Shutdown.

Section ShutdownProgress.
Context `{AbslOps, BoostIp} {C : Type -> Type} `{ChannelOps C}.
Implicit Types s : Process (C := C).

(** Past the scheduler's stop only the workers are waited for. *)
Lemma join_exits n : forall s,
  Scheduler.workers (pr_sched s) = n -> Scheduler.io_stopped (pr_sched s) = true -> pr_main s = MJoin ->
  exists s', rtc process_step s s' /\ pr_main s' = MExited 0 /\ pr_now s' = pr_now s /\ pr_grace s' = pr_grace s.
Proof.
  induction n as [|n IH]; intros s Hw Hi Hp.
  - eexists. split; [apply rtc_once, pr_step_main; unfold main_step; rewrite Hp; unfold Scheduler.joined;
      rewrite bool_decide_eq_true_2 by done; reflexivity|]. done.
  - set (t := Scheduler.mk (Scheduler.n_threads (pr_sched s)) n (Scheduler.guard_ (pr_sched s)) true
                (Scheduler.stopped_ (pr_sched s))).
    assert (Scheduler.worker_exit (pr_sched s) = Some t) as E by (unfold Scheduler.worker_exit; by rewrite Hw, Hi).
    edestruct (IH (mkProcess (pr_in s) (pr_out s) (pr_exporter s) t (pr_main s) (pr_grace s) (pr_signal s)
      (pr_now s) (pr_timeout s))) as (s' & Hr & Hx); [done|done|done|].
    exists s'. split; [|done]. eapply rtc_l; [by apply pr_step_worker; left|done].
Qed.

Lemma handler_exits n : forall s,
  sched_ok s -> shut_ok s -> pr_signal s = true -> (main_rank (pr_main s) + n = 5)%nat ->
  exists s', rtc process_step s s' /\ pr_main s' = MExited 0 /\ pr_now s' = pr_now s /\ pr_grace s' = pr_grace s.
Proof.
  induction n as [|n IH]; intros s Hs Hok Hsig Hn.
  - destruct (pr_main s) eqn:Ep; cbn in Hn; try lia. apply (join_exits (Scheduler.workers (pr_sched s))); [done| |done].
    destruct Hok as (_ & _ & _ & _ & Q & _). apply Q. rewrite Ep. cbn. lia.
  - assert (exists s1, main_step s = Some s1 /\ (main_rank (pr_main s1) + n = 5)%nat /\ pr_signal s1 = true /\
      pr_now s1 = pr_now s /\ pr_grace s1 = pr_grace s) as (s1 & E & Hn1 & Hsig1 & Et & Eg).
    { unfold main_step. rewrite Hsig. destruct (pr_main s); cbn in Hn; try lia; eexists; (split; [done|]); cbn; by repeat split; lia || done. }
    destruct (main_step_ok s s1 E Hs Hok) as [Hs1 Hok1].
    destruct (IH s1 Hs1 Hok1 Hsig1 Hn1) as (s' & Hr & Hx & Et' & Eg').
    exists s'. split; [eapply rtc_l; [by apply pr_step_main|done]|]. split; [done|]. split; congruence.
Qed.
End ShutdownProgress.

(** ** Properties *)

Section ShutdownProperties.
Context `{AbslOps, !AbslSpec, BoostIp, !BoostIpSpec, MakeAddress, !MakeAddressSpec, RegexOps, DoubleOps, YamlOps, AsciiLower} {C : Type -> Type} `{ChannelOps C}.

(** C40. The process exits cleanly: a proxy that [main] started from a
    configuration, however threads, coroutines and signals interleave from there,
    returns only 0, after a signal, with every configured inbound still the one
    that was started and its acceptor closed, every outbound of the table
    stopped, the exporter off and no worker left. *)
Theorem exit_is_clean host argv c p (s : Process (C := C)) code :
  main host argv = Running p -> runs host c p ->
  rtc process_step (process_of c p) s -> pr_main s = MExited code ->
  code = 0 /\ pr_signal s = true /\
  Forall2 inbound_runs (inbounds c) (pr_in s) /\ Forall inbound_stopped (pr_in s) /\
  length (pr_out s) = size (obs p) /\ Forall outbound_stopped (pr_out s) /\
  exposer_ (pr_exporter s) = None /\ Scheduler.workers (pr_sched s) = 0%nat.
Proof.
  intros _ (_ & _ & _ & _ & Hins & _ & Hsched & _) Hr Hp. unfold process_of in Hr.
  destruct (process_run_inbounds (inbounds c) _ s Hr) as [Hin Hout]; [by apply (started_inbounds (sockets host))|].
  destruct (process_run_ok _ _ Hr) as (_ & Q1 & Q2 & Q3 & Q4 & _ & Q6); [by eapply new_ok..|].
  rewrite Hp in *. cbn [main_rank] in *. cbn [pr_out Process_new] in Hout. rewrite length_fmap, length_map_to_list in Hout.
  destruct Q6 as [-> Hw]. split; [done|]. split; [apply Q1; lia|]. split; [done|]. split; [apply Q2; lia|].
  split; [done|]. split; [apply Q3; lia|]. split; [apply Q4; lia|done].
Qed.

(** The graceful period is not one: as soon as the signal is there, and
    wherever the main thread and the graceful coroutine are, the process can
    run to its exit without any time passing, whatever [graceful_timeout] is;
    it stops the outbounds and the workers without waiting for the coroutine
    that counts that period. *)
Theorem exit_does_not_wait n hc io_threads ins outs exporter sched timeout (s : Process (C := C)) :
  Scheduler.run n (Scheduler.new hc io_threads) = Some sched ->
  rtc process_step (Process_new ins outs exporter sched timeout) s -> pr_signal s = true ->
  exists s', rtc process_step s s' /\ pr_main s' = MExited 0 /\ pr_now s' = pr_now s /\ pr_grace s' = pr_grace s.
Proof.
  intros Hrun Hr Hsig. destruct (new_ok n hc io_threads ins outs exporter sched timeout Hrun) as [Hs0 H0'].
  destruct (process_run_ok _ _ Hr Hs0 H0') as [Hs Hok].
  destruct (decide (main_rank (pr_main s) = 6)%nat) as [E|Hn].
  - exists s. split; [done|]. destruct Hok as (_ & _ & _ & _ & _ & Q). destruct (pr_main s); cbn in E; try lia.
    by destruct Q as [-> _].
  - apply (handler_exits (5 - main_rank (pr_main s))); [done..|]. destruct (pr_main s); cbn in *; lia.
Qed.
End ShutdownProperties.

(** ** Witnesses *)

#[local] Existing Instance reference_absl.
#[local] Existing Instance full_form_boost.
#[local] Existing Instance reference_make_address.
#[local] Existing Instance reference_make_address_spec.
#[local] Existing Instance sub_regex.
#[local] Existing Instance integer_double.
#[local] Existing Instance sample_yaml.

Definition sample_config : Config := match loadFromString [] with Ok c => c | _ => mkConfig (mkLog [] []) (mkServer 0 0) (mkMetrics [] []) [] [] (mkRoute [] [] [] []) end.
Definition sample_proxy : Proxy :=
  match main sample_host sample_argv with Running p => p | _ => mkProxy ∅ (mkRouter [] [] None None) [] Logging_new (Scheduler.new 8 0) Exporter_new end.

Lemma sample_main : main sample_host sample_argv = Running sample_proxy.
Proof.
  assert (match main sample_host sample_argv with Running _ => true | _ => false end = true) as E by (by vm_compute).
  unfold sample_proxy. by destruct (main sample_host sample_argv).
Qed.
Lemma sample_runs : runs sample_host sample_config sample_proxy.
Proof.
  destruct (main_running _ _ _ sample_main) as (path & c & _ & Hl & Hr). unfold loadFromFile, sample_host in Hl. cbn [read_file] in Hl.
  unfold sample_config. by rewrite Hl.
Qed.

Lemma sample_sched :
  Scheduler.run (spawnable sample_host) (Scheduler.new (cores sample_host) (io_threads (server sample_config)))
  = Some (scheduler sample_proxy).
Proof. by destruct sample_runs as (_ & _ & _ & _ & _ & _ & Hs & _). Qed.

Definition sample_process : Process (C := fifo) := process_of sample_config sample_proxy.
Definition signalled : Process (C := fifo) :=
  mkProcess (pr_in sample_process) (pr_out sample_process) (pr_exporter sample_process) (pr_sched sample_process)
    (pr_main sample_process) (pr_grace sample_process) true (pr_now sample_process) (pr_timeout sample_process).
Lemma sample_signalled : rtc process_step sample_process signalled.
Proof. apply rtc_once, (pr_step_signal sample_process). Qed.

Lemma exit_does_not_wait_witness :
  exists s', rtc process_step sample_process s' /\ pr_main s' = MExited 0 /\ pr_now s' = 0.
Proof.
  destruct (exit_does_not_wait _ _ _ _ _ _ _ _ signalled sample_sched sample_signalled) as (s' & Hr' & Hp & Ht & _); [done|].
  exists s'. split; [by etrans; [apply sample_signalled|]|]. split; [done|]. exact Ht.
Defined.

(** The main thread's handler to its end. *)
Lemma exit_is_clean_witness :
  exists s, rtc process_step sample_process s /\ pr_main s = MExited 0 /\ pr_in s <> [] /\ Forall inbound_stopped (pr_in s).
Proof.
  destruct (exit_does_not_wait _ _ _ _ _ _ _ _ signalled sample_sched sample_signalled) as (s & Hr & Hp & _); [done|].
  assert (rtc process_step sample_process s) as Hrun by (by etrans; [apply sample_signalled|]).
  destruct (exit_is_clean sample_host sample_argv sample_config sample_proxy s 0 sample_main sample_runs Hrun Hp)
    as (_ & _ & Hin & Hs & _).
  exists s. split; [done|]. split; [done|]. split; [|done]. intros E. rewrite E in Hin. by apply Forall2_nil_inv_r in Hin.
Defined.
