(* ===== verification/UnitTests.v ===== *)
(** * The unit tests of the repository, run on the model (tests/)

    Every test of tests/*.cpp as an [Example] on the same input with the same
    expectations, evaluated by the kernel: evidence that the definitions are
    those of the code, beside the theorems about all inputs. *)
From S2P Require Import Prelude Absl Buffer Resp2 ShineFrame Address Request Config Geo Router.
From Stdlib Require Import Strings.Byte.

#[local] Existing Instance reference_absl.
#[local] Existing Instance reference_make_address.
#[local] Existing Instance sub_regex.

(** A string literal of the tests, in which a bar stands for CR LF. *)
Definition text (s : string) : bytes := mjoin ((fun b => if decide (b = "|"%byte) then CRLF else [b]) <$> lit s).

(** [push] on a new [ReadBuffer], then [tryParse] and [decodeShineFrame]. *)
Definition pushed (s : bytes) : res ReadBuffer :=
  rb_fill s (ensure_writable (zlen s) (ReadBuffer_new kInitialCapacity)).
Definition parse_pushed (max_bulk : Z) (s : bytes) : res (Z * Resp2Frame) :=
  rb ← pushed s; tryParse max_bulk rb Resp2Monostate.
Definition decode_pushed (s : bytes) : res (ShineFrame bytes) :=
  rb ← pushed s;
  n_rf ← tryParse kMaxBulkLen rb Resp2Monostate;
  f ← decodeShineFrame (buf_ rb) (snd n_rf);
  Ok (resolve (buf_ rb) f).

(** ** resp2_test.cpp *)

Example Resp2_ParseArray :
  parse_pushed kMaxBulkLen (text "*3|$5|HELLO|$1|1|$3|mux|") =
    Ok (31, Resp2ArrayFrame [lit "HELLO"; lit "1"; lit "mux"]).
Proof. vm_compute. reflexivity. Qed.

Example Resp2_PartialReturnsZero :
  parse_pushed kMaxBulkLen (text "*2|$5|HELLO|$3" ++ [x0d]) = Ok (0, Resp2Monostate).
Proof. vm_compute. reflexivity. Qed.

Example Resp2_ParseBulkBinary :
  parse_pushed kMaxBulkLen (text "$11|" ++ (xd1 :: replicate 7 x00 ++ [x01]) ++ text "ab|") =
    Ok (18, Resp2BulkFrame (mkBulkView 5 11)).
Proof. vm_compute. reflexivity. Qed.

Example Resp2_MaxBulk :
  match parse_pushed 100 (text "$200|") with Err _ => True | _ => False end.
Proof. vm_compute. exact I. Qed.

Example Resp2_WriteRoundTrip :
  Resp2Writer.writeArray [] [lit "HELLO"; lit "1"; lit "mux"] = text "*3|$5|HELLO|$1|1|$3|mux|".
Proof. vm_compute. reflexivity. Qed.

(** ** shine_frame_test.cpp and flow_control_test.cpp *)

Definition frames_of_tests : list (ShineFrame bytes) :=
  [NewFrame 0xdeadbeefcafebabe ([x03; x04] ++ lit "test" ++ [x01; xbb]) 262144;
   DataFrame 0x1122334455667788 (lit "hello world");
   PingFrame 0x1234567890abcdef;
   NewUdpFrame 0xabcdef1234567890;
   UdpDataFrame 0x9988776655443322 [x01; x08; x08; x08; x08; x00; x35] (lit "dns_query_bytes")].

(** NewRoundtrip, DataRoundtrip, PingPongRoundtrip, NewUdpRoundtrip and
    UdpDataRoundtrip. *)
Example ShineFrame_Roundtrips : decode_pushed ∘ encodeFrame [] <$> frames_of_tests = Ok <$> frames_of_tests.
Proof. vm_compute. reflexivity. Qed.

Example FlowControl_BEIntRoundtrip :
  zlen (putU64BE [] 0x0102030405060708) = 8 /\
  readU64BE (putU64BE [] 0x0102030405060708) = Some 0x0102030405060708 /\
  readU32BE (putU32BE [] 0xAABBCCDD) = Some 0xAABBCCDD.
Proof. vm_compute. done. Qed.

Example FlowControl_WindowFrame : take 4 (encodeWindow [] 0x1234567890abcdef 65536) = text "*3|".
Proof. vm_compute. reflexivity. Qed.

(** ** address_test.cpp *)

Section AddressTests.

(** Boost reads the one IPv6 literal of the tests. *)
Definition v6_of_test : bytes := [x20; x01; x0d; xb8] ++ replicate 11 x00 ++ [x01].
Definition test_boost : BoostIp := {|
  make_address_v6 s := if decide (s = lit "2001:db8::1") then Some v6_of_test else None;
  v6_to_string _ := lit "2001:db8::1";
|}.
#[local] Existing Instance test_boost.

(** What a test looks at in a value it asserts to be [ok()]. *)
Definition observe {A B} (f : A -> B) (r : res A) : option B := match r with Ok a => Some (f a) | _ => None end.

Example Address_ParseHostPortV4 :
  observe (fun a => (type_ a, port_ a, toString a)) (parseHostPort (lit "192.168.1.1:80")) = Some (IPv4, 80, lit "192.168.1.1:80").
Proof. vm_compute. reflexivity. Qed.

Example Address_ParseHostPortV6 :
  observe (fun a => (type_ a, port_ a)) (parseHostPort (lit "[2001:db8::1]:443")) = Some (IPv6, 443).
Proof. vm_compute. reflexivity. Qed.

Example Address_ParseHostPortDomain :
  observe (fun a => (type_ a, domain_ a, port_ a)) (parseHostPort (lit "example.com:443")) = Some (Domain, lit "example.com", 443).
Proof. vm_compute. reflexivity. Qed.

Example Address_BinaryRoundtrip :
  let a := fromDomain (lit "example.com") 443 in observe toString (parseBinary (toBinary a)) = Some (toString a).
Proof. vm_compute. reflexivity. Qed.

Example Address_BinaryIPv6 :
  let bin := toBinary (fromIPv6 ([x20; x01] ++ replicate 13 x00 ++ [x01]) 8080) in
  take 2 bin = [x02; x10] /\ observe port_ (parseBinary bin) = Some 8080.
Proof. split; vm_compute; reflexivity. Qed.
End AddressTests.

(** ** route_test.cpp *)

Definition makeReq (inbound : string) (t : Address) : Request := mkRequest (lit inbound) [] TCP t.

(** [compile], then one [pick] per request. *)
Definition route_picks (sites : list GeoSite) (ips : list GeoIp.GeoIP) (cfg : RouteConfig) (qs : list Request) : res (list (res bytes)) :=
  rt ← compile (fun _ => Some sites) (fun _ => Some ips) cfg; Ok (pick rt <$> qs).

Example Router_DomainSuffix :
  route_picks [] [] (mkRoute [] [] [mkRule None [] [lit ".cn"] [] [] [] (lit "direct")] (lit "us"))
    [makeReq "in" (fromDomain (lit "weibo.cn") 80); makeReq "in" (fromDomain (lit "example.com") 80)]
  = Ok [Ok (lit "direct"); Ok (lit "us")].
Proof. vm_compute. reflexivity. Qed.

Example Router_InboundTagRule :
  route_picks [] [] (mkRoute [] [] [mkRule (Some (lit "shine-in")) [] [] [] [] [] (lit "direct")] (lit "us"))
    [makeReq "shine-in" (fromDomain (lit "any.com") 80); makeReq "s5" (fromDomain (lit "any.com") 80)]
  = Ok [Ok (lit "direct"); Ok (lit "us")].
Proof. vm_compute. reflexivity. Qed.

Example Router_CidrV4 :
  route_picks [] [] (mkRoute [] [] [mkRule None [] [] [lit "127.0.0.0/8"; lit "10.0.0.0/8"] [] [] (lit "direct")] (lit "us"))
    [makeReq "in" (fromIPv4 [x7f; x00; x00; x01] 80); makeReq "in" (fromIPv4 [x08; x08; x08; x08] 80)]
  = Ok [Ok (lit "direct"); Ok (lit "us")].
Proof. vm_compute. reflexivity. Qed.

(** The two .dat files of the test, decoded. *)
Definition geosite_dat : list GeoSite :=
  [mkGeoSite (lit "cn") [mkDomain Full (lit "bilibili.com"); mkDomain RootDomain (lit "qq.com")]].
Definition geoip_dat : list GeoIp.GeoIP := [GeoIp.mkGeoIP (lit "cn") [GeoIp.mkCIDR [x01; x02; x03; x00] 24]].

Example Router_GeoSiteAndGeoIp :
  route_picks geosite_dat geoip_dat
    (mkRoute (lit "geoip.dat") (lit "geosite.dat")
       [mkRule None [] [] [] [] [lit "cn"] (lit "direct"); mkRule None [] [] [] [lit "cn"] [] (lit "block")] (lit "proxy"))
    [makeReq "in" (fromDomain (lit "bilibili.com") 80); makeReq "in" (fromDomain (lit "www.qq.com") 80);
     makeReq "in" (fromIPv4 [x01; x02; x03; x64] 80); makeReq "in" (fromDomain (lit "google.com") 80);
     makeReq "in" (fromIPv4 [x08; x08; x08; x08] 80)]
  = Ok [Ok (lit "direct"); Ok (lit "direct"); Ok (lit "block"); Ok (lit "proxy"); Ok (lit "proxy")].
Proof. vm_compute. reflexivity. Qed.
